(** * kache-action: cache key, event statistics and reports

    A shallow embedding of [src/utils.js], [src/save.js] and
    [src/setup.js] of the kache GitHub Action, with the properties its
    specification states and further properties of the code.

    Conventions of the embedding.
    - A JavaScript string is a [string]: a sequence of code units, each
      below 256; text with other characters is outside the embedding.
    - An integer-valued JavaScript number is a [Z]; a quotient is the
      binary64 value that [/] computes, a [spec_float] of the Standard
      Library at precision 53 and maximal exponent 1024.
    - [undefined] and [null] property values are [None].
    - Code with effects (the log, the GitHub API, the step summary) runs in
      the state-and-exception monad [M] over a [world].
    - The setup step, which also downloads, installs and exports, runs in
      the same kind of monad, [Job], over a [runner]: a world, the tools of
      the machine, and the effects of the step in their order. *)

From Stdlib Require Import ZArith List String Ascii Bool Lia.
From Stdlib Require Import Permutation Sorted.
From Stdlib Require Import SpecFloat DecimalString OrderedTypeEx.
From Stdlib Require DecimalN DecimalPos.
Import ListNotations.

Open Scope string_scope.
Open Scope Z_scope.

(** ** JavaScript built-ins used by the action *)

Module JS.

(** *** Strings *)

(** White space as [String.prototype.trim] sees it, on the code units
    below 256: TAB, LF, VT, FF, CR, SP and NBSP. *)
Definition is_space (c : ascii) : bool :=
  let n := nat_of_ascii c in
  ((9 <=? n) && (n <=? 13))%nat || (n =? 32)%nat || (n =? 160)%nat.

Fixpoint trimStart (s : string) : string :=
  match s with
  | String c t => if is_space c then trimStart t else s
  | EmptyString => EmptyString
  end.

(** [trimEnd] keeps a character when it is not white space or when
    something remains after it. *)
Fixpoint trimEnd (s : string) : string :=
  match s with
  | String c t =>
      match trimEnd t with
      | EmptyString => if is_space c then EmptyString else String c EmptyString
      | t' => String c t'
      end
  | EmptyString => EmptyString
  end.

Definition trim (s : string) : string := trimEnd (trimStart s).

(** [s.split(sep)] for a one-character separator: never the empty list. *)
Fixpoint split (sep : ascii) (s : string) : list string :=
  match s with
  | EmptyString => [EmptyString]
  | String c t =>
      if Ascii.eqb c sep then EmptyString :: split sep t
      else match split sep t with
           | w :: ws => String c w :: ws
           | [] => [String c EmptyString]
           end
  end.

(** [hay.includes(needle)] *)
Fixpoint includes (needle hay : string) : bool :=
  prefix needle hay ||
  match hay with
  | String _ t => includes needle t
  | EmptyString => false
  end.

(** [s.slice(0, n)] *)
Definition slice0 (n : nat) (s : string) : string := substring 0 n s.

(** [s.repeat(n)] *)
Fixpoint repeat (s : string) (n : nat) : string :=
  match n with
  | O => EmptyString
  | S k => s ++ repeat s k
  end.

(** [parts.join(sep)] *)
Definition join (sep : string) (parts : list string) : string :=
  String.concat sep parts.

Definition LF : ascii := ascii_of_nat 10.
Definition nl : string := String LF EmptyString.

(** *** Numbers *)

Definition prec : Z := 53.
Definition emax : Z := 1024.

Definition float := spec_float.

(** The binary64 value nearest to an integer (ties to even). *)
Definition ofZ (z : Z) : float := binary_normalize prec emax z 0 false.

Definition div (x y : float) : float := SFdiv prec emax x y.
Definition mul (x y : float) : float := SFmul prec emax x y.

(** Decimal digits of a natural number, without sign. *)
Definition digits (n : Z) : string :=
  NilZero.string_of_uint (N.to_uint (Z.to_N n)).

(** Number of decimal digits of a positive integer, by bounded search. *)
Fixpoint ndigits_aux (fuel : nat) (n : Z) : Z :=
  match fuel with
  | O => 0
  | S k => if n <? 10 then 1 else 1 + ndigits_aux k (n / 10)
  end.
Definition ndigits (n : Z) : Z := ndigits_aux (S (Z.to_nat (Z.log2 n))) n.

(** Shortest decimal significand [s] with [k] digits such that
    [s * 10^(d-k)] converts to the double [x], whose exact value is the
    integer [X] of [d] digits; among two candidates the nearer one. *)
Definition shortest_at (x : float) (X d k : Z) : option Z :=
  let p := 10 ^ (d - k) in
  let lo := X / p in
  let hi := lo + 1 in
  let oklo := SFeqb (ofZ (lo * p)) x in
  let okhi := SFeqb (ofZ (hi * p)) x in
  match oklo, okhi with
  | true, true =>
      if X - lo * p <? hi * p - X then Some lo
      else if hi * p - X <? X - lo * p then Some hi
      else if Z.even lo then Some lo else Some hi
  | true, false => Some lo
  | false, true => Some hi
  | false, false => None
  end.

Fixpoint shortest_from (fuel : nat) (x : float) (X d k : Z) : Z * Z :=
  match fuel with
  | O => (X, d)
  | S f =>
      if d <? k then (X, d)
      else match shortest_at x X d k with
           | Some s => (s, k)
           | None => shortest_from f x X d (k + 1)
           end
  end.

(** Exponent notation of [Number::toString] for an integer-valued
    double of value [X >= 10^21]: [d.ddd] followed by [e+n]. *)
Definition exponent_notation (x : float) (X : Z) : string :=
  let d := ndigits X in
  let '(s, k) := shortest_from 17 x X d 1 in
  (* a significand that reached 10^k stands for 1 and one more digit *)
  let '(s, n) := if s =? 10 ^ k then (1, d + 1) else (s, d) in
  match digits s with
  | String c EmptyString => String c EmptyString ++ "e+" ++ digits (n - 1)
  | String c rest => String c ("." ++ rest) ++ "e+" ++ digits (n - 1)
  | EmptyString => EmptyString
  end.

(** [x.toFixed(1)]: the integer [n] nearest to [10 * |x|], the larger one
    on a tie, printed with a point before its last digit; exponent
    notation from [10^21] on; the names of the values that are not
    finite. *)
Definition tenths (m : positive) (e : Z) : Z :=
  if 0 <=? e then 10 * Zpos m * 2 ^ e
  else (2 * (10 * Zpos m) + 2 ^ (- e)) / (2 * 2 ^ (- e)).

Definition fixed1 (n : Z) : string :=
  digits (n / 10) ++ "." ++ digits (n mod 10).

Definition toFixed1 (x : float) : string :=
  match x with
  | S754_nan => "NaN"
  | S754_infinity false => "Infinity"
  | S754_infinity true => "-Infinity"
  | S754_zero _ => "0.0"
  | S754_finite s m e =>
      let sign := if s then "-" else "" in
      if (0 <=? e) && (10 ^ 21 <=? Zpos m * 2 ^ e)
      then sign ++ exponent_notation (S754_finite false m e) (Zpos m * 2 ^ e)
      else sign ++ fixed1 (tenths m e)
  end.

(** [String(x)] for an integer [z] (template literals [`${z}`]). *)
Definition toString (z : Z) : string :=
  let x := ofZ z in
  match x with
  | S754_finite s m e =>
      let sign := if s then "-" else "" in
      if 0 <=? e then
        let X := Zpos m * 2 ^ e in
        if 10 ^ 21 <=? X then sign ++ exponent_notation (S754_finite false m e) X
        else sign ++ digits X
      else sign ++ digits (Z.abs z)
  | S754_zero _ => "0"
  | S754_infinity false => "Infinity"
  | S754_infinity true => "-Infinity"
  | S754_nan => "NaN"
  end.

(** [parseInt(s, 10)]: leading white space, a sign, then the longest run
    of decimal digits; [None] is NaN.  The result is the integer that the
    digits write, which is the number of the code up to 2^53 (beyond, the
    code has the nearest double). *)
Definition digit_of (c : ascii) : option Z :=
  let n := nat_of_ascii c in
  if ((48 <=? n) && (n <=? 57))%nat then Some (Z.of_nat (n - 48)) else None.

Fixpoint parse_digits (s : string) (acc : option Z) : option Z :=
  match s with
  | String c t =>
      match digit_of c with
      | Some d =>
          parse_digits t (Some (10 * match acc with Some a => a | None => 0 end + d))
      | None => acc
      end
  | EmptyString => acc
  end.

Definition parseInt (s : string) : option Z :=
  match trimStart s with
  | String "-" t => option_map Z.opp (parse_digits t None)
  | String "+" t => parse_digits t None
  | t => parse_digits t None
  end.

(** *** Arrays *)

(** [arr.sort(cmp)]: the sort is stable (ECMAScript 2019); an element goes
    before the first later element it does not have to follow. *)
Fixpoint insert {A : Type} (cmp : A -> A -> Z) (x : A) (l : list A) : list A :=
  match l with
  | [] => [x]
  | y :: t => if cmp x y <=? 0 then x :: l else y :: insert cmp x t
  end.

Definition sort {A : Type} (cmp : A -> A -> Z) (l : list A) : list A :=
  fold_right (insert cmp) [] l.

(** The default comparison of [arr.sort()]: strings by code units. *)
Definition compare_strings (a b : string) : Z :=
  match String.compare a b with
  | Lt => -1
  | Eq => 0
  | Gt => 1
  end.

(** A string is truthy when it is not empty, a number when it is not 0. *)
Definition truthy_string (s : string) : bool := negb (s =? "")%string.
Definition truthy_number (z : Z) : bool := negb (z =? 0).

End JS.

(** ** SHA-256 ([crypto.createHash("sha256")]), after FIPS 180-4 *)

Module Sha256.

Definition w32 (x : Z) : Z := x mod 2 ^ 32.
Definition rotr (n x : Z) : Z :=
  Z.lor (Z.shiftr x n) (w32 (Z.shiftl x (32 - n))).
Definition lnot32 (x : Z) : Z := 2 ^ 32 - 1 - x.

Definition Ch (x y z : Z) : Z := Z.lxor (Z.land x y) (Z.land (lnot32 x) z).
Definition Maj (x y z : Z) : Z :=
  Z.lxor (Z.lxor (Z.land x y) (Z.land x z)) (Z.land y z).
Definition Sigma0 (x : Z) : Z := Z.lxor (Z.lxor (rotr 2 x) (rotr 13 x)) (rotr 22 x).
Definition Sigma1 (x : Z) : Z := Z.lxor (Z.lxor (rotr 6 x) (rotr 11 x)) (rotr 25 x).
Definition sigma0 (x : Z) : Z := Z.lxor (Z.lxor (rotr 7 x) (rotr 18 x)) (Z.shiftr x 3).
Definition sigma1 (x : Z) : Z := Z.lxor (Z.lxor (rotr 17 x) (rotr 19 x)) (Z.shiftr x 10).

(** The constants: the first 32 bits of the fractional parts of the cube
    roots (for [K]) and of the square roots (for [H0]) of the first primes. *)
Definition primes : list Z :=
  [2; 3; 5; 7; 11; 13; 17; 19; 23; 29; 31; 37; 41; 43; 47; 53; 59; 61; 67; 71;
   73; 79; 83; 89; 97; 101; 103; 107; 109; 113; 127; 131; 137; 139; 149; 151;
   157; 163; 167; 173; 179; 181; 191; 193; 197; 199; 211; 223; 227; 229; 233;
   239; 241; 251; 257; 263; 269; 271; 277; 281; 283; 293; 307; 311].

(** The integer cube root, one bit after the other from bit [n - 1] down. *)
Fixpoint cbrt_bits (n : nat) (x r : Z) : Z :=
  match n with
  | O => r
  | S k =>
      let r' := r + 2 ^ Z.of_nat k in
      cbrt_bits k x (if r' * r' * r' <=? x then r' else r)
  end.

Definition K : list Z :=
  map (fun p => w32 (cbrt_bits 36 (p * 2 ^ 96) 0)) primes.

Definition H0 : list Z :=
  map (fun p => w32 (Z.sqrt (p * 2 ^ 64))) (firstn 8 primes).

(** Padding: the bit 1, zeros up to 56 modulo 64 bytes, then the length
    in bits on 8 bytes, most significant first. *)
Fixpoint be_bytes (n : nat) (x : Z) : list Z :=
  match n with
  | O => []
  | S k => (x / 256 ^ Z.of_nat k) mod 256 :: be_bytes k x
  end.

Definition pad (msg : list Z) : list Z :=
  let len := Z.of_nat (List.length msg) in
  let zeros := Z.to_nat ((55 - len) mod 64) in
  msg ++ [128] ++ List.repeat 0 zeros ++ be_bytes 8 (8 * len).

Fixpoint be_words (fuel : nat) (bs : list Z) : list Z :=
  match fuel, bs with
  | S f, a :: b :: c :: d :: rest =>
      (((a * 256 + b) * 256 + c) * 256 + d) :: be_words f rest
  | _, _ => []
  end.

(** Message schedule: the 16 words of the block extended to 64. *)
Fixpoint extend (n : nat) (w : list Z) : list Z :=
  match n with
  | O => w
  | S k =>
      let t := List.length w in
      let at_ (i : nat) := nth (t - i) w 0 in
      extend k (w ++ [w32 (sigma1 (at_ 2%nat) + at_ 7%nat
                           + sigma0 (at_ 15%nat) + at_ 16%nat)])
  end.

Definition round (st : list Z) (kw : Z * Z) : list Z :=
  match st with
  | [a; b; c; d; e; f; g; h] =>
      let t1 := h + Sigma1 e + Ch e f g + fst kw + snd kw in
      let t2 := Sigma0 a + Maj a b c in
      [w32 (t1 + t2); a; b; c; w32 (d + t1); e; f; g]
  | _ => st
  end.

Definition compress (st : list Z) (block : list Z) : list Z :=
  let w := extend 48 block in
  let st' := fold_left round (combine K w) st in
  map (fun p => w32 (fst p + snd p)) (combine st st').

Fixpoint blocks (fuel : nat) (ws : list Z) : list (list Z) :=
  match fuel with
  | O => []
  | S f =>
      match ws with
      | [] => []
      | _ => firstn 16 ws :: blocks f (skipn 16 ws)
      end
  end.

Definition digest (msg : list Z) : list Z :=
  let bs := pad msg in
  let ws := be_words (List.length bs) bs in
  fold_left compress (blocks (List.length ws) ws) H0.

Definition hex_digit (d : Z) : ascii :=
  if d <? 10 then ascii_of_nat (48 + Z.to_nat d)
  else ascii_of_nat (87 + Z.to_nat d).

Fixpoint hex_word (n : nat) (x : Z) : string :=
  match n with
  | O => EmptyString
  | S k => String (hex_digit ((x / 16 ^ Z.of_nat k) mod 16)) (hex_word k x)
  end.

Definition bytes_of (s : string) : list Z :=
  map (fun c => Z.of_nat (nat_of_ascii c)) (list_ascii_of_string s).

(** [createHash("sha256").update(s).digest("hex")] *)
Definition hex (s : string) : string :=
  String.concat "" (map (hex_word 8) (digest (bytes_of s))).

End Sha256.

Import JS.

(** ** The data of a run *)

(** One decoded line of [events.jsonl].  The action reads five properties
    of it; each is absent ([None]) or holds a value of the type that kache
    writes: a string for [result], [crate_name] and [cache_key], an integer
    for [elapsed_ms] and [size]. *)
Module Event.
Record t : Type := mk {
  result : option string;
  crate_name : option string;
  elapsed_ms : option Z;
  size : option Z;
  cache_key : option string
}.
End Event.

(** What [JSON.parse] returns for a line: [null], on which reading a
    property throws, or any other value, seen through its properties. *)
Inductive json : Type :=
| Null
| Obj (e : Event.t).

(** An entry of [missedCrates]. *)
Module Crate.
Record t : Type := mk {
  name : option string;
  elapsed_ms : Z;
  size : Z;
  cache_key : string
}.
End Crate.

(** The object that [parseEvents] returns. *)
Module Stats.
Record t : Type := mk {
  total : Z;
  localHits : Z;
  remoteHits : Z;
  hits : Z;
  misses : Z;
  errors : Z;
  hitRate : string;
  missedCrates : list Crate.t
}.
End Stats.

(** ** The world of a step: its surroundings and what it leaves behind *)

(** A thrown value, seen through its [message]. *)
Record js_error : Type := { message : option string }.

Definition Error (msg : string) : js_error := {| message := Some msg |}.

Inductive outcome (A : Type) : Type :=
| Returned (a : A)
| Thrown (err : js_error).
Arguments Returned {A} a.
Arguments Thrown {A} err.

(** A comment of the pull request's thread. *)
Record comment : Type := { id : Z; body : option string }.

(** Requests to the GitHub REST API. *)
Inductive api_call : Type :=
| ListComments (issue_number per_page : Z)
| UpdateComment (comment_id : Z) (new_body : string)
| CreateComment (issue_number : Z) (new_body : string).

(** What a step does that can be seen from outside, in order. *)
Inductive obs : Type :=
| Info (msg : string)
| Warning (msg : string)
| Exec (args : list string)
| Api (call : api_call)
| CacheSave (path key : string)
| SummaryWrite (buffer : string).

(** The surroundings, which a step only reads. *)
Record env : Type := {
  getInput : string -> string;                 (* core.getInput *)
  getState : string -> string;                 (* core.getState *)
  process_env : string -> option string;       (* process.env *)
  os_platform : string;
  os_arch : string;
  os_homedir : string;
  glob_lockfiles : list string;                (* the paths matching **/Cargo.lock *)
  fs_existsSync : string -> bool;
  fs_readFileSync : string -> outcome string;
  exec_kache : list string -> outcome (Z * string * string);
                                               (* exit code, stdout, stderr *)
  cache_saveCache : string -> string -> option js_error;
  pull_request_number : option Z;              (* context.payload.pull_request?.number *)
  issue_number_of_context : option Z;          (* context.issue?.number *)
  getOctokit_fault : string -> option js_error;
  api_fault : api_call -> option js_error;     (* a request the API rejects *)
  summary_fault : option js_error;             (* a failing summary.write() *)
  Date_now : Z
}.

Record world : Type := {
  context : env;
  comments : list comment;
  trace : list obs
}.

(** State and exceptions. *)
Definition M (A : Type) : Type := world -> outcome A * world.

Definition ret {A : Type} (a : A) : M A := fun w => (Returned a, w).

Definition bind {A B : Type} (m : M A) (k : A -> M B) : M B :=
  fun w =>
    match m w with
    | (Returned a, w') => k a w'
    | (Thrown err, w') => (Thrown err, w')
    end.

Definition throw {A : Type} (err : js_error) : M A := fun w => (Thrown err, w).

Definition try_catch {A : Type} (m : M A) (handler : js_error -> M A) : M A :=
  fun w =>
    match m w with
    | (Returned a, w') => (Returned a, w')
    | (Thrown err, w') => handler err w'
    end.

Declare Scope monad_scope.
Delimit Scope monad_scope with monad.
Notation "x <- m ;; k" := (bind m (fun x => k))
  (at level 61, m at next level, right associativity) : monad_scope.
Notation "m ;;; k" := (bind m (fun _ => k))
  (at level 61, right associativity) : monad_scope.
Open Scope monad_scope.

Definition asks {A : Type} (f : env -> A) : M A :=
  fun w => (Returned (f (context w)), w).

Definition emit (o : obs) : M unit :=
  fun w => (Returned tt,
            {| context := context w; comments := comments w;
               trace := trace w ++ [o] |}).

Definition lift {A : Type} (r : outcome A) : M A :=
  match r with
  | Returned a => ret a
  | Thrown err => throw err
  end.

Definition raise_if (fault : option js_error) : M unit :=
  match fault with
  | Some err => throw err
  | None => ret tt
  end.

Definition core_info (msg : string) : M unit := emit (Info msg).
Definition core_warning (msg : string) : M unit := emit (Warning msg).

(** [`${x}`] for a value that may be [undefined]. *)
Definition show (x : option string) : string :=
  match x with
  | Some s => s
  | None => "undefined"
  end.

(** [a || b] on strings and on numbers that may be [undefined]. *)
Definition or_string (a : option string) (b : string) : string :=
  match a with
  | Some s => if truthy_string s then s else b
  | None => b
  end.

Definition or_number (a : option Z) (b : Z) : Z :=
  match a with
  | Some z => if truthy_number z then z else b
  | None => b
  end.

(** [err.message?.includes(needle)], falsy without a message. *)
Definition message_includes (needle : string) (err : js_error) : bool :=
  match message err with
  | Some m => includes needle m
  | None => false
  end.

(** [path.join] of a directory and a name, for a directory that does not
    end with a separator: the two are joined with [/].  ([path.join] also
    normalises its result; no property below depends on the text of a
    path.) *)
Definition path_join (dir name : string) : string := dir ++ "/" ++ name.

(** [for (const x of l) body], threading the variables of the loop. *)
Fixpoint for_of {A S : Type} (body : S -> A -> M S) (l : list A) (s : S) : M S :=
  match l with
  | [] => ret s
  | x :: t => s' <- body s x ;; for_of body t s'
  end.

(** ** src/utils.js *)

(** Run a kache CLI command, returning stdout. *)
Definition runKache (args : list string) : M string :=
  emit (Exec args) ;;;
  run_it <- asks exec_kache ;;
  r <- lift (run_it args) ;;
  let '(exitCode, stdout, stderr) := r in
  (if negb (exitCode =? 0) then
     core_warning ("kache " ++ join " " args ++ " exited with code "
                   ++ toString exitCode) ;;;
     (if truthy_string stderr then core_warning stderr else ret tt)
   else ret tt) ;;;
  ret stdout.

(** Get the kache local cache directory. *)
Definition getCacheDir : M string :=
  dir <- asks (fun c => process_env c "KACHE_CACHE_DIR") ;;
  let by_platform : M string :=
    platform <- asks os_platform ;;
    home <- asks os_homedir ;;
    if (platform =? "darwin")%string
    then ret (path_join (path_join (path_join home "Library") "Caches") "kache")
    else ret (path_join (path_join home ".cache") "kache") in
  match dir with
  | Some d => if truthy_string d then ret d else by_platform
  | None => by_platform
  end.

(** The hasher of [buildCacheKey]: [update] appends to what the digest
    covers. *)
Definition hasher_update (hasher data : string) : string := hasher ++ data.
Definition hasher_digest_hex (hasher : string) : string := Sha256.hex hasher.

Definition readFileSync (f : string) : M string :=
  rd <- asks fs_readFileSync ;; lift (rd f).

(** Build a GitHub Actions cache key from Cargo.lock files and kache
    version: the key and the restore keys. *)
Definition buildCacheKey : M (string * list string) :=
  input <- asks (fun c => getInput c "cache-key-prefix") ;;
  let prefix := or_string (Some input) "kache" in
  os_p <- asks os_platform ;;
  os_a <- asks os_arch ;;
  let platform := os_p ++ "-" ++ os_a in
  version <- asks (fun c => process_env c "KACHE_VERSION") ;;
  let kacheVersion := or_string version "unknown" in
  lockfiles <- asks glob_lockfiles ;;
  lockHash <-
    (if (0 <? Z.of_nat (List.length lockfiles)) then
       hasher <- for_of (fun hasher f =>
                           data <- readFileSync f ;;
                           ret (hasher_update hasher data))
                        (sort compare_strings lockfiles) "" ;;
       ret (slice0 16 (hasher_digest_hex hasher))
     else ret "no-lockfile") ;;
  let key := prefix ++ "-" ++ kacheVersion ++ "-" ++ platform ++ "-" ++ lockHash in
  let restoreKeys := [prefix ++ "-" ++ kacheVersion ++ "-" ++ platform ++ "-"] in
  ret (key, restoreKeys).

(** Save kache directory to GitHub Actions cache. *)
Definition saveCache : M unit :=
  cacheDir <- getCacheDir ;;
  present <- asks (fun c => fs_existsSync c cacheDir) ;;
  if negb present then core_info "No kache cache directory to save"
  else
    kr <- buildCacheKey ;;
    let key := fst kr in
    try_catch
      (emit (CacheSave cacheDir key) ;;;
       fault <- asks (fun c => cache_saveCache c cacheDir key) ;;
       raise_if fault ;;;
       core_info ("GitHub cache saved with key: " ++ key))
      (fun err =>
         if message_includes "already exists" err
         then core_info "GitHub cache already up to date"
         else core_warning ("GitHub cache save failed: " ++ show (message err))).

(** Get path to kache's event log. *)
Definition getEventLogPath : M string :=
  dir <- getCacheDir ;; ret (path_join dir "events.jsonl").

Definition formatBytes_units : list string := ["B"; "KB"; "MB"; "GB"].

(** [Math.floor(Math.log(bytes) / Math.log(1024))] for a positive integer:
    the integer logarithm in base 1024.  [Math.log] is approximated by the
    platform; the embedding takes the floor of the exact quotient, which is
    what the code computes for the sizes below 1 TiB and at the powers of
    1024 (just under a power from 1024^5 on, the rounded quotient of the
    code reaches the next integer). *)
Definition floor_log1024 (bytes : Z) : Z := Z.log2 bytes / 10.

Definition formatBytes (bytes : Z) : string :=
  if bytes =? 0 then "0 B"
  else if bytes <? 0 then "NaN undefined"  (* Math.log of a negative number is NaN *)
  else
    let i := floor_log1024 bytes in
    toFixed1 (div (ofZ bytes) (ofZ (1024 ^ i))) ++ " "
    ++ show (nth_error formatBytes_units (Z.to_nat i)).

Definition formatMs (ms : Z) : string :=
  if ms <? 1000 then toString ms ++ "ms"
  else toFixed1 (div (ofZ ms) (ofZ 1000)) ++ "s".

(** The em dash of the messages, U+2014, in UTF-8. *)
Definition em_dash : string :=
  String (ascii_of_nat 226) (String (ascii_of_nat 128) (String (ascii_of_nat 148) "")).

(** The variables of the counting loop of [parseEvents]. *)
Record counters : Type := {
  c_localHits : Z;
  c_remoteHits : Z;
  c_misses : Z;
  c_errors : Z;
  c_missedCrates : list Crate.t
}.

Definition TypeError_null : js_error :=
  Error "Cannot read properties of null (reading 'result')".

(** [e.result === s] *)
Definition result_is (e : Event.t) (s : string) : bool :=
  match Event.result e with
  | Some r => (r =? s)%string
  | None => false
  end.

(** The object that the [miss] case pushes on [missedCrates]. *)
Definition missed_crate (e : Event.t) : Crate.t :=
  {| Crate.name := Event.crate_name e;
     Crate.elapsed_ms := or_number (Event.elapsed_ms e) 0;
     Crate.size := or_number (Event.size e) 0;
     Crate.cache_key := or_string (Event.cache_key e) "" |}.

(** The body of [for (const e of events)]: [switch (e.result)]. *)
Definition count_event (acc : counters) (e : json) : M counters :=
  match e with
  | Null => throw TypeError_null
  | Obj e =>
      if result_is e "local_hit" then
        ret {| c_localHits := c_localHits acc + 1; c_remoteHits := c_remoteHits acc;
               c_misses := c_misses acc; c_errors := c_errors acc;
               c_missedCrates := c_missedCrates acc |}
      else if result_is e "remote_hit" then
        ret {| c_localHits := c_localHits acc; c_remoteHits := c_remoteHits acc + 1;
               c_misses := c_misses acc; c_errors := c_errors acc;
               c_missedCrates := c_missedCrates acc |}
      else if result_is e "miss" then
        ret {| c_localHits := c_localHits acc; c_remoteHits := c_remoteHits acc;
               c_misses := c_misses acc + 1; c_errors := c_errors acc;
               c_missedCrates := c_missedCrates acc ++ [missed_crate e] |}
      else if result_is e "error" then
        ret {| c_localHits := c_localHits acc; c_remoteHits := c_remoteHits acc;
               c_misses := c_misses acc; c_errors := c_errors acc + 1;
               c_missedCrates := c_missedCrates acc |}
      else ret acc
  end.

(** [(a, b) => b.elapsed_ms - a.elapsed_ms] *)
Definition by_elapsed_desc (a b : Crate.t) : Z :=
  Crate.elapsed_ms b - Crate.elapsed_ms a.

(** The second half of [parseEvents] (from [let localHits = 0] on): the
    counts, the hit rate and the sorted misses of the decoded events. *)
Definition aggregate (events : list json) : M Stats.t :=
  acc <- for_of count_event events
           {| c_localHits := 0; c_remoteHits := 0; c_misses := 0; c_errors := 0;
              c_missedCrates := [] |} ;;
  let localHits := c_localHits acc in
  let remoteHits := c_remoteHits acc in
  let misses := c_misses acc in
  let total := localHits + remoteHits + misses in
  let hits := localHits + remoteHits in
  let hitRate :=
    if 0 <? total then toFixed1 (mul (div (ofZ hits) (ofZ total)) (ofZ 100))
    else "0.0" in
  let missedCrates := sort by_elapsed_desc (c_missedCrates acc) in
  ret {| Stats.total := total; Stats.localHits := localHits;
         Stats.remoteHits := remoteHits; Stats.hits := hits;
         Stats.misses := misses; Stats.errors := c_errors acc;
         Stats.hitRate := hitRate; Stats.missedCrates := missedCrates |}.

Section Decoder.

(** [JSON.parse] on one line; [None] when it throws. *)
Variable JSON_parse : string -> option json.

(** The body of [for (const line of content.split("\n"))]. *)
Definition read_line (events : list json) (line : string) : list json :=
  if negb (truthy_string (trim line)) then events
  else match JSON_parse line with
       | Some e => events ++ [e]
       | None => events            (* skip malformed lines *)
       end.

(** The first half of [parseEvents], from the text of the log on. *)
Definition decode_events (content : string) : list json :=
  fold_left read_line (split LF content) [].

(** Parse events.jsonl and compute stats for this run; [None] is the
    [null] of the source. *)
Definition parseEvents : M (option Stats.t) :=
  logPath <- getEventLogPath ;;
  present <- asks (fun c => fs_existsSync c logPath) ;;
  if negb present then ret None
  else
    raw <- readFileSync logPath ;;
    let content := trim raw in
    if negb (truthy_string content) then ret None
    else
      let events := decode_events content in
      if (Z.of_nat (List.length events) =? 0) then ret None
      else stats <- aggregate events ;; ret (Some stats).


(** Build stats table + cache misses markdown (shared by PR comment and
    job summary). *)
Definition crate_row (hasKeys : bool) (c : Crate.t) : string :=
  if hasKeys then
    let key := if truthy_string (Crate.cache_key c)
               then "`" ++ slice0 12 (Crate.cache_key c) ++ "` "
               else "" in
    "| `" ++ show (Crate.name c) ++ "` | " ++ formatMs (Crate.elapsed_ms c)
    ++ " | " ++ formatBytes (Crate.size c) ++ " | " ++ key ++ "|"
  else
    "| `" ++ show (Crate.name c) ++ "` | " ++ formatMs (Crate.elapsed_ms c)
    ++ " | " ++ formatBytes (Crate.size c) ++ " |".

Definition more_row (hasKeys : bool) (missed : Z) : string :=
  let cols := if hasKeys then 4 else 3 in
  let empties := repeat "| " (Z.to_nat (cols - 1)) in
  "| *... " ++ toString (missed - 10) ++ " more* " ++ empties ++ "|".

Definition push (lines : list string) (line : string) : list string :=
  lines ++ [line].

Definition buildStatsLines (stats : Stats.t) (backend duration : string)
  : list string :=
  let lines := [] in
  (* Stats table *)
  let lines := push lines "| Metric | Value |" in
  let lines := push lines "|--------|-------|" in
  let lines := push lines ("| Hit rate | " ++ Stats.hitRate stats ++ "% |") in
  let lines := push lines ("| Local hits | " ++ toString (Stats.localHits stats) ++ " |") in
  let lines := push lines ("| Remote hits | " ++ toString (Stats.remoteHits stats) ++ " |") in
  let lines := push lines ("| Misses | " ++ toString (Stats.misses stats) ++ " |") in
  let lines :=
    if 0 <? Stats.errors stats
    then push lines ("| Errors | " ++ toString (Stats.errors stats) ++ " |")
    else lines in
  let lines := push lines ("| Total crates | " ++ toString (Stats.total stats) ++ " |") in
  let lines := push lines ("| Backend | " ++ backend ++ " |") in
  let lines := push lines ("| Duration | " ++ duration ++ "s |") in
  (* Top cache misses *)
  let missed := Z.of_nat (List.length (Stats.missedCrates stats)) in
  if 0 <? missed then
    let top := firstn 10 (Stats.missedCrates stats) in
    let hasKeys := existsb (fun c => truthy_string (Crate.cache_key c)) top in
    let lines := push lines "" in
    let lines := push lines "<details>" in
    let lines := push lines ("<summary>Cache misses ("
                             ++ toString (Stats.misses stats) ++ " crates)</summary>") in
    let lines := push lines "" in
    let lines :=
      if hasKeys then
        let lines := push lines "| Crate | Compile time | Size | Key |" in
        let lines := push lines "|-------|-------------|------|-----|" in
        fold_left (fun lines c => push lines (crate_row true c)) top lines
      else
        let lines := push lines "| Crate | Compile time | Size |" in
        let lines := push lines "|-------|-------------|------|" in
        fold_left (fun lines c => push lines (crate_row false c)) top lines in
    let lines := if 10 <? missed then push lines (more_row hasKeys missed) else lines in
    let lines := push lines "" in
    push lines "</details>"
  else lines.

Definition buildStatsMarkdown (stats : Stats.t) (backend duration : string)
  : string :=
  join nl (buildStatsLines stats backend duration).

Definition headline (stats : Stats.t) : string :=
  "**" ++ Stats.hitRate stats ++ "%** hit rate " ++ em_dash ++ " "
  ++ toString (Stats.hits stats) ++ "/" ++ toString (Stats.total stats)
  ++ " crates from cache, " ++ toString (Stats.misses stats) ++ " compiled".

(** Build a markdown PR comment body from event stats. *)
Definition buildCommentBody (stats : Stats.t) (backend duration : string)
  : string :=
  join nl
    ["### kache build cache";
     "";
     headline stats;
     "";
     buildStatsMarkdown stats backend duration;
     "";
     "*Posted by [kache-action](https://github.com/kunobi-ninja/kache-action)*"].

Definition COMMENT_MARKER : string := "<!-- kache-action-comment -->".

(** The GitHub REST API on the comments of the thread: a request is
    recorded, may be rejected, and otherwise takes effect. *)
Definition fresh_id (cs : list comment) : Z :=
  1 + fold_right (fun c m => Z.max (id c) m) 0 cs.

Definition request (call : api_call) : M unit :=
  emit (Api call) ;;;
  fault <- asks (fun c => api_fault c call) ;;
  raise_if fault.

Definition set_comments (cs : list comment) : M unit :=
  fun w => (Returned tt,
            {| context := context w; comments := cs; trace := trace w |}).

Definition listComments (issue_number per_page : Z) : M (list comment) :=
  request (ListComments issue_number per_page) ;;;
  fun w => (Returned (firstn (Z.to_nat per_page) (comments w)), w).

Fixpoint set_body (comment_id : Z) (new_body : string) (cs : list comment)
  : option (list comment) :=
  match cs with
  | [] => None
  | c :: rest =>
      if id c =? comment_id
      then Some ({| id := id c; body := Some new_body |} :: rest)
      else option_map (cons c) (set_body comment_id new_body rest)
  end.

Definition updateComment (comment_id : Z) (new_body : string) : M unit :=
  request (UpdateComment comment_id new_body) ;;;
  fun w =>
    match set_body comment_id new_body (comments w) with
    | Some cs => set_comments cs w
    | None => (Thrown (Error "Not Found"), w)
    end.

Definition createComment (issue_number : Z) (new_body : string) : M unit :=
  request (CreateComment issue_number new_body) ;;;
  fun w =>
    set_comments
      (comments w ++ [ {| id := fresh_id (comments w); body := Some new_body |} ]) w.

(** [c.body && c.body.includes(COMMENT_MARKER)] *)
Definition has_marker (c : comment) : bool :=
  match body c with
  | Some b => truthy_string b && includes COMMENT_MARKER b
  | None => false
  end.

(** Post or update a sticky PR comment with cache stats. *)
Definition postOrUpdateComment (body token : string) : M unit :=
  pr <- asks pull_request_number ;;
  issue <- asks issue_number_of_context ;;
  (* Only post on pull requests *)
  let prNumber := if truthy_number (or_number pr 0) then or_number pr 0
                  else or_number issue 0 in
  if negb (truthy_number prNumber) then
    core_info "Not a PR context, skipping comment"
  else
    let markedBody := COMMENT_MARKER ++ nl ++ body in
    fault <- asks (fun c => getOctokit_fault c token) ;;
    raise_if fault ;;;
    (* Find existing comment *)
    comments <- listComments prNumber 100 ;;
    match find has_marker comments with
    | Some existing =>
        updateComment (id existing) markedBody ;;;
        core_info ("Updated existing PR comment #" ++ toString (id existing))
    | None =>
        createComment prNumber markedBody ;;;
        core_info "Posted new PR comment"
    end.

(** ** src/save.js *)

(** [core.summary]: the buffer after [addHeading(text, 2)] and the
    [addRaw] calls, and [write()]. *)
Definition summary_addHeading (buffer text : string) : string :=
  buffer ++ "<h2>" ++ text ++ "</h2>" ++ nl.
Definition summary_addRaw (buffer text : string) : string := buffer ++ text.
Definition summary_write (buffer : string) : M unit :=
  fault <- asks summary_fault ;;
  raise_if fault ;;;
  emit (SummaryWrite buffer).

Definition worth_reporting (stats : option Stats.t) : option Stats.t :=
  match stats with
  | Some st => if 0 <? Stats.total st then Some st else None
  | None => None
  end.

(** The inner [try] of [run]: post/update sticky PR comment. *)
Definition publish_comment (body token : string) : M unit :=
  try_catch
    (postOrUpdateComment body token)
    (fun err =>
       if message_includes "Resource not accessible" err then
         core_info ("Skipping PR comment " ++ em_dash
                    ++ " token lacks pull-requests: write permission")
       else
         core_warning ("Failed to post PR comment: " ++ show (message err))).

(** The body of the outer [try] of [run]. *)
Definition post_step : M unit :=
  s3 <- asks (fun c => getState c "s3-configured") ;;
  gh <- asks (fun c => getState c "gh-cache") ;;
  let s3Configured := (s3 =? "true")%string in
  let ghCache := (gh =? "true")%string in
  (* Push cache: S3 or GitHub Actions cache *)
  (if s3Configured then
     let saveArgs := ["save-manifest"] in
     manifestKey <- asks (fun c => getInput c "manifest-key") ;;
     let saveArgs :=
       if truthy_string manifestKey
       then (saveArgs ++ ["--manifest-key"; manifestKey])%list else saveArgs in
     core_info "Saving build manifest..." ;;;
     runKache saveArgs ;;;
     core_info "Pushing cache to S3..." ;;;
     runKache ["sync"; "--push"] ;;;
     ret tt
   else if ghCache then
     core_info "Saving cache to GitHub Actions cache..." ;;;
     saveCache
   else ret tt) ;;;
  (* Parse build events from this run *)
  stats <- parseEvents ;;
  started <- asks (fun c => getState c "start-time") ;;
  now <- asks Date_now ;;
  let startTime := parseInt (or_string (Some started) "0") in
  let duration :=
    match startTime with
    | Some t =>
        if truthy_number t then toFixed1 (div (ofZ (now - t)) (ofZ 1000)) else "?"
    | None => "?"
    end in
  let backend :=
    if s3Configured then "S3"
    else if ghCache then "GitHub Actions cache" else "local only" in
  (* Post/update sticky PR comment *)
  match worth_reporting stats with
  | Some st =>
      token <- asks (fun c => getInput c "token") ;;
      publish_comment (buildCommentBody st backend duration) token
  | None => ret tt
  end ;;;
  (* Write job summary (always, even outside PRs) *)
  let summary := summary_addHeading "" "Kache Build Cache" in
  let summary :=
    match worth_reporting stats with
    | Some st =>
        summary_addRaw
          (summary_addRaw
             (summary_addRaw summary (headline st ++ nl ++ nl))
             (buildStatsMarkdown st backend duration))
          nl
    | None =>
        summary_addRaw summary
          ("**Backend:** " ++ backend ++ " | **Duration:** " ++ duration ++ "s" ++ nl ++ nl)
    end in
  summary_write summary.

Definition run : M unit :=
  try_catch post_step
    (fun error =>
       (* Post step should not fail the build *)
       core_warning ("kache post step failed: " ++ show (message error))).

End Decoder.

(** ** src/utils.js, the part that the setup step uses *)

(** Map runner OS+arch to Rust target triple. *)
Definition getTarget : M string :=
  platform <- asks os_platform ;;
  arch <- asks os_arch ;;
  if (platform =? "linux")%string && (arch =? "x64")%string
  then ret "x86_64-unknown-linux-musl"
  else if (platform =? "linux")%string && (arch =? "arm64")%string
  then ret "aarch64-unknown-linux-musl"
  else if (platform =? "darwin")%string && (arch =? "x64")%string
  then ret "x86_64-apple-darwin"
  else if (platform =? "darwin")%string && (arch =? "arm64")%string
  then ret "aarch64-apple-darwin"
  else throw (Error ("Unsupported platform: " ++ platform ++ "-" ++ arch)).

(** Check if S3 is configured. *)
Definition isS3Configured : M bool :=
  bucket <- asks (fun c => getInput c "s3-bucket") ;;
  ret (truthy_string bucket).

(** Check if GitHub Actions cache should be used. *)
Definition useGitHubCache : M bool :=
  s3 <- isS3Configured ;;
  if negb s3 then
    enabled <- asks (fun c => getInput c "github-cache") ;;
    ret (enabled =? "true")%string
  else ret false.

(** [text.split(/\s+/)]: the pieces between the runs of white space; a
    text that starts or ends with white space has an empty first or last
    piece, and the empty text has one empty piece. *)
Fixpoint split_spaces_from (in_space : bool) (s : string) : list string :=
  match s with
  | EmptyString => [EmptyString]
  | String c t =>
      if is_space c then
        if in_space then split_spaces_from true t
        else EmptyString :: split_spaces_from true t
      else match split_spaces_from false t with
           | w :: ws => String c w :: ws
           | [] => [String c EmptyString]
           end
  end.

Definition split_spaces (s : string) : list string := split_spaces_from false s.

(** ** The runner of the setup step

    The setup step reads and writes more than the post step: the release
    of kache, the tool cache, the cache service and the files of the
    runner, and what [@actions/core] passes on to the following steps. *)

(** The answer to [octokit.rest.repos.getLatestRelease]: the release,
    seen through [data.tag_name], or a rejection with its [status]. *)
Inductive release : Type :=
| Latest (tag_name : option string)
| Rejected (status : option Z) (err : js_error).

Record host : Type := {
  getLatestRelease : string -> string -> release;       (* owner, repo *)
  tc_find : string -> string -> outcome string;         (* '' when the tool is not cached *)
  tc_downloadTool : string -> outcome string;           (* the path of the download *)
  tc_extractTar : string -> outcome string;
  tc_cacheDir : string -> string -> string -> outcome string;
  fs_writeFileSync_fault : string -> option js_error;
  cache_restoreCache : list string -> string -> list string -> outcome (option string)
}.

(** What the step does to its surroundings, in order. *)
Inductive effect : Type :=
| LatestRelease (owner repo : string)
| Download (url : string)
| ExtractTar (file : string)
| CacheDir (sourceDir tool version : string)
| CacheRestore (paths : list string) (key : string) (restoreKeys : list string)
| WriteFile (path data : string)
| AddPath (inputPath : string)
| ExportVariable (name val : string)
| SetSecret (secret : string)
| SaveState (name value : string)
| SetFailed (message : option string).

Record runner : Type := {
  current : world;
  tools : host;
  effects : list effect
}.

(** State and exceptions over a runner. *)
Definition Job (A : Type) : Type := runner -> outcome A * runner.

Module Job.

Definition ret {A : Type} (a : A) : Job A := fun r => (Returned a, r).

Definition bind {A B : Type} (m : Job A) (k : A -> Job B) : Job B :=
  fun r =>
    match m r with
    | (Returned a, r') => k a r'
    | (Thrown err, r') => (Thrown err, r')
    end.

Definition throw {A : Type} (err : js_error) : Job A := fun r => (Thrown err, r).

Definition try_catch {A : Type} (m : Job A) (handler : js_error -> Job A) : Job A :=
  fun r =>
    match m r with
    | (Returned a, r') => (Returned a, r')
    | (Thrown err, r') => handler err r'
    end.

Definition of_outcome {A : Type} (o : outcome A) : Job A :=
  match o with
  | Returned a => ret a
  | Thrown err => throw err
  end.

Definition raise_if (fault : option js_error) : Job unit :=
  match fault with
  | Some err => throw err
  | None => ret tt
  end.

(** Code of [utils.js] that works on the world of a step. *)
Definition in_world {A : Type} (m : M A) : Job A :=
  fun r =>
    match m (current r) with
    | (res, w) => (res, {| current := w; tools := tools r; effects := effects r |})
    end.

Definition asks {A : Type} (f : host -> A) : Job A :=
  fun r => (Returned (f (tools r)), r).

Definition perform (e : effect) : Job unit :=
  fun r => (Returned tt,
            {| current := current r; tools := tools r;
               effects := effects r ++ [e] |}).

(** [for (const x of l) body] *)
Fixpoint for_of {A : Type} (body : A -> Job unit) (l : list A) : Job unit :=
  match l with
  | [] => ret tt
  | x :: t => bind (body x) (fun _ => for_of body t)
  end.

End Job.

Declare Scope job_scope.
Delimit Scope job_scope with job.
Notation "x <- m ;; k" := (Job.bind m (fun x => k))
  (at level 61, m at next level, right associativity) : job_scope.
Notation "m ;;; k" := (Job.bind m (fun _ => k))
  (at level 61, right associativity) : job_scope.
Open Scope job_scope.

Definition info (msg : string) : Job unit := Job.in_world (core_info msg).
Definition warning (msg : string) : Job unit := Job.in_world (core_warning msg).
Definition input (name : string) : Job string :=
  Job.in_world (asks (fun c => getInput c name)).

(** The surroundings after [process.env[name] = val]. *)
Definition set_env (c : env) (name val : string) : env :=
  {| getInput := getInput c; getState := getState c;
     process_env := fun k => if (k =? name)%string then Some val else process_env c k;
     os_platform := os_platform c; os_arch := os_arch c;
     os_homedir := os_homedir c; glob_lockfiles := glob_lockfiles c;
     fs_existsSync := fs_existsSync c; fs_readFileSync := fs_readFileSync c;
     exec_kache := exec_kache c; cache_saveCache := cache_saveCache c;
     pull_request_number := pull_request_number c;
     issue_number_of_context := issue_number_of_context c;
     getOctokit_fault := getOctokit_fault c; api_fault := api_fault c;
     summary_fault := summary_fault c; Date_now := Date_now c |}.

(** The surroundings after a file has been written. *)
Definition write_file (c : env) (path data : string) : env :=
  {| getInput := getInput c; getState := getState c;
     process_env := process_env c;
     os_platform := os_platform c; os_arch := os_arch c;
     os_homedir := os_homedir c; glob_lockfiles := glob_lockfiles c;
     fs_existsSync := fun p => if (p =? path)%string then true else fs_existsSync c p;
     fs_readFileSync :=
       fun p => if (p =? path)%string then Returned data else fs_readFileSync c p;
     exec_kache := exec_kache c; cache_saveCache := cache_saveCache c;
     pull_request_number := pull_request_number c;
     issue_number_of_context := issue_number_of_context c;
     getOctokit_fault := getOctokit_fault c; api_fault := api_fault c;
     summary_fault := summary_fault c; Date_now := Date_now c |}.

Definition set_context (f : env -> env) : M unit :=
  fun w => (Returned tt,
            {| context := f (context w); comments := comments w; trace := trace w |}).

(** [core.exportVariable]: the variable is set in the process, and passed
    on to the following steps. *)
Definition core_exportVariable (name val : string) : Job unit :=
  Job.in_world (set_context (fun c => set_env c name val)) ;;;
  Job.perform (ExportVariable name val).

(** [core.addPath]: the directory is passed on to the following steps,
    and goes first in [PATH]. *)
Definition core_addPath (inputPath : string) : Job unit :=
  Job.perform (AddPath inputPath) ;;;
  Job.in_world
    (set_context (fun c => set_env c "PATH"
                             (inputPath ++ ":" ++ show (process_env c "PATH")))).

Definition core_setSecret (secret : string) : Job unit := Job.perform (SetSecret secret).
Definition core_saveState (name value : string) : Job unit :=
  Job.perform (SaveState name value).
Definition core_setFailed (message : option string) : Job unit :=
  Job.perform (SetFailed message).

(** [fs.writeFileSync] *)
Definition fs_writeFileSync (path data : string) : Job unit :=
  fault <- Job.asks (fun h => fs_writeFileSync_fault h path) ;;
  Job.raise_if fault ;;;
  Job.perform (WriteFile path data) ;;;
  Job.in_world (set_context (fun c => write_file c path data)).

(** [tc.downloadTool], [tc.find], [tc.extractTar] and [tc.cacheDir] *)
Definition tc_download (url : string) : Job string :=
  Job.perform (Download url) ;;;
  download <- Job.asks tc_downloadTool ;;
  Job.of_outcome (download url).

Definition tc_lookup (toolName versionSpec : string) : Job string :=
  find <- Job.asks tc_find ;;
  Job.of_outcome (find toolName versionSpec).

Definition tc_extract (file : string) : Job string :=
  Job.perform (ExtractTar file) ;;;
  extract <- Job.asks tc_extractTar ;;
  Job.of_outcome (extract file).

Definition tc_cache (sourceDir tool version : string) : Job string :=
  Job.perform (CacheDir sourceDir tool version) ;;;
  cacheDir <- Job.asks tc_cacheDir ;;
  Job.of_outcome (cacheDir sourceDir tool version).

(** ** src/utils.js, continued *)

(** Fetch latest release tag from kunobi-ninja/kache. Returns null if no
    release exists: [None], as for a release without a tag. *)
Definition getLatestVersion (token : string) : Job (option string) :=
  fault <- Job.in_world (asks (fun c => getOctokit_fault c token)) ;;
  Job.raise_if fault ;;;
  Job.perform (LatestRelease "kunobi-ninja" "kache") ;;;
  answer <- Job.asks (fun h => getLatestRelease h "kunobi-ninja" "kache") ;;
  match answer with
  | Latest tag_name => Job.ret tag_name
  | Rejected status err =>
      match status with
      | Some 404 => Job.ret None
      | _ => Job.throw err
      end
  end.

(** Download binary tarball and verify SHA256 checksum. *)
Definition downloadAndVerify (version target : string) : Job string :=
  let base := "https://github.com/kunobi-ninja/kache/releases/download/" ++ version in
  let tarName := "kache-" ++ target ++ ".tar.gz" in
  let tarUrl := base ++ "/" ++ tarName in
  let shaUrl := base ++ "/" ++ tarName ++ ".sha256" in
  info ("Downloading " ++ tarUrl) ;;;
  tarPath <- tc_download tarUrl ;;
  info ("Downloading checksum " ++ shaUrl) ;;;
  shaPath <- tc_download shaUrl ;;
  (* Verify SHA256 *)
  text <- Job.in_world (readFileSync shaPath) ;;
  let expectedLine := trim text in
  let expectedHash := nth_error (split_spaces expectedLine) 0 in
  fileBuffer <- Job.in_world (readFileSync tarPath) ;;
  let actualHash := Sha256.hex fileBuffer in
  if match expectedHash with
     | Some expected => negb (actualHash =? expected)%string
     | None => true
     end
  then
    Job.throw (Error ("SHA256 mismatch for " ++ tarName ++ ": expected "
                      ++ show expectedHash ++ ", got " ++ actualHash))
  else
    info "Checksum verified" ;;;
    Job.ret tarPath.

(** [if (hitKey)] on a key that may be [undefined]. *)
Definition truthy (x : option string) : bool :=
  match x with
  | Some s => truthy_string s
  | None => false
  end.

(** Restore kache directory from GitHub Actions cache. Returns cache hit
    key or undefined. *)
Definition restoreCache : Job (option string) :=
  cacheDir <- Job.in_world getCacheDir ;;
  kr <- Job.in_world buildCacheKey ;;
  let key := fst kr in
  let restoreKeys := snd kr in
  info ("GitHub cache key: " ++ key) ;;;
  Job.try_catch
    (Job.perform (CacheRestore [cacheDir] key restoreKeys) ;;;
     restore <- Job.asks cache_restoreCache ;;
     hitKey <- Job.of_outcome (restore [cacheDir] key restoreKeys) ;;
     (if truthy hitKey
      then info ("GitHub cache restored from key: " ++ show hitKey)
      else info "GitHub cache miss") ;;;
     Job.ret hitKey)
    (fun err =>
       warning ("GitHub cache restore failed: " ++ show (message err)) ;;;
       Job.ret None).

(** Clear the event log so we only capture this run's events. *)
Definition clearEventLog : Job unit :=
  logPath <- Job.in_world getEventLogPath ;;
  Job.try_catch
    (fs_writeFileSync logPath "" ;;;
     info "Cleared kache event log")
    (fun _ => Job.ret tt).   (* Log may not exist yet *)

(** ** src/setup.js *)

Module Setup.

(** [if (!version.startsWith("v")) version = `v${version}`] *)
Definition with_v (version : string) : string :=
  if prefix "v" version then version else "v" ++ version.

(** [version.replace(/^v/, "")] *)
Definition semver_of (version : string) : string :=
  match version with
  | String "v" rest => rest
  | _ => version
  end.

(** Resolve version: the input, or else the latest release. *)
Definition resolve_version (token : string) : Job (option string) :=
  version <- input "version" ;;
  if negb (truthy_string version) then
    info "No version specified, fetching latest release..." ;;;
    getLatestVersion token
  else Job.ret (Some version).

(** Check tool-cache (self-hosted runner reuse): the directory of the
    tool, or [None] when the step returns for want of a binary. *)
Definition install (version target semver : string) : Job (option string) :=
  let toolName := "kache" in
  toolDir <- tc_lookup toolName semver ;;
  if negb (truthy_string toolDir) then
    tarPath <-
      Job.try_catch
        (tarPath <- downloadAndVerify version target ;; Job.ret (Some tarPath))
        (fun err =>
           warning ("Failed to download kache " ++ version ++ " " ++ em_dash
                    ++ " skipping cache setup (binary not yet available): "
                    ++ show (message err)) ;;;
           Job.ret None) ;;
    match tarPath with
    | Some tarPath =>
        extracted <- tc_extract tarPath ;;
        toolDir <- tc_cache extracted toolName semver ;;
        Job.ret (Some toolDir)
    | None => Job.ret None
    end
  else
    info ("Found cached kache " ++ semver) ;;;
    Job.ret (Some toolDir).

Definition s3Vars : list (string * string) :=
  [("s3-bucket", "KACHE_S3_BUCKET");
   ("s3-region", "KACHE_S3_REGION");
   ("s3-prefix", "KACHE_S3_PREFIX");
   ("s3-endpoint", "KACHE_S3_ENDPOINT");
   ("s3-access-key-id", "KACHE_S3_ACCESS_KEY");
   ("s3-secret-access-key", "KACHE_S3_SECRET_KEY")].

(** Export S3 env vars if configured. *)
Definition export_s3_var (entry : string * string) : Job unit :=
  let '(input_name, envVar) := entry in
  value <- input input_name ;;
  if truthy_string value then
    core_exportVariable envVar value ;;;
    (* Mask secrets *)
    if includes "secret" input_name || includes "access-key" input_name
    then core_setSecret value
    else Job.ret tt
  else Job.ret tt.

Definition export_s3_vars : Job unit := Job.for_of export_s3_var s3Vars.

(** Restore cache: S3 sync or GitHub Actions cache. *)
Definition restore (s3 ghCache : bool) : Job unit :=
  sync <- input "sync" ;;
  if s3 && (sync =? "true")%string then
    info "Pulling remote cache from S3..." ;;;
    Job.in_world (runKache ["sync"; "--pull"]) ;;;
    Job.ret tt
  else if ghCache then
    info "Restoring cache from GitHub Actions cache..." ;;;
    restoreCache ;;;
    Job.ret tt
  else Job.ret tt.

(** Save state for post step. *)
Definition save_state (s3 ghCache : bool) (version : string) : Job unit :=
  now <- Job.in_world (asks Date_now) ;;
  core_saveState "start-time" (toString now) ;;;
  core_saveState "s3-configured" (if s3 then "true" else "false") ;;;
  core_saveState "gh-cache" (if ghCache then "true" else "false") ;;;
  core_saveState "kache-version" version.

(** What the step passes on to the build: the path, the wrapper, the log
    level, the version, the S3 variables and the option for executables. *)
Definition export_settings (version toolDir : string) : Job unit :=
  (* Add to PATH *)
  core_addPath toolDir ;;;
  (* Set RUSTC_WRAPPER *)
  let kacheBin := path_join toolDir "kache" in
  core_exportVariable "RUSTC_WRAPPER" kacheBin ;;;
  info ("RUSTC_WRAPPER=" ++ kacheBin) ;;;
  (* Enable kache debug logging (unless user already set KACHE_LOG) *)
  log <- Job.in_world (asks (fun c => process_env c "KACHE_LOG")) ;;
  (if negb (truthy log) then core_exportVariable "KACHE_LOG" "kache=info"
   else Job.ret tt) ;;;
  (* Export version so buildCacheKey() can include it in the GH cache key *)
  core_exportVariable "KACHE_VERSION" version ;;;
  export_s3_vars ;;;
  (* Cache executables option *)
  executables <- input "cache-executables" ;;
  if (executables =? "true")%string
  then core_exportVariable "KACHE_CACHE_EXECUTABLES" "1"
  else Job.ret tt.

(** The step from the tool directory on. *)
Definition configure (version toolDir : string) : Job unit :=
  export_settings version toolDir ;;;
  s3 <- Job.in_world isS3Configured ;;
  ghCache <- Job.in_world useGitHubCache ;;
  restore s3 ghCache ;;;
  (* Clear event log so we only capture this run's events *)
  clearEventLog ;;;
  save_state s3 ghCache version.

(** The body of the [try] of [run]. *)
Definition setup : Job unit :=
  token <- input "token" ;;
  target <- Job.in_world getTarget ;;
  version <- resolve_version token ;;
  if negb (truthy version) then
    warning ("No kache release found " ++ em_dash
             ++ " skipping cache setup (bootstrapping mode)")
  else
    let version := with_v (show version) in
    info ("Using kache " ++ version ++ " for " ++ target) ;;;
    let semver := semver_of version in
    toolDir <- install version target semver ;;
    match toolDir with
    | Some toolDir => configure version toolDir
    | None => Job.ret tt
    end.

Definition run : Job unit :=
  Job.try_catch setup (fun error => core_setFailed (message error)).

End Setup.

Close Scope job_scope.

(** * The vocabulary of the properties

    What the statements below speak of: orders, counts, the worlds that
    differ in one place, and sample runs on which the statements are tried. *)

(** [x] may stand before [y] in an array sorted with [cmp]. *)
Definition before {A : Type} (cmp : A -> A -> Z) (x y : A) : Prop := cmp x y <= 0.

(** The events of a given [result], in the order of the log. *)
Definition events_with (r : string) (events : list json) : list Event.t :=
  flat_map (fun e => match e with
                     | Obj ev => if result_is ev r then [ev] else []
                     | Null => []
                     end) events.

(** How many events have a given [result]. *)
Definition count_of (r : string) (events : list json) : Z :=
  Z.of_nat (List.length (events_with r events)).

(** What [aggregate] returns when no decoded line is [null]. *)
Definition stats_of (events : list json) : Stats.t :=
  let localHits := count_of "local_hit" events in
  let remoteHits := count_of "remote_hit" events in
  let misses := count_of "miss" events in
  let total := localHits + remoteHits + misses in
  let hits := localHits + remoteHits in
  {| Stats.total := total; Stats.localHits := localHits;
     Stats.remoteHits := remoteHits; Stats.hits := hits;
     Stats.misses := misses; Stats.errors := count_of "error" events;
     Stats.hitRate :=
       if 0 <? total then toFixed1 (mul (div (ofZ hits) (ofZ total)) (ofZ 100))
       else "0.0";
     Stats.missedCrates :=
       sort by_elapsed_desc (map missed_crate (events_with "miss" events)) |}.

(** The same world with other paths found by the glob. *)
Definition with_lockfiles (w : world) (paths : list string) : world :=
  let c := context w in
  {| context :=
       {| getInput := getInput c; getState := getState c;
          process_env := process_env c; os_platform := os_platform c;
          os_arch := os_arch c; os_homedir := os_homedir c;
          glob_lockfiles := paths;
          fs_existsSync := fs_existsSync c; fs_readFileSync := fs_readFileSync c;
          exec_kache := exec_kache c; cache_saveCache := cache_saveCache c;
          pull_request_number := pull_request_number c;
          issue_number_of_context := issue_number_of_context c;
          getOctokit_fault := getOctokit_fault c; api_fault := api_fault c;
          summary_fault := summary_fault c; Date_now := Date_now c |};
     comments := comments w;
     trace := trace w |}.

(** The same world with another value of [KACHE_VERSION]. *)
Definition with_version (w : world) (version : option string) : world :=
  let c := context w in
  {| context :=
       {| getInput := getInput c; getState := getState c;
          process_env := fun k =>
            if (k =? "KACHE_VERSION")%string then version else process_env c k;
          os_platform := os_platform c;
          os_arch := os_arch c; os_homedir := os_homedir c;
          glob_lockfiles := glob_lockfiles c;
          fs_existsSync := fs_existsSync c; fs_readFileSync := fs_readFileSync c;
          exec_kache := exec_kache c; cache_saveCache := cache_saveCache c;
          pull_request_number := pull_request_number c;
          issue_number_of_context := issue_number_of_context c;
          getOctokit_fault := getOctokit_fault c; api_fault := api_fault c;
          summary_fault := summary_fault c; Date_now := Date_now c |};
     comments := comments w;
     trace := trace w |}.

(** [s'] is [s] with one byte replaced by another. *)
Definition one_byte_changed (s s' : string) : Prop :=
  exists pre x y post,
    x <> y /\ s = pre ++ String x post /\ s' = pre ++ String y post.

(** The lock hash of the paths found by the glob, as the specification
    describes it: over the contents in the sorted order of the paths. *)
Definition lockHash_of (paths : list string) (content : string -> string) : string :=
  match paths with
  | [] => "no-lockfile"
  | _ => slice0 16 (Sha256.hex (String.concat ""
                                  (map content (sort compare_strings paths))))
  end.

(** What one line contributes to [events]. *)
Definition decoded (JSON_parse : string -> option json) (line : string) : list json :=
  if truthy_string (trim line) then
    match JSON_parse line with
    | Some e => [e]
    | None => []
    end
  else [].

(** Lines of the log, for the statements on blank and torn lines: text
    without a line break, text that starts or ends with something else than
    white space. *)
Fixpoint string_forall (p : ascii -> bool) (s : string) : bool :=
  match s with
  | EmptyString => true
  | String c t => p c && string_forall p t
  end.

Definition one_line (s : string) : bool :=
  string_forall (fun c => negb (Ascii.eqb c LF)) s.

Definition starts_with_text (s : string) : bool :=
  match s with
  | String c _ => negb (is_space c)
  | EmptyString => false
  end.

Fixpoint ends_with_text (s : string) : bool :=
  match s with
  | EmptyString => false
  | String c EmptyString => negb (is_space c)
  | String _ t => ends_with_text t
  end.

(** The world after more has been observed. *)
Definition logged (w : world) (os : list obs) : world :=
  {| context := context w; comments := comments w; trace := trace w ++ os |}.

(** The thread identifier that [postOrUpdateComment] resolves; [0] when
    there is none. *)
Definition prNumber_of (c : env) : Z :=
  if truthy_number (or_number (pull_request_number c) 0)
  then or_number (pull_request_number c) 0
  else or_number (issue_number_of_context c) 0.

(** How many comments carry the marker. *)
Definition marker_count (cs : list comment) : nat :=
  List.length (filter has_marker cs).

(** The stats without their misses: what the metrics table is built from. *)
Definition without_misses (stats : Stats.t) : Stats.t :=
  {| Stats.total := Stats.total stats; Stats.localHits := Stats.localHits stats;
     Stats.remoteHits := Stats.remoteHits stats; Stats.hits := Stats.hits stats;
     Stats.misses := Stats.misses stats; Stats.errors := Stats.errors stats;
     Stats.hitRate := Stats.hitRate stats; Stats.missedCrates := [] |}.

(** The two header lines of the table of misses. *)
Definition details_header (hasKeys : bool) : list string :=
  if hasKeys
  then ["| Crate | Compile time | Size | Key |";
        "|-------|-------------|------|-----|"]
  else ["| Crate | Compile time | Size |";
        "|-------|-------------|------|"].

(** The cells of a table row: one less than its vertical bars. *)
Fixpoint bars (s : string) : Z :=
  match s with
  | EmptyString => 0
  | String c t => (if Ascii.eqb c "|" then 1 else 0) + bars t
  end.

Definition cells (row : string) : Z := bars row - 1.

(** The notice of a comment that the token may not write. *)
Definition skip_comment_notice : obs :=
  Info ("Skipping PR comment " ++ em_dash
        ++ " token lacks pull-requests: write permission").

(** What the inner [catch] of [run] reports for an error of the publish. *)
Definition publish_report (err : js_error) : obs :=
  if message_includes "Resource not accessible" err then skip_comment_notice
  else Warning ("Failed to post PR comment: " ++ show (message err)).

(** Sample data and worlds: a runner on Linux in a pull request, with two
    lockfiles and a log of three lines. *)
Module Sample.

Definition dq : string := String (ascii_of_nat 34) "".

(** A line as kache writes it, and a line torn in the middle. *)
Definition valid_line : string :=
  "{" ++ dq ++ "result" ++ dq ++ ":" ++ dq ++ "miss" ++ dq ++ ","
  ++ dq ++ "crate_name" ++ dq ++ ":" ++ dq ++ "foo" ++ dq ++ ","
  ++ dq ++ "elapsed_ms" ++ dq ++ ":4200,"
  ++ dq ++ "size" ++ dq ++ ":1048576}".

Definition garbled_line : string :=
  "{" ++ dq ++ "result" ++ dq ++ ":" ++ dq ++ "local_h".

Definition foo_miss : Event.t :=
  {| Event.result := Some "miss"; Event.crate_name := Some "foo";
     Event.elapsed_ms := Some 4200; Event.size := Some 1048576;
     Event.cache_key := None |}.

(** A decoder that knows [valid_line] and rejects every other line. *)
Definition JSON_parse (line : string) : option json :=
  if (line =? valid_line)%string then Some (Obj foo_miss) else None.

Definition hit (r : string) : json :=
  Obj {| Event.result := Some r; Event.crate_name := Some "dep";
         Event.elapsed_ms := None; Event.size := None;
         Event.cache_key := None |}.

Definition miss (name : string) (ms : option Z) (key : option string) : json :=
  Obj {| Event.result := Some "miss"; Event.crate_name := Some name;
         Event.elapsed_ms := ms; Event.size := Some 2048;
         Event.cache_key := key |}.

(** 7 local hits, 2 remote hits and the miss of [foo]. *)
Definition events : list json :=
  (List.repeat (hit "local_hit") 7 ++ List.repeat (hit "remote_hit") 2
   ++ [Obj foo_miss])%list.

(** Misses with equal and with missing times. *)
Definition misses : list json :=
  [miss "a" (Some 300) None; miss "b" None None; miss "c" (Some 900) None;
   miss "d" (Some 300) (Some "0123456789abcdef"); hit "error"].

Definition log_path : string := "/home/runner/.cache/kache/events.jsonl".

Definition surroundings : env :=
  {| getInput := fun k => if (k =? "token")%string then "ghs_token" else "";
     getState := fun k =>
       if (k =? "gh-cache")%string then "true"
       else if (k =? "start-time")%string then "1000" else "";
     process_env := fun k =>
       if (k =? "KACHE_VERSION")%string then Some "v0.3.1" else None;
     os_platform := "linux";
     os_arch := "x64";
     os_homedir := "/home/runner";
     glob_lockfiles := ["/w/b/Cargo.lock"; "/w/Cargo.lock"];
     fs_existsSync := fun _ => true;
     fs_readFileSync := fun p =>
       if (p =? log_path)%string
       then Returned (valid_line ++ nl ++ "" ++ nl ++ garbled_line)
       else Returned ("# lock of " ++ p);
     exec_kache := fun _ => Returned (0, "", "");
     cache_saveCache := fun _ _ => None;
     pull_request_number := Some 42;
     issue_number_of_context := Some 42;
     getOctokit_fault := fun _ => None;
     api_fault := fun _ => None;
     summary_fault := None;
     Date_now := 61000 |}.

Definition plain (i : Z) : comment := {| id := i; body := Some "LGTM" |}.
Definition sticky (i : Z) : comment :=
  {| id := i; body := Some (COMMENT_MARKER ++ nl ++ "old report") |}.

Definition w (cs : list comment) : world :=
  {| context := surroundings; comments := cs; trace := [] |}.

(** The API refuses to write: the token lacks the permission. *)
Definition denied : js_error := Error "Resource not accessible by integration".

(** The surroundings with an API that rejects the creation of comments,
    or with a summary that cannot be written. *)
Definition with_faults (create_fault write_fault : option js_error) : world :=
  {| context :=
       {| getInput := getInput surroundings; getState := getState surroundings;
          process_env := process_env surroundings;
          os_platform := os_platform surroundings;
          os_arch := os_arch surroundings;
          os_homedir := os_homedir surroundings;
          glob_lockfiles := glob_lockfiles surroundings;
          fs_existsSync := fs_existsSync surroundings;
          fs_readFileSync := fs_readFileSync surroundings;
          exec_kache := exec_kache surroundings;
          cache_saveCache := cache_saveCache surroundings;
          pull_request_number := pull_request_number surroundings;
          issue_number_of_context := issue_number_of_context surroundings;
          getOctokit_fault := getOctokit_fault surroundings;
          api_fault := fun call =>
            match call with
            | CreateComment _ _ => create_fault
            | _ => None
            end;
          summary_fault := write_fault;
          Date_now := Date_now surroundings |};
     comments := [plain 1];
     trace := [] |}.

(** A thread of 100 plain comments followed by the sticky one. *)
Definition long_thread : list comment :=
  (map (fun n => plain (Z.of_nat n)) (seq 1 100) ++ [sticky 101])%list.

(** Eleven misses of which only the cheapest carries a cache key. *)
Definition eleven_misses : list json :=
  (map (fun n => miss "dep" (Some (5000 - Z.of_nat n)) None) (seq 0 10)
   ++ [miss "last" (Some 1) (Some "0123456789abcdef")])%list.

End Sample.

(** What a piece of code guarantees of the state it leaves, whether it
    returns or throws. *)
Definition guarantees {St A : Type} (G : St -> St -> Prop)
           (m : St -> outcome A * St) : Prop :=
  forall s, G s (snd (m s)).

(** The kinds of observations. *)
Inductive kind : Type := KInfo | KWarning | KExec | KApi | KCacheSave | KSummary.

Definition kind_of (o : obs) : kind :=
  match o with
  | Info _ => KInfo
  | Warning _ => KWarning
  | Exec _ => KExec
  | Api _ => KApi
  | CacheSave _ _ => KCacheSave
  | SummaryWrite _ => KSummary
  end.

Definition kind_eqb (a b : kind) : bool :=
  match a, b with
  | KInfo, KInfo | KWarning, KWarning | KExec, KExec
  | KApi, KApi | KCacheSave, KCacheSave | KSummary, KSummary => true
  | _, _ => false
  end.

(** An observation of one of the kinds [ks]. *)
Definition of_kinds (ks : list kind) (o : obs) : bool :=
  existsb (kind_eqb (kind_of o)) ks.

(** [w'] is [w] after observations of the kinds [ks] only, in the same
    surroundings. *)
Definition extends (ks : list kind) (w w' : world) : Prop :=
  context w' = context w /\
  exists d, trace w' = (trace w ++ d)%list /\ forallb (of_kinds ks) d = true.
(** Code that only reads the surroundings: what it returns or throws is a
    function of them, and the world stays as it is. *)
Definition reads {A : Type} (m : M A) : Prop :=
  exists f : env -> outcome A, forall w, m w = (f (context w), w).

(** A digit of lower-case hexadecimal notation. *)
Definition is_hex_digit (c : ascii) : bool :=
  let n := nat_of_ascii c in
  (((48 <=? n) && (n <=? 57)) || ((97 <=? n) && (n <=? 102)))%nat.

(** [w'] has the comments of [w]. *)
Definition same_thread (w w' : world) : Prop := comments w' = comments w.

(** The two halves of the post step: the push of the cache, and the
    report (the comment and the summary), with the backend, the duration
    and the text of the summary that the report computes. *)
Definition push_cache (s3Configured ghCache : bool) : M unit :=
  if s3Configured then
    let saveArgs := ["save-manifest"] in
    manifestKey <- asks (fun c => getInput c "manifest-key") ;;
    let saveArgs :=
      if truthy_string manifestKey
      then (saveArgs ++ ["--manifest-key"; manifestKey])%list else saveArgs in
    core_info "Saving build manifest..." ;;;
    runKache saveArgs ;;;
    core_info "Pushing cache to S3..." ;;;
    runKache ["sync"; "--push"] ;;;
    ret tt
  else if ghCache then
    core_info "Saving cache to GitHub Actions cache..." ;;;
    saveCache
  else ret tt.

Definition backend_of (s3Configured ghCache : bool) : string :=
  if s3Configured then "S3"
  else if ghCache then "GitHub Actions cache" else "local only".

Definition duration_of (started : string) (now : Z) : string :=
  match parseInt (or_string (Some started) "0") with
  | Some t =>
      if truthy_number t then toFixed1 (div (ofZ (now - t)) (ofZ 1000)) else "?"
  | None => "?"
  end.

Definition summary_text (stats : option Stats.t) (backend duration : string) : string :=
  let summary := summary_addHeading "" "Kache Build Cache" in
  match worth_reporting stats with
  | Some st =>
      summary_addRaw
        (summary_addRaw
           (summary_addRaw summary (headline st ++ nl ++ nl))
           (buildStatsMarkdown st backend duration))
        nl
  | None =>
      summary_addRaw summary
        ("**Backend:** " ++ backend ++ " | **Duration:** " ++ duration ++ "s" ++ nl ++ nl)
  end.

Definition report (JSON_parse : string -> option json) (s3Configured ghCache : bool)
  : M unit :=
  stats <- parseEvents JSON_parse ;;
  started <- asks (fun c => getState c "start-time") ;;
  now <- asks Date_now ;;
  let duration := duration_of started now in
  let backend := backend_of s3Configured ghCache in
  match worth_reporting stats with
  | Some st =>
      token <- asks (fun c => getInput c "token") ;;
      publish_comment (buildCommentBody st backend duration) token
  | None => ret tt
  end ;;;
  summary_write (summary_text stats backend duration).

(** The pairs of platform and architecture that kache is built for. *)
Definition supported (platform arch : string) : bool :=
  ((platform =? "linux") || (platform =? "darwin"))%string
  && ((arch =? "x64") || (arch =? "arm64"))%string.

(** The runner after more has been logged, and after more has been done. *)
Definition noted (r : runner) (os : list obs) : runner :=
  {| current := logged (current r) os; tools := tools r; effects := effects r |}.

Definition did (r : runner) (es : list effect) : runner :=
  {| current := current r; tools := tools r; effects := (effects r ++ es)%list |}.

(** The kinds of effects. *)
Inductive ekind : Type :=
| ERelease | EDownload | EExtract | ECacheDir | ERestore | EWrite
| EPath | EExport | ESecret | EState | EFailed.

Definition effect_kind (e : effect) : ekind :=
  match e with
  | LatestRelease _ _ => ERelease
  | Download _ => EDownload
  | ExtractTar _ => EExtract
  | CacheDir _ _ _ => ECacheDir
  | CacheRestore _ _ _ => ERestore
  | WriteFile _ _ => EWrite
  | AddPath _ => EPath
  | ExportVariable _ _ => EExport
  | SetSecret _ => ESecret
  | SaveState _ _ => EState
  | SetFailed _ => EFailed
  end.

Definition ekind_eqb (a b : ekind) : bool :=
  match a, b with
  | ERelease, ERelease | EDownload, EDownload | EExtract, EExtract
  | ECacheDir, ECacheDir | ERestore, ERestore | EWrite, EWrite
  | EPath, EPath | EExport, EExport | ESecret, ESecret
  | EState, EState | EFailed, EFailed => true
  | _, _ => false
  end.

Definition of_ekinds (ks : list ekind) (e : effect) : bool :=
  existsb (ekind_eqb (effect_kind e)) ks.

(** The surroundings [c'] are [c] but for the variables of the process
    and the files. *)
Definition same_inputs (c c' : env) : Prop :=
  getInput c' = getInput c /\ getState c' = getState c /\
  os_platform c' = os_platform c /\ os_arch c' = os_arch c /\
  os_homedir c' = os_homedir c /\ glob_lockfiles c' = glob_lockfiles c /\
  exec_kache c' = exec_kache c /\ cache_saveCache c' = cache_saveCache c /\
  pull_request_number c' = pull_request_number c /\
  issue_number_of_context c' = issue_number_of_context c /\
  getOctokit_fault c' = getOctokit_fault c /\ api_fault c' = api_fault c /\
  summary_fault c' = summary_fault c /\ Date_now c' = Date_now c.

(** What a piece of the setup step may change: the kinds of what it logs
    and of what it does, the variables it sets, and whether it writes
    files. *)
Record change : Type := {
  obs_kinds : list kind;
  effect_kinds : list ekind;
  variables : list string;
  files : bool
}.

Definition evolves (ch : change) (r r' : runner) : Prop :=
  let c := context (current r) in
  let c' := context (current r') in
  tools r' = tools r /\
  comments (current r') = comments (current r) /\
  (exists d, trace (current r') = (trace (current r) ++ d)%list /\
             forallb (of_kinds (obs_kinds ch)) d = true) /\
  (exists d, effects r' = (effects r ++ d)%list /\
             forallb (of_ekinds (effect_kinds ch)) d = true) /\
  same_inputs c c' /\
  (forall k, ~ In k (variables ch) -> process_env c' k = process_env c k) /\
  (files ch = false ->
   fs_existsSync c' = fs_existsSync c /\ fs_readFileSync c' = fs_readFileSync c).

(** The second change allows what the first one does. *)
Definition within (ch ch' : change) : Prop :=
  incl (obs_kinds ch) (obs_kinds ch') /\
  incl (effect_kinds ch) (effect_kinds ch') /\
  incl (variables ch) (variables ch') /\
  (files ch = true -> files ch' = true).

Definition only_logs (ks : list kind) : change :=
  {| obs_kinds := ks; effect_kinds := []; variables := []; files := false |}.

Definition only_does (ks : list ekind) : change :=
  {| obs_kinds := []; effect_kinds := ks; variables := []; files := false |}.

(** What the parts of the setup step may change. *)
Definition downloading : change :=
  {| obs_kinds := [KInfo]; effect_kinds := [EDownload];
     variables := []; files := false |}.

Definition resolving : change :=
  {| obs_kinds := [KInfo]; effect_kinds := [ERelease];
     variables := []; files := false |}.

Definition installing : change :=
  {| obs_kinds := [KInfo; KWarning];
     effect_kinds := [EDownload; EExtract; ECacheDir];
     variables := []; files := false |}.

Definition exporting : change :=
  {| obs_kinds := [KInfo];
     effect_kinds := [EPath; EExport; ESecret];
     variables := ["PATH"; "RUSTC_WRAPPER"; "KACHE_LOG"; "KACHE_VERSION";
                   "KACHE_S3_BUCKET"; "KACHE_S3_REGION"; "KACHE_S3_PREFIX";
                   "KACHE_S3_ENDPOINT"; "KACHE_S3_ACCESS_KEY"; "KACHE_S3_SECRET_KEY";
                   "KACHE_CACHE_EXECUTABLES"];
     files := false |}.

Definition restoring : change :=
  {| obs_kinds := [KInfo; KWarning; KExec]; effect_kinds := [ERestore];
     variables := []; files := false |}.

Definition clearing : change :=
  {| obs_kinds := [KInfo]; effect_kinds := [EWrite];
     variables := []; files := true |}.

(** Everything but the state for the post step and the failure of the
    step. *)
Definition preparing : change :=
  {| obs_kinds := [KInfo; KWarning; KExec];
     effect_kinds := [ERelease; EDownload; EExtract; ECacheDir; ERestore; EWrite;
                      EPath; EExport; ESecret];
     variables := variables exporting; files := true |}.

(** The addresses of a release of kache for a target, and the first piece
    of the text of a checksum file. *)
Definition tarName_of (target : string) : string := "kache-" ++ target ++ ".tar.gz".

Definition tarUrl_of (version target : string) : string :=
  ("https://github.com/kunobi-ninja/kache/releases/download/" ++ version)
  ++ "/" ++ tarName_of target.

Definition shaUrl_of (version target : string) : string :=
  ("https://github.com/kunobi-ninja/kache/releases/download/" ++ version)
  ++ "/" ++ tarName_of target ++ ".sha256".

Definition expectedHash_of (text : string) : string :=
  hd "" (split_spaces (trim text)).

(** The runner after the two downloads of [downloadAndVerify]. *)
Definition downloaded (r : runner) (version target : string) : runner :=
  did (noted r [Info ("Downloading " ++ tarUrl_of version target);
                Info ("Downloading checksum " ++ shaUrl_of version target)])
      [Download (tarUrl_of version target); Download (shaUrl_of version target)].

(** The cache directory and the path of the event log, as functions of
    the surroundings. *)
Definition cacheDir_of (c : env) : string :=
  let by_platform :=
    if (os_platform c =? "darwin")%string
    then path_join (path_join (path_join (os_homedir c) "Library") "Caches") "kache"
    else path_join (path_join (os_homedir c) ".cache") "kache" in
  match process_env c "KACHE_CACHE_DIR" with
  | Some d => if truthy_string d then d else by_platform
  | None => by_platform
  end.

Definition logPath_of (c : env) : string := path_join (cacheDir_of c) "events.jsonl".

(** An answer of the release API that leaves the step without a version:
    no release (status 404), or a release without a tag. *)
Definition no_release (answer : release) : bool :=
  match answer with
  | Latest tag_name => negb (truthy tag_name)
  | Rejected (Some 404) _ => true
  | Rejected _ _ => false
  end.

(** Code that returns, whatever the state. *)
Definition returns {St A : Type} (m : St -> outcome A * St) : Prop :=
  forall s, exists a, fst (m s) = Returned a.

(** Everything that the setup step may change, but for its failure. *)
Definition setting_up : change :=
  {| obs_kinds := [KInfo; KWarning; KExec];
     effect_kinds := [ERelease; EDownload; EExtract; ECacheDir; ERestore; EWrite;
                      EPath; EExport; ESecret; EState];
     variables := variables exporting; files := true |}.

Definition running : change :=
  {| obs_kinds := [KInfo; KWarning; KExec];
     effect_kinds := [ERelease; EDownload; EExtract; ECacheDir; ERestore; EWrite;
                      EPath; EExport; ESecret; EState; EFailed];
     variables := variables exporting; files := true |}.

(** The binary of a version for a target is at hand on a runner: in the
    tool cache, or as a download whose digest is the one of the checksum
    file downloaded beside it. *)
Definition binary_at_hand (r : runner) (version target : string) : Prop :=
  (exists toolDir,
     tc_find (tools r) "kache" (Setup.semver_of version) = Returned toolDir /\
     toolDir <> "") \/
  (exists tarPath shaPath text archive,
     tc_downloadTool (tools r) (tarUrl_of version target) = Returned tarPath /\
     tc_downloadTool (tools r) (shaUrl_of version target) = Returned shaPath /\
     fs_readFileSync (context (current r)) shaPath = Returned text /\
     fs_readFileSync (context (current r)) tarPath = Returned archive /\
     expectedHash_of text = Sha256.hex archive).

(** What one entry of the table of S3 variables makes the step do. *)
Definition exported_by (c : env) (entry : string * string) : list effect :=
  let value := getInput c (fst entry) in
  if truthy_string value then
    ExportVariable (snd entry) value
    :: (if includes "secret" (fst entry) || includes "access-key" (fst entry)
        then [SetSecret value] else [])
  else [].

(** The state that the setup step saves for the post step. *)
Definition saved_state (c : env) (s3 ghCache : bool) (version : string) : list effect :=
  [SaveState "start-time" (toString (Date_now c));
   SaveState "s3-configured" (if s3 then "true" else "false");
   SaveState "gh-cache" (if ghCache then "true" else "false");
   SaveState "kache-version" version].

Definition asking_cache : change :=
  {| obs_kinds := [KInfo; KWarning]; effect_kinds := [ERestore];
     variables := []; files := false |}.

(** The backends that the setup step chooses from its inputs. *)
Definition s3_of (c : env) : bool := truthy_string (getInput c "s3-bucket").

Definition ghCache_of (c : env) : bool :=
  negb (s3_of c) && (getInput c "github-cache" =? "true")%string.

(** What the exports after the one of the version may change. *)
Definition exporting_s3 : change :=
  {| obs_kinds := [];
     effect_kinds := [EExport; ESecret];
     variables := ["KACHE_S3_BUCKET"; "KACHE_S3_REGION"; "KACHE_S3_PREFIX";
                   "KACHE_S3_ENDPOINT"; "KACHE_S3_ACCESS_KEY"; "KACHE_S3_SECRET_KEY";
                   "KACHE_CACHE_EXECUTABLES"];
     files := false |}.

(** What the step may change before it configures the build, and what it
    may change from there on. *)
Definition fetching : change :=
  {| obs_kinds := [KInfo; KWarning];
     effect_kinds := [ERelease; EDownload; EExtract; ECacheDir];
     variables := []; files := false |}.

Definition configuring : change :=
  {| obs_kinds := [KInfo; KWarning; KExec];
     effect_kinds := [ERestore; EWrite; EPath; EExport; ESecret; EState];
     variables := variables exporting; files := true |}.

(** Sample runners for the setup step: the surroundings of [Sample] with
    other inputs, state and files, on a machine with or without kache in
    its tool cache. *)
Module SampleSetup.

Definition surroundings_with (input state : string -> string)
           (present : string -> bool) (read : string -> outcome string) : env :=
  {| getInput := input; getState := state;
     process_env := process_env Sample.surroundings;
     os_platform := os_platform Sample.surroundings;
     os_arch := os_arch Sample.surroundings;
     os_homedir := os_homedir Sample.surroundings;
     glob_lockfiles := glob_lockfiles Sample.surroundings;
     fs_existsSync := present; fs_readFileSync := read;
     exec_kache := exec_kache Sample.surroundings;
     cache_saveCache := cache_saveCache Sample.surroundings;
     pull_request_number := pull_request_number Sample.surroundings;
     issue_number_of_context := issue_number_of_context Sample.surroundings;
     getOctokit_fault := getOctokit_fault Sample.surroundings;
     api_fault := api_fault Sample.surroundings;
     summary_fault := summary_fault Sample.surroundings;
     Date_now := Date_now Sample.surroundings |}.

Definition world_of (c : env) : world := {| context := c; comments := []; trace := [] |}.

(** The inputs of a workflow that pins the version. *)
Definition inputs (version github_cache : string) (k : string) : string :=
  if (k =? "version")%string then version
  else if (k =? "github-cache")%string then github_cache
  else getInput Sample.surroundings k.

(** The state that a setup step with S3 leaves. *)
Definition s3_state (k : string) : string :=
  if (k =? "s3-configured")%string then "true" else getState Sample.surroundings k.

(** An archive, and the checksum file that [sha256sum] writes for it. *)
Definition tool_dir : string := "/opt/hostedtoolcache/kache/0.3.1/x64".
Definition tar_path : string := "/tmp/dl/1a2b".
Definition sha_path : string := "/tmp/dl/3c4d".
Definition archive : string := "kache 0.3.1 for x86_64-unknown-linux-musl".
Definition checksum_rest : string :=
  "  kache-x86_64-unknown-linux-musl.tar.gz" ++ nl.

Definition files (p : string) : outcome string :=
  if (p =? tar_path)%string then Returned archive
  else if (p =? sha_path)%string then Returned (Sha256.hex archive ++ checksum_rest)
  else fs_readFileSync Sample.surroundings p.

(** A lockfile that cannot be read. *)
Definition locked_files (p : string) : outcome string :=
  if (p =? "/w/b/Cargo.lock")%string then Thrown (Error "EACCES: permission denied")
  else fs_readFileSync Sample.surroundings p.

(** A log whose only line is [null], and a decoder that knows it. *)
Definition null_log (p : string) : outcome string :=
  if (p =? Sample.log_path)%string then Returned "null"
  else fs_readFileSync Sample.surroundings p.

Definition JSON_parse (line : string) : option json :=
  if (line =? "null")%string then Some Null else Sample.JSON_parse line.

Definition machine (cached : bool) : host :=
  {| getLatestRelease := fun _ _ => Rejected (Some 404) (Error "Not Found");
     tc_find := fun _ _ => Returned (if cached then tool_dir else "");
     tc_downloadTool := fun url =>
       Returned (if includes ".sha256" url then sha_path else tar_path);
     tc_extractTar := fun _ => Returned "/tmp/extracted";
     tc_cacheDir := fun _ _ _ => Returned tool_dir;
     fs_writeFileSync_fault := fun _ => None;
     cache_restoreCache := fun _ key _ => Returned (Some key) |}.

Definition job (c : env) (cached : bool) : runner :=
  {| current := world_of c; tools := machine cached; effects := [] |}.

(** A workflow that pins version 0.3.1 and uses the GitHub Actions
    cache. *)
Definition pinned : env :=
  surroundings_with (inputs "0.3.1" "true") (getState Sample.surroundings)
                    (fs_existsSync Sample.surroundings) files.

End SampleSetup.

(** * Properties *)

(** ** The monad *)

Lemma bind_returned {A B : Type} (m : M A) (k : A -> M B) (w w' : world) (a : A) :
  m w = (Returned a, w') -> bind m k w = k a w'.
Proof. intros E. unfold bind. rewrite E. reflexivity. Qed.

Lemma bind_thrown {A B : Type} (m : M A) (k : A -> M B) (w w' : world) err :
  m w = (Thrown err, w') -> bind m k w = (Thrown err, w').
Proof. intros E. unfold bind. rewrite E. reflexivity. Qed.

(** A loop whose body never throws and leaves the world alone is a fold. *)
Lemma for_of_pure {A S : Type} (body : S -> A -> M S) (f : S -> A -> S)
      (l : list A) (w : world) :
  forall s,
    (forall s x, In x l -> body s x w = (Returned (f s x), w)) ->
    for_of body l s w = (Returned (fold_left f l s), w).
Proof.
  induction l as [| x t IH]; intros s Hbody; simpl.
  - reflexivity.
  - rewrite (bind_returned _ _ w w (f s x)).
    + apply IH. intros s' y Hy. apply Hbody. now right.
    + apply Hbody. now left.
Qed.

(** ** [Array.prototype.sort] *)

Section SortFacts.

Context {A : Type} (cmp : A -> A -> Z).

Lemma insert_perm (x : A) (l : list A) : Permutation (insert cmp x l) (x :: l).
Proof.
  induction l as [| y t IH]; simpl.
  - apply Permutation_refl.
  - destruct (cmp x y <=? 0).
    + apply Permutation_refl.
    + apply perm_trans with (y :: x :: t).
      * now apply perm_skip.
      * apply perm_swap.
Qed.

Lemma sort_perm (l : list A) : Permutation (sort cmp l) l.
Proof.
  induction l as [| x t IH]; simpl.
  - apply perm_nil.
  - apply perm_trans with (x :: sort cmp t).
    + apply insert_perm.
    + now apply perm_skip.
Qed.

(** Stability: the elements of a class [P] whose members may stand in
    either order keep the order they had. *)
Lemma insert_filter (P : A -> bool) (x : A) (l : list A) :
  (P x = true -> forall y, In y l -> P y = true -> before cmp x y) ->
  filter P (insert cmp x l) = filter P (x :: l).
Proof.
  induction l as [| y t IH]; intros H; simpl.
  - reflexivity.
  - destruct (cmp x y <=? 0) eqn:E.
    + reflexivity.
    + simpl. rewrite IH.
      * simpl. destruct (P x) eqn:Px; [| reflexivity].
        destruct (P y) eqn:Py; [| reflexivity].
        assert (Hb : before cmp x y) by (apply H; simpl; auto).
        unfold before in Hb. apply Z.leb_gt in E. lia.
      * intros Px z Hz Pz. apply H; simpl; auto.
Qed.

Lemma sort_stable (P : A -> bool) (l : list A) :
  (forall x y, P x = true -> P y = true -> before cmp x y) ->
  filter P (sort cmp l) = filter P l.
Proof.
  intros H. induction l as [| x t IH]; simpl.
  - reflexivity.
  - rewrite insert_filter.
    + simpl. now rewrite IH.
    + intros Px y _ Py. now apply H.
Qed.

Hypothesis total : forall x y, before cmp x y \/ before cmp y x.
Hypothesis trans : forall x y z, before cmp x y -> before cmp y z -> before cmp x z.

Lemma insert_sorted (x : A) (l : list A) :
  StronglySorted (before cmp) l -> StronglySorted (before cmp) (insert cmp x l).
Proof.
  induction 1 as [| y t Ht IH Hy]; simpl.
  - constructor; constructor.
  - destruct (cmp x y <=? 0) eqn:E.
    + apply Z.leb_le in E. constructor.
      * now constructor.
      * constructor; [exact E |].
        apply Forall_forall. intros z Hz.
        apply trans with y; [exact E |].
        rewrite Forall_forall in Hy. now apply Hy.
    + apply Z.leb_gt in E. constructor; [exact IH |].
      apply Forall_forall. intros z Hz.
      apply (Permutation_in _ (insert_perm x t)) in Hz.
      destruct Hz as [<- | Hz].
      * destruct (total y x) as [H | H]; [exact H | unfold before in H; lia].
      * rewrite Forall_forall in Hy. now apply Hy.
Qed.

Lemma sort_sorted (l : list A) : StronglySorted (before cmp) (sort cmp l).
Proof.
  induction l as [| x t IH]; simpl.
  - constructor.
  - now apply insert_sorted.
Qed.

(** Under an antisymmetric order the sorted arrangement is unique. *)
Hypothesis antisym : forall x y, before cmp x y -> before cmp y x -> x = y.

Lemma sorted_perm_eq (l1 l2 : list A) :
  StronglySorted (before cmp) l1 -> StronglySorted (before cmp) l2 ->
  Permutation l1 l2 -> l1 = l2.
Proof.
  intros S1. revert l2.
  induction S1 as [| a t1 St1 IH Ha]; intros l2 S2 HP.
  - apply Permutation_nil in HP. now subst.
  - destruct S2 as [| b t2 St2 Hb].
    + apply Permutation_sym, Permutation_nil in HP. discriminate.
    + assert (a = b) as <-.
      { rewrite Forall_forall in Ha, Hb.
        assert (Ia : In a (b :: t2))
          by (apply (Permutation_in _ HP); now left).
        assert (Ib : In b (a :: t1))
          by (apply (Permutation_in _ (Permutation_sym HP)); now left).
        destruct Ia as [-> | Ia]; [reflexivity |].
        destruct Ib as [-> | Ib]; [reflexivity |].
        apply antisym; auto. }
      f_equal. apply IH; [exact St2 |].
      now apply Permutation_cons_inv with a.
Qed.

Lemma sort_perm_invariant (l1 l2 : list A) :
  Permutation l1 l2 -> sort cmp l1 = sort cmp l2.
Proof.
  intros HP. apply sorted_perm_eq; try apply sort_sorted.
  apply perm_trans with l1; [apply sort_perm |].
  apply perm_trans with l2; [exact HP |].
  apply Permutation_sym, sort_perm.
Qed.

End SortFacts.

(** ** Doubles

    The operations of [SpecFloat] on the doubles that the action meets:
    integers below 2^53, their quotients and the products by 100. *)

Lemma Zdigits2_bounds (m : Z) : 0 < m -> 2 ^ (Zdigits2 m - 1) <= m < 2 ^ (Zdigits2 m).
Proof.
  destruct m as [| p | p]; try lia. intros _. cbn [Zdigits2].
  induction p as [p IH | p IH |]; cbn [digits2_pos].
  - rewrite Pos2Z.inj_succ. replace (Z.succ (Z.pos (digits2_pos p)) - 1) with (Z.succ (Z.pos (digits2_pos p) - 1)) by lia.
    rewrite !Z.pow_succ_r by lia. lia.
  - rewrite Pos2Z.inj_succ. replace (Z.succ (Z.pos (digits2_pos p)) - 1) with (Z.succ (Z.pos (digits2_pos p) - 1)) by lia.
    rewrite !Z.pow_succ_r by lia. lia.
  - cbn. lia.
Qed.

Lemma Zdigits2_unique (m d : Z) : 2 ^ (d - 1) <= m < 2 ^ d -> 0 < m -> Zdigits2 m = d.
Proof.
  intros H Hm. pose proof (Zdigits2_bounds m Hm) as B.
  assert (0 < Zdigits2 m) by (destruct m; cbn; lia).
  destruct (Z.lt_trichotomy (Zdigits2 m) d) as [L | [E | G]]; [| exact E |].
  - exfalso. assert (2 ^ Zdigits2 m <= 2 ^ (d - 1)) by (apply Z.pow_le_mono_r; lia). lia.
  - exfalso. assert (0 <= d \/ d < 0) as [Hd|Hd] by lia.
    + assert (2 ^ d <= 2 ^ (Zdigits2 m - 1)) by (apply Z.pow_le_mono_r; lia). lia.
    + rewrite (Z.pow_neg_r 2 d) in H by lia. lia.
Qed.

Lemma shr_1_m (mrs : shr_record) : 0 <= shr_m mrs -> shr_m (shr_1 mrs) = shr_m mrs / 2.
Proof.
  destruct mrs as [m r s]. cbn [shr_m]. intros H.
  destruct m as [| [p | p |] | p]; cbn [shr_1 shr_m]; try lia.
  all: try reflexivity.
  - apply Z.div_unique with 1; lia.
  - apply Z.div_unique with 0; lia.
Qed.

Lemma iter_shr_m (p : positive) : forall mrs, 0 <= shr_m mrs ->
  shr_m (iter_pos shr_1 p mrs) = shr_m mrs / 2 ^ Zpos p.
Proof.
  induction p as [p IH | p IH |]; intros mrs H; cbn [iter_pos].
  - assert (H1 : 0 <= shr_m (shr_1 mrs)) by (rewrite shr_1_m by lia; apply Z.div_pos; lia).
    assert (H2 : 0 <= shr_m (iter_pos shr_1 p (shr_1 mrs))) by (rewrite IH by lia; apply Z.div_pos; lia).
    rewrite IH by lia. rewrite IH by lia. rewrite shr_1_m by lia.
    rewrite !Z.div_div by lia. f_equal.
    rewrite Pos2Z.inj_xI. rewrite Z.pow_add_r, Z.pow_mul_r by lia. rewrite <- Z.pow_add_r by lia.
    replace (Z.pos p + Z.pos p) with (2 * Z.pos p) by lia. rewrite Z.pow_mul_r by lia. lia.
  - assert (H2 : 0 <= shr_m (iter_pos shr_1 p mrs)) by (rewrite IH by lia; apply Z.div_pos; lia).
    rewrite IH by lia. rewrite IH by lia.
    rewrite !Z.div_div by lia. f_equal.
    rewrite Pos2Z.inj_xO. rewrite <- Z.pow_add_r by lia. f_equal. lia.
  - rewrite shr_1_m by lia. reflexivity.
Qed.

Lemma shr_1_flags (mrs : shr_record) :
  shr_r mrs = false -> shr_s mrs = false -> 0 <= shr_m mrs -> (2 | shr_m mrs) ->
  shr_r (shr_1 mrs) = false /\ shr_s (shr_1 mrs) = false.
Proof.
  destruct mrs as [m r s]. cbn [shr_m shr_r shr_s]. intros -> -> H [k Hk].
  destruct m as [| [p | p |] | p]; cbn; try lia; auto.
Qed.

Lemma iter_shr_flags (p : positive) : forall mrs,
  shr_r mrs = false -> shr_s mrs = false -> 0 <= shr_m mrs ->
  (2 ^ Zpos p | shr_m mrs) ->
  shr_r (iter_pos shr_1 p mrs) = false /\ shr_s (iter_pos shr_1 p mrs) = false.
Proof.
  induction p as [p IH | p IH |]; intros mrs Hr Hs Hm [k Hk]; cbn [iter_pos].
  - rewrite (Pos2Z.inj_xI p) in Hk.
    assert (E : shr_m mrs = 2 * (2 ^ Z.pos p * (2 ^ Z.pos p * k))).
    { rewrite Hk. rewrite Z.pow_add_r by lia. rewrite Z.pow_mul_r by lia.
      change (2 ^ 2) with (2 * 2). change (2 ^ 1) with 2.
      rewrite Z.pow_mul_l. ring. }
    destruct (shr_1_flags mrs Hr Hs Hm) as [Hr1 Hs1]; [exists (2 ^ Z.pos p * (2 ^ Z.pos p * k)); lia |].
    assert (M1 : shr_m (shr_1 mrs) = 2 ^ Z.pos p * (2 ^ Z.pos p * k)).
    { rewrite shr_1_m by lia. rewrite E. rewrite Z.mul_comm, Z.div_mul by lia. reflexivity. }
    assert (P1 : 0 <= shr_m (shr_1 mrs)) by (rewrite shr_1_m by lia; apply Z.div_pos; lia).
    destruct (IH (shr_1 mrs) Hr1 Hs1 P1) as [Hr2 Hs2]; [exists (2 ^ Z.pos p * k); lia |].
    assert (P2 : 0 <= shr_m (iter_pos shr_1 p (shr_1 mrs))) by (rewrite iter_shr_m by lia; apply Z.div_pos; lia).
    apply IH; auto.
    rewrite iter_shr_m by lia. rewrite M1.
    rewrite Z.mul_comm, Z.div_mul by lia. exists k. lia.
  - rewrite (Pos2Z.inj_xO p) in Hk.
    assert (E : shr_m mrs = (2 ^ Z.pos p * k) * 2 ^ Z.pos p).
    { rewrite Hk. rewrite Z.pow_mul_r by lia.
      change (2 ^ 2) with (2 * 2). rewrite Z.pow_mul_l. ring. }
    destruct (IH mrs Hr Hs Hm) as [Hr2 Hs2]; [exists (2 ^ Z.pos p * k); lia |].
    assert (P2 : 0 <= shr_m (iter_pos shr_1 p mrs)) by (rewrite iter_shr_m by lia; apply Z.div_pos; lia).
    apply IH; auto.
    rewrite iter_shr_m by lia. rewrite E.
    rewrite Z.div_mul by lia. exists k. lia.
  - apply shr_1_flags; auto. exists k. lia.
Qed.

Lemma round_nearest_even_cases (m : Z) (l : location) :
  round_nearest_even m l = m \/ round_nearest_even m l = m + 1.
Proof.
  destruct l as [| []]; cbn; auto. destruct (Z.even m); auto.
Qed.

Lemma fexp_normal (e : Z) : -1021 <= e -> fexp prec emax e = e - 53.
Proof. unfold fexp, emin, prec, emax. lia. Qed.

Lemma quotient_53 (mx : Z) : 0 < mx -> 53 <= Zdigits2 mx ->
  2 ^ 52 <= mx / 2 ^ (Zdigits2 mx - 53) < 2 ^ 53.
Proof.
  intros H Hd. pose proof (Zdigits2_bounds mx H) as [Lo Hi].
  set (d := Zdigits2 mx) in *. set (n := d - 53).
  assert (Hn : 0 <= n) by lia.
  assert (P : 0 < 2 ^ n) by (apply Z.pow_pos_nonneg; lia).
  assert (E1 : 2 ^ (d - 1) = 2 ^ 52 * 2 ^ n).
  { rewrite <- Z.pow_add_r by lia. f_equal. lia. }
  assert (E2 : 2 ^ d = 2 ^ 53 * 2 ^ n).
  { rewrite <- Z.pow_add_r by lia. f_equal. lia. }
  split.
  - apply Z.div_le_lower_bound; lia.
  - apply Z.div_lt_upper_bound; lia.
Qed.

(** Rounding a wide mantissa to 53 bits, away from underflow and overflow. *)
Lemma binary_round_aux_normal (s : bool) (mx ex : Z) (lx : location) :
  0 < mx -> 53 <= Zdigits2 mx ->
  -1021 <= Zdigits2 mx + ex -> Zdigits2 mx + ex <= 1023 ->
  let n := Zdigits2 mx - 53 in
  let Q := mx / 2 ^ n in
  exists m e k R,
    binary_round_aux prec emax s mx ex lx = S754_finite s m e /\
    e = ex + n + k /\ 0 <= k <= 1 /\ Zpos m * 2 ^ k = R /\
    2 ^ 52 <= Zpos m < 2 ^ 53 /\
    (R = Q \/ R = Q + 1) /\
    (lx = loc_Exact -> (2 ^ n | mx) -> R = Q).
Proof.
  intros Hm Hd Hlo Hhi n Q.
  pose proof (quotient_53 mx Hm Hd) as HQ. fold n in HQ. fold Q in HQ.
  unfold binary_round_aux, shr_fexp.
  rewrite (fexp_normal (Zdigits2 mx + ex)) by lia.
  replace (Zdigits2 mx + ex - 53 - ex) with n by (unfold n; lia).
  (* the first shift *)
  assert (S1 : exists mrs,
             shr (shr_record_of_loc mx lx) ex n = (mrs, ex + n) /\
             shr_m mrs = Q /\
             (lx = loc_Exact -> (2 ^ n | mx) -> shr_r mrs = false /\ shr_s mrs = false)).
  { assert (M0 : shr_m (shr_record_of_loc mx lx) = mx) by (destruct lx as [| []]; reflexivity).
    unfold shr. destruct n as [| p | p] eqn:En; try lia.
    - exists (shr_record_of_loc mx lx). rewrite Z.add_0_r. split; [reflexivity |].
      split; [rewrite M0; unfold Q; now rewrite Z.div_1_r |].
      intros -> _. split; reflexivity.
    - exists (iter_pos shr_1 p (shr_record_of_loc mx lx)). split; [reflexivity |].
      split; [rewrite iter_shr_m by (rewrite M0; lia); now rewrite M0 |].
      intros -> Hdiv. apply iter_shr_flags; try reflexivity; cbn; [lia | exact Hdiv]. }
  destruct S1 as [mrs [-> [HmQ Hex]]].
  set (R := round_nearest_even (shr_m mrs) (loc_of_shr_record mrs)).
  assert (HR : R = Q \/ R = Q + 1) by (unfold R; rewrite <- HmQ; apply round_nearest_even_cases).
  assert (HRex : lx = loc_Exact -> (2 ^ n | mx) -> R = Q).
  { intros H1 H2. destruct (Hex H1 H2) as [Hr Hs]. unfold R.
    destruct mrs as [m0 r0 s0]. cbn in Hr, Hs, HmQ |- *. subst. reflexivity. }
  assert (M0 : forall l, shr_m (shr_record_of_loc R l) = R) by (intros [| []]; reflexivity).
  destruct (Z.eq_dec R (2 ^ 53)) as [E53 | N53].
  - (* carry: one more shift *)
    assert (D : Zdigits2 R = 54) by (rewrite E53; reflexivity).
    rewrite D. rewrite (fexp_normal (54 + (ex + n))) by (unfold n; lia).
    replace (54 + (ex + n) - 53 - (ex + n)) with 1 by lia.
    rewrite E53. cbn -[Z.pow Z.add].
    replace (ex + n + 1 <=? emax - prec) with true
      by (symmetry; apply Z.leb_le; unfold emax, prec, n; lia).
    exists (4503599627370496%positive), (ex + n + 1), 1, R.
    repeat split; try lia; try (rewrite E53; reflexivity); auto.
  - assert (B : 2 ^ 52 <= R < 2 ^ 53) by lia.
    assert (D : Zdigits2 R = 53) by (apply Zdigits2_unique; lia).
    rewrite D. rewrite (fexp_normal (53 + (ex + n))) by (unfold n; lia).
    replace (53 + (ex + n) - 53 - (ex + n)) with 0 by lia.
    cbn [shr]. rewrite M0.
    destruct R as [| r | r] eqn:ER; try lia.
    replace (ex + n <=? emax - prec) with true
      by (symmetry; apply Z.leb_le; unfold emax, prec, n; lia).
    exists r, (ex + n), 0, (Zpos r).
    repeat split; try lia; auto.
Qed.

Lemma iter_xO (p d : positive) : Zpos (Pos.iter xO p d) = Zpos p * 2 ^ Zpos d.
Proof.
  revert p. induction d as [| d IH] using Pos.peano_ind; intros p.
  - rewrite Pos.iter_succ_r || idtac. cbn. lia.
  - rewrite Pos.iter_succ. rewrite Pos2Z.inj_xO, IH, Pos2Z.inj_succ, Z.pow_succ_r by lia. ring.
Qed.

(** An integer below 2^53 is a double: its 53-bit mantissa and exponent. *)
Lemma ofZ_exact (z : Z) :
  0 < z < 2 ^ 53 ->
  exists m, ofZ z = S754_finite false m (Zdigits2 z - 53) /\
            Zpos m = z * 2 ^ (53 - Zdigits2 z) /\ 2 ^ 52 <= Zpos m < 2 ^ 53.
Proof.
  intros [Hz Hlt]. destruct z as [| p | p]; try lia.
  pose proof (Zdigits2_bounds (Zpos p) Hz) as [Lo Hi].
  assert (Hd : 1 <= Zdigits2 (Zpos p) <= 53).
  { split; [cbn; lia |].
    destruct (Z.le_gt_cases (Zdigits2 (Zpos p)) 53) as [L | G]; [exact L |].
    exfalso. assert (2 ^ 53 <= 2 ^ (Zdigits2 (Z.pos p) - 1)) by (apply Z.pow_le_mono_r; lia). lia. }
  set (d := Zdigits2 (Zpos p)) in *.
  unfold ofZ, binary_normalize, binary_round.
  change (Z.pos (digits2_pos p)) with d.
  rewrite (fexp_normal (d + 0)) by lia.
  assert (A : exists mz, shl_align p 0 (d + 0 - 53) = (mz, d - 53) /\
                         Zpos mz = Zpos p * 2 ^ (53 - d)).
  { unfold shl_align. replace (d + 0 - 53 - 0) with (d - 53) by lia.
    destruct (d - 53) as [| q | q] eqn:E; try lia.
    - exists p. split; [reflexivity |]. replace (53 - d) with 0 by lia. lia.
    - exists (Pos.iter xO p q). split; [f_equal; lia |].
      rewrite iter_xO. f_equal. f_equal. lia. }
  destruct A as [mz [-> Emz]].
  assert (Bmz : 2 ^ 52 <= Zpos mz < 2 ^ 53).
  { rewrite Emz. split.
    - replace (2 ^ 52) with (2 ^ (d - 1) * 2 ^ (53 - d)).
      + apply Z.mul_le_mono_nonneg_r; [apply Z.pow_nonneg; lia | exact Lo].
      + rewrite <- Z.pow_add_r by lia. f_equal. lia.
    - replace (2 ^ 53) with (2 ^ d * 2 ^ (53 - d)).
      + apply Z.mul_lt_mono_pos_r; [apply Z.pow_pos_nonneg; lia | exact Hi].
      + rewrite <- Z.pow_add_r by lia. f_equal. lia. }
  assert (Dmz : Zdigits2 (Zpos mz) = 53) by (apply Zdigits2_unique; lia).
  destruct (binary_round_aux_normal false (Zpos mz) (d - 53) loc_Exact)
    as [m [e [k [R [E [He [Hk [HR [Hm [_ Hex]]]]]]]]]]; try lia.
  rewrite E. rewrite Dmz in He, Hex. replace (53 - 53) with 0 in * by lia.
  rewrite Z.div_1_r in Hex.
  specialize (Hex eq_refl (Z.divide_1_l _)).
  assert (k = 0).
  { destruct (Z.eq_dec k 0) as [K | K]; [exact K |]. assert (k = 1) by lia. subst k.
    change (2 ^ 1) with 2 in HR. lia. }
  subst k. rewrite Z.mul_1_r in HR.
  exists mz. assert (m = mz) by (apply Pos2Z.inj; lia). subst m.
  split; [f_equal; lia |]. split; [exact Emz | exact Bmz].
Qed.

Lemma new_location_zero (nb : Z) : new_location nb 0 = loc_Exact.
Proof. unfold new_location. destruct (Z.even nb); reflexivity. Qed.

(** The quotient of two doubles with full mantissas: the 107-bit quotient
    of the mantissas, rounded to 53 bits. *)
Lemma div_normal (m1 m2 : positive) (e1 e2 : Z) :
  2 ^ 52 <= Zpos m1 < 2 ^ 53 -> 2 ^ 52 <= Zpos m2 < 2 ^ 53 ->
  -900 <= e1 - e2 <= 900 ->
  let q := Zpos m1 * 2 ^ 53 / Zpos m2 in
  let r := (Zpos m1 * 2 ^ 53) mod Zpos m2 in
  let n := Zdigits2 q - 53 in
  exists m e k R,
    div (S754_finite false m1 e1) (S754_finite false m2 e2) = S754_finite false m e /\
    0 <= n <= 1 /\ e = e1 - e2 - 53 + n + k /\ 0 <= k <= 1 /\
    Zpos m * 2 ^ k = R /\ 2 ^ 52 <= Zpos m < 2 ^ 53 /\
    (R = q / 2 ^ n \/ R = q / 2 ^ n + 1) /\
    (r = 0 -> (2 ^ n | q) -> R = q / 2 ^ n).
Proof.
  intros B1 B2 He q r n.
  assert (D1 : Zdigits2 (Zpos m1) = 53) by (apply Zdigits2_unique; lia).
  assert (D2 : Zdigits2 (Zpos m2) = 53) by (apply Zdigits2_unique; lia).
  assert (Bq : 2 ^ 52 <= q < 2 ^ 54).
  { unfold q. split.
    - apply Z.div_le_lower_bound; [lia |].
      apply Z.le_trans with (2 ^ 53 * 2 ^ 52); [| nia].
      apply Z.mul_le_mono_nonneg_r; lia.
    - apply Z.div_lt_upper_bound; [lia |].
      apply Z.lt_le_trans with (2 ^ 53 * 2 ^ 53); [nia |].
      change (2 ^ 54) with (2 * 2 ^ 53). nia. }
  assert (Dq : 53 <= Zdigits2 q <= 54).
  { pose proof (Zdigits2_bounds q ltac:(lia)) as [Lo Hi].
    split.
    - destruct (Z.le_gt_cases 53 (Zdigits2 q)) as [L | G]; [exact L |].
      exfalso. assert (2 ^ Zdigits2 q <= 2 ^ 52) by (apply Z.pow_le_mono_r; lia). lia.
    - destruct (Z.le_gt_cases (Zdigits2 q) 54) as [L | G]; [exact L |].
      exfalso. assert (2 ^ 54 <= 2 ^ (Zdigits2 q - 1)) by (apply Z.pow_le_mono_r; lia). lia. }
  unfold div, SFdiv, SFdiv_core_binary. rewrite D1, D2.
  replace (53 + e1 - (53 + e2)) with (e1 - e2) by lia.
  rewrite (fexp_normal (e1 - e2)) by lia.
  replace (Z.min (e1 - e2 - 53) (e1 - e2)) with (e1 - e2 - 53) by lia.
  replace (e1 - e2 - (e1 - e2 - 53)) with 53 by lia.
  rewrite Z.shiftl_mul_pow2 by lia.
  assert (Ediv : Z.div_eucl (Zpos m1 * 2 ^ 53) (Zpos m2) = (q, r)).
  { unfold q, r, Z.div, Z.modulo.
    destruct (Z.div_eucl (Zpos m1 * 2 ^ 53) (Zpos m2)); reflexivity. }
  rewrite Ediv. cbn [xorb].
  destruct (binary_round_aux_normal false q (e1 - e2 - 53) (new_location (Zpos m2) r))
    as [m [e [k [R [E [Hee [Hk [HR [Hm [Hcases Hex]]]]]]]]]]; try lia.
  exists m, e, k, R. fold n in Hee, Hcases, Hex.
  split; [exact E |]. split; [unfold n; lia |]. split; [lia |].
  split; [exact Hk |]. split; [exact HR |]. split; [exact Hm |].
  split; [exact Hcases |].
  intros Hr Hdiv. apply Hex; [| exact Hdiv]. rewrite Hr. apply new_location_zero.
Qed.

(** [tenths] is the nearest integer to ten times the value, the larger one
    on a tie. *)
Lemma tenths_nearest (m : positive) (e c : Z) :
  c = - e -> 0 < c ->
  let N := tenths m e in
  2 * 2 ^ c * N <= 20 * Zpos m + 2 ^ c < 2 * 2 ^ c * (N + 1).
Proof.
  intros -> Hc N. unfold N, tenths.
  replace (0 <=? e) with false by (symmetry; apply Z.leb_gt; lia).
  assert (P : 0 < 2 * 2 ^ (- e)) by (assert (0 < 2 ^ (- e)) by (apply Z.pow_pos_nonneg; lia); lia).
  replace (2 * (10 * Z.pos m)) with (20 * Z.pos m) by lia.
  pose proof (Z.mul_div_le (20 * Z.pos m + 2 ^ (- e)) _ P).
  pose proof (Z.mul_succ_div_gt (20 * Z.pos m + 2 ^ (- e)) _ P).
  lia.
Qed.

(** The double of a power of two. *)
Lemma Zdigits2_pow2 (j : Z) : 0 <= j -> Zdigits2 (2 ^ j) = j + 1.
Proof.
  intros Hj. apply Zdigits2_unique.
  - replace (j + 1 - 1) with j by lia. split; [lia |].
    apply Z.pow_lt_mono_r; lia.
  - apply Z.pow_pos_nonneg; lia.
Qed.

(** Dividing by a power of two only moves the exponent. *)
Lemma div_pow2 (a j : Z) :
  0 < a < 2 ^ 53 -> 0 <= j <= 52 ->
  exists m, ofZ a = S754_finite false m (Zdigits2 a - 53) /\
            Zpos m = a * 2 ^ (53 - Zdigits2 a) /\
            div (ofZ a) (ofZ (2 ^ j)) = S754_finite false m (Zdigits2 a - 53 - j).
Proof.
  intros Ha Hj.
  destruct (ofZ_exact a Ha) as [ma [Ea [Vma Bma]]].
  assert (Hb : 0 < 2 ^ j < 2 ^ 53).
  { split; [apply Z.pow_pos_nonneg; lia | apply Z.pow_lt_mono_r; lia]. }
  destruct (ofZ_exact (2 ^ j) Hb) as [mb [Eb [Vmb Bmb]]].
  rewrite Zdigits2_pow2 in Eb, Vmb by lia.
  assert (Emb : Zpos mb = 2 ^ 52).
  { rewrite Vmb, <- Z.pow_add_r by lia. f_equal. lia. }
  exists ma. split; [exact Ea |]. split; [exact Vma |].
  rewrite Ea, Eb.
  destruct (div_normal ma mb (Zdigits2 a - 53) (j + 1 - 53))
    as [m [e [k [R [E [Hn [He [Hk [HR [Hm [Hcases Hex]]]]]]]]]]]; try lia.
  { pose proof (Zdigits2_bounds a ltac:(lia)).
    assert (1 <= Zdigits2 a) by (destruct a; cbn; lia).
    assert (Zdigits2 a <= 53).
    { destruct (Z.le_gt_cases (Zdigits2 a) 53) as [L | G]; [exact L |].
      exfalso. assert (2 ^ 53 <= 2 ^ (Zdigits2 a - 1)) by (apply Z.pow_le_mono_r; lia). lia. }
    lia. }
  rewrite E. rewrite Emb in *.
  assert (Eq : Zpos ma * 2 ^ 53 / 2 ^ 52 = 2 * Zpos ma).
  { change (2 ^ 53) with (2 * 2 ^ 52). rewrite Z.mul_assoc, Z.div_mul by lia. lia. }
  assert (Er : (Zpos ma * 2 ^ 53) mod 2 ^ 52 = 0).
  { change (2 ^ 53) with (2 * 2 ^ 52). rewrite Z.mul_assoc. apply Z.mod_mul. lia. }
  rewrite Eq in *.
  assert (Dq : Zdigits2 (2 * Zpos ma) = 54) by (apply Zdigits2_unique; lia).
  rewrite Dq in *. replace (54 - 53) with 1 in * by lia. change (2 ^ 1) with 2 in *.
  assert (HRQ : R = Zpos ma).
  { rewrite Hex; [| exact Er | exists (Zpos ma); lia].
    rewrite Z.mul_comm, Z.div_mul by lia. reflexivity. }
  assert (k = 0).
  { destruct (Z.eq_dec k 0) as [K | K]; [exact K |]. assert (k = 1) by lia. subst k.
    change (2 ^ 1) with 2 in HR. lia. }
  subst k. rewrite Z.mul_1_r in HR.
  assert (m = ma) by (apply Pos2Z.inj; lia). subst m.
  f_equal. lia.
Qed.

Lemma Zdigits2_53 (a : Z) : 0 < a < 2 ^ 53 -> 1 <= Zdigits2 a <= 53.
Proof.
  intros Ha. pose proof (Zdigits2_bounds a ltac:(lia)).
  split; [destruct a; cbn; lia |].
  destruct (Z.le_gt_cases (Zdigits2 a) 53) as [L | G]; [exact L |].
  exfalso. assert (2 ^ 53 <= 2 ^ (Zdigits2 a - 1)) by (apply Z.pow_le_mono_r; lia). lia.
Qed.

(** Arithmetic of a quotient that is floored twice and rounded. *)
Lemma floor_floor_le (X d q N Q R : Z) :
  0 < d -> 0 < N -> d * q <= X -> N * Q <= q -> R <= Q + 1 ->
  (R - 1) * N * d <= X.
Proof.
  intros Hd HN H1 H2 H3.
  assert (A : (R - 1) * N <= q).
  { apply Z.le_trans with (Q * N); [| lia].
    apply Z.mul_le_mono_nonneg_r; lia. }
  apply Z.le_trans with (q * d); [| lia].
  apply Z.mul_le_mono_nonneg_r; lia.
Qed.

Lemma floor_floor_lt (X d q N Q R : Z) :
  0 < d -> 0 < N -> X < d * (q + 1) -> q < N * (Q + 1) -> Q <= R ->
  X < (R + 1) * N * d.
Proof.
  intros Hd HN H1 H2 H3.
  assert (A : q + 1 <= (R + 1) * N).
  { apply Z.le_trans with ((Q + 1) * N); [lia |].
    apply Z.mul_le_mono_nonneg_r; lia. }
  apply Z.lt_le_trans with (d * (q + 1)); [exact H1 |].
  rewrite (Z.mul_comm _ d). apply Z.mul_le_mono_nonneg_l; lia.
Qed.

Lemma scaled_le (m K b X : Z) :
  1 <= K -> 0 <= b -> (m * K - 1) * b <= X * K -> b * (m - 1) <= X.
Proof.
  intros HK Hb H.
  apply Z.mul_le_mono_pos_r with K; [lia |].
  apply Z.le_trans with ((m * K - 1) * b); [| exact H].
  replace (b * (m - 1) * K) with ((m * K - K) * b) by ring.
  apply Z.mul_le_mono_nonneg_r; lia.
Qed.

Lemma scaled_lt (m K b X : Z) :
  1 <= K -> 0 < b -> X * K < (m * K + 1) * b -> X < b * (m + 1).
Proof.
  intros HK Hb H.
  apply Z.mul_lt_mono_pos_r with K; [lia |].
  apply Z.lt_le_trans with ((m * K + 1) * b); [exact H |].
  replace (b * (m + 1) * K) with ((m * K + K) * b) by ring.
  apply Z.mul_le_mono_nonneg_r; lia.
Qed.

(** The quotient of two integers below 2^53, as a double: its mantissa is
    within one unit of the exact quotient. *)
Lemma div_ofZ (a b : Z) :
  0 < a < 2 ^ 53 -> 0 < b < 2 ^ 53 ->
  exists m e,
    div (ofZ a) (ofZ b) = S754_finite false m e /\
    2 ^ 52 <= Zpos m < 2 ^ 53 /\
    Zdigits2 a - Zdigits2 b - 53 <= e <= Zdigits2 a - Zdigits2 b - 51 /\
    forall c, c = - e -> 0 <= c ->
      b * (Zpos m - 1) <= a * 2 ^ c < b * (Zpos m + 1).
Proof.
  intros Ha Hb.
  destruct (ofZ_exact a Ha) as [ma [Ea [Vma Bma]]].
  destruct (ofZ_exact b Hb) as [mb [Eb [Vmb Bmb]]].
  pose proof (Zdigits2_53 a Ha) as Da. pose proof (Zdigits2_53 b Hb) as Db.
  set (da := Zdigits2 a) in *. set (db := Zdigits2 b) in *.
  rewrite Ea, Eb.
  destruct (div_normal ma mb (da - 53) (db - 53))
    as [m [e [k [R [E [Hn [He [Hk [HR [Hm [Hcases _]]]]]]]]]]]; try lia.
  set (q := Zpos ma * 2 ^ 53 / Zpos mb) in *.
  set (n := Zdigits2 q - 53) in *.
  exists m, e. split; [exact E |]. split; [exact Hm |]. split; [lia |].
  intros c Hc Hc0.
  assert (Pmb : 0 < Zpos mb) by lia.
  pose proof (Z.mul_div_le (Zpos ma * 2 ^ 53) _ Pmb) as Q1.
  pose proof (Z.mul_succ_div_gt (Zpos ma * 2 ^ 53) _ Pmb) as Q2.
  fold q in Q1, Q2.
  assert (Pn : 0 < 2 ^ n) by (apply Z.pow_pos_nonneg; lia).
  pose proof (Z.mul_div_le q _ Pn) as Q3.
  pose proof (Z.mul_succ_div_gt q _ Pn) as Q4.
  set (Q := q / 2 ^ n) in *.
  assert (L : (R - 1) * 2 ^ n * Zpos mb <= Zpos ma * 2 ^ 53).
  { apply (floor_floor_le _ _ q _ Q); try assumption; lia. }
  assert (U : Zpos ma * 2 ^ 53 < (R + 1) * 2 ^ n * Zpos mb).
  { apply (floor_floor_lt _ _ q _ Q); try assumption; lia. }
  clear Q1 Q2 Q3 Q4 Hcases.
  set (P := 2 ^ (53 - db)) in *. set (N := 2 ^ n) in *. set (K := 2 ^ k) in *.
  assert (PP : 0 < P) by (apply Z.pow_pos_nonneg; lia).
  assert (PK : 1 <= K).
  { unfold K. destruct (Z.eq_dec k 0) as [-> | ?]; [cbn; lia |].
    replace k with 1 by lia. cbn. lia. }
  assert (Epow : 2 ^ (53 - da) * 2 ^ 53 = 2 ^ c * N * K * P).
  { unfold N, K, P. rewrite <- !Z.pow_add_r by lia. f_equal. lia. }
  assert (EX : Zpos ma * 2 ^ 53 = a * 2 ^ c * K * (N * P)).
  { rewrite Vma. rewrite <- Z.mul_assoc, Epow. ring. }
  assert (PNP : 0 < N * P) by (apply Z.mul_pos_pos; assumption).
  rewrite EX, Vmb in L, U. rewrite <- HR in L, U.
  assert (L' : (Zpos m * K - 1) * b * (N * P) <= a * 2 ^ c * K * (N * P)).
  { replace ((Zpos m * K - 1) * b * (N * P)) with ((Zpos m * K - 1) * N * (b * P)) by ring.
    exact L. }
  assert (U' : a * 2 ^ c * K * (N * P) < (Zpos m * K + 1) * b * (N * P)).
  { replace ((Zpos m * K + 1) * b * (N * P)) with ((Zpos m * K + 1) * N * (b * P)) by ring.
    exact U. }
  apply Z.mul_le_mono_pos_r in L'; [| exact PNP].
  apply Z.mul_lt_mono_pos_r in U'; [| exact PNP].
  split.
  - apply (scaled_le _ K); [exact PK | lia | exact L'].
  - apply (scaled_lt _ K); [exact PK | lia | exact U'].
Qed.

(** The product of two doubles with full mantissas. *)
Lemma mul_normal (m1 m2 : positive) (e1 e2 : Z) :
  2 ^ 52 <= Zpos m1 < 2 ^ 53 -> 2 ^ 52 <= Zpos m2 < 2 ^ 53 ->
  -900 <= e1 + e2 <= 800 ->
  let P := Zpos m1 * Zpos m2 in
  let n := Zdigits2 P - 53 in
  exists m e k R,
    mul (S754_finite false m1 e1) (S754_finite false m2 e2) = S754_finite false m e /\
    52 <= n <= 53 /\ e = e1 + e2 + n + k /\ 0 <= k <= 1 /\
    Zpos m * 2 ^ k = R /\ 2 ^ 52 <= Zpos m < 2 ^ 53 /\
    (R = P / 2 ^ n \/ R = P / 2 ^ n + 1).
Proof.
  intros B1 B2 He P n.
  assert (BP : 2 ^ 104 <= P < 2 ^ 106).
  { unfold P. split.
    - change (2 ^ 104) with (2 ^ 52 * 2 ^ 52).
      apply Z.mul_le_mono_nonneg; lia.
    - change (2 ^ 106) with (2 ^ 53 * 2 ^ 53).
      apply Z.mul_lt_mono_nonneg; lia. }
  assert (DP : 105 <= Zdigits2 P <= 106).
  { pose proof (Zdigits2_bounds P ltac:(lia)) as [Lo Hi].
    split.
    - destruct (Z.le_gt_cases 105 (Zdigits2 P)) as [L | G]; [exact L |].
      exfalso. assert (2 ^ Zdigits2 P <= 2 ^ 104) by (apply Z.pow_le_mono_r; lia). lia.
    - destruct (Z.le_gt_cases (Zdigits2 P) 106) as [L | G]; [exact L |].
      exfalso. assert (2 ^ 106 <= 2 ^ (Zdigits2 P - 1)) by (apply Z.pow_le_mono_r; lia). lia. }
  unfold mul, SFmul. cbn [xorb].
  change (Zpos (m1 * m2)) with P.
  destruct (binary_round_aux_normal false P (e1 + e2) loc_Exact)
    as [m [e [k [R [E [Hee [Hk [HR [Hm [Hcases _]]]]]]]]]]; try lia.
  exists m, e, k, R. fold n in Hee, Hcases.
  repeat split; try assumption; unfold n; lia.
Qed.

(** A double times 100: the mantissa of the product is within one unit. *)
Lemma mul_100 (m1 : positive) (e1 : Z) :
  2 ^ 52 <= Zpos m1 < 2 ^ 53 -> -800 <= e1 <= 800 ->
  exists m e D,
    mul (S754_finite false m1 e1) (ofZ 100) = S754_finite false m e /\
    2 ^ 52 <= Zpos m < 2 ^ 53 /\
    e1 + 6 <= e <= e1 + 8 /\ D = 2 ^ (e - e1) /\
    (Zpos m - 1) * D <= 100 * Zpos m1 < (Zpos m + 1) * D.
Proof.
  intros B1 He1.
  assert (E100 : ofZ 100 = S754_finite false 7036874417766400 (-46)) by reflexivity.
  rewrite E100.
  destruct (mul_normal m1 7036874417766400 e1 (-46))
    as [m [e [k [R [E [Hn [He [Hk [HR [Hm Hcases]]]]]]]]]]; try lia.
  set (P := Zpos m1 * 7036874417766400) in *.
  set (n := Zdigits2 P - 53) in *.
  exists m, e, (2 ^ (e - e1)). split; [exact E |]. split; [exact Hm |].
  split; [lia |]. split; [reflexivity |].
  assert (Pn : 0 < 2 ^ n) by (apply Z.pow_pos_nonneg; lia).
  pose proof (Z.mul_div_le P _ Pn) as Q3.
  pose proof (Z.mul_succ_div_gt P _ Pn) as Q4.
  set (Q := P / 2 ^ n) in *.
  set (K := 2 ^ k) in *.
  assert (PK : 1 <= K).
  { unfold K. destruct (Z.eq_dec k 0) as [-> | ?]; [cbn; lia |].
    replace k with 1 by lia. cbn. lia. }
  set (D := 2 ^ (e - e1)).
  assert (PD : 0 < D) by (apply Z.pow_pos_nonneg; lia).
  assert (EN : 2 ^ n * K = D * 2 ^ 46).
  { unfold K, D. rewrite <- !Z.pow_add_r by lia. f_equal. lia. }
  assert (EP : P * K = 100 * Zpos m1 * K * 2 ^ 46).
  { unfold P. change 7036874417766400 with (100 * 2 ^ 46). ring. }
  assert (L : (R - 1) * 2 ^ n <= P).
  { apply Z.le_trans with (Q * 2 ^ n); [| lia].
    apply Z.mul_le_mono_nonneg_r; lia. }
  assert (U : P < (R + 1) * 2 ^ n).
  { apply Z.lt_le_trans with (2 ^ n * Z.succ Q); [exact Q4 |].
    rewrite (Z.mul_comm (2 ^ n)). apply Z.mul_le_mono_nonneg_r; lia. }
  rewrite <- HR in L, U.
  assert (L' : (Zpos m * K - 1) * D * 2 ^ 46 <= 100 * Zpos m1 * K * 2 ^ 46).
  { rewrite <- EP. replace ((Zpos m * K - 1) * D * 2 ^ 46)
      with ((Zpos m * K - 1) * (D * 2 ^ 46)) by ring.
    rewrite <- EN. replace ((Zpos m * K - 1) * (2 ^ n * K))
      with ((Zpos m * K - 1) * 2 ^ n * K) by ring.
    apply Z.mul_le_mono_nonneg_r; lia. }
  assert (U' : 100 * Zpos m1 * K * 2 ^ 46 < (Zpos m * K + 1) * D * 2 ^ 46).
  { rewrite <- EP. replace ((Zpos m * K + 1) * D * 2 ^ 46)
      with ((Zpos m * K + 1) * (D * 2 ^ 46)) by ring.
    rewrite <- EN. replace ((Zpos m * K + 1) * (2 ^ n * K))
      with ((Zpos m * K + 1) * 2 ^ n * K) by ring.
    apply Z.mul_lt_mono_pos_r; lia. }
  apply Z.mul_le_mono_pos_r in L'; [| lia].
  apply Z.mul_lt_mono_pos_r in U'; [| lia].
  split.
  - rewrite (Z.mul_comm _ D). apply (scaled_le _ K); [exact PK | lia | exact L'].
  - rewrite (Z.mul_comm _ D). apply (scaled_lt _ K); [exact PK | lia | exact U'].
Qed.

Lemma percent_arith (h t m1 m N C C1 D : Z) :
  0 < t < 2 ^ 32 -> 0 <= h -> 2 ^ 51 <= C1 -> 0 < D <= 256 -> 0 < C -> C * D = C1 ->
  t * (m1 - 1) <= h * C1 < t * (m1 + 1) ->
  (m - 1) * D <= 100 * m1 < (m + 1) * D ->
  2 * C * N <= 20 * m + C < 2 * C * (N + 1) ->
  - t <= 2 * N * t - 2000 * h <= t.
Proof.
  intros Ht Hh HC1 HD HC E [V1 V2] [P1 P2] [T1 T2].
  assert (Dt : 0 < D * t) by (apply Z.mul_pos_pos; lia).
  assert (B : 20 * D * t + 2000 * t < C1).
  { apply Z.le_lt_trans with (7120 * t); [| change (2 ^ 51) with 2251799813685248 in HC1;
                                            change (2 ^ 32) with 4294967296 in Ht; lia].
    replace (7120 * t) with (20 * 256 * t + 2000 * t) by lia.
    apply Z.add_le_mono_r. apply Z.mul_le_mono_nonneg_r; lia. }
  split.
  - (* lower bound *)
    assert (A1 : (20 * m + C) * (D * t) < 2 * C * (N + 1) * (D * t))
      by (apply Z.mul_lt_mono_pos_r; assumption).
    assert (A2 : 100 * m1 * t < (m * D + D) * t).
    { apply Z.mul_lt_mono_pos_r; [lia |]. lia. }
    assert (A3 : h * C1 * 2000 < (t * m1 + t) * 2000) by lia.
    assert (S : C1 * (2000 * h - t - 2 * N * t) < C1 * 1).
    { rewrite <- E in *. 
      replace (C * D * (2000 * h - t - 2 * N * t))
        with (2000 * (h * (C * D)) - C * D * t - 2 * C * N * (D * t)) by ring.
      replace (2 * C * (N + 1) * (D * t)) with (2 * C * N * (D * t) + 2 * C * D * t) in A1 by ring.
      replace ((20 * m + C) * (D * t)) with (20 * (m * D) * t + C * D * t) in A1 by ring.
      replace ((m * D + D) * t) with (m * D * t + D * t) in A2 by ring.
      lia. }
    apply Z.mul_lt_mono_pos_l in S; lia.
  - (* upper bound *)
    assert (A1 : 2 * C * N * (D * t) <= (20 * m + C) * (D * t))
      by (apply Z.mul_le_mono_nonneg_r; lia).
    assert (A2 : (m * D - D) * t <= 100 * m1 * t).
    { apply Z.mul_le_mono_nonneg_r; [lia |]. lia. }
    assert (A3 : (t * m1 - t) * 2000 <= h * C1 * 2000) by lia.
    assert (S : C1 * (2 * N * t - 2000 * h - t) < C1 * 1).
    { rewrite <- E in *.
      replace (C * D * (2 * N * t - 2000 * h - t))
        with (2 * C * N * (D * t) - 2000 * (h * (C * D)) - C * D * t) by ring.
      replace ((20 * m + C) * (D * t)) with (20 * (m * D) * t + C * D * t) in A1 by ring.
      replace ((m * D - D) * t) with (m * D * t - D * t) in A2 by ring.
      lia. }
    apply Z.mul_lt_mono_pos_l in S; lia.
Qed.

Lemma seconds_arith (ms m N C : Z) :
  0 <= ms -> 1024 <= C ->
  1000 * (m - 1) <= ms * C < 1000 * (m + 1) ->
  2 * C * N <= 20 * m + C < 2 * C * (N + 1) ->
  -50 <= 100 * N - ms <= 50.
Proof.
  intros Hms HC [V1 V2] [T1 T2].
  split.
  - assert (S : C * (2 * ms - 200 * N - 100) < C * 2).
    { replace (C * (2 * ms - 200 * N - 100))
        with (2 * (ms * C) - 100 * (2 * C * (N + 1)) + 100 * C) by ring.
      lia. }
    apply Z.mul_lt_mono_pos_l in S; lia.
  - assert (S : C * (200 * N - 2 * ms - 100) < C * 2).
    { replace (C * (200 * N - 2 * ms - 100))
        with (100 * (2 * C * N) - 2 * (ms * C) - 100 * C) by ring.
      lia. }
    apply Z.mul_lt_mono_pos_l in S; lia.
Qed.

(** Below [10^21] a double is printed in fixed notation. *)
Lemma toFixed1_fraction (m : positive) (e : Z) :
  e < 0 -> toFixed1 (S754_finite false m e) = fixed1 (tenths m e).
Proof.
  intros He. unfold toFixed1.
  replace (0 <=? e) with false by (symmetry; apply Z.leb_gt; lia).
  reflexivity.
Qed.

Lemma Zdigits2_below (a k : Z) : 0 < a < 2 ^ k -> Zdigits2 a <= k.
Proof.
  intros [Ha Hk]. pose proof (Zdigits2_bounds a Ha) as [Lo _].
  destruct (Z.le_gt_cases (Zdigits2 a) k) as [L | G]; [exact L |].
  exfalso. assert (0 <= k \/ k < 0) as [K | K] by lia.
  - assert (2 ^ k <= 2 ^ (Zdigits2 a - 1)) by (apply Z.pow_le_mono_r; lia). lia.
  - rewrite Z.pow_neg_r in Hk by lia. lia.
Qed.

Lemma Zdigits2_mono (a b : Z) : 0 < a <= b -> Zdigits2 a <= Zdigits2 b.
Proof.
  intros [Ha Hab]. apply Zdigits2_below. split; [exact Ha |].
  pose proof (Zdigits2_bounds b ltac:(lia)). lia.
Qed.

Lemma Zdigits2_log2 (a : Z) : 0 < a -> Z.log2 a = Zdigits2 a - 1.
Proof.
  intros Ha. pose proof (Zdigits2_bounds a Ha) as [Lo Hi].
  assert (1 <= Zdigits2 a) by (destruct a; cbn; lia).
  apply Z.log2_unique; [lia |].
  replace (Z.succ (Zdigits2 a - 1)) with (Zdigits2 a) by lia. lia.
Qed.

(** The hit rate is a nearest tenth of the percentage. *)
Lemma percent_rendered (h t : Z) :
  0 <= h <= t -> 0 < t < 2 ^ 32 ->
  exists N,
    toFixed1 (mul (div (ofZ h) (ofZ t)) (ofZ 100)) = fixed1 N /\
    - t <= 2 * N * t - 2000 * h <= t.
Proof.
  intros Hh Ht.
  assert (Ht53 : 0 < t < 2 ^ 53).
  { split; [lia |]. apply Z.lt_trans with (2 ^ 32); [lia | reflexivity]. }
  destruct (Z.eq_dec h 0) as [-> | Hh0].
  - exists 0. split; [| lia].
    destruct (ofZ_exact t Ht53) as [mt [Et _]]. rewrite Et. reflexivity.
  - assert (Hh53 : 0 < h < 2 ^ 53) by lia.
    destruct (div_ofZ h t Hh53 Ht53) as [m1 [e1 [E1 [B1 [He1 V1]]]]].
    pose proof (Zdigits2_mono h t ltac:(lia)) as Dm.
    pose proof (Zdigits2_53 h Hh53) as Dh. pose proof (Zdigits2_53 t Ht53) as Dt.
    destruct (mul_100 m1 e1 B1 ltac:(lia)) as [m [e [D [E [B [He [HD V]]]]]]].
    rewrite E1, E. rewrite toFixed1_fraction by lia.
    exists (tenths m e). split; [reflexivity |].
    pose proof (tenths_nearest m e (- e) eq_refl ltac:(lia)) as T.
    cbv zeta in T.
    assert (HC1 : 2 ^ 51 <= 2 ^ (- e1)) by (apply Z.pow_le_mono_r; lia).
    assert (HDb : 0 < D <= 256).
    { subst D. split; [apply Z.pow_pos_nonneg; lia |].
      change 256 with (2 ^ 8). apply Z.pow_le_mono_r; lia. }
    assert (HC : 0 < 2 ^ (- e)) by (apply Z.pow_pos_nonneg; lia).
    assert (HE : 2 ^ (- e) * D = 2 ^ (- e1)).
    { subst D. rewrite <- Z.pow_add_r by lia. f_equal. lia. }
    assert (HV1 : t * (Zpos m1 - 1) <= h * 2 ^ (- e1) < t * (Zpos m1 + 1))
      by (apply V1; lia).
    apply (percent_arith h t (Zpos m1) (Zpos m) (tenths m e) (2 ^ (- e)) (2 ^ (- e1)) D);
      first [assumption | lia].
Qed.

(** From one second on, the time is printed in seconds, at a nearest
    tenth. *)
Lemma formatMs_seconds (ms : Z) :
  1000 <= ms < 2 ^ 51 ->
  exists N, formatMs ms = fixed1 N ++ "s" /\ -50 <= 100 * N - ms <= 50.
Proof.
  intros Hms. unfold formatMs.
  replace (ms <? 1000) with false by (symmetry; apply Z.ltb_ge; lia).
  assert (H53 : 0 < ms < 2 ^ 53).
  { split; [lia |]. apply Z.lt_trans with (2 ^ 51); [lia | reflexivity]. }
  destruct (div_ofZ ms 1000 H53 ltac:(split; reflexivity)) as [m [e [E [B [He V]]]]].
  pose proof (Zdigits2_below ms 51 ltac:(lia)) as Dms.
  change (Zdigits2 1000) with 10 in He.
  rewrite E, toFixed1_fraction by lia.
  exists (tenths m e). split; [reflexivity |].
  pose proof (tenths_nearest m e (- e) eq_refl ltac:(lia)) as T. cbv zeta in T.
  assert (HC : 1024 <= 2 ^ (- e)).
  { change 1024 with (2 ^ 10). apply Z.pow_le_mono_r; lia. }
  assert (HV : 1000 * (Zpos m - 1) <= ms * 2 ^ (- e) < 1000 * (Zpos m + 1))
    by (apply V; lia).
  apply (seconds_arith ms (Zpos m) (tenths m e) (2 ^ (- e)));
    first [assumption | lia].
Qed.

(** A positive size is scaled by the power of 1024 at or below it and
    printed at the nearest tenth (the upper one on a tie), followed by the
    entry of the table of units at that power. *)
Lemma formatBytes_scaled (bytes : Z) :
  0 < bytes < 2 ^ 53 ->
  let i := floor_log1024 bytes in
  formatBytes bytes =
  fixed1 ((20 * bytes + 1024 ^ i) / (2 * 1024 ^ i)) ++ " "
  ++ show (nth_error formatBytes_units (Z.to_nat i)).
Proof.
  intros Hb i. unfold formatBytes.
  replace (bytes =? 0) with false by (symmetry; apply Z.eqb_neq; lia).
  replace (bytes <? 0) with false by (symmetry; apply Z.ltb_ge; lia).
  cbv zeta. fold i. f_equal.
  pose proof (Zdigits2_53 bytes Hb) as Dd.
  assert (Ei : i = (Zdigits2 bytes - 1) / 10).
  { unfold i, floor_log1024. rewrite Zdigits2_log2 by lia. reflexivity. }
  set (d := Zdigits2 bytes) in *.
  pose proof (Z.mul_div_le (d - 1) 10 ltac:(lia)) as I1.
  pose proof (Z.mul_succ_div_gt (d - 1) 10 ltac:(lia)) as I2.
  rewrite <- Ei in I1, I2.
  assert (Hi : 0 <= i) by (rewrite Ei; apply Z.div_pos; lia).
  assert (Epow : 1024 ^ i = 2 ^ (10 * i)).
  { rewrite Z.pow_mul_r by lia. reflexivity. }
  rewrite Epow.
  destruct (div_pow2 bytes (10 * i) Hb ltac:(lia)) as [m [_ [Vm E]]].
  fold d in Vm, E. rewrite E, toFixed1_fraction by lia.
  f_equal. unfold tenths.
  replace (0 <=? d - 53 - 10 * i) with false by (symmetry; apply Z.leb_gt; lia).
  replace (- (d - 53 - 10 * i)) with (53 - d + 10 * i) by lia.
  rewrite Z.pow_add_r by lia. rewrite Vm.
  set (P := 2 ^ (53 - d)). set (T := 2 ^ (10 * i)).
  assert (PP : 0 < P) by (apply Z.pow_pos_nonneg; lia).
  assert (PT : 0 < T) by (apply Z.pow_pos_nonneg; lia).
  replace (2 * (10 * (bytes * P)) + P * T) with (P * (20 * bytes + T)) by ring.
  replace (2 * (P * T)) with (P * (2 * T)) by ring.
  apply Z.div_mul_cancel_l; lia.
Qed.

(** ** The counting loop of [parseEvents] *)

Lemma count_of_nonneg (r : string) (events : list json) : 0 <= count_of r events.
Proof. unfold count_of. lia. Qed.

Lemma events_with_cons (r : string) (ev : Event.t) (events : list json) :
  events_with r (Obj ev :: events) =
  ((if result_is ev r then [ev] else []) ++ events_with r events)%list.
Proof. reflexivity. Qed.

Lemma count_of_cons (r : string) (ev : Event.t) (events : list json) :
  count_of r (Obj ev :: events) =
  (if result_is ev r then 1 else 0) + count_of r events.
Proof.
  unfold count_of. rewrite events_with_cons.
  destruct (result_is ev r); cbn [app List.length]; lia.
Qed.

(** At most one [case] of the [switch] applies. *)
Lemma result_is_exclusive (ev : Event.t) (r r' : string) :
  result_is ev r = true -> r <> r' -> result_is ev r' = false.
Proof.
  unfold result_is. destruct (Event.result ev) as [x |]; [| discriminate].
  intros E Hne. apply String.eqb_eq in E. subst x.
  now apply String.eqb_neq.
Qed.

Lemma counters_eq (a b : counters) :
  c_localHits a = c_localHits b -> c_remoteHits a = c_remoteHits b ->
  c_misses a = c_misses b -> c_errors a = c_errors b ->
  c_missedCrates a = c_missedCrates b -> a = b.
Proof. destruct a, b; simpl; intros; subst; reflexivity. Qed.

Lemma count_loop (events : list json) (w : world) :
  Forall (fun e => e <> Null) events ->
  forall acc,
    for_of count_event events acc w =
    (Returned
       {| c_localHits := c_localHits acc + count_of "local_hit" events;
          c_remoteHits := c_remoteHits acc + count_of "remote_hit" events;
          c_misses := c_misses acc + count_of "miss" events;
          c_errors := c_errors acc + count_of "error" events;
          c_missedCrates :=
            c_missedCrates acc ++ map missed_crate (events_with "miss" events) |},
     w).
Proof.
  induction 1 as [| e t He Ht IH]; intros acc.
  - simpl. unfold ret, count_of. simpl. do 2 f_equal.
    apply counters_eq; simpl; try lia. now rewrite app_nil_r.
  - destruct e as [| ev]; [congruence |].
    cbn [for_of count_event].
    rewrite !count_of_cons, events_with_cons.
    destruct (result_is ev "local_hit") eqn:E1;
      [ rewrite (result_is_exclusive _ _ "remote_hit" E1),
                (result_is_exclusive _ _ "miss" E1),
                (result_is_exclusive _ _ "error" E1) by discriminate
      | destruct (result_is ev "remote_hit") eqn:E2;
        [ rewrite (result_is_exclusive _ _ "miss" E2),
                  (result_is_exclusive _ _ "error" E2) by discriminate
        | destruct (result_is ev "miss") eqn:E3;
          [ rewrite (result_is_exclusive _ _ "error" E3) by discriminate
          | destruct (result_is ev "error") eqn:E4 ]]];
      (erewrite bind_returned by reflexivity); rewrite IH; do 2 f_equal;
      apply counters_eq;
      cbn [c_localHits c_remoteHits c_misses c_errors c_missedCrates app map];
      try lia; try reflexivity.
    now rewrite <- app_assoc.
Qed.

Lemma aggregate_returns (events : list json) (w : world) :
  Forall (fun e => e <> Null) events ->
  aggregate events w = (Returned (stats_of events), w).
Proof.
  intros H. unfold aggregate.
  erewrite bind_returned by (apply count_loop; exact H).
  cbn [c_localHits c_remoteHits c_misses c_errors c_missedCrates app].
  rewrite !Z.add_0_l. reflexivity.
Qed.

(** A null line makes the counting loop throw. *)
Lemma aggregate_null (events : list json) (w : world) :
  In Null events ->
  aggregate events w = (Thrown TypeError_null, w).
Proof.
  intros H. unfold aggregate. apply bind_thrown.
  generalize {| c_localHits := 0; c_remoteHits := 0; c_misses := 0;
                c_errors := 0; c_missedCrates := [] |}.
  induction events as [| e t IH]; intros acc; [destruct H |].
  destruct e as [| ev].
  - reflexivity.
  - destruct H as [H | H]; [discriminate |].
    cbn [for_of count_event].
    destruct (result_is ev "local_hit");
      [| destruct (result_is ev "remote_hit");
         [| destruct (result_is ev "miss");
            [| destruct (result_is ev "error")]]];
      (erewrite bind_returned by reflexivity); now apply IH.
Qed.

(** The comparison of the sort of [missedCrates]. *)
Lemma by_elapsed_desc_before (a b : Crate.t) :
  before by_elapsed_desc a b <-> Crate.elapsed_ms b <= Crate.elapsed_ms a.
Proof. unfold before, by_elapsed_desc. lia. Qed.

Lemma missedCrates_sorted (l : list Crate.t) :
  StronglySorted (fun a b => Crate.elapsed_ms b <= Crate.elapsed_ms a)
                 (sort by_elapsed_desc l).
Proof.
  assert (S : StronglySorted (before by_elapsed_desc) (sort by_elapsed_desc l)).
  { apply sort_sorted.
    - intros x y. unfold before, by_elapsed_desc. lia.
    - intros x y z. unfold before, by_elapsed_desc. lia. }
  induction S as [| a t St IH Ha]; constructor; [exact IH |].
  eapply Forall_impl; [| exact Ha].
  intros b. apply by_elapsed_desc_before.
Qed.

Lemma missedCrates_stable (l : list Crate.t) (t : Z) :
  filter (fun c => Crate.elapsed_ms c =? t) (sort by_elapsed_desc l) =
  filter (fun c => Crate.elapsed_ms c =? t) l.
Proof.
  apply sort_stable. intros x y Hx Hy.
  apply Z.eqb_eq in Hx, Hy. unfold before, by_elapsed_desc. lia.
Qed.

Lemma or_number_default (x : option Z) :
  or_number x 0 = match x with Some z => z | None => 0 end.
Proof.
  destruct x as [z |]; [| reflexivity]. unfold or_number, truthy_number.
  destruct (z =? 0) eqn:E; [| reflexivity].
  apply Z.eqb_eq in E. now subst.
Qed.

Lemma or_string_given (s d : string) : s <> "" -> or_string (Some s) d = s.
Proof.
  intros H. unfold or_string, truthy_string.
  apply String.eqb_neq in H. now rewrite H.
Qed.

Lemma or_string_default (x : option string) :
  or_string x "" = match x with Some s => s | None => "" end.
Proof.
  destruct x as [s |]; [| reflexivity]. unfold or_string, truthy_string.
  destruct (s =? "")%string eqn:E; [| reflexivity].
  apply String.eqb_eq in E. now subst.
Qed.

Lemma events_with_In (r : string) (events : list json) (ev : Event.t) :
  In ev (events_with r events) <-> In (Obj ev) events /\ result_is ev r = true.
Proof.
  unfold events_with. rewrite in_flat_map. split.
  - intros [e [He Hin]]. destruct e as [| ev']; [destruct Hin |].
    destruct (result_is ev' r) eqn:E; [| destruct Hin].
    destruct Hin as [<- | []]. auto.
  - intros [He Hr]. exists (Obj ev). split; [exact He |].
    rewrite Hr. now left.
Qed.

(** C2. For every sequence of decoded records, the stats that the
    aggregation returns count each result, satisfy
    [total = localHits + remoteHits + misses] (errors are counted apart and
    stay out of the total), [hits = localHits + remoteHits <= total], and
    carry as hit rate the one-decimal rendering of [hits / total * 100],
    a nearest tenth of the percentage, and the string [0.0] when
    [total = 0]; so for the empty sequence. *)
Theorem aggregate_counts (events : list json) (w : world) :
  Forall (fun e => e <> Null) events ->
  exists st,
    aggregate events w = (Returned st, w) /\
    Stats.localHits st = count_of "local_hit" events /\
    Stats.remoteHits st = count_of "remote_hit" events /\
    Stats.misses st = count_of "miss" events /\
    Stats.errors st = count_of "error" events /\
    Stats.total st = Stats.localHits st + Stats.remoteHits st + Stats.misses st /\
    Stats.hits st = Stats.localHits st + Stats.remoteHits st /\
    0 <= Stats.hits st <= Stats.total st /\
    Stats.hitRate st =
      (if Stats.total st =? 0 then "0.0"
       else toFixed1 (mul (div (ofZ (Stats.hits st)) (ofZ (Stats.total st)))
                          (ofZ 100))) /\
    (0 < Stats.total st < 2 ^ 32 ->
     exists N,
       Stats.hitRate st = digits (N / 10) ++ "." ++ digits (N mod 10) /\
       - Stats.total st <= 2 * N * Stats.total st - 2000 * Stats.hits st
                        <= Stats.total st) /\
    (events = [] -> Stats.total st = 0 /\ Stats.hitRate st = "0.0").
Proof.
  intros H. exists (stats_of events).
  split; [now apply aggregate_returns |].
  pose proof (count_of_nonneg "local_hit" events).
  pose proof (count_of_nonneg "remote_hit" events).
  pose proof (count_of_nonneg "miss" events).
  unfold stats_of; cbn [Stats.total Stats.localHits Stats.remoteHits Stats.hits
                        Stats.misses Stats.errors Stats.hitRate].
  repeat split; try lia.
  - set (total := count_of "local_hit" events + count_of "remote_hit" events
                  + count_of "miss" events) in *.
    destruct (0 <? total) eqn:E.
    + apply Z.ltb_lt in E. destruct (total =? 0) eqn:E0; [| reflexivity].
      apply Z.eqb_eq in E0. lia.
    + apply Z.ltb_ge in E. assert (total = 0) as -> by lia. reflexivity.
  - intros Ht.
    replace (0 <? count_of "local_hit" events + count_of "remote_hit" events
                  + count_of "miss" events) with true
      by (symmetry; apply Z.ltb_lt; lia).
    apply percent_rendered; lia.
  - subst events. reflexivity.
  - subst events. reflexivity.
Qed.

(** C5. The [missedCrates] of the stats are exactly the records pushed for
    the miss events, sorted in non-increasing order of [elapsed_ms] by a
    stable sort: misses of equal elapsed time keep the order of the log. *)
Theorem aggregate_missedCrates_sorted (events : list json) (w : world) :
  Forall (fun e => e <> Null) events ->
  exists st,
    aggregate events w = (Returned st, w) /\
    let recorded := map missed_crate (events_with "miss" events) in
    Permutation (Stats.missedCrates st) recorded /\
    StronglySorted (fun a b => Crate.elapsed_ms b <= Crate.elapsed_ms a)
                   (Stats.missedCrates st) /\
    forall t,
      filter (fun c => Crate.elapsed_ms c =? t) (Stats.missedCrates st) =
      filter (fun c => Crate.elapsed_ms c =? t) recorded.
Proof.
  intros H. exists (stats_of events).
  split; [now apply aggregate_returns |].
  cbn [stats_of Stats.missedCrates]. repeat split.
  - apply sort_perm.
  - apply missedCrates_sorted.
  - intros t. apply missedCrates_stable.
Qed.

(** C10. Every entry of [missedCrates] comes from a miss event and carries
    its [elapsed_ms], [size] and [cache_key], or [0], [0] and the empty
    string where the event has none (or a falsy one); every miss event has
    its entry; and no entry of positive elapsed time comes after an entry
    of elapsed time [0]. *)
Theorem missed_crate_defaults (events : list json) (w : world) :
  Forall (fun e => e <> Null) events ->
  exists st,
    aggregate events w = (Returned st, w) /\
    (forall c, In c (Stats.missedCrates st) ->
       exists ev,
         In (Obj ev) events /\ result_is ev "miss" = true /\
         Crate.name c = Event.crate_name ev /\
         Crate.elapsed_ms c =
           match Event.elapsed_ms ev with Some z => z | None => 0 end /\
         Crate.size c = match Event.size ev with Some z => z | None => 0 end /\
         Crate.cache_key c =
           match Event.cache_key ev with Some k => k | None => "" end) /\
    (forall ev, In (Obj ev) events -> result_is ev "miss" = true ->
       In (missed_crate ev) (Stats.missedCrates st)) /\
    (forall pre c post,
       Stats.missedCrates st = (pre ++ c :: post)%list ->
       Crate.elapsed_ms c = 0 ->
       Forall (fun d => Crate.elapsed_ms d <= 0) post).
Proof.
  intros H. exists (stats_of events).
  split; [now apply aggregate_returns |].
  cbn [stats_of Stats.missedCrates]. repeat split.
  - intros c Hc.
    apply (Permutation_in _ (sort_perm _ _)) in Hc.
    apply in_map_iff in Hc. destruct Hc as [ev [<- Hev]].
    apply events_with_In in Hev. destruct Hev as [Hin Hr].
    exists ev. cbn [missed_crate Crate.name Crate.elapsed_ms Crate.size Crate.cache_key].
    rewrite !or_number_default, or_string_default. repeat split; auto.
  - intros ev Hin Hr.
    apply (Permutation_in _ (Permutation_sym (sort_perm _ _))).
    apply in_map. apply events_with_In. auto.
  - intros pre c post E Hc.
    pose proof (missedCrates_sorted (map missed_crate (events_with "miss" events))) as S.
    rewrite E in S. clear E.
    induction pre as [| p pre IH]; cbn [app] in S.
    + inversion S as [| ? ? _ Hall]; subst.
      eapply Forall_impl; [| exact Hall].
      cbn beta. intros d Hd. lia.
    + inversion S; subst. auto.
Qed.

(** ** The cache key *)

(** The digest on the test vectors of the standard: the empty message,
    [abc], and messages around the block boundary. *)
Example sha256_empty :
  Sha256.hex "" = "e3b0c44298fc1c149afbf4c8996fb92427ae41e4649b934ca495991b7852b855".
Proof. vm_compute. reflexivity. Qed.

Example sha256_abc :
  Sha256.hex "abc" = "ba7816bf8f01cfea414140de5dae2223b00361a396177a9cb410ff61f20015ad".
Proof. vm_compute. reflexivity. Qed.

Example sha256_two_blocks :
  Sha256.hex (JS.repeat "a" 56)
  = "b35439a4ac6f0948b6d6f9e3c6af0f5f590ce20f1bde7090ef7970686ec6738a".
Proof. vm_compute. reflexivity. Qed.

Lemma bind_asks {A B : Type} (f : env -> A) (k : A -> M B) (w : world) :
  bind (asks f) k w = k (f (context w)) w.
Proof. reflexivity. Qed.

Lemma bind_ret {A B : Type} (a : A) (k : A -> M B) (w : world) :
  bind (ret a) k w = k a w.
Proof. reflexivity. Qed.

(** The order of the default sort on strings. *)
Lemma compare_strings_before (a b : string) :
  before compare_strings a b <-> String.compare a b <> Gt.
Proof.
  unfold before, compare_strings.
  destruct (String.compare a b); split; intros; try lia; congruence.
Qed.

Lemma compare_strings_total (a b : string) :
  before compare_strings a b \/ before compare_strings b a.
Proof.
  rewrite !compare_strings_before.
  rewrite (String.compare_antisym a b).
  destruct (String.compare b a); cbn; [left | right | left]; congruence.
Qed.

Lemma compare_strings_antisym (a b : string) :
  before compare_strings a b -> before compare_strings b a -> a = b.
Proof.
  rewrite !compare_strings_before.
  rewrite (String.compare_antisym a b).
  destruct (String.compare b a) eqn:E; cbn; intros H1 H2; try congruence.
  apply String.compare_eq_iff in E. now subst.
Qed.

Lemma compare_strings_trans (a b c : string) :
  before compare_strings a b -> before compare_strings b c ->
  before compare_strings a c.
Proof.
  rewrite !compare_strings_before. intros Hab Hbc.
  destruct (String.compare a b) eqn:Eab; [| | congruence].
  - apply String.compare_eq_iff in Eab. now subst.
  - destruct (String.compare b c) eqn:Ebc; [| | congruence].
    + apply String.compare_eq_iff in Ebc. subst. rewrite Eab. discriminate.
    + apply String_as_OT.cmp_lt in Eab, Ebc.
      pose proof (String_as_OT.lt_trans _ _ _ Eab Ebc) as Hac.
      apply String_as_OT.cmp_lt in Hac. unfold String_as_OT.cmp in Hac.
      rewrite Hac. discriminate.
Qed.

Lemma concat_empty_cons (x : string) (l : list string) :
  String.concat "" (x :: l) = x ++ String.concat "" l.
Proof.
  destruct l as [| y l]; cbn [String.concat].
  - induction x as [| c x IH]; cbn; [reflexivity | now rewrite <- IH].
  - reflexivity.
Qed.

Lemma append_assoc (a b c : string) : (a ++ b) ++ c = a ++ (b ++ c).
Proof. induction a as [| x a IH]; cbn; [reflexivity | now rewrite IH]. Qed.

Lemma append_empty_r (a : string) : a ++ "" = a.
Proof. induction a as [| x a IH]; cbn; [reflexivity | now rewrite IH]. Qed.

(** The hasher has seen the files' contents, one after the other. *)
Lemma hash_loop (files : list string) (content : string -> string) (w : world) :
  (forall f, In f files -> fs_readFileSync (context w) f = Returned (content f)) ->
  forall hasher,
    for_of (fun hasher f =>
              data <- readFileSync f ;; ret (hasher_update hasher data))
           files hasher w =
    (Returned (hasher ++ String.concat "" (map content files)), w).
Proof.
  induction files as [| f t IH]; intros Hread hasher.
  - cbn. now rewrite append_empty_r.
  - cbn [for_of map]. rewrite concat_empty_cons.
    erewrite bind_returned.
    + rewrite IH by (intros g Hg; apply Hread; now right).
      unfold hasher_update. now rewrite append_assoc.
    + unfold readFileSync, bind, asks, lift.
      rewrite (Hread f) by now left. reflexivity.
Qed.

Lemma buildCacheKey_returns (w : world) (content : string -> string) :
  (forall f, In f (glob_lockfiles (context w)) ->
             fs_readFileSync (context w) f = Returned (content f)) ->
  let c := context w in
  let prefix := or_string (Some (getInput c "cache-key-prefix")) "kache" in
  let version := or_string (process_env c "KACHE_VERSION") "unknown" in
  let platform := os_platform c ++ "-" ++ os_arch c in
  let lockHash := lockHash_of (glob_lockfiles c) content in
  buildCacheKey w =
  (Returned (prefix ++ "-" ++ version ++ "-" ++ platform ++ "-" ++ lockHash,
             [prefix ++ "-" ++ version ++ "-" ++ platform ++ "-"]), w).
Proof.
  intros Hread. cbv zeta. unfold buildCacheKey.
  rewrite !bind_asks.
  destruct (glob_lockfiles (context w)) as [| f t] eqn:E.
  - reflexivity.
  - replace (0 <? Z.of_nat (List.length (f :: t))) with true
      by (symmetry; apply Z.ltb_lt; cbn [List.length]; lia).
    erewrite bind_returned.
    2:{ erewrite bind_returned; [reflexivity |].
        apply hash_loop. intros g Hg. apply Hread.
        apply (Permutation_in _ (sort_perm _ _)) in Hg. exact Hg. }
    reflexivity.
Qed.

(** C1. When every lockfile can be read, [buildCacheKey] returns the key
    [prefix-version-platform-lockHash], for the prefix and the version that
    are given (or [kache] and [unknown] without them), where [lockHash] is
    [no-lockfile] for no lockfile and otherwise the first 16 hexadecimal
    characters of the SHA-256 digest of the files' contents, concatenated
    in the lexicographic order of their paths; the key is the same in
    whatever order the paths were found. *)
Theorem buildCacheKey_key (w : world) (content : string -> string) :
  (forall f, In f (glob_lockfiles (context w)) ->
             fs_readFileSync (context w) f = Returned (content f)) ->
  let c := context w in
  let prefix := or_string (Some (getInput c "cache-key-prefix")) "kache" in
  let version := or_string (process_env c "KACHE_VERSION") "unknown" in
  let platform := os_platform c ++ "-" ++ os_arch c in
  let sorted := sort compare_strings (glob_lockfiles c) in
  let lockHash :=
    match glob_lockfiles c with
    | [] => "no-lockfile"
    | _ => slice0 16 (Sha256.hex (String.concat "" (map content sorted)))
    end in
  buildCacheKey w =
  (Returned (prefix ++ "-" ++ version ++ "-" ++ platform ++ "-" ++ lockHash,
             [prefix ++ "-" ++ version ++ "-" ++ platform ++ "-"]), w) /\
  (getInput c "cache-key-prefix" <> "" -> prefix = getInput c "cache-key-prefix") /\
  (forall v, process_env c "KACHE_VERSION" = Some v -> v <> "" -> version = v) /\
  Permutation sorted (glob_lockfiles c) /\
  StronglySorted (fun a b => String.compare a b <> Gt) sorted /\
  forall paths,
    Permutation paths (glob_lockfiles c) ->
    fst (buildCacheKey (with_lockfiles w paths)) = fst (buildCacheKey w).
Proof.
  intros Hread. cbv zeta. repeat split.
  - apply (buildCacheKey_returns w content Hread).
  - intros H. now apply or_string_given.
  - intros v -> H. now apply or_string_given.
  - apply sort_perm.
  - assert (S : StronglySorted (before compare_strings)
                               (sort compare_strings (glob_lockfiles (context w)))).
    { apply sort_sorted.
      - apply compare_strings_total.
      - apply compare_strings_trans. }
    induction S as [| a t St IH Ha]; constructor; [exact IH |].
    eapply Forall_impl; [| exact Ha].
    intros b. apply compare_strings_before.
  - intros paths HP.
    rewrite (buildCacheKey_returns w content Hread).
    rewrite (buildCacheKey_returns (with_lockfiles w paths) content).
    + cbn [fst with_lockfiles context getInput process_env os_platform os_arch
               glob_lockfiles].
      do 3 f_equal.
      assert (lockHash_of paths content
              = lockHash_of (glob_lockfiles (context w)) content) as E.
      { unfold lockHash_of.
        rewrite (sort_perm_invariant compare_strings compare_strings_total
                   compare_strings_trans compare_strings_antisym _ _ HP).
        destruct paths as [| p ps].
        - apply Permutation_nil in HP. now rewrite HP.
        - destruct (glob_lockfiles (context w)) as [| g gs]; [| reflexivity].
          apply Permutation_sym, Permutation_nil in HP. discriminate. }
      now rewrite E.
    + cbn [with_lockfiles context glob_lockfiles fs_readFileSync].
      intros f Hf. apply Hread. now apply (Permutation_in _ HP).
Qed.

(** ** Reading the log *)

Section DecoderFacts.

Variable JSON_parse : string -> option json.

Lemma read_line_decoded (events : list json) (line : string) :
  read_line JSON_parse events line = (events ++ decoded JSON_parse line)%list.
Proof.
  unfold read_line, decoded.
  destruct (truthy_string (trim line)); cbn [negb].
  - destruct (JSON_parse line); [reflexivity | now rewrite app_nil_r].
  - now rewrite app_nil_r.
Qed.

Lemma read_lines (lines : list string) :
  forall events,
    fold_left (read_line JSON_parse) lines events =
    (events ++ flat_map (decoded JSON_parse) lines)%list.
Proof.
  induction lines as [| l t IH]; intros events; cbn [fold_left flat_map].
  - now rewrite app_nil_r.
  - rewrite IH, read_line_decoded. now rewrite app_assoc.
Qed.

Lemma decode_events_lines (content : string) :
  decode_events JSON_parse content =
  flat_map (decoded JSON_parse) (split LF content).
Proof. unfold decode_events. now rewrite read_lines. Qed.

Lemma split_one_line (a : string) :
  one_line a = true -> split LF a = [a].
Proof.
  induction a as [| c a IH]; cbn [one_line string_forall split]; [reflexivity |].
  intros H. apply andb_true_iff in H. destruct H as [Hc Ha].
  apply negb_true_iff in Hc. rewrite Hc.
  unfold one_line in IH. now rewrite (IH Ha).
Qed.

Lemma split_first_line (a rest : string) :
  one_line a = true ->
  split LF (a ++ String LF rest) = a :: split LF rest.
Proof.
  induction a as [| c a IH]; cbn [one_line string_forall split append].
  - intros _. now rewrite Ascii.eqb_refl.
  - intros H. apply andb_true_iff in H. destruct H as [Hc Ha].
    apply negb_true_iff in Hc. rewrite Hc.
    unfold one_line in IH. now rewrite (IH Ha).
Qed.

Lemma trimEnd_text (t : string) : ends_with_text t = true -> trimEnd t = t.
Proof.
  induction t as [| c t IH]; [discriminate |].
  cbn [ends_with_text trimEnd]. destruct t as [| d t'].
  - intros H. apply negb_true_iff in H. cbn [trimEnd]. now rewrite H.
  - intros H. rewrite (IH H). reflexivity.
Qed.

Lemma trimEnd_append_text (s t : string) :
  ends_with_text t = true -> trimEnd (s ++ t) = s ++ t.
Proof.
  intros H. induction s as [| c s IH]; cbn [append].
  - now apply trimEnd_text.
  - cbn [trimEnd]. rewrite IH.
    destruct (s ++ t) eqn:E; [| reflexivity].
    destruct s; [| discriminate]. cbn in E. subst t. discriminate.
Qed.

Lemma trim_text (s t : string) :
  starts_with_text s = true -> ends_with_text t = true ->
  trim (s ++ t) = s ++ t.
Proof.
  intros Hs Ht. unfold trim.
  destruct s as [| c s]; [discriminate |].
  cbn [starts_with_text] in Hs. apply negb_true_iff in Hs.
  cbn [append trimStart]. rewrite Hs.
  apply (trimEnd_append_text (String c s) t Ht).
Qed.

Lemma trimEnd_nonempty (c : ascii) (s : string) :
  is_space c = false -> trimEnd (String c s) <> "".
Proof.
  intros H. cbn [trimEnd]. destruct (trimEnd s); [rewrite H |]; discriminate.
Qed.

Lemma trim_nonblank (s : string) :
  starts_with_text s = true -> truthy_string (trim s) = true.
Proof.
  destruct s as [| c s]; [discriminate |].
  cbn [starts_with_text]. intros H. apply negb_true_iff in H.
  unfold trim. cbn [trimStart]. rewrite H.
  unfold truthy_string. apply negb_true_iff, String.eqb_neq.
  now apply trimEnd_nonempty.
Qed.

Lemma getCacheDir_returns (w : world) :
  exists dir, getCacheDir w = (Returned dir, w).
Proof.
  unfold getCacheDir. rewrite bind_asks.
  assert (P : exists dir,
             (platform <- asks os_platform ;;
              home <- asks os_homedir ;;
              if (platform =? "darwin")%string
              then ret (path_join (path_join (path_join home "Library") "Caches") "kache")
              else ret (path_join (path_join home ".cache") "kache")) w
             = (Returned dir, w)).
  { rewrite !bind_asks.
    destruct (os_platform (context w) =? "darwin")%string; eexists; reflexivity. }
  cbv zeta.
  destruct (process_env (context w) "KACHE_CACHE_DIR") as [d |]; [| exact P].
  destruct (truthy_string d); [| exact P].
  eexists; reflexivity.
Qed.

Lemma getEventLogPath_returns (w : world) :
  exists logPath, getEventLogPath w = (Returned logPath, w).
Proof.
  destruct (getCacheDir_returns w) as [dir E].
  exists (path_join dir "events.jsonl").
  unfold getEventLogPath. now rewrite (bind_returned _ _ _ _ _ E).
Qed.

(** The decoding loop keeps, in the order of the log, what [JSON.parse]
    decodes of the lines that are not blank, and passes over the others
    without throwing; a log that is absent, empty or without a decodable
    line gives [null]; a valid record, a blank line and a garbled line
    give exactly one decoded value. *)
Lemma parseEvents_tolerant (w : world) :
  (forall content,
     decode_events JSON_parse content =
     flat_map (decoded JSON_parse) (split LF content)) /\
  (exists logPath,
     getEventLogPath w = (Returned logPath, w) /\
     (fs_existsSync (context w) logPath = false ->
      parseEvents JSON_parse w = (Returned None, w)) /\
     (forall raw,
        fs_existsSync (context w) logPath = true ->
        fs_readFileSync (context w) logPath = Returned raw ->
        (trim raw = "" -> parseEvents JSON_parse w = (Returned None, w)) /\
        (decode_events JSON_parse (trim raw) = [] ->
         parseEvents JSON_parse w = (Returned None, w)))) /\
  (forall valid garbled e,
     JSON_parse valid = Some e -> JSON_parse garbled = None ->
     one_line valid = true -> one_line garbled = true ->
     starts_with_text valid = true -> ends_with_text garbled = true ->
     decode_events JSON_parse (trim (valid ++ nl ++ "" ++ nl ++ garbled)) = [e]).
Proof.
  split; [exact decode_events_lines |]. split.
  - destruct (getEventLogPath_returns w) as [logPath E].
    exists logPath. split; [exact E |].
    unfold parseEvents. rewrite (bind_returned _ _ _ _ _ E), bind_asks.
    split.
    + intros ->. reflexivity.
    + intros raw -> Hread. cbn [negb].
      assert (R : readFileSync logPath w = (Returned raw, w)).
      { unfold readFileSync. rewrite bind_asks, Hread. reflexivity. }
      rewrite (bind_returned _ _ _ _ _ R). cbv zeta. split.
      * intros ->. reflexivity.
      * intros ->. destruct (negb (truthy_string (trim raw))); reflexivity.
  - intros valid garbled e Hv Hg Lv Lg Sv Eg.
    assert (T : trim (valid ++ nl ++ "" ++ nl ++ garbled)
                = valid ++ String LF (String LF garbled)).
    { change (nl ++ "" ++ nl ++ garbled) with (String LF (String LF garbled)).
      assert (Eg' : ends_with_text (String LF (String LF garbled)) = true).
      { cbn [ends_with_text]. destruct garbled; [discriminate | exact Eg]. }
      apply (trim_text valid _ Sv Eg'). }
    rewrite T, decode_events_lines.
    rewrite (split_first_line valid _ Lv).
    change (String LF garbled) with ("" ++ String LF garbled).
    rewrite (split_first_line "" garbled eq_refl).
    rewrite (split_one_line garbled Lg).
    cbn [flat_map]. unfold decoded at 1.
    rewrite (trim_nonblank valid Sv), Hv.
    unfold decoded. rewrite Hg. cbn.
    destruct (truthy_string (trim garbled)); reflexivity.
Qed.

End DecoderFacts.

(** ** The sticky comment *)

Lemma logged_logged (w : world) (a b : list obs) :
  logged (logged w a) b = logged w (a ++ b).
Proof. unfold logged. cbn. now rewrite <- app_assoc. Qed.

Lemma emit_logged (o : obs) (w : world) : emit o w = (Returned tt, logged w [o]).
Proof. reflexivity. Qed.

Lemma request_accepted (call : api_call) (w : world) :
  api_fault (context w) call = None ->
  request call w = (Returned tt, logged w [Api call]).
Proof.
  intros H. unfold request.
  rewrite (bind_returned _ _ _ _ _ (emit_logged _ w)).
  rewrite bind_asks. cbn [logged context]. now rewrite H.
Qed.

Lemma request_rejected (call : api_call) (w : world) (err : js_error) :
  api_fault (context w) call = Some err ->
  request call w = (Thrown err, logged w [Api call]).
Proof.
  intros H. unfold request.
  rewrite (bind_returned _ _ _ _ _ (emit_logged _ w)).
  rewrite bind_asks. cbn [logged context]. now rewrite H.
Qed.

Lemma prefix_append (a b : string) : prefix a (a ++ b) = true.
Proof.
  induction a as [| c a IH]; cbn.
  - now destruct b.
  - destruct (ascii_dec c c); [exact IH | congruence].
Qed.

Lemma includes_prefix (needle hay : string) :
  prefix needle hay = true -> includes needle hay = true.
Proof. intros H. destruct hay; cbn [includes]; now rewrite H. Qed.

Lemma has_marker_marked (i : Z) (text : string) :
  has_marker {| id := i; body := Some (COMMENT_MARKER ++ nl ++ text) |} = true.
Proof.
  unfold has_marker. cbn [body]. apply andb_true_iff. split.
  - reflexivity.
  - apply includes_prefix, prefix_append.
Qed.

Lemma find_split {A : Type} (p : A -> bool) (l : list A) (x : A) :
  find p l = Some x ->
  exists pre post,
    l = (pre ++ x :: post)%list /\ Forall (fun y => p y = false) pre /\ p x = true.
Proof.
  induction l as [| y t IH]; cbn [find]; [discriminate |].
  destruct (p y) eqn:E.
  - intros [= ->]. exists [], t. repeat split; [constructor | exact E].
  - intros H. destruct (IH H) as [pre [post [-> [Hpre Hx]]]].
    exists (y :: pre), post. repeat split; [now constructor | exact Hx].
Qed.

Lemma find_none_filter {A : Type} (p : A -> bool) (l : list A) :
  find p l = None -> filter p l = [].
Proof.
  induction l as [| y t IH]; cbn [find filter]; [reflexivity |].
  destruct (p y); [discriminate | exact IH].
Qed.

Lemma set_body_first (text : string) (pre post : list comment) (c : comment) :
  ~ In (id c) (map id pre) ->
  set_body (id c) text (pre ++ c :: post) =
  Some (pre ++ {| id := id c; body := Some text |} :: post)%list.
Proof.
  induction pre as [| p pre IH]; cbn [app set_body map]; intros H.
  - now rewrite Z.eqb_refl.
  - destruct (id p =? id c) eqn:E.
    + apply Z.eqb_eq in E. exfalso. apply H. now left.
    + rewrite IH; [reflexivity |]. intros Hin. apply H. now right.
Qed.

Lemma NoDup_app_head {A : Type} (pre post : list A) (x : A) :
  NoDup (pre ++ x :: post) -> ~ In x pre.
Proof.
  intros H Hin. apply NoDup_remove_2 in H. apply H.
  apply in_or_app. now left.
Qed.

Lemma marker_count_replace (pre post : list comment) (c c' : comment) :
  has_marker c = true -> has_marker c' = true ->
  marker_count (pre ++ c' :: post) = marker_count (pre ++ c :: post).
Proof.
  intros H H'. unfold marker_count.
  rewrite !filter_app. cbn [filter]. rewrite H, H'.
  rewrite !length_app. reflexivity.
Qed.

Lemma marker_count_new (cs : list comment) (c : comment) :
  has_marker c = true ->
  marker_count (cs ++ [c]) = S (marker_count cs).
Proof.
  intros H. unfold marker_count.
  rewrite filter_app. cbn [filter]. rewrite H.
  rewrite length_app. cbn [List.length]. lia.
Qed.

(** C4, as the code has it.  Without a thread identifier the publish only
    logs that it skips, and sends no request.  With one, and an API that
    accepts the requests: if one of the first 100 comments of the thread
    (the page that is fetched) carries the marker, the body of the first
    such comment becomes the marker, a line break and the given body, no
    comment is created, and the comments that carry the marker are as many
    as before; if none of them does, exactly one comment is added, whose
    body is the marker, a line break and the given body. *)
Theorem postOrUpdateComment_sticky (w : world) (text token : string) :
  let c := context w in
  let prNumber := prNumber_of c in
  let marked := COMMENT_MARKER ++ nl ++ text in
  (prNumber = 0 ->
   postOrUpdateComment text token w =
   (Returned tt, logged w [Info "Not a PR context, skipping comment"])) /\
  (prNumber <> 0 ->
   getOctokit_fault c token = None ->
   (forall call, api_fault c call = None) ->
   NoDup (map id (comments w)) ->
   match find has_marker (firstn 100 (comments w)) with
   | Some existing =>
       exists pre post,
         comments w = (pre ++ existing :: post)%list /\
         Forall (fun y => has_marker y = false) pre /\
         has_marker existing = true /\
         let updated :=
           (pre ++ {| id := id existing; body := Some marked |} :: post)%list in
         postOrUpdateComment text token w =
         (Returned tt,
          {| context := c;
             comments := updated;
             trace := trace w ++
                      [Api (ListComments prNumber 100);
                       Api (UpdateComment (id existing) marked);
                       Info ("Updated existing PR comment #"
                             ++ toString (id existing))] |}) /\
         List.length updated = List.length (comments w) /\
         marker_count updated = marker_count (comments w)
   | None =>
       let created :=
         {| id := fresh_id (comments w); body := Some marked |} in
       postOrUpdateComment text token w =
       (Returned tt,
        {| context := c;
           comments := comments w ++ [created];
           trace := trace w ++
                    [Api (ListComments prNumber 100);
                     Api (CreateComment prNumber marked);
                     Info "Posted new PR comment"] |}) /\
       has_marker created = true /\
       marker_count (comments w ++ [created]) = S (marker_count (comments w)) /\
       marker_count (firstn 100 (comments w)) = 0%nat
   end).
Proof.
  cbv zeta. split.
  - intros H0. unfold postOrUpdateComment. rewrite !bind_asks.
    fold (prNumber_of (context w)). rewrite H0. reflexivity.
  - intros Hpr Hocto Hapi Hids.
    assert (Hstart :
      postOrUpdateComment text token w =
      match find has_marker (firstn 100 (comments w)) with
      | Some existing =>
          (updateComment (id existing) (COMMENT_MARKER ++ nl ++ text) ;;;
           core_info ("Updated existing PR comment #" ++ toString (id existing)))
            (logged w [Api (ListComments (prNumber_of (context w)) 100)])
      | None =>
          (createComment (prNumber_of (context w)) (COMMENT_MARKER ++ nl ++ text) ;;;
           core_info "Posted new PR comment")
            (logged w [Api (ListComments (prNumber_of (context w)) 100)])
      end).
    { unfold postOrUpdateComment. rewrite !bind_asks.
      fold (prNumber_of (context w)).
      replace (truthy_number (prNumber_of (context w))) with true
        by (symmetry; unfold truthy_number; apply negb_true_iff, Z.eqb_neq, Hpr).
      cbn [negb]. rewrite bind_asks, Hocto.
      unfold raise_if. rewrite bind_ret.
      erewrite bind_returned.
      2:{ unfold listComments.
          erewrite bind_returned by (apply request_accepted, Hapi).
          cbn [logged comments]. reflexivity. }
      change (Z.to_nat 100) with 100%nat.
      destruct (find has_marker (firstn 100 (comments w))); reflexivity. }
    rewrite Hstart. clear Hstart.
    destruct (find has_marker (firstn 100 (comments w))) as [existing |] eqn:F.
    + destruct (find_split _ _ _ F) as [pre [post' [E [Hpre Hex]]]].
      exists pre, (post' ++ skipn 100 (comments w))%list.
      assert (Ecs : comments w = (pre ++ existing :: post' ++ skipn 100 (comments w))%list).
      { rewrite <- (firstn_skipn 100 (comments w)) at 1.
        rewrite E, <- app_assoc. reflexivity. }
      split; [exact Ecs |]. split; [exact Hpre |]. split; [exact Hex |].
      cbv zeta. split; [| split].
      * erewrite bind_returned.
        2:{ unfold updateComment.
            erewrite bind_returned by (apply request_accepted, Hapi).
            cbn [logged comments].
            rewrite Ecs at 1.
            rewrite set_body_first.
            - reflexivity.
            - rewrite Ecs, map_app in Hids. cbn [map] in Hids.
              now apply NoDup_app_head in Hids. }
        unfold core_info. rewrite emit_logged.
        unfold logged, set_comments. cbn.
        rewrite <- !app_assoc. reflexivity.
      * rewrite Ecs at 2. rewrite !length_app. reflexivity.
      * rewrite Ecs at 2.
        apply marker_count_replace; [exact Hex | apply has_marker_marked].
    + cbv zeta. split; [| split; [| split]].
      * erewrite bind_returned.
        2:{ unfold createComment.
            erewrite bind_returned by (apply request_accepted, Hapi).
            cbn [logged comments]. reflexivity. }
        unfold core_info. rewrite emit_logged.
        unfold logged, set_comments. cbn.
        rewrite <- !app_assoc. reflexivity.
      * apply has_marker_marked.
      * apply marker_count_new, has_marker_marked.
      * unfold marker_count. now rewrite (find_none_filter _ _ F).
Qed.

(** ** The summary *)

Lemma bars_append (a b : string) : bars (a ++ b) = bars a + bars b.
Proof. induction a as [| c a IH]; cbn [append bars]; [reflexivity | lia]. Qed.

Lemma bars_nonneg (s : string) : 0 <= bars s.
Proof.
  induction s as [| c s IH]; cbn [bars]; [lia |].
  destruct (Ascii.eqb c "|"); lia.
Qed.

Lemma bars_digits_uint (d : Decimal.uint) : bars (NilEmpty.string_of_uint d) = 0.
Proof. induction d; cbn; assumption || reflexivity. Qed.

Lemma bars_digits (n : Z) : bars (digits n) = 0.
Proof.
  unfold digits, NilZero.string_of_uint.
  destruct (N.to_uint (Z.to_N n)); try reflexivity; apply bars_digits_uint.
Qed.

Lemma bars_exponent_notation (x : float) (X : Z) : bars (exponent_notation x X) = 0.
Proof.
  unfold exponent_notation.
  destruct (shortest_from 17 x X (ndigits X) 1) as [s k].
  destruct (s =? 10 ^ k).
  - cbn. apply bars_digits.
  - pose proof (bars_digits s) as Hs.
    assert (He : bars ("e+" ++ digits (ndigits X - 1)) = 0)
      by (rewrite bars_append, bars_digits; reflexivity).
    destruct (digits s) as [| c rest]; [reflexivity |].
    destruct rest as [| c' rest']; rewrite bars_append, He.
    + lia.
    + change (String c ("." ++ String c' rest'))
        with (String c "" ++ "." ++ String c' rest').
      rewrite !bars_append.
      change (String c (String c' rest')) with (String c "" ++ String c' rest') in Hs.
      rewrite bars_append in Hs.
      change (bars ".") with 0. lia.
Qed.

Lemma bars_toString (z : Z) : bars (toString z) = 0.
Proof.
  unfold toString. destruct (ofZ z) as [s | s | | s m e]; try (destruct s; reflexivity);
    try reflexivity.
  assert (Hsign : bars (if s then "-" else "") = 0) by (destruct s; reflexivity).
  destruct (0 <=? e).
  - cbv zeta. destruct (10 ^ 21 <=? Z.pos m * 2 ^ e);
      rewrite bars_append, Hsign; [apply bars_exponent_notation | apply bars_digits].
  - rewrite bars_append, Hsign. apply bars_digits.
Qed.

Lemma more_row_cells (hasKeys : bool) (missed : Z) :
  cells (more_row hasKeys missed) = if hasKeys then 4 else 3.
Proof.
  unfold cells, more_row. rewrite !bars_append, bars_toString.
  destruct hasKeys; reflexivity.
Qed.

Lemma push_all {A : Type} (f : A -> string) (l : list A) (lines : list string) :
  fold_left (fun lines c => push lines (f c)) l lines = (lines ++ map f l)%list.
Proof.
  revert lines. induction l as [| x t IH]; intros lines; cbn [fold_left map].
  - now rewrite app_nil_r.
  - rewrite IH. unfold push. now rewrite <- app_assoc.
Qed.

(** C6, as the code has it.  When there are misses, the lines of the
    summary are the metrics table followed by a details section: a header,
    one row for each of the first 10 misses, a row [N more] when there are
    more than 10, which has as many cells as the header, and the closing
    lines.  The header and the rows have the column of truncated keys if
    and only if one of the listed misses (the first 10) has a non-empty
    cache key. *)
Theorem buildStatsMarkdown_details (stats : Stats.t) (backend duration : string) :
  Stats.missedCrates stats <> [] ->
  let missed := Stats.missedCrates stats in
  let top := firstn 10 missed in
  let hasKeys := existsb (fun c => truthy_string (Crate.cache_key c)) top in
  let more :=
    if 10 <? Z.of_nat (List.length missed)
    then [more_row hasKeys (Z.of_nat (List.length missed))] else [] in
  buildStatsLines stats backend duration =
    (buildStatsLines (without_misses stats) backend duration
     ++ [""; "<details>";
         ("<summary>Cache misses (" ++ toString (Stats.misses stats)
            ++ " crates)</summary>")%string;
         ""]
     ++ details_header hasKeys
     ++ map (crate_row hasKeys) top
     ++ more
     ++ [""; "</details>"])%list /\
  buildStatsMarkdown stats backend duration =
    join nl (buildStatsLines stats backend duration) /\
  (List.length (map (crate_row hasKeys) top) <= 10)%nat /\
  (forall row, In row more ->
     cells row = cells (hd "" (details_header hasKeys)) /\
     cells row = if hasKeys then 4 else 3) /\
  (more <> [] <-> (10 < List.length missed)%nat) /\
  (hasKeys = true <-> exists c, In c top /\ Crate.cache_key c <> "").
Proof.
  intros Hne. cbv zeta. repeat split.
  - unfold buildStatsLines at 1.
    replace (0 <? Z.of_nat (List.length (Stats.missedCrates stats))) with true.
    2:{ symmetry. apply Z.ltb_lt.
        destruct (Stats.missedCrates stats); [congruence | cbn [List.length]; lia]. }
    unfold buildStatsLines.
    cbn [without_misses Stats.total Stats.localHits Stats.remoteHits Stats.hits
           Stats.misses Stats.errors Stats.hitRate Stats.missedCrates List.length].
    change (0 <? Z.of_nat 0) with false. cbv iota.
    set (top := firstn 10 (Stats.missedCrates stats)).
    set (hasKeys := existsb (fun c => truthy_string (Crate.cache_key c)) top).
    destruct hasKeys; cbv zeta; cbv iota; rewrite push_all; unfold push, details_header;
      destruct (10 <? Z.of_nat (List.length (Stats.missedCrates stats)));
      rewrite <- ?app_assoc; cbn [app]; reflexivity.
  - rewrite length_map, length_firstn. lia.
  - destruct (10 <? Z.of_nat (List.length (Stats.missedCrates stats))); [| destruct H].
    destruct H as [<- | []]. rewrite more_row_cells.
    destruct (existsb _ _); reflexivity.
  - destruct (10 <? Z.of_nat (List.length (Stats.missedCrates stats))); [| destruct H].
    destruct H as [<- | []]. apply more_row_cells.
  - destruct (10 <? Z.of_nat (List.length (Stats.missedCrates stats))) eqn:E.
    + intros _. apply Z.ltb_lt in E. lia.
    + congruence.
  - intros H. destruct (10 <? Z.of_nat (List.length (Stats.missedCrates stats))) eqn:E.
    + discriminate.
    + apply Z.ltb_ge in E. lia.
  - intros H. apply existsb_exists in H. destruct H as [c [Hin Hk]].
    exists c. split; [exact Hin |].
    unfold truthy_string in Hk. apply negb_true_iff in Hk.
    now apply String.eqb_neq.
  - intros [c [Hin Hk]]. apply existsb_exists. exists c. split; [exact Hin |].
    unfold truthy_string. apply negb_true_iff. now apply String.eqb_neq.
Qed.

(** ** The post step *)

Lemma try_catch_returned {A : Type} (m : M A) (h : js_error -> M A)
      (w w' : world) (a : A) :
  m w = (Returned a, w') -> try_catch m h w = (Returned a, w').
Proof. intros E. unfold try_catch. now rewrite E. Qed.

Lemma try_catch_thrown {A : Type} (m : M A) (h : js_error -> M A)
      (w w' : world) (err : js_error) :
  m w = (Thrown err, w') -> try_catch m h w = h err w'.
Proof. intros E. unfold try_catch. now rewrite E. Qed.

Lemma publish_comment_thrown (text token : string) (w w1 : world) (err : js_error) :
  postOrUpdateComment text token w = (Thrown err, w1) ->
  publish_comment text token w = (Returned tt, logged w1 [publish_report err]).
Proof.
  intros E. unfold publish_comment.
  rewrite (try_catch_thrown _ _ _ _ _ E). unfold publish_report.
  destruct (message_includes "Resource not accessible" err); reflexivity.
Qed.

Lemma publish_comment_returns (text token : string) (w : world) :
  exists w', publish_comment text token w = (Returned tt, w').
Proof.
  destruct (postOrUpdateComment text token w) as [[[] | err] w1] eqn:E.
  - exists w1. unfold publish_comment. exact (try_catch_returned _ _ _ _ _ E).
  - eexists. exact (publish_comment_thrown _ _ _ _ _ E).
Qed.

(** The two [catch] clauses of the post step, each on its own: [run]
    returns in every world, with a warning for an error that escapes
    [post_step], and the inner [try] returns for every text, with a notice
    for an error of [postOrUpdateComment]. *)
Lemma run_catches (JSON_parse : string -> option json) (w : world) :
  (exists w', run JSON_parse w = (Returned tt, w')) /\
  (forall err w1,
     post_step JSON_parse w = (Thrown err, w1) ->
     run JSON_parse w =
     (Returned tt,
      logged w1 [Warning ("kache post step failed: " ++ show (message err))])) /\
  (forall text token, exists w', publish_comment text token w = (Returned tt, w')) /\
  (forall text token err w1,
     postOrUpdateComment text token w = (Thrown err, w1) ->
     publish_comment text token w =
     (Returned tt,
      logged w1
        [if message_includes "Resource not accessible" err
         then Info ("Skipping PR comment " ++ em_dash
                    ++ " token lacks pull-requests: write permission")
         else Warning ("Failed to post PR comment: " ++ show (message err))])).
Proof.
  assert (Hthrown : forall err w1,
             post_step JSON_parse w = (Thrown err, w1) ->
             run JSON_parse w =
             (Returned tt,
              logged w1 [Warning ("kache post step failed: " ++ show (message err))])).
  { intros err w1 E. unfold run. now rewrite (try_catch_thrown _ _ _ _ _ E). }
  repeat split.
  - destruct (post_step JSON_parse w) as [[[] | err] w1] eqn:E.
    + exists w1. unfold run. exact (try_catch_returned _ _ _ _ _ E).
    + eexists. exact (Hthrown _ _ eq_refl).
  - exact Hthrown.
  - intros text token. apply publish_comment_returns.
  - intros text token err w1 E.
    rewrite (publish_comment_thrown _ _ _ _ _ E). unfold publish_report.
    destruct (message_includes "Resource not accessible" err); reflexivity.
Qed.

(** ** Formatting *)

Example formatBytes_zero : formatBytes 0 = "0 B".
Proof. reflexivity. Qed.

Example formatBytes_1536 : formatBytes 1536 = "1.5 KB".
Proof. vm_compute. reflexivity. Qed.

Example formatBytes_1MB : formatBytes 1048576 = "1.0 MB".
Proof. vm_compute. reflexivity. Qed.

Example formatMs_850 : formatMs 850 = "850ms".
Proof. vm_compute. reflexivity. Qed.

Example formatMs_2500 : formatMs 2500 = "2.5s".
Proof. vm_compute. reflexivity. Qed.

Example formatMs_4200 : formatMs 4200 = "4.2s".
Proof. vm_compute. reflexivity. Qed.

(** The quotient is rounded as a double before it is printed. *)
Example formatMs_1150 : formatMs 1150 = "1.1s".
Proof. vm_compute. reflexivity. Qed.

(** Under 1000 the time is printed as it is. *)
Lemma formatMs_small (ms : Z) :
  0 <= ms < 1000 -> formatMs ms = toString ms ++ "ms".
Proof.
  intros H. unfold formatMs.
  replace (ms <? 1000) with true by (symmetry; apply Z.ltb_lt; lia).
  reflexivity.
Qed.

(** The unit is chosen by the integer logarithm in base 1024. *)
Lemma floor_log1024_spec (bytes : Z) :
  0 < bytes ->
  let i := floor_log1024 bytes in
  0 <= i /\ 1024 ^ i <= bytes < 1024 ^ (i + 1).
Proof.
  intros H. cbv zeta. unfold floor_log1024.
  pose proof (Z.log2_spec bytes H) as [Hlo Hhi].
  pose proof (Z.log2_nonneg bytes) as Hn.
  set (l := Z.log2 bytes) in *.
  assert (Hi : 0 <= l / 10) by (apply Z.div_pos; lia).
  assert (E : forall k, 0 <= k -> 1024 ^ k = 2 ^ (10 * k)).
  { intros k Hk. rewrite Z.pow_mul_r by lia. reflexivity. }
  split; [exact Hi |].
  rewrite !E by lia.
  pose proof (Z.div_mod l 10 ltac:(lia)) as Hd.
  pose proof (Z.mod_pos_bound l 10 ltac:(lia)) as Hm.
  split.
  - apply Z.le_trans with (2 ^ l); [| exact Hlo].
    apply Z.pow_le_mono_r; lia.
  - apply Z.lt_le_trans with (2 ^ Z.succ l); [exact Hhi |].
    apply Z.pow_le_mono_r; lia.
Qed.

(** Up to 1 TiB the unit is in the table; from there on there is none, and
    [undefined] is printed in its place. *)
Lemma formatBytes_unit (bytes : Z) :
  0 < bytes < 2 ^ 53 ->
  let i := floor_log1024 bytes in
  (bytes < 1024 ^ 4 ->
   exists unit, nth_error formatBytes_units (Z.to_nat i) = Some unit /\
                In unit ["B"; "KB"; "MB"; "GB"]) /\
  (1024 ^ 4 <= bytes ->
   formatBytes bytes =
   fixed1 ((20 * bytes + 1024 ^ i) / (2 * 1024 ^ i)) ++ " undefined").
Proof.
  intros Hb i.
  pose proof (floor_log1024_spec bytes ltac:(lia)) as [Hi [Lo Hi']]. fold i in Hi, Lo, Hi'.
  split.
  - intros H4.
    assert (i < 4).
    { destruct (Z.lt_ge_cases i 4) as [L | G]; [exact L |].
      exfalso. assert (1024 ^ 4 <= 1024 ^ i) by (apply Z.pow_le_mono_r; lia). lia. }
    assert (i = 0 \/ i = 1 \/ i = 2 \/ i = 3) as [-> | [-> | [-> | ->]]] by lia;
      cbn; eexists; split; try reflexivity; cbn; tauto.
  - intros H4. rewrite (formatBytes_scaled bytes Hb). fold i.
    assert (4 <= i).
    { destruct (Z.lt_ge_cases i 4) as [L | G]; [| exact G].
      exfalso. assert (1024 ^ (i + 1) <= 1024 ^ 4) by (apply Z.pow_le_mono_r; lia). lia. }
    replace (nth_error formatBytes_units (Z.to_nat i)) with (@None string); [reflexivity |].
    symmetry. apply nth_error_None. cbn [formatBytes_units List.length]. lia.
Qed.

(** C7, where the code leaves it.  A size of 2 TiB is past the last unit of
    the table: the index 4 finds no unit, and the text of [undefined] is
    printed in its place. *)
Theorem formatBytes_past_GB : formatBytes 2199023255552 = "2.0 undefined".
Proof. vm_compute. reflexivity. Qed.

(** ** The version in the key *)

Lemma append_cancel_l (a b c : string) : a ++ b = a ++ c -> b = c.
Proof.
  induction a as [| x a IH]; cbn [append]; intros H; [exact H |].
  injection H as H. now apply IH.
Qed.

Lemma length_append (a b : string) :
  String.length (a ++ b) = (String.length a + String.length b)%nat.
Proof. induction a as [| x a IH]; cbn; [reflexivity | now rewrite IH]. Qed.

Lemma append_cancel_r (a b c : string) : a ++ c = b ++ c -> a = b.
Proof.
  revert b. induction a as [| x a IH]; intros [| y b]; cbn [append]; intros H.
  - reflexivity.
  - apply (f_equal String.length) in H. cbn [String.length] in H.
    rewrite length_append in H. lia.
  - apply (f_equal String.length) in H. cbn [String.length] in H.
    rewrite length_append in H. lia.
  - injection H as -> H. f_equal. now apply IH.
Qed.

Lemma append_inj_length (a b c d : string) :
  String.length a = String.length b -> a ++ c = b ++ d -> a = b /\ c = d.
Proof.
  revert b. induction a as [| x a IH]; intros [| y b]; cbn; intros HL H;
    try discriminate.
  - auto.
  - injection HL as HL. injection H as -> H.
    destruct (IH b HL H) as [-> ->]. auto.
Qed.

Lemma one_byte_changed_length (s s' : string) :
  one_byte_changed s s' -> String.length s' = String.length s /\ s' <> s.
Proof.
  intros [pre [x [y [post [Hxy [-> ->]]]]]]. split.
  - rewrite !length_append. reflexivity.
  - intros H. apply append_cancel_l in H. injection H as H. congruence.
Qed.

(** Replacing a byte of one lockfile changes what the hasher is fed. *)
Lemma hasher_input_changes (paths : list string) (content content' : string -> string)
      (f : string) :
  In f paths ->
  one_byte_changed (content f) (content' f) ->
  (forall g, g <> f -> content' g = content g) ->
  String.concat "" (map content' (sort compare_strings paths)) <>
  String.concat "" (map content (sort compare_strings paths)).
Proof.
  intros Hin Hch Hsame.
  apply (Permutation_in _ (Permutation_sym (sort_perm compare_strings paths))) in Hin.
  destruct (one_byte_changed_length _ _ Hch) as [Hlen Hne].
  assert (Hlens : forall g, String.length (content' g) = String.length (content g)).
  { intros g. destruct (string_dec g f) as [-> | Hg]; [exact Hlen |].
    now rewrite Hsame. }
  induction (sort compare_strings paths) as [| g l IH]; [destruct Hin |].
  cbn [map]. rewrite !concat_empty_cons. intros H.
  apply append_inj_length in H; [| apply Hlens].
  destruct H as [Hg Hl].
  destruct Hin as [-> | Hin]; [contradiction |].
  now apply IH.
Qed.

(** Two versions that differ once resolved give different keys and
    different restore keys. *)
Lemma buildCacheKey_version (w : world) (content : string -> string)
      (v1 v2 : option string) :
  (forall f, In f (glob_lockfiles (context w)) ->
             fs_readFileSync (context w) f = Returned (content f)) ->
  or_string v1 "unknown" <> or_string v2 "unknown" ->
  exists key1 key2 restore1 restore2,
    buildCacheKey (with_version w v1) = (Returned (key1, [restore1]), with_version w v1) /\
    buildCacheKey (with_version w v2) = (Returned (key2, [restore2]), with_version w v2) /\
    key1 <> key2 /\ restore1 <> restore2.
Proof.
  intros Hread Hne.
  pose proof (buildCacheKey_returns (with_version w v1) content Hread) as E1.
  pose proof (buildCacheKey_returns (with_version w v2) content Hread) as E2.
  cbv zeta in E1, E2.
  cbn [with_version context getInput process_env os_platform os_arch glob_lockfiles]
    in E1, E2.
  change ("KACHE_VERSION" =? "KACHE_VERSION")%string with true in E1, E2.
  cbv iota in E1, E2.
  do 4 eexists. split; [exact E1 |]. split; [exact E2 |].
  split; intros H; apply Hne.
  - apply append_cancel_l in H. injection H as H.
    now apply append_cancel_r in H.
  - apply append_cancel_l in H. injection H as H.
    now apply append_cancel_r in H.
Qed.

(** With the same prefix, platform and lock hash, two versions give the
    same key, or the same restore key, only when they are equal. *)
Lemma key_version_injective (prefix platform lockHash v1 v2 : string) :
  (prefix ++ "-" ++ v1 ++ "-" ++ platform ++ "-" ++ lockHash =
   prefix ++ "-" ++ v2 ++ "-" ++ platform ++ "-" ++ lockHash -> v1 = v2) /\
  (prefix ++ "-" ++ v1 ++ "-" ++ platform ++ "-" =
   prefix ++ "-" ++ v2 ++ "-" ++ platform ++ "-" -> v1 = v2).
Proof.
  split; intros H; apply append_cancel_l in H;
    change ("-" ++ ?x) with (String "-" x) in H; cbn [append] in H;
    injection H as H; now apply append_cancel_r in H.
Qed.


(** * The properties on the sample runs *)

Lemma buildCacheKey_key_witness :
  fst (buildCacheKey (Sample.w [])) =
  Returned ("kache-v0.3.1-linux-x64-1fdc46dfc887b3d5", ["kache-v0.3.1-linux-x64-"]).
Proof.
  assert (H : forall f, In f (glob_lockfiles (context (Sample.w []))) ->
                        fs_readFileSync (context (Sample.w [])) f
                        = Returned ("# lock of " ++ f)).
  { intros f [<- | [<- | []]]; reflexivity. }
  destruct (buildCacheKey_key (Sample.w []) (fun f => "# lock of " ++ f) H) as [E _].
  rewrite E. vm_compute. reflexivity.
Defined.

Lemma sample_events_decoded : Forall (fun e => e <> Null) Sample.events.
Proof. repeat constructor; discriminate. Defined.

Lemma sample_misses_decoded : Forall (fun e => e <> Null) Sample.misses.
Proof. repeat constructor; discriminate. Defined.

Lemma aggregate_counts_witness :
  exists st,
    aggregate Sample.events (Sample.w []) = (Returned st, Sample.w []) /\
    Stats.total st = 10 /\ Stats.hits st = 9 /\ Stats.hitRate st = "90.0".
Proof.
  destruct (aggregate_counts Sample.events (Sample.w []) sample_events_decoded)
    as [st [E [L [R [Ms [_ [T [Hh [_ [Hr _]]]]]]]]]].
  exists st. split; [exact E |].
  assert (Ht : Stats.total st = 10) by (rewrite T, L, R, Ms; reflexivity).
  assert (Hhits : Stats.hits st = 9) by (rewrite Hh, L, R; reflexivity).
  split; [exact Ht |]. split; [exact Hhits |].
  rewrite Hr, Ht, Hhits. vm_compute. reflexivity.
Defined.

Lemma aggregate_missedCrates_sorted_witness :
  exists st,
    aggregate Sample.misses (Sample.w []) = (Returned st, Sample.w []) /\
    map Crate.name
        (filter (fun c => Crate.elapsed_ms c =? 300) (Stats.missedCrates st))
    = [Some "a"; Some "d"].
Proof.
  destruct (aggregate_missedCrates_sorted Sample.misses (Sample.w [])
              sample_misses_decoded) as [st [E [_ [_ S]]]].
  exists st. split; [exact E |].
  rewrite (S 300). reflexivity.
Defined.

Lemma missed_crate_defaults_witness :
  exists st,
    aggregate Sample.misses (Sample.w []) = (Returned st, Sample.w []) /\
    In {| Crate.name := Some "b"; Crate.elapsed_ms := 0; Crate.size := 2048;
          Crate.cache_key := "" |} (Stats.missedCrates st).
Proof.
  destruct (missed_crate_defaults Sample.misses (Sample.w [])
              sample_misses_decoded) as [st [E [_ [Hin _]]]].
  exists st. split; [exact E |].
  apply (Hin {| Event.result := Some "miss"; Event.crate_name := Some "b";
                Event.elapsed_ms := None; Event.size := Some 2048;
                Event.cache_key := None |}).
  - right. left. reflexivity.
  - reflexivity.
Defined.

Lemma parseEvents_tolerant_witness :
  decode_events Sample.JSON_parse
    (trim (Sample.valid_line ++ nl ++ "" ++ nl ++ Sample.garbled_line))
  = [Obj Sample.foo_miss].
Proof.
  destruct (parseEvents_tolerant Sample.JSON_parse (Sample.w [])) as [_ [_ H]].
  apply H; reflexivity.
Defined.

Lemma sample_thread_ids : NoDup (map id [Sample.plain 1; Sample.sticky 2]).
Proof.
  constructor; [intros [H | []]; discriminate |].
  constructor; [intros [] | constructor].
Defined.

Lemma postOrUpdateComment_sticky_witness :
  let w := Sample.w [Sample.plain 1; Sample.sticky 2] in
  let w' := snd (postOrUpdateComment "report" "ghs_token" w) in
  comments w' =
    [Sample.plain 1;
     {| id := 2; body := Some (COMMENT_MARKER ++ nl ++ "report") |}] /\
  marker_count (comments w') = 1%nat.
Proof.
  cbv zeta.
  destruct (postOrUpdateComment_sticky
              (Sample.w [Sample.plain 1; Sample.sticky 2]) "report" "ghs_token")
    as [_ H].
  assert (Hpr : prNumber_of (context (Sample.w [Sample.plain 1; Sample.sticky 2])) <> 0)
    by discriminate.
  specialize (H Hpr eq_refl (fun _ => eq_refl) sample_thread_ids).
  change (find has_marker
            (firstn 100 (comments (Sample.w [Sample.plain 1; Sample.sticky 2]))))
    with (Some (Sample.sticky 2)) in H.
  destruct H as [pre [post [Ecs [_ [_ [E [_ Hcount]]]]]]].
  rewrite E. cbn [snd comments].
  split; [| rewrite Hcount; reflexivity].
  destruct pre as [| p [| q pre]]; cbn in Ecs.
  - discriminate Ecs.
  - injection Ecs as Hp Hpost. subst p post. reflexivity.
  - exfalso. injection Ecs as _ _ Ecs. destruct pre; discriminate Ecs.
Defined.

(** C4, against the claim as it was stated: the sticky comment is the
    101st of the thread, past the page that is fetched; the publish does
    not see it and creates a second comment with the marker. *)
Lemma publish_past_first_page :
  let w := Sample.w Sample.long_thread in
  let w' := snd (postOrUpdateComment "report" "ghs_token" w) in
  (exists c, In c (comments w) /\ has_marker c = true) /\
  fst (postOrUpdateComment "report" "ghs_token" w) = Returned tt /\
  List.length (comments w') = S (List.length (comments w)) /\
  ~ (marker_count (comments w') <= 1)%nat.
Proof.
  cbv zeta. split; [| split; [| split]].
  - exists (Sample.sticky 101). split; [| reflexivity].
    unfold Sample.w, Sample.long_thread. cbn [comments].
    apply in_or_app. right. now left.
  - vm_compute. reflexivity.
  - vm_compute. reflexivity.
  - vm_compute. intros H. inversion H as [| ? H1]. inversion H1.
Qed.

(** Nor does the publish remove a marker that a second comment carries. *)
Lemma publish_keeps_other_marker :
  let w := Sample.w [Sample.sticky 1; Sample.sticky 2] in
  let w' := snd (postOrUpdateComment "report" "ghs_token" w) in
  fst (postOrUpdateComment "report" "ghs_token" w) = Returned tt /\
  marker_count (comments w') = 2%nat.
Proof. cbv zeta. split; vm_compute; reflexivity. Qed.

Lemma eleven_misses_decoded : Forall (fun e => e <> Null) Sample.eleven_misses.
Proof. repeat constructor; discriminate. Defined.

(** C6, against the claim as it was stated: a miss carries a cache key,
    but it is the eleventh, and the table has no column for the keys. *)
Lemma details_without_key_column :
  let st := stats_of Sample.eleven_misses in
  aggregate Sample.eleven_misses (Sample.w []) = (Returned st, Sample.w []) /\
  (exists c, In c (Stats.missedCrates st) /\ Crate.cache_key c <> "") /\
  nth_error (buildStatsLines st "S3" "1.0") 13 = Some "| Crate | Compile time | Size |" /\
  includes "Key" (buildStatsMarkdown st "S3" "1.0") = false.
Proof.
  cbv zeta. split; [| split; [| split]].
  - apply aggregate_returns, eleven_misses_decoded.
  - exists {| Crate.name := Some "last"; Crate.elapsed_ms := 1; Crate.size := 2048;
              Crate.cache_key := "0123456789abcdef" |}.
    split; [| discriminate].
    vm_compute. do 10 right. now left.
  - vm_compute. reflexivity.
  - vm_compute. reflexivity.
Qed.

Lemma buildStatsMarkdown_details_witness :
  let st := stats_of Sample.eleven_misses in
  List.length (buildStatsLines st "S3" "1.0") = 28%nat /\
  nth_error (buildStatsLines st "S3" "1.0") 25 = Some "| *... 1 more* | | |".
Proof.
  cbv zeta.
  assert (Hne : Stats.missedCrates (stats_of Sample.eleven_misses) <> [])
    by (vm_compute; discriminate).
  destruct (buildStatsMarkdown_details (stats_of Sample.eleven_misses) "S3" "1.0" Hne)
    as [E _].
  rewrite E. split; vm_compute; reflexivity.
Defined.

(** The run goes on after a refused comment: the notice is followed by the
    write of the summary. *)
Example run_continues_after_refusal :
  let r := run Sample.JSON_parse (Sample.with_faults (Some Sample.denied) None) in
  fst r = Returned tt /\
  exists summary,
    skipn 3 (trace (snd r)) =
    [Api (ListComments 42 100);
     Api (CreateComment 42
            (COMMENT_MARKER ++ nl
             ++ buildCommentBody (stats_of [Obj Sample.foo_miss])
                                 "GitHub Actions cache" "60.0"));
     skip_comment_notice;
     SummaryWrite summary].
Proof.
  cbv zeta. split; [vm_compute; reflexivity |].
  eexists. vm_compute. reflexivity.
Qed.

(** * Further properties of the code *)

(** ** What the code of a step leaves behind *)

Lemma extends_refl (ks : list kind) (w : world) : extends ks w w.
Proof. split; [reflexivity |]. exists []. now rewrite app_nil_r. Qed.

Lemma extends_trans (ks : list kind) (a b c : world) :
  extends ks a b -> extends ks b c -> extends ks a c.
Proof.
  intros [C1 [d1 [T1 F1]]] [C2 [d2 [T2 F2]]]. split; [congruence |].
  exists (d1 ++ d2)%list. split.
  - rewrite T2, T1, app_assoc. reflexivity.
  - rewrite forallb_app, F1, F2. reflexivity.
Qed.

Lemma of_kinds_incl (ks ks' : list kind) (o : obs) :
  incl ks ks' -> of_kinds ks o = true -> of_kinds ks' o = true.
Proof.
  intros H. unfold of_kinds. rewrite !existsb_exists.
  intros [k [Hin Hk]]. exists k. split; [apply H, Hin | exact Hk].
Qed.

Lemma extends_incl (ks ks' : list kind) (w w' : world) :
  incl ks ks' -> extends ks w w' -> extends ks' w w'.
Proof.
  intros H [C [d [T F]]]. split; [exact C |]. exists d. split; [exact T |].
  rewrite forallb_forall in *. intros o Ho. apply (of_kinds_incl ks); auto.
Qed.

Lemma extends_logged (ks : list kind) (w : world) (os : list obs) :
  forallb (of_kinds ks) os = true -> extends ks w (logged w os).
Proof. intros H. split; [reflexivity |]. exists os. now split. Qed.

Section Guarantees.

Context (G : world -> world -> Prop).
Hypothesis G_refl : forall w, G w w.
Hypothesis G_trans : forall a b c, G a b -> G b c -> G a c.

Lemma guarantees_ret {A : Type} (a : A) : guarantees G (ret a).
Proof. intros w. apply G_refl. Qed.

Lemma guarantees_throw {A : Type} (err : js_error) : guarantees G (@throw A err).
Proof. intros w. apply G_refl. Qed.

Lemma guarantees_asks {A : Type} (f : env -> A) : guarantees G (asks f).
Proof. intros w. apply G_refl. Qed.

Lemma guarantees_lift {A : Type} (r : outcome A) : guarantees G (lift r).
Proof. destruct r; intros w; apply G_refl. Qed.

Lemma guarantees_raise_if (fault : option js_error) : guarantees G (raise_if fault).
Proof. destruct fault; intros w; apply G_refl. Qed.

Lemma guarantees_bind {A B : Type} (m : M A) (k : A -> M B) :
  guarantees G m -> (forall a, guarantees G (k a)) -> guarantees G (bind m k).
Proof.
  intros Hm Hk w. unfold bind. specialize (Hm w).
  destruct (m w) as [[a | err] w1]; cbn [snd] in *.
  - apply (G_trans _ w1); [exact Hm | apply Hk].
  - exact Hm.
Qed.

Lemma guarantees_try_catch {A : Type} (m : M A) (h : js_error -> M A) :
  guarantees G m -> (forall err, guarantees G (h err)) -> guarantees G (try_catch m h).
Proof.
  intros Hm Hh w. unfold try_catch. specialize (Hm w).
  destruct (m w) as [[a | err] w1]; cbn [snd] in *.
  - exact Hm.
  - apply (G_trans _ w1); [exact Hm | apply Hh].
Qed.

Lemma guarantees_for_of {A S : Type} (body : S -> A -> M S) (l : list A) :
  (forall s x, guarantees G (body s x)) -> forall s, guarantees G (for_of body l s).
Proof.
  intros Hbody. induction l as [| x t IH]; intros s; cbn [for_of].
  - apply guarantees_ret.
  - apply guarantees_bind; [apply Hbody | exact IH].
Qed.

End Guarantees.
Lemma extends_emit (ks : list kind) (o : obs) :
  of_kinds ks o = true -> guarantees (extends ks) (emit o).
Proof.
  intros H w. rewrite emit_logged. apply extends_logged. cbn. now rewrite H.
Qed.

Lemma extends_set_comments (ks : list kind) (cs : list comment) :
  guarantees (extends ks) (set_comments cs).
Proof. intros w. split; [reflexivity |]. exists []. cbn. now rewrite app_nil_r. Qed.

Lemma reads_ret {A : Type} (a : A) : reads (ret a).
Proof. exists (fun _ => Returned a). reflexivity. Qed.

Lemma reads_throw {A : Type} (err : js_error) : reads (@throw A err).
Proof. exists (fun _ => Thrown err). reflexivity. Qed.

Lemma reads_asks {A : Type} (f : env -> A) : reads (asks f).
Proof. exists (fun c => Returned (f c)). reflexivity. Qed.

Lemma reads_lift {A : Type} (r : outcome A) : reads (lift r).
Proof. exists (fun _ => r). intros w. destruct r; reflexivity. Qed.

Lemma reads_raise_if (fault : option js_error) : reads (raise_if fault).
Proof. destruct fault; [apply reads_throw | apply reads_ret]. Qed.

Lemma reads_bind {A B : Type} (m : M A) (k : A -> M B) :
  reads m -> (forall a, reads (k a)) -> reads (bind m k).
Proof.
  intros [f Hf] Hk.
  exists (fun c => match f c with
                   | Returned a => fst (k a {| context := c; comments := []; trace := [] |})
                   | Thrown err => Thrown err
                   end).
  intros w. unfold bind. rewrite Hf.
  destruct (f (context w)) as [a | err]; [| reflexivity].
  destruct (Hk a) as [g Hg]. rewrite !Hg. reflexivity.
Qed.

Lemma reads_try_catch {A : Type} (m : M A) (h : js_error -> M A) :
  reads m -> (forall err, reads (h err)) -> reads (try_catch m h).
Proof.
  intros [f Hf] Hh.
  exists (fun c => match f c with
                   | Returned a => Returned a
                   | Thrown err => fst (h err {| context := c; comments := []; trace := [] |})
                   end).
  intros w. unfold try_catch. rewrite Hf.
  destruct (f (context w)) as [a | err]; [reflexivity |].
  destruct (Hh err) as [g Hg]. rewrite !Hg. reflexivity.
Qed.

Lemma reads_for_of {A S : Type} (body : S -> A -> M S) (l : list A) :
  (forall s x, reads (body s x)) -> forall s, reads (for_of body l s).
Proof.
  intros Hbody. induction l as [| x t IH]; intros s; cbn [for_of].
  - apply reads_ret.
  - apply reads_bind; [apply Hbody | exact IH].
Qed.

(** What reading code does in a world is what it does in any world with
    the same surroundings. *)
Lemma reads_same {A : Type} (m : M A) (w w' : world) :
  reads m -> context w' = context w -> m w' = (fst (m w), w').
Proof. intros [f Hf] E. rewrite !Hf, E. reflexivity. Qed.

Lemma reads_unchanged {A : Type} (m : M A) (w : world) : reads m -> snd (m w) = w.
Proof. intros [f Hf]. now rewrite Hf. Qed.

Lemma reads_guarantees {A : Type} (ks : list kind) (m : M A) :
  reads m -> guarantees (extends ks) m.
Proof. intros H w. rewrite (reads_unchanged m w H). apply extends_refl. Qed.

(** Structural steps of the two kinds of argument. *)
Ltac reads_step :=
  first
    [ apply reads_ret | apply reads_throw | apply reads_asks | apply reads_lift
    | apply reads_raise_if
    | apply reads_bind; [| intros ?]
    | apply reads_try_catch; [| intros ?]
    | apply reads_for_of; intros ? ?
    | match goal with
      | |- reads (if ?b then _ else _) => destruct b
      | |- reads (match ?x with _ => _ end) => destruct x
      | |- reads (let _ := _ in _) => cbv zeta
      end ].

Ltac extends_step :=
  first
    [ apply guarantees_ret; apply extends_refl
    | apply guarantees_throw; apply extends_refl
    | apply guarantees_asks; apply extends_refl
    | apply guarantees_lift; apply extends_refl
    | apply guarantees_raise_if; apply extends_refl
    | apply extends_set_comments
    | apply extends_emit; reflexivity
    | apply guarantees_bind; [apply extends_trans | | intros ?]
    | apply guarantees_try_catch; [apply extends_trans | | intros ?]
    | apply guarantees_for_of; [apply extends_refl | apply extends_trans | intros ? ?]
    | match goal with
      | |- guarantees _ (if ?b then _ else _) => destruct b
      | |- guarantees _ (match ?x with _ => _ end) => destruct x
      | |- guarantees _ (let _ := _ in _) => cbv zeta
      end ].

Lemma reads_getCacheDir : reads getCacheDir.
Proof. unfold getCacheDir. repeat reads_step. Qed.

Lemma reads_getEventLogPath : reads getEventLogPath.
Proof. unfold getEventLogPath. apply reads_bind; [apply reads_getCacheDir | intros; apply reads_ret]. Qed.

Lemma reads_readFileSync (f : string) : reads (readFileSync f).
Proof. unfold readFileSync. repeat reads_step. Qed.

Lemma reads_buildCacheKey : reads buildCacheKey.
Proof.
  unfold buildCacheKey. repeat (reads_step || apply reads_readFileSync).
Qed.

Lemma reads_aggregate (events : list json) : reads (aggregate events).
Proof.
  unfold aggregate. apply reads_bind; [| intros; apply reads_ret].
  apply reads_for_of. intros s x. unfold count_event. repeat reads_step.
Qed.

Lemma reads_parseEvents (JSON_parse : string -> option json) :
  reads (parseEvents JSON_parse).
Proof.
  unfold parseEvents.
  repeat (apply reads_getEventLogPath || apply reads_readFileSync
          || apply reads_aggregate || reads_step).
Qed.

Lemma reads_getTarget : reads getTarget.
Proof. unfold getTarget. repeat reads_step. Qed.

Lemma reads_isS3Configured : reads isS3Configured.
Proof. unfold isS3Configured. repeat reads_step. Qed.

Lemma reads_useGitHubCache : reads useGitHubCache.
Proof.
  unfold useGitHubCache. apply reads_bind; [apply reads_isS3Configured |].
  intros s3. repeat reads_step.
Qed.

Lemma extends_runKache (args : list string) :
  guarantees (extends [KExec; KWarning]) (runKache args).
Proof.
  unfold runKache, core_warning.
  repeat (extends_step || match goal with |- guarantees _ (let '(_, _) := ?r in _) => destruct r as [[? ?] ?] end).
Qed.

Lemma extends_saveCache : guarantees (extends [KCacheSave; KInfo; KWarning]) saveCache.
Proof.
  unfold saveCache, core_info, core_warning.
  repeat (apply (reads_guarantees _ _ reads_getCacheDir)
          || apply (reads_guarantees _ _ reads_buildCacheKey) || extends_step).
Qed.

Lemma extends_request (call : api_call) : guarantees (extends [KApi]) (request call).
Proof. unfold request. repeat extends_step. Qed.

Lemma extends_postOrUpdateComment (text token : string) :
  guarantees (extends [KApi; KInfo]) (postOrUpdateComment text token).
Proof.
  assert (R : forall call, guarantees (extends [KApi; KInfo]) (request call)).
  { intros call w. apply (extends_incl [KApi]); [| apply extends_request].
    intros k [<- | []]. now left. }
  unfold postOrUpdateComment, listComments, updateComment, createComment, core_info.
  repeat (apply R || extends_step).
  - intros w. apply extends_refl.
  - intros w. destruct (set_body _ _ _); [apply extends_set_comments | apply extends_refl].
  - intros w. apply extends_set_comments.
Qed.

Lemma extends_publish_comment (text token : string) :
  guarantees (extends [KApi; KInfo; KWarning]) (publish_comment text token).
Proof.
  unfold publish_comment, core_info, core_warning.
  apply guarantees_try_catch; [apply extends_trans | | intros err; repeat extends_step].
  intros w. apply (extends_incl [KApi; KInfo]); [| apply extends_postOrUpdateComment].
  intros k [<- | [<- | []]]; cbn; tauto.
Qed.

Lemma extends_summary_write (buffer : string) :
  guarantees (extends [KSummary]) (summary_write buffer).
Proof. unfold summary_write. repeat extends_step. Qed.

(** ** [runKache] and [saveCache] *)

Lemma runKache_returned (args : list string) (w : world) (exitCode : Z)
      (stdout stderr : string) :
  exec_kache (context w) args = Returned (exitCode, stdout, stderr) ->
  runKache args w =
  (Returned stdout,
   logged w (Exec args ::
             if exitCode =? 0 then []
             else Warning ("kache " ++ join " " args ++ " exited with code "
                           ++ toString exitCode)
                  :: if (stderr =? "")%string then [] else [Warning stderr])).
Proof.
  intros H. unfold runKache.
  rewrite (bind_returned _ _ _ _ _ (emit_logged _ w)).
  rewrite bind_asks. cbn [logged context]. rewrite H. cbn [lift].
  rewrite bind_ret.
  destruct (exitCode =? 0); cbn [negb].
  - rewrite bind_ret. reflexivity.
  - unfold core_warning, truthy_string.
    destruct (stderr =? "")%string; cbn [negb].
    + erewrite bind_returned.
      2:{ erewrite bind_returned by apply emit_logged. reflexivity. }
      unfold ret. rewrite logged_logged. reflexivity.
    + erewrite bind_returned.
      2:{ erewrite bind_returned by apply emit_logged. apply emit_logged. }
      unfold ret. rewrite !logged_logged. reflexivity.
Qed.

Lemma runKache_thrown (args : list string) (w : world) (err : js_error) :
  exec_kache (context w) args = Thrown err ->
  runKache args w = (Thrown err, logged w [Exec args]).
Proof.
  intros H. unfold runKache.
  rewrite (bind_returned _ _ _ _ _ (emit_logged _ w)).
  rewrite bind_asks. cbn [logged context]. rewrite H. reflexivity.
Qed.

(** A command of kache that exits with a code other than 0 is a warning,
    not an error: [runKache] returns what the command printed, after a
    warning with the exit code and, when the command wrote to its error
    stream, a second one with that text.  Only a command that cannot be
    run at all makes it throw, and nothing but the command and warnings is
    ever added by it. *)
Theorem runKache_tolerant (args : list string) (w : world) :
  (forall exitCode stdout stderr,
     exec_kache (context w) args = Returned (exitCode, stdout, stderr) ->
     runKache args w =
     (Returned stdout,
      logged w (Exec args ::
                if exitCode =? 0 then []
                else Warning ("kache " ++ join " " args ++ " exited with code "
                              ++ toString exitCode)
                     :: if (stderr =? "")%string then [] else [Warning stderr]))) /\
  (forall err,
     exec_kache (context w) args = Thrown err ->
     runKache args w = (Thrown err, logged w [Exec args])) /\
  extends [KExec; KWarning] w (snd (runKache args w)).
Proof.
  split; [| split].
  - intros exitCode stdout stderr H. now apply runKache_returned.
  - intros err H. now apply runKache_thrown.
  - apply extends_runKache.
Qed.

(** What [saveCache] reports of the answer of the cache service. *)
Lemma saveCache_present (w : world) (cacheDir key : string) (restoreKeys : list string) :
  getCacheDir w = (Returned cacheDir, w) ->
  fs_existsSync (context w) cacheDir = true ->
  buildCacheKey w = (Returned (key, restoreKeys), w) ->
  saveCache w =
  (Returned tt,
   logged w [CacheSave cacheDir key;
             match cache_saveCache (context w) cacheDir key with
             | None => Info ("GitHub cache saved with key: " ++ key)
             | Some err =>
                 if message_includes "already exists" err
                 then Info "GitHub cache already up to date"
                 else Warning ("GitHub cache save failed: " ++ show (message err))
             end]).
Proof.
  intros Hdir Hex Hkey. unfold saveCache.
  rewrite (bind_returned _ _ _ _ _ Hdir), bind_asks, Hex. cbn [negb].
  rewrite (bind_returned _ _ _ _ _ Hkey). cbn [fst].
  unfold try_catch.
  rewrite (bind_returned _ _ _ _ _ (emit_logged _ w)).
  rewrite bind_asks. cbn [logged context].
  destruct (cache_saveCache (context w) cacheDir key) as [err |]; cbn [raise_if].
  - unfold bind, throw.
    destruct (message_includes "already exists" err);
      unfold core_info, core_warning; rewrite emit_logged, logged_logged; reflexivity.
  - rewrite bind_ret. unfold core_info. rewrite emit_logged, logged_logged. reflexivity.
Qed.

Lemma saveCache_absent (w : world) (cacheDir : string) :
  getCacheDir w = (Returned cacheDir, w) ->
  fs_existsSync (context w) cacheDir = false ->
  saveCache w = (Returned tt, logged w [Info "No kache cache directory to save"]).
Proof.
  intros Hdir Hex. unfold saveCache.
  rewrite (bind_returned _ _ _ _ _ Hdir), bind_asks, Hex. reflexivity.
Qed.

(** [saveCache] saves nothing when kache has no cache directory.  When it
    has one and the lockfiles can be read, the directory is saved once,
    under the key of [buildCacheKey], and no answer of the cache service
    makes [saveCache] throw: an entry that already exists is reported as
    information, any other refusal as a warning. *)
Theorem saveCache_guarded (w : world) (content : string -> string) :
  exists cacheDir,
    getCacheDir w = (Returned cacheDir, w) /\
    (fs_existsSync (context w) cacheDir = false ->
     saveCache w = (Returned tt, logged w [Info "No kache cache directory to save"])) /\
    (fs_existsSync (context w) cacheDir = true ->
     (forall f, In f (glob_lockfiles (context w)) ->
                fs_readFileSync (context w) f = Returned (content f)) ->
     exists key restoreKeys,
       buildCacheKey w = (Returned (key, restoreKeys), w) /\
       saveCache w =
       (Returned tt,
        logged w [CacheSave cacheDir key;
                  match cache_saveCache (context w) cacheDir key with
                  | None => Info ("GitHub cache saved with key: " ++ key)
                  | Some err =>
                      if message_includes "already exists" err
                      then Info "GitHub cache already up to date"
                      else Warning ("GitHub cache save failed: "
                                    ++ show (message err))
                  end])).
Proof.
  destruct (getCacheDir_returns w) as [cacheDir Hdir].
  exists cacheDir. split; [exact Hdir |]. split.
  - intros Hex. exact (saveCache_absent w cacheDir Hdir Hex).
  - intros Hex Hread.
    pose proof (buildCacheKey_returns w content Hread) as Hkey. cbv zeta in Hkey.
    eexists. eexists. split; [exact Hkey |].
    now apply (saveCache_present w cacheDir _ _ Hdir Hex Hkey).
Qed.

(** ** A lockfile that cannot be read *)

Lemma hash_loop_thrown (pre post : list string) (f : string) (err : js_error)
      (w : world) :
  (forall g, In g pre -> exists data, fs_readFileSync (context w) g = Returned data) ->
  fs_readFileSync (context w) f = Thrown err ->
  forall hasher,
    for_of (fun hasher f =>
              data <- readFileSync f ;; ret (hasher_update hasher data))
           (pre ++ f :: post) hasher w = (Thrown err, w).
Proof.
  intros Hpre Hf. induction pre as [| g pre IH]; intros hasher; cbn [app for_of].
  - apply bind_thrown. apply bind_thrown.
    unfold readFileSync. rewrite bind_asks, Hf. reflexivity.
  - destruct (Hpre g (or_introl eq_refl)) as [data Hg].
    erewrite bind_returned.
    + apply IH. intros g' Hg'. apply Hpre. now right.
    + erewrite bind_returned; [reflexivity |].
      unfold readFileSync. rewrite bind_asks, Hg. reflexivity.
Qed.

Lemma buildCacheKey_thrown (w : world) (pre post : list string) (f : string)
      (err : js_error) :
  sort compare_strings (glob_lockfiles (context w)) = (pre ++ f :: post)%list ->
  (forall g, In g pre -> exists data, fs_readFileSync (context w) g = Returned data) ->
  fs_readFileSync (context w) f = Thrown err ->
  buildCacheKey w = (Thrown err, w).
Proof.
  intros Hsort Hpre Hf. unfold buildCacheKey. rewrite !bind_asks.
  assert (Hne : glob_lockfiles (context w) <> []).
  { intros E. rewrite E in Hsort. cbn in Hsort. now destruct pre. }
  replace (0 <? Z.of_nat (List.length (glob_lockfiles (context w)))) with true.
  2:{ symmetry. apply Z.ltb_lt.
      destruct (glob_lockfiles (context w)); [congruence | cbn [List.length]; lia]. }
  apply bind_thrown. apply bind_thrown. rewrite Hsort.
  now apply hash_loop_thrown.
Qed.

(** The lockfiles are read in the sorted order of their paths, and the
    error of the first one that cannot be read escapes [buildCacheKey]: no
    key is built.  It escapes [saveCache] too, which catches the errors of
    the cache service only, and nothing is saved. *)
Theorem buildCacheKey_unreadable (w : world) (pre post : list string) (f : string)
        (err : js_error) :
  sort compare_strings (glob_lockfiles (context w)) = (pre ++ f :: post)%list ->
  (forall g, In g pre -> exists data, fs_readFileSync (context w) g = Returned data) ->
  fs_readFileSync (context w) f = Thrown err ->
  buildCacheKey w = (Thrown err, w) /\
  (forall cacheDir,
     getCacheDir w = (Returned cacheDir, w) ->
     fs_existsSync (context w) cacheDir = true ->
     saveCache w = (Thrown err, w)).
Proof.
  intros Hsort Hpre Hf.
  pose proof (buildCacheKey_thrown w pre post f err Hsort Hpre Hf) as Hkey.
  split; [exact Hkey |].
  intros cacheDir Hdir Hex. unfold saveCache.
  rewrite (bind_returned _ _ _ _ _ Hdir), bind_asks, Hex. cbn [negb].
  now apply bind_thrown.
Qed.

(** ** The shape of a digest *)

Lemma round_length (st : list Z) (kw : Z * Z) :
  List.length (Sha256.round st kw) = List.length st.
Proof.
  unfold Sha256.round.
  destruct st as [| a [| b [| c [| d [| e [| f [| g [| h [| i t]]]]]]]]]; reflexivity.
Qed.

Lemma rounds_length (l : list (Z * Z)) :
  forall st, List.length (fold_left Sha256.round l st) = List.length st.
Proof.
  induction l as [| kw l IH]; intros st; cbn [fold_left]; [reflexivity |].
  now rewrite IH, round_length.
Qed.

Lemma compress_length (st block : list Z) :
  List.length (Sha256.compress st block) = List.length st.
Proof.
  unfold Sha256.compress. rewrite length_map, length_combine, rounds_length.
  apply Nat.min_id.
Qed.

Lemma digest_length (msg : list Z) : List.length (Sha256.digest msg) = 8%nat.
Proof.
  unfold Sha256.digest.
  generalize (Sha256.blocks
                (List.length (Sha256.be_words (List.length (Sha256.pad msg)) (Sha256.pad msg)))
                (Sha256.be_words (List.length (Sha256.pad msg)) (Sha256.pad msg))).
  intros bs.
  assert (H : forall st, List.length (fold_left Sha256.compress bs st) = List.length st).
  { induction bs as [| b bs IH]; intros st; cbn [fold_left]; [reflexivity |].
    now rewrite IH, compress_length. }
  rewrite H. reflexivity.
Qed.

Lemma string_forall_append (p : ascii -> bool) (a b : string) :
  string_forall p (a ++ b) = string_forall p a && string_forall p b.
Proof.
  induction a as [| c a IH]; cbn [append string_forall]; [reflexivity |].
  now rewrite IH, andb_assoc.
Qed.

Lemma hex_digit_hex (d : Z) : 0 <= d < 16 -> is_hex_digit (Sha256.hex_digit d) = true.
Proof.
  intros H.
  assert (C : d = 0 \/ d = 1 \/ d = 2 \/ d = 3 \/ d = 4 \/ d = 5 \/ d = 6 \/ d = 7 \/
              d = 8 \/ d = 9 \/ d = 10 \/ d = 11 \/ d = 12 \/ d = 13 \/ d = 14 \/ d = 15)
    by lia.
  repeat (destruct C as [-> | C]; [reflexivity |]). subst d. reflexivity.
Qed.

Lemma hex_word_shape (n : nat) (x : Z) :
  String.length (Sha256.hex_word n x) = n /\
  string_forall is_hex_digit (Sha256.hex_word n x) = true.
Proof.
  induction n as [| n [IHl IHf]]; cbn [Sha256.hex_word String.length string_forall].
  - now split.
  - split; [now rewrite IHl |].
    rewrite IHf, andb_true_r. apply hex_digit_hex.
    apply Z.mod_pos_bound. lia.
Qed.

Lemma concat_words_shape (ws : list Z) :
  String.length (String.concat "" (map (Sha256.hex_word 8) ws))
  = (8 * List.length ws)%nat /\
  string_forall is_hex_digit (String.concat "" (map (Sha256.hex_word 8) ws)) = true.
Proof.
  induction ws as [| x ws [IHl IHf]]; [now split |].
  cbn [map]. rewrite concat_empty_cons.
  destruct (hex_word_shape 8 x) as [Hl Hf]. split.
  - rewrite length_append, Hl, IHl. cbn [List.length]. lia.
  - now rewrite string_forall_append, Hf, IHf.
Qed.

(** [digest("hex")] has 64 characters, all of them digits of lower-case
    hexadecimal notation. *)
Lemma hex_shape (s : string) :
  String.length (Sha256.hex s) = 64%nat /\
  string_forall is_hex_digit (Sha256.hex s) = true.
Proof.
  unfold Sha256.hex.
  destruct (concat_words_shape (Sha256.digest (Sha256.bytes_of s))) as [Hl Hf].
  rewrite digest_length in Hl. now split.
Qed.

Lemma substring_shape (p : ascii -> bool) (n : nat) :
  forall s, (n <= String.length s)%nat -> string_forall p s = true ->
            String.length (substring 0 n s) = n /\
            string_forall p (substring 0 n s) = true.
Proof.
  induction n as [| n IH]; intros s Hn Hp.
  - destruct s; now split.
  - destruct s as [| c s]; [cbn in Hn; lia |].
    cbn [string_forall] in Hp. apply andb_true_iff in Hp. destruct Hp as [Hc Hs].
    cbn [String.length] in Hn.
    destruct (IH s ltac:(lia) Hs) as [Il If].
    cbn [substring String.length string_forall]. split; [now rewrite Il |].
    now rewrite Hc, If.
Qed.

(** With a lockfile in the workspace, the last part of the cache key is
    made of exactly 16 digits of lower-case hexadecimal notation, whatever
    the lockfiles hold: the key is built of the prefix, the version and the
    platform, and of a text of fixed length. *)
Theorem buildCacheKey_lockHash_shape (w : world) (content : string -> string) :
  (forall f, In f (glob_lockfiles (context w)) ->
             fs_readFileSync (context w) f = Returned (content f)) ->
  glob_lockfiles (context w) <> [] ->
  exists lockHash,
    fst (buildCacheKey w) =
    Returned (or_string (Some (getInput (context w) "cache-key-prefix")) "kache" ++ "-"
              ++ or_string (process_env (context w) "KACHE_VERSION") "unknown" ++ "-"
              ++ (os_platform (context w) ++ "-" ++ os_arch (context w)) ++ "-"
              ++ lockHash,
              [or_string (Some (getInput (context w) "cache-key-prefix")) "kache" ++ "-"
               ++ or_string (process_env (context w) "KACHE_VERSION") "unknown" ++ "-"
               ++ (os_platform (context w) ++ "-" ++ os_arch (context w)) ++ "-"]) /\
    String.length lockHash = 16%nat /\
    string_forall is_hex_digit lockHash = true.
Proof.
  intros Hread Hne.
  pose proof (buildCacheKey_returns w content Hread) as Hkey. cbv zeta in Hkey.
  exists (lockHash_of (glob_lockfiles (context w)) content).
  split; [now rewrite Hkey |].
  unfold lockHash_of.
  destruct (glob_lockfiles (context w)) as [| f t] eqn:E; [congruence |].
  unfold slice0.
  destruct (hex_shape (String.concat "" (map content (sort compare_strings (f :: t)))))
    as [Hl Hf].
  apply substring_shape; [rewrite Hl; lia | exact Hf].
Qed.

(** ** The comments that a publish leaves alone *)

Lemma listComments_accepted (issue per_page : Z) (w : world) :
  api_fault (context w) (ListComments issue per_page) = None ->
  listComments issue per_page w =
  (Returned (firstn (Z.to_nat per_page) (comments w)),
   logged w [Api (ListComments issue per_page)]).
Proof.
  intros H. unfold listComments.
  erewrite bind_returned by (apply request_accepted, H). reflexivity.
Qed.

Lemma listComments_rejected (issue per_page : Z) (w : world) (err : js_error) :
  api_fault (context w) (ListComments issue per_page) = Some err ->
  listComments issue per_page w =
  (Thrown err, logged w [Api (ListComments issue per_page)]).
Proof.
  intros H. unfold listComments. apply bind_thrown. now apply request_rejected.
Qed.

(** The three things a publish can do to the thread: nothing, rewrite the
    first comment of the fetched page that carries the marker, or add one
    comment. *)
Lemma postOrUpdateComment_cases (w : world) (text token : string) :
  NoDup (map id (comments w)) ->
  let w' := snd (postOrUpdateComment text token w) in
  let marked := COMMENT_MARKER ++ nl ++ text in
  comments w' = comments w \/
  (exists pre existing post,
     comments w = (pre ++ existing :: post)%list /\
     Forall (fun y => has_marker y = false) pre /\
     has_marker existing = true /\
     comments w' = (pre ++ {| id := id existing; body := Some marked |} :: post)%list) \/
  comments w' =
  (comments w ++ [ {| id := fresh_id (comments w); body := Some marked |} ])%list.
Proof.
  intros Hids. cbv zeta. unfold postOrUpdateComment. rewrite !bind_asks.
  fold (prNumber_of (context w)).
  destruct (truthy_number (prNumber_of (context w))); cbn [negb];
    [| left; reflexivity].
  rewrite bind_asks.
  destruct (getOctokit_fault (context w) token) as [err |]; [left; reflexivity |].
  unfold raise_if. rewrite bind_ret.
  destruct (api_fault (context w) (ListComments (prNumber_of (context w)) 100))
    as [err |] eqn:L.
  { left. erewrite bind_thrown by (apply listComments_rejected, L). reflexivity. }
  erewrite bind_returned by (apply listComments_accepted, L).
  change (Z.to_nat 100) with 100%nat.
  destruct (find has_marker (firstn 100 (comments w))) as [existing |] eqn:F.
  - destruct (find_split _ _ _ F) as [pre [post' [E [Hpre Hex]]]].
    assert (Ecs : comments w = (pre ++ existing :: post' ++ skipn 100 (comments w))%list).
    { rewrite <- (firstn_skipn 100 (comments w)) at 1.
      rewrite E, <- app_assoc. reflexivity. }
    destruct (api_fault (context w)
                (UpdateComment (id existing) (COMMENT_MARKER ++ nl ++ text)))
      as [err |] eqn:U.
    + left. erewrite bind_thrown.
      2:{ unfold updateComment. apply bind_thrown. apply request_rejected. exact U. }
      reflexivity.
    + right. left. exists pre, existing, (post' ++ skipn 100 (comments w))%list.
      split; [exact Ecs |]. split; [exact Hpre |]. split; [exact Hex |].
      erewrite bind_returned.
      2:{ unfold updateComment.
          erewrite bind_returned by (apply request_accepted, U).
          cbn [logged comments]. rewrite Ecs at 1.
          rewrite set_body_first.
          - reflexivity.
          - rewrite Ecs, map_app in Hids. cbn [map] in Hids.
            now apply NoDup_app_head in Hids. }
      reflexivity.
  - destruct (api_fault (context w)
                (CreateComment (prNumber_of (context w)) (COMMENT_MARKER ++ nl ++ text)))
      as [err |] eqn:C.
    + left. erewrite bind_thrown.
      2:{ unfold createComment. apply bind_thrown. apply request_rejected. exact C. }
      reflexivity.
    + right. right.
      erewrite bind_returned.
      2:{ unfold createComment.
          erewrite bind_returned by (apply request_accepted, C).
          cbn [logged comments]. reflexivity. }
      reflexivity.
Qed.

(** Whatever the API answers, and whether the publish returns or throws,
    it changes at most one comment of the thread: it rewrites a comment
    that carried the marker, or adds one comment, or leaves the thread as
    it is.  A comment without the marker is never touched, and no comment
    is ever removed. *)
Theorem postOrUpdateComment_frame (w : world) (text token : string) :
  NoDup (map id (comments w)) ->
  let w' := snd (postOrUpdateComment text token w) in
  let marked := COMMENT_MARKER ++ nl ++ text in
  (comments w' = comments w \/
   (exists pre existing post,
      comments w = (pre ++ existing :: post)%list /\
      Forall (fun y => has_marker y = false) pre /\
      has_marker existing = true /\
      comments w' = (pre ++ {| id := id existing; body := Some marked |} :: post)%list) \/
   comments w' =
   (comments w ++ [ {| id := fresh_id (comments w); body := Some marked |} ])%list) /\
  (forall c, In c (comments w) -> has_marker c = false -> In c (comments w')) /\
  map id (firstn (List.length (comments w)) (comments w')) = map id (comments w) /\
  (List.length (comments w) <= List.length (comments w')
   <= S (List.length (comments w)))%nat /\
  context w' = context w.
Proof.
  intros Hids. cbv zeta.
  pose proof (postOrUpdateComment_cases w text token Hids) as Hc. cbv zeta in Hc.
  split; [exact Hc |].
  split; [| split; [| split]].
  - intros c Hin Hm.
    destruct Hc as [-> | [[pre [existing [post [E [_ [Hex ->]]]]]] | ->]].
    + exact Hin.
    + rewrite E in Hin. apply in_app_or in Hin. apply in_or_app.
      destruct Hin as [Hin | [<- | Hin]]; [now left | congruence | right; now right].
    + apply in_or_app. now left.
  - destruct Hc as [-> | [[pre [existing [post [E [_ [Hex ->]]]]]] | ->]].
    + now rewrite firstn_all.
    + rewrite E. rewrite !length_app. cbn [List.length].
      replace (List.length pre + S (List.length post))%nat
        with (List.length (pre ++ {| id := id existing;
                                     body := Some (COMMENT_MARKER ++ nl ++ text) |}
                               :: post))
        by (rewrite length_app; reflexivity).
      rewrite firstn_all, !map_app. reflexivity.
    + rewrite firstn_app, firstn_all, Nat.sub_diag. cbn [firstn].
      now rewrite app_nil_r.
  - destruct Hc as [-> | [[pre [existing [post [E [_ [Hex ->]]]]]] | ->]].
    + lia.
    + rewrite E, !length_app. cbn [List.length]. lia.
    + rewrite length_app. cbn [List.length]. lia.
  - apply (extends_postOrUpdateComment text token w).
Qed.

(** ** Two publishes in a row *)

Lemma publish_starts (w : world) (text token : string) :
  prNumber_of (context w) <> 0 ->
  getOctokit_fault (context w) token = None ->
  (forall call, api_fault (context w) call = None) ->
  postOrUpdateComment text token w =
  match find has_marker (firstn 100 (comments w)) with
  | Some existing =>
      (updateComment (id existing) (COMMENT_MARKER ++ nl ++ text) ;;;
       core_info ("Updated existing PR comment #" ++ toString (id existing)))
        (logged w [Api (ListComments (prNumber_of (context w)) 100)])
  | None =>
      (createComment (prNumber_of (context w)) (COMMENT_MARKER ++ nl ++ text) ;;;
       core_info "Posted new PR comment")
        (logged w [Api (ListComments (prNumber_of (context w)) 100)])
  end.
Proof.
  intros Hpr Hocto Hapi.
  unfold postOrUpdateComment. rewrite !bind_asks.
  fold (prNumber_of (context w)).
  replace (truthy_number (prNumber_of (context w))) with true
    by (symmetry; unfold truthy_number; apply negb_true_iff, Z.eqb_neq, Hpr).
  cbn [negb]. rewrite bind_asks, Hocto.
  unfold raise_if. rewrite bind_ret.
  erewrite bind_returned by (apply listComments_accepted, Hapi).
  change (Z.to_nat 100) with 100%nat.
  destruct (find has_marker (firstn 100 (comments w))); reflexivity.
Qed.

Lemma publish_creates (w : world) (text token : string) :
  prNumber_of (context w) <> 0 ->
  getOctokit_fault (context w) token = None ->
  (forall call, api_fault (context w) call = None) ->
  find has_marker (firstn 100 (comments w)) = None ->
  postOrUpdateComment text token w =
  (Returned tt,
   {| context := context w;
      comments := comments w ++ [ {| id := fresh_id (comments w);
                                     body := Some (COMMENT_MARKER ++ nl ++ text) |} ];
      trace := trace w ++
               [Api (ListComments (prNumber_of (context w)) 100);
                Api (CreateComment (prNumber_of (context w)) (COMMENT_MARKER ++ nl ++ text));
                Info "Posted new PR comment"] |}).
Proof.
  intros Hpr Hocto Hapi F. rewrite (publish_starts w text token Hpr Hocto Hapi), F.
  erewrite bind_returned.
  2:{ unfold createComment.
      erewrite bind_returned by (apply request_accepted, Hapi).
      cbn [logged comments]. reflexivity. }
  unfold core_info. rewrite emit_logged.
  unfold logged, set_comments. cbn.
  rewrite <- !app_assoc. reflexivity.
Qed.

Lemma publish_updates (w : world) (text token : string) (pre post : list comment)
      (existing : comment) :
  prNumber_of (context w) <> 0 ->
  getOctokit_fault (context w) token = None ->
  (forall call, api_fault (context w) call = None) ->
  NoDup (map id (comments w)) ->
  comments w = (pre ++ existing :: post)%list ->
  find has_marker (firstn 100 (comments w)) = Some existing ->
  Forall (fun y => has_marker y = false) pre ->
  postOrUpdateComment text token w =
  (Returned tt,
   {| context := context w;
      comments := pre ++ {| id := id existing;
                            body := Some (COMMENT_MARKER ++ nl ++ text) |} :: post;
      trace := trace w ++
               [Api (ListComments (prNumber_of (context w)) 100);
                Api (UpdateComment (id existing) (COMMENT_MARKER ++ nl ++ text));
                Info ("Updated existing PR comment #" ++ toString (id existing))] |}).
Proof.
  intros Hpr Hocto Hapi Hids Ecs F Hpre.
  rewrite (publish_starts w text token Hpr Hocto Hapi), F.
  erewrite bind_returned.
  2:{ unfold updateComment.
      erewrite bind_returned by (apply request_accepted, Hapi).
      cbn [logged comments]. rewrite Ecs.
      rewrite set_body_first.
      - reflexivity.
      - rewrite Ecs, map_app in Hids. cbn [map] in Hids.
        now apply NoDup_app_head in Hids. }
  unfold core_info. rewrite emit_logged.
  unfold logged, set_comments. cbn.
  rewrite <- !app_assoc. reflexivity.
Qed.

Lemma fresh_id_above (cs : list comment) (c : comment) :
  In c cs -> id c < fresh_id cs.
Proof.
  unfold fresh_id. induction cs as [| x cs IH]; intros H; [destruct H |].
  cbn [fold_right]. destruct H as [-> | H]; [lia |].
  specialize (IH H). lia.
Qed.

Lemma find_app_last {A : Type} (p : A -> bool) (l : list A) (x : A) :
  filter p l = [] -> p x = true -> find p (l ++ [x]) = Some x.
Proof.
  induction l as [| y l IH]; cbn [filter app find]; intros Hl Hx.
  - now rewrite Hx.
  - destruct (p y); [discriminate | now apply IH].
Qed.

Lemma filter_nil_Forall {A : Type} (p : A -> bool) (l : list A) :
  filter p l = [] -> Forall (fun y => p y = false) l.
Proof.
  induction l as [| y l IH]; cbn [filter]; intros H; [constructor |].
  destruct (p y) eqn:E; [discriminate |]. constructor; [exact E | now apply IH].
Qed.

Lemma find_filter_nil {A : Type} (p : A -> bool) (l : list A) :
  filter p l = [] -> find p l = None.
Proof.
  induction l as [| y l IH]; cbn [filter find]; intros H; [reflexivity |].
  destruct (p y); [discriminate | now apply IH].
Qed.

Lemma filter_firstn_nil {A : Type} (p : A -> bool) (n : nat) (l : list A) :
  filter p l = [] -> filter p (firstn n l) = [].
Proof.
  revert n. induction l as [| y l IH]; intros n H; destruct n; try reflexivity.
  cbn [filter firstn] in *. destruct (p y); [discriminate | now apply IH].
Qed.

(** The comment is sticky: on a thread without a marked comment that fits
    on the fetched page, two publishes in a row leave one marked comment,
    the one that the first publish created, and it holds the text of the
    second publish. *)
Theorem postOrUpdateComment_twice (w : world) (first second token : string) :
  prNumber_of (context w) <> 0 ->
  getOctokit_fault (context w) token = None ->
  (forall call, api_fault (context w) call = None) ->
  NoDup (map id (comments w)) ->
  (List.length (comments w) < 100)%nat ->
  marker_count (comments w) = 0%nat ->
  exists w1 w2,
    postOrUpdateComment first token w = (Returned tt, w1) /\
    postOrUpdateComment second token w1 = (Returned tt, w2) /\
    comments w2 =
    (comments w ++ [ {| id := fresh_id (comments w);
                        body := Some (COMMENT_MARKER ++ nl ++ second)%string |} ])%list /\
    marker_count (comments w2) = 1%nat.
Proof.
  intros Hpr Hocto Hapi Hids Hlen Hnone.
  assert (Hfil : filter has_marker (comments w) = []).
  { unfold marker_count in Hnone. now apply length_zero_iff_nil. }
  pose proof (publish_creates w first token Hpr Hocto Hapi
                (find_filter_nil _ _ (filter_firstn_nil _ 100 _ Hfil))) as E1.
  set (created := {| id := fresh_id (comments w);
                     body := Some (COMMENT_MARKER ++ nl ++ first) |}) in *.
  eexists. eexists. split; [exact E1 |].
  match type of E1 with _ = (_, ?x) => set (w1 := x) in * end.
  assert (Hids1 : NoDup (map id (comments w1))).
  { cbn [w1 comments]. rewrite map_app. cbn [map].
    apply (Permutation_NoDup (l := fresh_id (comments w) :: map id (comments w))).
    - apply Permutation_cons_append.
    - constructor; [| exact Hids].
      intros Hin. apply in_map_iff in Hin. destruct Hin as [c [Ec Hc]].
      pose proof (fresh_id_above _ _ Hc). cbn [created id] in *. lia. }
  assert (F1 : find has_marker (firstn 100 (comments w1)) = Some created).
  { cbn [w1 comments]. rewrite firstn_all2 by (rewrite length_app; cbn [List.length]; lia).
    apply find_app_last; [exact Hfil | apply has_marker_marked]. }
  pose proof (publish_updates w1 second token (comments w) [] created
                Hpr Hocto Hapi Hids1 eq_refl F1 (filter_nil_Forall _ _ Hfil)) as E2.
  split; [exact E2 |]. cbn [comments]. split; [reflexivity |].
  unfold marker_count. rewrite filter_app, Hfil. cbn [app filter].
  now rewrite has_marker_marked.
Qed.

(** ** The rows of the table of misses *)

Lemma bars_fixed1 (n : Z) : bars (fixed1 n) = 0.
Proof. unfold fixed1. rewrite !bars_append, !bars_digits. reflexivity. Qed.

Lemma bars_toFixed1 (x : float) : bars (toFixed1 x) = 0.
Proof.
  unfold toFixed1. destruct x as [s | s | | s m e]; try (destruct s; reflexivity);
    try reflexivity.
  assert (Hsign : bars (if s then "-" else "") = 0) by (destruct s; reflexivity).
  destruct ((0 <=? e) && (10 ^ 21 <=? Z.pos m * 2 ^ e));
    rewrite bars_append, Hsign; [apply bars_exponent_notation | apply bars_fixed1].
Qed.

Lemma bars_formatMs (ms : Z) : bars (formatMs ms) = 0.
Proof.
  unfold formatMs. destruct (ms <? 1000); rewrite bars_append.
  - now rewrite bars_toString.
  - now rewrite bars_toFixed1.
Qed.

Lemma bars_formatBytes (bytes : Z) : bars (formatBytes bytes) = 0.
Proof.
  unfold formatBytes. destruct (bytes =? 0); [reflexivity |].
  destruct (bytes <? 0); [reflexivity |]. cbv zeta.
  rewrite !bars_append, bars_toFixed1.
  destruct (Z.to_nat (floor_log1024 bytes)) as [| [| [| [| n]]]]; try reflexivity.
  cbn [formatBytes_units nth_error]. now destruct n.
Qed.

Lemma bars_substring (n : nat) : forall s, 0 <= bars (substring 0 n s) <= bars s.
Proof.
  induction n as [| n IH]; intros s.
  - replace (substring 0 0 s) with "" by (destruct s; reflexivity).
    pose proof (bars_nonneg s). cbn [bars]. lia.
  - destruct s as [| c s]; [cbn; lia |].
    specialize (IH s). cbn [substring bars]. destruct (Ascii.eqb c "|"); lia.
Qed.

(** A row of the table of misses has the cells of the header, and one
    more for every vertical bar in the name of the crate or in the first 12
    characters of its key, which are printed as they are: the row of a
    crate whose name and key have no bar fits the header. *)
Theorem crate_row_cells (hasKeys : bool) (c : Crate.t) :
  cells (crate_row hasKeys c) =
  cells (hd "" (details_header hasKeys)) + bars (show (Crate.name c))
  + (if hasKeys then bars (slice0 12 (Crate.cache_key c)) else 0) /\
  (bars (show (Crate.name c)) = 0 -> bars (Crate.cache_key c) = 0 ->
   cells (crate_row hasKeys c) = cells (hd "" (details_header hasKeys))).
Proof.
  assert (E : cells (crate_row hasKeys c) =
              cells (hd "" (details_header hasKeys)) + bars (show (Crate.name c))
              + (if hasKeys then bars (slice0 12 (Crate.cache_key c)) else 0)).
  { unfold cells, crate_row. destruct hasKeys; cbn [details_header hd].
    - rewrite !bars_append, bars_formatMs, bars_formatBytes.
      unfold truthy_string.
      destruct (Crate.cache_key c =? "")%string eqn:K; cbn [negb].
      + apply String.eqb_eq in K. rewrite K. cbn -[Z.add Z.sub]. lia.
      + rewrite !bars_append. cbn -[Z.add Z.sub]. lia.
    - rewrite !bars_append, bars_formatMs, bars_formatBytes. cbn -[Z.add Z.sub]. lia. }
  split; [exact E |].
  intros Hn Hk. rewrite E, Hn.
  pose proof (bars_substring 12 (Crate.cache_key c)) as B. unfold slice0.
  destruct hasKeys; lia.
Qed.

(** ** The post step, in two halves *)

Lemma post_step_split (JSON_parse : string -> option json) :
  post_step JSON_parse =
  (s3 <- asks (fun c => getState c "s3-configured") ;;
   gh <- asks (fun c => getState c "gh-cache") ;;
   push_cache (s3 =? "true")%string (gh =? "true")%string ;;;
   report JSON_parse (s3 =? "true")%string (gh =? "true")%string).
Proof. reflexivity. Qed.

Lemma same_thread_refl (w : world) : same_thread w w.
Proof. reflexivity. Qed.

Lemma same_thread_trans (a b c : world) :
  same_thread a b -> same_thread b c -> same_thread a c.
Proof. unfold same_thread. congruence. Qed.

Lemma same_thread_emit (o : obs) : guarantees same_thread (emit o).
Proof. intros w. reflexivity. Qed.

Lemma same_thread_reads {A : Type} (m : M A) : reads m -> guarantees same_thread m.
Proof. intros H w. now rewrite (reads_unchanged m w H). Qed.

Ltac same_thread_step :=
  first
    [ apply guarantees_ret; apply same_thread_refl
    | apply guarantees_throw; apply same_thread_refl
    | apply guarantees_asks; apply same_thread_refl
    | apply guarantees_lift; apply same_thread_refl
    | apply guarantees_raise_if; apply same_thread_refl
    | apply same_thread_emit
    | apply guarantees_bind; [apply same_thread_trans | | intros ?]
    | apply guarantees_try_catch; [apply same_thread_trans | | intros ?]
    | match goal with
      | |- guarantees _ (if ?b then _ else _) => destruct b
      | |- guarantees _ (match ?x with _ => _ end) => destruct x
      | |- guarantees _ (let _ := _ in _) => cbv zeta
      end ].

Lemma same_thread_runKache (args : list string) : guarantees same_thread (runKache args).
Proof.
  unfold runKache, core_warning.
  repeat (same_thread_step
          || match goal with
             | |- guarantees _ (let '(_, _) := ?r in _) => destruct r as [[? ?] ?]
             end).
Qed.

Lemma same_thread_saveCache : guarantees same_thread saveCache.
Proof.
  unfold saveCache, core_info, core_warning.
  repeat (apply (same_thread_reads _ reads_getCacheDir)
          || apply (same_thread_reads _ reads_buildCacheKey) || same_thread_step).
Qed.

Lemma same_thread_push_cache (s3 gh : bool) : guarantees same_thread (push_cache s3 gh).
Proof.
  unfold push_cache, core_info.
  repeat (apply same_thread_runKache || apply same_thread_saveCache || same_thread_step).
Qed.

Lemma extends_push_cache (s3 gh : bool) :
  guarantees (extends [KInfo; KWarning; KExec; KCacheSave]) (push_cache s3 gh).
Proof.
  assert (R : forall args,
             guarantees (extends [KInfo; KWarning; KExec; KCacheSave]) (runKache args)).
  { intros args w. apply (extends_incl [KExec; KWarning]); [| apply extends_runKache].
    intros k [<- | [<- | []]]; cbn; tauto. }
  assert (S : guarantees (extends [KInfo; KWarning; KExec; KCacheSave]) saveCache).
  { intros w. apply (extends_incl [KCacheSave; KInfo; KWarning]); [| apply extends_saveCache].
    intros k [<- | [<- | [<- | []]]]; cbn; tauto. }
  unfold push_cache, core_info.
  repeat (apply R || apply S || extends_step).
Qed.

Lemma saveCache_returns (w : world) (content : string -> string) :
  (forall f, In f (glob_lockfiles (context w)) ->
             fs_readFileSync (context w) f = Returned (content f)) ->
  exists w', saveCache w = (Returned tt, w').
Proof.
  intros Hread. destruct (getCacheDir_returns w) as [cacheDir Hdir].
  destruct (fs_existsSync (context w) cacheDir) eqn:Hex.
  - pose proof (buildCacheKey_returns w content Hread) as Hkey. cbv zeta in Hkey.
    eexists. exact (saveCache_present w cacheDir _ _ Hdir Hex Hkey).
  - eexists. exact (saveCache_absent w cacheDir Hdir Hex).
Qed.

Lemma runKache_returns (args : list string) (w : world) :
  (exists r, exec_kache (context w) args = Returned r) ->
  exists stdout warnings,
    runKache args w = (Returned stdout, logged w (Exec args :: warnings)) /\
    forallb (of_kinds [KWarning]) warnings = true.
Proof.
  intros [[[exitCode stdout] stderr] H].
  exists stdout. eexists. split; [exact (runKache_returned args w _ _ _ H) |].
  destruct (exitCode =? 0); [reflexivity |].
  destruct (stderr =? "")%string; reflexivity.
Qed.

(** The arguments of [kache save-manifest]. *)
Lemma push_cache_s3 (gh : bool) (w : world) :
  (forall args, exists r, exec_kache (context w) args = Returned r) ->
  let manifestKey := getInput (context w) "manifest-key" in
  let saveArgs :=
    "save-manifest" :: if (manifestKey =? "")%string then []
                       else ["--manifest-key"; manifestKey] in
  exists warnings1 warnings2,
    push_cache true gh w =
    (Returned tt,
     logged w ([Info "Saving build manifest..."; Exec saveArgs] ++ warnings1
               ++ [Info "Pushing cache to S3..."; Exec ["sync"; "--push"]]
               ++ warnings2)) /\
    forallb (of_kinds [KWarning]) warnings1 = true /\
    forallb (of_kinds [KWarning]) warnings2 = true.
Proof.
  intros Hexec. cbv zeta. unfold push_cache. rewrite bind_asks.
  set (saveArgs := if truthy_string (getInput (context w) "manifest-key")
                   then (["save-manifest"] ++ ["--manifest-key";
                                               getInput (context w) "manifest-key"])%list
                   else ["save-manifest"]).
  assert (Eargs : saveArgs =
                  "save-manifest" :: if (getInput (context w) "manifest-key" =? "")%string
                                     then []
                                     else ["--manifest-key";
                                           getInput (context w) "manifest-key"]).
  { unfold saveArgs, truthy_string.
    destruct (getInput (context w) "manifest-key" =? "")%string; reflexivity. }
  rewrite <- Eargs.
  unfold core_info.
  rewrite (bind_returned _ _ _ _ _ (emit_logged _ w)).
  destruct (runKache_returns saveArgs (logged w [Info "Saving build manifest..."])
              (Hexec saveArgs)) as [out1 [warnings1 [E1 F1]]].
  rewrite (bind_returned _ _ _ _ _ E1).
  rewrite (bind_returned _ _ _ _ _ (emit_logged _ _)).
  match goal with
  | |- context [bind (runKache ?a) _ ?w1] =>
      destruct (runKache_returns a w1 (Hexec a)) as [out2 [warnings2 [E2 F2]]]
  end.
  rewrite (bind_returned _ _ _ _ _ E2).
  exists warnings1, warnings2. split; [| now split].
  unfold ret. rewrite !logged_logged. cbn [app]. rewrite <- ?app_assoc.
  reflexivity.
Qed.

Lemma push_cache_returns (s3 gh : bool) (w : world) (content : string -> string) :
  (forall args, exists r, exec_kache (context w) args = Returned r) ->
  (forall f, In f (glob_lockfiles (context w)) ->
             fs_readFileSync (context w) f = Returned (content f)) ->
  exists w1, push_cache s3 gh w = (Returned tt, w1).
Proof.
  intros Hexec Hread. destruct s3.
  - destruct (push_cache_s3 gh w Hexec) as [a [b [E _]]]. cbv zeta in E.
    eexists. exact E.
  - destruct gh; [| eexists; reflexivity].
    unfold push_cache, core_info.
    rewrite (bind_returned _ _ _ _ _ (emit_logged _ w)).
    apply (saveCache_returns _ content). exact Hread.
Qed.

Lemma extends_report (JSON_parse : string -> option json) (s3 gh : bool) :
  guarantees (extends [KApi; KInfo; KWarning; KSummary]) (report JSON_parse s3 gh).
Proof.
  assert (P : forall text token,
             guarantees (extends [KApi; KInfo; KWarning; KSummary])
                        (publish_comment text token)).
  { intros text token w.
    apply (extends_incl [KApi; KInfo; KWarning]); [| apply extends_publish_comment].
    intros k [<- | [<- | [<- | []]]]; cbn; tauto. }
  assert (S : forall buffer,
             guarantees (extends [KApi; KInfo; KWarning; KSummary]) (summary_write buffer)).
  { intros buffer w. apply (extends_incl [KSummary]); [| apply extends_summary_write].
    intros k [<- | []]; cbn; tauto. }
  unfold report.
  apply guarantees_bind;
    [apply extends_trans | apply reads_guarantees, reads_parseEvents | intros stats].
  repeat (apply P || apply S || extends_step).
Qed.

Lemma report_thrown (JSON_parse : string -> option json) (s3 gh : bool) (w : world)
      (err : js_error) :
  parseEvents JSON_parse w = (Thrown err, w) ->
  report JSON_parse s3 gh w = (Thrown err, w).
Proof. intros H. unfold report. now apply bind_thrown. Qed.

Lemma report_returned (JSON_parse : string -> option json) (s3 gh : bool) (w : world)
      (stats : option Stats.t) :
  parseEvents JSON_parse w = (Returned stats, w) ->
  summary_fault (context w) = None ->
  exists w2,
    report JSON_parse s3 gh w =
    (Returned tt,
     logged w2 [SummaryWrite
                  (summary_text stats (backend_of s3 gh)
                     (duration_of (getState (context w) "start-time")
                                  (Date_now (context w))))]) /\
    extends [KApi; KInfo; KWarning] w w2.
Proof.
  intros Hparse Hsum. unfold report.
  rewrite (bind_returned _ _ _ _ _ Hparse), !bind_asks. cbv zeta.
  set (text := summary_text _ _ _).
  assert (W : forall w2, context w2 = context w ->
                         summary_write text w2 = (Returned tt, logged w2 [SummaryWrite text])).
  { intros w2 E. unfold summary_write. rewrite bind_asks, E, Hsum.
    unfold raise_if. rewrite bind_ret. apply emit_logged. }
  destruct (worth_reporting stats) as [st |].
  - destruct (publish_comment_returns
                (buildCommentBody st (backend_of s3 gh)
                   (duration_of (getState (context w) "start-time")
                                (Date_now (context w))))
                (getInput (context w) "token") w) as [w2 E].
    pose proof (extends_publish_comment
                  (buildCommentBody st (backend_of s3 gh)
                     (duration_of (getState (context w) "start-time")
                                  (Date_now (context w))))
                  (getInput (context w) "token") w) as X.
    rewrite E in X. cbn [snd] in X.
    exists w2. split; [| exact X].
    erewrite bind_returned by (rewrite bind_asks; exact E). apply W. apply X.
  - exists w. split; [| apply extends_refl].
    rewrite bind_ret. now apply W.
Qed.

Lemma same_thread_summary_write (buffer : string) :
  guarantees same_thread (summary_write buffer).
Proof. unfold summary_write. repeat same_thread_step. Qed.

Lemma report_silent (JSON_parse : string -> option json) (s3 gh : bool) (w : world)
      (stats : option Stats.t) :
  parseEvents JSON_parse w = (Returned stats, w) ->
  worth_reporting stats = None ->
  same_thread w (snd (report JSON_parse s3 gh w)) /\
  extends [KSummary] w (snd (report JSON_parse s3 gh w)).
Proof.
  intros Hparse Hnone. unfold report.
  rewrite (bind_returned _ _ _ _ _ Hparse), !bind_asks. cbv zeta.
  rewrite Hnone, bind_ret. split.
  - apply same_thread_summary_write.
  - apply extends_summary_write.
Qed.

Lemma kind_eqb_eq (a b : kind) : kind_eqb a b = true <-> a = b.
Proof. destruct a, b; cbn; split; congruence. Qed.

(** Observations of some kinds have none of the kinds that are not among
    them. *)
Lemma filter_other_kinds (ks ks' : list kind) (d : list obs) :
  forallb (fun k => negb (existsb (kind_eqb k) ks')) ks = true ->
  forallb (of_kinds ks) d = true ->
  filter (of_kinds ks') d = [].
Proof.
  intros Hdis. induction d as [| o d IH]; cbn [forallb filter]; [reflexivity |].
  intros H. apply andb_true_iff in H. destruct H as [Ho Hd].
  rewrite (IH Hd).
  replace (of_kinds ks' o) with false; [reflexivity |].
  symmetry. apply not_true_is_false. intros H'.
  unfold of_kinds in Ho, H'. apply existsb_exists in Ho, H'.
  destruct Ho as [k [Hk Ek]], H' as [k' [Hk' Ek']].
  apply kind_eqb_eq in Ek, Ek'. subst k k'.
  rewrite forallb_forall in Hdis. specialize (Hdis _ Hk).
  apply negb_true_iff in Hdis.
  assert (existsb (kind_eqb (kind_of o)) ks' = true).
  { apply existsb_exists. exists (kind_of o). split; [exact Hk' |].
    now apply kind_eqb_eq. }
  congruence.
Qed.

(** What [run] leaves after the push of the cache has returned. *)
Lemma run_after_push (JSON_parse : string -> option json) (w w1 : world) :
  push_cache (getState (context w) "s3-configured" =? "true")%string
             (getState (context w) "gh-cache" =? "true")%string w = (Returned tt, w1) ->
  extends [KApi; KInfo; KWarning; KSummary] w1 (snd (run JSON_parse w)).
Proof.
  intros Hpush. unfold run, try_catch. rewrite post_step_split, !bind_asks.
  rewrite (bind_returned _ _ _ _ _ Hpush).
  pose proof (extends_report JSON_parse
                (getState (context w) "s3-configured" =? "true")%string
                (getState (context w) "gh-cache" =? "true")%string w1) as X.
  destruct (report JSON_parse _ _ w1) as [[[] | err] w2]; cbn [snd] in *.
  - exact X.
  - apply (extends_trans _ _ w2); [exact X |].
    unfold core_warning. rewrite emit_logged. now apply extends_logged.
Qed.

Lemma run_unfolded (JSON_parse : string -> option json) (w : world) :
  run JSON_parse w =
  try_catch
    (push_cache (getState (context w) "s3-configured" =? "true")%string
                (getState (context w) "gh-cache" =? "true")%string ;;;
     report JSON_parse (getState (context w) "s3-configured" =? "true")%string
            (getState (context w) "gh-cache" =? "true")%string)
    (fun error => core_warning ("kache post step failed: " ++ show (message error))) w.
Proof. unfold run, try_catch. rewrite post_step_split, !bind_asks. reflexivity. Qed.

(** ** The post step never fails the build *)

(** The summary of a run with crates to report, in one piece. *)
Lemma summary_text_some (st : Stats.t) (backend duration : string) :
  0 < Stats.total st ->
  summary_text (Some st) backend duration =
  ("<h2>Kache Build Cache</h2>" ++ nl)
  ++ headline st ++ nl ++ nl ++ buildStatsMarkdown st backend duration ++ nl.
Proof.
  intros Ht. unfold summary_text, worth_reporting, summary_addRaw. cbv zeta.
  replace (0 <? Stats.total st) with true by (symmetry; now apply Z.ltb_lt).
  change (summary_addHeading "" "Kache Build Cache")
    with ("<h2>Kache Build Cache</h2>" ++ nl).
  generalize ("<h2>Kache Build Cache</h2>" ++ nl). intros heading.
  rewrite ?append_assoc. reflexivity.
Qed.

(** The write of the summary, and the outer [catch] when it fails. *)
Lemma summary_or_warning (text : string) (w : world) :
  try_catch (summary_write text)
    (fun error => core_warning ("kache post step failed: " ++ show (message error))) w
  = (Returned tt,
     logged w [match summary_fault (context w) with
               | None => SummaryWrite text
               | Some e => Warning ("kache post step failed: " ++ show (message e))
               end]).
Proof.
  unfold try_catch, summary_write. rewrite bind_asks.
  destruct (summary_fault (context w)) as [e |]; reflexivity.
Qed.

(** The post step from a publish that throws: the notice of the inner
    [catch], then the summary. *)
Lemma run_after_refused_publish (JSON_parse : string -> option json)
      (w w1 w2 : world) (st : Stats.t) (err : js_error) :
  let c := context w in
  let s3 := (getState c "s3-configured" =? "true")%string in
  let gh := (getState c "gh-cache" =? "true")%string in
  let backend := backend_of s3 gh in
  let duration := duration_of (getState c "start-time") (Date_now c) in
  push_cache s3 gh w = (Returned tt, w1) ->
  parseEvents JSON_parse w = (Returned (Some st), w) ->
  0 < Stats.total st ->
  postOrUpdateComment (buildCommentBody st backend duration) (getInput c "token") w1
  = (Thrown err, w2) ->
  run JSON_parse w =
  (Returned tt,
   logged w2 [publish_report err;
              match summary_fault c with
              | None => SummaryWrite (summary_text (Some st) backend duration)
              | Some e => Warning ("kache post step failed: " ++ show (message e))
              end]).
Proof.
  cbv zeta. intros Hpush Hparse Ht Hpub.
  pose proof (extends_push_cache (getState (context w) "s3-configured" =? "true")%string
                (getState (context w) "gh-cache" =? "true")%string w) as X1.
  rewrite Hpush in X1. cbn [snd] in X1.
  assert (C1 : context w1 = context w) by apply X1.
  pose proof (extends_postOrUpdateComment
                (buildCommentBody st
                   (backend_of (getState (context w) "s3-configured" =? "true")%string
                               (getState (context w) "gh-cache" =? "true")%string)
                   (duration_of (getState (context w) "start-time") (Date_now (context w))))
                (getInput (context w) "token") w1) as X2.
  rewrite Hpub in X2. cbn [snd] in X2.
  assert (C2 : context w2 = context w) by (rewrite <- C1; apply X2).
  assert (Hparse1 : parseEvents JSON_parse w1 = (Returned (Some st), w1)).
  { rewrite (reads_same _ w w1 (reads_parseEvents JSON_parse) C1), Hparse. reflexivity. }
  assert (Hw : worth_reporting (Some st) = Some st).
  { unfold worth_reporting.
    replace (0 <? Stats.total st) with true by (symmetry; now apply Z.ltb_lt).
    reflexivity. }
  rewrite run_unfolded. unfold try_catch at 1.
  rewrite (bind_returned _ _ _ _ _ Hpush).
  unfold report. rewrite (bind_returned _ _ _ _ _ Hparse1), !bind_asks. cbv zeta.
  rewrite Hw. unfold bind at 1. rewrite bind_asks, !C1.
  rewrite (publish_comment_thrown _ _ _ _ _ Hpub).
  pose proof (summary_or_warning
                (summary_text (Some st)
                   (backend_of (getState (context w) "s3-configured" =? "true")%string
                               (getState (context w) "gh-cache" =? "true")%string)
                   (duration_of (getState (context w) "start-time") (Date_now (context w))))
                (logged w2 [publish_report err])) as S.
  unfold try_catch in S. cbn [context logged] in S. rewrite C2 in S.
  rewrite logged_logged in S. cbn [app] in S.
  destruct (summary_write _ (logged w2 [publish_report err])) as [[[] | e] w3];
    exact S.
Qed.

(** C9. The post step never fails the build.  [run] returns normally in
    every world, and an error that escapes the body of the step is caught
    and reported as a warning.  When the push of the cache has returned
    and there are crates to report, an error of the comment publish is
    caught on the spot: a message with [Resource not accessible] (the
    token may not write) is reported as information, any other error as a
    warning, and in both cases the step goes on to the job summary, which
    is written with the stats (or, when it cannot be written, ends the step
    with the warning of the outer [catch]). *)
Theorem run_never_fails (JSON_parse : string -> option json) (w : world) :
  let c := context w in
  let s3 := (getState c "s3-configured" =? "true")%string in
  let gh := (getState c "gh-cache" =? "true")%string in
  let backend := backend_of s3 gh in
  let duration := duration_of (getState c "start-time") (Date_now c) in
  let ending (st : Stats.t) : obs :=
    match summary_fault c with
    | None =>
        SummaryWrite (("<h2>Kache Build Cache</h2>" ++ nl)
                      ++ headline st ++ nl ++ nl
                      ++ buildStatsMarkdown st backend duration ++ nl)
    | Some e => Warning ("kache post step failed: " ++ show (message e))
    end in
  (exists w', run JSON_parse w = (Returned tt, w')) /\
  (forall err w1,
     post_step JSON_parse w = (Thrown err, w1) ->
     run JSON_parse w =
     (Returned tt,
      logged w1 [Warning ("kache post step failed: " ++ show (message err))])) /\
  (forall st w1 err w2,
     push_cache s3 gh w = (Returned tt, w1) ->
     parseEvents JSON_parse w = (Returned (Some st), w) ->
     0 < Stats.total st ->
     postOrUpdateComment (buildCommentBody st backend duration) (getInput c "token") w1
     = (Thrown err, w2) ->
     (forall m,
        message err = Some m -> includes "Resource not accessible" m = true ->
        run JSON_parse w =
        (Returned tt,
         logged w2 [Info ("Skipping PR comment " ++ em_dash
                          ++ " token lacks pull-requests: write permission");
                    ending st])) /\
     (forall m,
        message err = Some m -> includes "Resource not accessible" m = false ->
        run JSON_parse w =
        (Returned tt,
         logged w2 [Warning ("Failed to post PR comment: " ++ m); ending st])) /\
     (message err = None ->
      run JSON_parse w =
      (Returned tt,
       logged w2 [Warning "Failed to post PR comment: undefined"; ending st]))).
Proof.
  cbv zeta.
  destruct (run_catches JSON_parse w) as [Hret [Hthrown _]].
  split; [exact Hret |]. split; [exact Hthrown |].
  intros st w1 err w2 Hpush Hparse Ht Hpub.
  pose proof (run_after_refused_publish JSON_parse w w1 w2 st err
                Hpush Hparse Ht Hpub) as R.
  cbv zeta in R. rewrite (summary_text_some st _ _ Ht) in R.
  unfold publish_report, message_includes, skip_comment_notice in R.
  split; [| split].
  - intros m Hm Hi. rewrite Hm, Hi in R. exact R.
  - intros m Hm Hi. rewrite Hm, Hi in R. exact R.
  - intros Hm. rewrite Hm in R. exact R.
Qed.

(** ** The post step with S3 *)

(** With S3 configured, the post step runs [kache save-manifest], with the
    manifest key when one is given, and then [kache sync --push], whatever
    the first command exits with.  It runs nothing else and saves nothing
    to the GitHub Actions cache, whether or not that cache was enabled
    too. *)
Theorem post_step_s3_first (JSON_parse : string -> option json) (w : world) :
  getState (context w) "s3-configured" = "true" ->
  (forall args, exists r, exec_kache (context w) args = Returned r) ->
  let manifestKey := getInput (context w) "manifest-key" in
  let saveArgs :=
    "save-manifest" :: if (manifestKey =? "")%string then []
                       else ["--manifest-key"; manifestKey] in
  exists d,
    trace (snd (run JSON_parse w)) = (trace w ++ d)%list /\
    filter (of_kinds [KExec; KCacheSave]) d = [Exec saveArgs; Exec ["sync"; "--push"]].
Proof.
  intros Hs3 Hexec. cbv zeta.
  destruct (push_cache_s3 (getState (context w) "gh-cache" =? "true")%string w Hexec)
    as [warnings1 [warnings2 [E [F1 F2]]]]. cbv zeta in E.
  assert (Hpush : push_cache (getState (context w) "s3-configured" =? "true")%string
                             (getState (context w) "gh-cache" =? "true")%string w
                  = (Returned tt, _)) by (rewrite Hs3; exact E).
  destruct (run_after_push JSON_parse w _ Hpush) as [_ [d [T F]]].
  eexists. split.
  - rewrite T. cbn [logged trace]. rewrite <- app_assoc. reflexivity.
  - rewrite !filter_app.
    rewrite (filter_other_kinds [KWarning] [KExec; KCacheSave] warnings1 eq_refl F1).
    rewrite (filter_other_kinds [KWarning] [KExec; KCacheSave] warnings2 eq_refl F2).
    rewrite (filter_other_kinds [KApi; KInfo; KWarning; KSummary] [KExec; KCacheSave]
               d eq_refl F).
    reflexivity.
Qed.

(** ** The summary *)

Lemma summary_text_heading (stats : option Stats.t) (backend duration : string) :
  prefix ("<h2>Kache Build Cache</h2>" ++ nl) (summary_text stats backend duration) = true.
Proof.
  unfold summary_text. cbv zeta.
  change (summary_addHeading "" "Kache Build Cache")
    with ("<h2>Kache Build Cache</h2>" ++ nl).
  unfold summary_addRaw.
  generalize ("<h2>Kache Build Cache</h2>" ++ nl). intros heading.
  destruct (worth_reporting stats); rewrite ?append_assoc; apply prefix_append.
Qed.

(** The job summary is written on every run in which the push of the cache
    and the parse of the log do not throw and the summary can be written:
    outside of pull requests, without any event, and whether or not the
    comment could be published.  It is the last thing the step does, it
    starts with the heading, and it shows the stats when there are crates
    to report and the backend and the duration otherwise. *)
Theorem summary_always_written (JSON_parse : string -> option json) (w : world)
        (content : string -> string) (stats : option Stats.t) :
  (forall args, exists r, exec_kache (context w) args = Returned r) ->
  (forall f, In f (glob_lockfiles (context w)) ->
             fs_readFileSync (context w) f = Returned (content f)) ->
  parseEvents JSON_parse w = (Returned stats, w) ->
  summary_fault (context w) = None ->
  let c := context w in
  let s3 := (getState c "s3-configured" =? "true")%string in
  let gh := (getState c "gh-cache" =? "true")%string in
  let text := summary_text stats (backend_of s3 gh)
                (duration_of (getState c "start-time") (Date_now c)) in
  exists w2,
    run JSON_parse w = (Returned tt, logged w2 [SummaryWrite text]) /\
    extends [KInfo; KWarning; KExec; KCacheSave; KApi] w w2 /\
    prefix ("<h2>Kache Build Cache</h2>" ++ nl) text = true /\
    text =
    ("<h2>Kache Build Cache</h2>" ++ nl) ++
    match worth_reporting stats with
    | Some st =>
        headline st ++ nl ++ nl
        ++ buildStatsMarkdown st (backend_of s3 gh)
             (duration_of (getState c "start-time") (Date_now c)) ++ nl
    | None =>
        "**Backend:** " ++ backend_of s3 gh ++ " | **Duration:** "
        ++ duration_of (getState c "start-time") (Date_now c) ++ "s" ++ nl ++ nl
    end.
Proof.
  intros Hexec Hread Hparse Hsum. cbv zeta.
  destruct (push_cache_returns (getState (context w) "s3-configured" =? "true")%string
              (getState (context w) "gh-cache" =? "true")%string w content Hexec Hread)
    as [w1 Hpush].
  pose proof (extends_push_cache (getState (context w) "s3-configured" =? "true")%string
                (getState (context w) "gh-cache" =? "true")%string w) as X1.
  rewrite Hpush in X1. cbn [snd] in X1.
  assert (C1 : context w1 = context w) by apply X1.
  assert (Hparse1 : parseEvents JSON_parse w1 = (Returned stats, w1)).
  { rewrite (reads_same _ w w1 (reads_parseEvents JSON_parse) C1), Hparse. reflexivity. }
  destruct (report_returned JSON_parse
              (getState (context w) "s3-configured" =? "true")%string
              (getState (context w) "gh-cache" =? "true")%string
              w1 stats Hparse1 ltac:(now rewrite C1)) as [w2 [E X2]].
  rewrite C1 in E.
  exists w2. split; [| split; [| split]].
  - rewrite run_unfolded. unfold try_catch.
    rewrite (bind_returned _ _ _ _ _ Hpush), E. reflexivity.
  - apply (extends_trans _ _ w1).
    + apply (extends_incl [KInfo; KWarning; KExec; KCacheSave]); [| exact X1].
      intros k [<- | [<- | [<- | [<- | []]]]]; cbn; tauto.
    + apply (extends_incl [KApi; KInfo; KWarning]); [| exact X2].
      intros k [<- | [<- | [<- | []]]]; cbn; tauto.
  - apply summary_text_heading.
  - unfold summary_text, summary_addRaw. cbv zeta.
    change (summary_addHeading "" "Kache Build Cache")
      with ("<h2>Kache Build Cache</h2>" ++ nl).
    generalize ("<h2>Kache Build Cache</h2>" ++ nl). intros heading.
    destruct (worth_reporting stats); rewrite ?append_assoc; reflexivity.
Qed.

(** ** A run without crates to report *)

(** When the log gives no stats, or stats without any hit or miss (a log
    of errors only, for instance), the post step publishes nothing: it
    sends no request to the API and leaves the comments of the thread as
    they are, whatever else happens in the step. *)
Theorem no_crates_no_comment (JSON_parse : string -> option json) (w : world)
        (stats : option Stats.t) :
  parseEvents JSON_parse w = (Returned stats, w) ->
  match stats with
  | Some st => Stats.total st <= 0
  | None => True
  end ->
  let w' := snd (run JSON_parse w) in
  comments w' = comments w /\
  extends [KInfo; KWarning; KExec; KCacheSave; KSummary] w w'.
Proof.
  intros Hparse Htotal. cbv zeta.
  assert (Hnone : worth_reporting stats = None).
  { unfold worth_reporting. destruct stats as [st |]; [| reflexivity].
    replace (0 <? Stats.total st) with false; [reflexivity |].
    symmetry. apply Z.ltb_ge. exact Htotal. }
  rewrite run_unfolded. unfold try_catch, bind.
  set (s3 := (getState (context w) "s3-configured" =? "true")%string).
  set (gh := (getState (context w) "gh-cache" =? "true")%string).
  pose proof (extends_push_cache s3 gh w) as X1.
  pose proof (same_thread_push_cache s3 gh w) as T1.
  destruct (push_cache s3 gh w) as [[[] | err] w1]; cbn [snd] in *.
  - assert (C1 : context w1 = context w) by apply X1.
    assert (Hparse1 : parseEvents JSON_parse w1 = (Returned stats, w1)).
    { rewrite (reads_same _ w w1 (reads_parseEvents JSON_parse) C1), Hparse.
      reflexivity. }
    destruct (report_silent JSON_parse s3 gh w1 stats Hparse1 Hnone) as [T2 X2].
    assert (X : extends [KInfo; KWarning; KExec; KCacheSave; KSummary] w
                        (snd (report JSON_parse s3 gh w1))).
    { apply (extends_trans _ _ w1).
      - apply (extends_incl [KInfo; KWarning; KExec; KCacheSave]); [| exact X1].
        intros k [<- | [<- | [<- | [<- | []]]]]; cbn; tauto.
      - apply (extends_incl [KSummary]); [| exact X2].
        intros k [<- | []]; cbn; tauto. }
    destruct (report JSON_parse s3 gh w1) as [[[] | err] w2]; cbn [snd] in *.
    + split; [unfold same_thread in *; congruence | exact X].
    + split; [unfold same_thread in *; cbn; congruence |].
      apply (extends_trans _ _ w2); [exact X |].
      unfold core_warning. rewrite emit_logged. now apply extends_logged.
  - split; [exact T1 |].
    apply (extends_trans _ _ w1).
    + apply (extends_incl [KInfo; KWarning; KExec; KCacheSave]); [| exact X1].
      intros k [<- | [<- | [<- | [<- | []]]]]; cbn; tauto.
    + unfold core_warning. rewrite emit_logged. now apply extends_logged.
Qed.

(** ** A line of the log that is [null] *)

Lemma parseEvents_null (JSON_parse : string -> option json) (w : world)
      (logPath raw : string) :
  getEventLogPath w = (Returned logPath, w) ->
  fs_existsSync (context w) logPath = true ->
  fs_readFileSync (context w) logPath = Returned raw ->
  In Null (decode_events JSON_parse (trim raw)) ->
  parseEvents JSON_parse w = (Thrown TypeError_null, w).
Proof.
  intros Hpath Hex Hread Hnull. unfold parseEvents.
  rewrite (bind_returned _ _ _ _ _ Hpath), bind_asks, Hex. cbn [negb].
  assert (R : readFileSync logPath w = (Returned raw, w)).
  { unfold readFileSync. rewrite bind_asks, Hread. reflexivity. }
  rewrite (bind_returned _ _ _ _ _ R). cbv zeta.
  destruct (truthy_string (trim raw)) eqn:T; cbn [negb].
  - destruct (decode_events JSON_parse (trim raw)) as [| e events] eqn:D;
      [destruct Hnull |].
    replace (Z.of_nat (List.length (e :: events)) =? 0) with false
      by (symmetry; apply Z.eqb_neq; cbn [List.length]; lia).
    apply bind_thrown. now apply aggregate_null.
  - exfalso. unfold truthy_string in T. apply negb_false_iff, String.eqb_eq in T.
    rewrite T in Hnull. cbn in Hnull. tauto.
Qed.

(** A line that holds the JSON value [null] is decoded like any other, and
    the counting loop then throws on its first property.  The error
    escapes [parseEvents]; the post step catches it and ends with a
    warning, without comment and without summary. *)
Theorem null_line_aborts_report (JSON_parse : string -> option json) (w : world)
        (logPath raw : string) :
  getEventLogPath w = (Returned logPath, w) ->
  fs_existsSync (context w) logPath = true ->
  fs_readFileSync (context w) logPath = Returned raw ->
  In Null (decode_events JSON_parse (trim raw)) ->
  parseEvents JSON_parse w = (Thrown TypeError_null, w) /\
  let w' := snd (run JSON_parse w) in
  fst (run JSON_parse w) = Returned tt /\
  comments w' = comments w /\
  extends [KInfo; KWarning; KExec; KCacheSave] w w' /\
  exists err before,
    trace w' = (before ++ [Warning ("kache post step failed: " ++ show (message err))])%list.
Proof.
  intros Hpath Hex Hread Hnull.
  pose proof (parseEvents_null JSON_parse w logPath raw Hpath Hex Hread Hnull) as Hparse.
  split; [exact Hparse |]. cbv zeta.
  rewrite run_unfolded. unfold try_catch, bind.
  set (s3 := (getState (context w) "s3-configured" =? "true")%string).
  set (gh := (getState (context w) "gh-cache" =? "true")%string).
  pose proof (extends_push_cache s3 gh w) as X1.
  pose proof (same_thread_push_cache s3 gh w) as T1.
  destruct (push_cache s3 gh w) as [[[] | err] w1]; cbn [snd] in *.
  - assert (C1 : context w1 = context w) by apply X1.
    assert (Hparse1 : parseEvents JSON_parse w1 = (Thrown TypeError_null, w1)).
    { rewrite (reads_same _ w w1 (reads_parseEvents JSON_parse) C1), Hparse.
      reflexivity. }
    rewrite (report_thrown JSON_parse s3 gh w1 _ Hparse1).
    unfold core_warning. rewrite emit_logged. cbn [fst snd].
    split; [reflexivity |]. split; [exact T1 |]. split.
    + apply (extends_trans _ _ w1); [exact X1 | now apply extends_logged].
    + exists TypeError_null, (trace w1). reflexivity.
  - unfold core_warning. rewrite emit_logged. cbn [fst snd].
    split; [reflexivity |]. split; [exact T1 |]. split.
    + apply (extends_trans _ _ w1); [exact X1 | now apply extends_logged].
    + exists err, (trace w1). reflexivity.
Qed.

(** ** The stats of the decoded lines *)

(** [parseEvents] on a log that is there: [null] when no line is decoded,
    and otherwise what the counting loop makes of the decoded values. *)
Lemma parseEvents_read (JSON_parse : string -> option json) (w : world)
      (logPath raw : string) :
  getEventLogPath w = (Returned logPath, w) ->
  fs_existsSync (context w) logPath = true ->
  fs_readFileSync (context w) logPath = Returned raw ->
  parseEvents JSON_parse w =
  match flat_map (decoded JSON_parse) (split LF (trim raw)) with
  | [] => (Returned None, w)
  | events => (stats <- aggregate events ;; ret (Some stats)) w
  end.
Proof.
  intros Hpath Hex Hread. unfold parseEvents.
  rewrite (bind_returned _ _ _ _ _ Hpath), bind_asks, Hex. cbn [negb].
  assert (R : readFileSync logPath w = (Returned raw, w)).
  { unfold readFileSync. rewrite bind_asks, Hread. reflexivity. }
  rewrite (bind_returned _ _ _ _ _ R). cbv zeta.
  destruct (truthy_string (trim raw)) eqn:T; cbn [negb].
  - rewrite decode_events_lines.
    destruct (flat_map (decoded JSON_parse) (split LF (trim raw))); reflexivity.
  - unfold truthy_string in T. apply negb_false_iff, String.eqb_eq in T.
    rewrite T. reflexivity.
Qed.

(** [parseEvents] returns the stats of the records that the lines of the
    log decode to, in the order of the lines.  Blank lines and lines that
    [JSON.parse] rejects contribute nothing and do not stop the parse; a
    log without a decoded line gives [null]; when every decoded value is a
    record, the result is the stats of these records, so that a valid
    record, a blank line and a torn line give the stats of the one
    record. *)
Theorem parseEvents_stats (JSON_parse : string -> option json) (w : world)
        (logPath raw : string) :
  getEventLogPath w = (Returned logPath, w) ->
  fs_existsSync (context w) logPath = true ->
  fs_readFileSync (context w) logPath = Returned raw ->
  let records := flat_map (decoded JSON_parse) (split LF (trim raw)) in
  (records = [] -> parseEvents JSON_parse w = (Returned None, w)) /\
  (records <> [] -> Forall (fun e => e <> Null) records ->
   parseEvents JSON_parse w = (Returned (Some (stats_of records)), w)) /\
  (forall valid garbled e,
     raw = valid ++ nl ++ "" ++ nl ++ garbled ->
     JSON_parse valid = Some (Obj e) -> JSON_parse garbled = None ->
     one_line valid = true -> one_line garbled = true ->
     starts_with_text valid = true -> ends_with_text garbled = true ->
     records = [Obj e] /\
     parseEvents JSON_parse w = (Returned (Some (stats_of [Obj e])), w)).
Proof.
  intros Hpath Hex Hread. cbv zeta.
  pose proof (parseEvents_read JSON_parse w logPath raw Hpath Hex Hread) as P.
  assert (S : forall events,
             flat_map (decoded JSON_parse) (split LF (trim raw)) = events ->
             events <> [] -> Forall (fun e => e <> Null) events ->
             parseEvents JSON_parse w = (Returned (Some (stats_of events)), w)).
  { intros events E Hne Hall. rewrite P, E.
    destruct events as [| e t]; [contradiction |].
    now rewrite (bind_returned _ _ _ _ _ (aggregate_returns _ w Hall)). }
  split; [| split].
  - intros E. now rewrite P, E.
  - intros Hne Hall. now apply S.
  - intros valid garbled e -> Hv Hg Lv Lg Sv Eg.
    destruct (parseEvents_tolerant JSON_parse w) as [_ [_ D]].
    specialize (D valid garbled (Obj e) Hv Hg Lv Lg Sv Eg).
    rewrite decode_events_lines in D.
    split; [exact D |].
    apply S; [exact D | discriminate |].
    constructor; [discriminate | constructor].
Qed.

(** C3, where the code leaves it.  A line that holds [null] is decoded by
    [JSON.parse] and is no record.  The parse does not skip it: the early
    return for a log without events is not taken, and the counting loop
    throws on [e.result].  A log of that one line, which holds no record,
    makes [parseEvents] throw where a log without records gives [null];
    after a valid record the line makes the whole parse throw as well, and
    the post step ends with the warning of its outer [catch], without a
    summary. *)
Theorem parseEvents_null_record :
  let log_of (text : string) : world :=
    SampleSetup.world_of
      (SampleSetup.surroundings_with
         (getInput Sample.surroundings) (getState Sample.surroundings)
         (fs_existsSync Sample.surroundings)
         (fun p => if (p =? Sample.log_path)%string then Returned text
                   else fs_readFileSync Sample.surroundings p)) in
  let torn := Sample.valid_line ++ nl ++ "null" in
  decode_events SampleSetup.JSON_parse (trim "null") = [Null] /\
  parseEvents SampleSetup.JSON_parse (log_of "null")
  = (Thrown TypeError_null, log_of "null") /\
  decode_events SampleSetup.JSON_parse (trim torn) = [Obj Sample.foo_miss; Null] /\
  parseEvents SampleSetup.JSON_parse (log_of torn)
  = (Thrown TypeError_null, log_of torn) /\
  fst (run SampleSetup.JSON_parse (log_of "null")) = Returned tt /\
  last (trace (snd (run SampleSetup.JSON_parse (log_of "null")))) (Info "")
  = Warning "kache post step failed: Cannot read properties of null (reading 'result')" /\
  filter (of_kinds [KSummary]) (trace (snd (run SampleSetup.JSON_parse (log_of "null"))))
  = [].
Proof.
  cbv zeta. split; [reflexivity |].
  split; [vm_compute; reflexivity |].
  split; [vm_compute; reflexivity |].
  split; [vm_compute; reflexivity |].
  split; [vm_compute; reflexivity |].
  split; vm_compute; reflexivity.
Qed.

(** ** Decimal notation, written and read back *)

Ltac read_digit :=
  match goal with
  | |- context [digit_of ?c] =>
      let v := eval vm_compute in (digit_of c) in
      change (digit_of c) with v; cbv iota beta
  end.

Lemma parse_digits_acc (d : Decimal.uint) :
  forall acc : positive,
    parse_digits (NilEmpty.string_of_uint d) (Some (Zpos acc))
    = Some (Zpos (Pos.of_uint_acc d acc)).
Proof.
  induction d; intros acc;
    cbn [NilEmpty.string_of_uint parse_digits Pos.of_uint_acc]; try reflexivity;
    read_digit;
    match goal with
    | |- parse_digits _ (Some ?x) = Some (Z.pos (Pos.of_uint_acc _ ?y)) =>
        replace x with (Z.pos y) by lia
    end; apply IHd.
Qed.

Lemma parse_digits_zero (d : Decimal.uint) :
  parse_digits (NilEmpty.string_of_uint d) (Some 0) = Some (Z.of_N (Pos.of_uint d)).
Proof.
  induction d; cbn [NilEmpty.string_of_uint parse_digits Pos.of_uint];
    try reflexivity; read_digit; try exact IHd; apply parse_digits_acc.
Qed.

Lemma parseInt_decimal (d : Decimal.uint) :
  d <> Decimal.Nil ->
  parseInt (NilEmpty.string_of_uint d) = Some (Z.of_N (Pos.of_uint d)).
Proof.
  intros Hd. pose proof (parse_digits_zero d) as H.
  destruct d; [congruence | ..]; exact H.
Qed.

Lemma parseInt_digits (n : Z) : 0 <= n -> parseInt (digits n) = Some n.
Proof.
  intros Hn. unfold digits, NilZero.string_of_uint.
  assert (Hnn : N.to_uint (Z.to_N n) <> Decimal.Nil).
  { destruct (Z.to_N n); [discriminate | apply DecimalPos.Unsigned.to_uint_nonnil]. }
  assert (E : Pos.of_uint (N.to_uint (Z.to_N n)) = Z.to_N n)
    by apply DecimalN.Unsigned.of_to.
  destruct (N.to_uint (Z.to_N n)) eqn:D; [congruence | ..];
    rewrite parseInt_decimal by discriminate; rewrite E; f_equal; lia.
Qed.

(** An integer that a double holds exactly is printed with its decimal
    digits. *)
Lemma toString_digits (t : Z) : 0 <= t < 2 ^ 53 -> toString t = digits t.
Proof.
  intros [H0 H53]. destruct (Z.eq_dec t 0) as [-> | Hne]; [reflexivity |].
  destruct (ofZ_exact t ltac:(lia)) as [m [E [Vm Bm]]].
  pose proof (Zdigits2_53 t ltac:(lia)) as Dd.
  unfold toString. rewrite E.
  destruct (0 <=? Zdigits2 t - 53) eqn:He.
  - apply Z.leb_le in He. assert (Ed : Zdigits2 t = 53) by lia.
    rewrite Ed in *. change (53 - 53) with 0 in *. change (2 ^ 0) with 1 in *.
    rewrite Z.mul_1_r in *. rewrite Vm.
    replace (10 ^ 21 <=? t) with false; [reflexivity |].
    symmetry. apply Z.leb_gt. apply Z.lt_trans with (2 ^ 53); [exact H53 | reflexivity].
  - cbn [append]. now rewrite Z.abs_eq.
Qed.

Lemma parseInt_toString (t : Z) : 0 <= t < 2 ^ 53 -> parseInt (toString t) = Some t.
Proof. intros H. rewrite toString_digits by exact H. apply parseInt_digits. lia. Qed.

(** ** Times and sizes, as they are printed *)

(** Times that a double holds exactly: under one second the whole
    milliseconds are printed with their decimal digits; from one second on
    the seconds are printed with one decimal, which is a nearest tenth of
    the quotient by 1000 (the division and [toFixed] of binary64
    included). *)
Theorem formatMs_rendering (ms : Z) :
  0 <= ms < 2 ^ 51 ->
  (ms < 1000 -> formatMs ms = digits ms ++ "ms") /\
  (1000 <= ms ->
   exists N,
     formatMs ms = digits (N / 10) ++ "." ++ digits (N mod 10) ++ "s" /\
     -50 <= 100 * N - ms <= 50).
Proof.
  intros [H0 H51]. split.
  - intros Hlt. rewrite formatMs_small by lia.
    rewrite toString_digits; [reflexivity |].
    split; [lia |]. apply Z.lt_trans with 1000; [exact Hlt | reflexivity].
  - intros Hge. destruct (formatMs_seconds ms ltac:(lia)) as [N [E B]].
    exists N. split; [| exact B].
    rewrite E. unfold fixed1. now rewrite !append_assoc.
Qed.

(** Sizes under 1 TiB: the size is divided by the largest power of 1024
    that is not above it and printed with one decimal, a nearest tenth of
    the quotient, followed by the unit of that power.  The number printed
    lies between 1.0 and 1024.0, the latter for sizes just under the next
    power. *)
Theorem formatBytes_rendering (bytes : Z) :
  0 < bytes < 1024 ^ 4 ->
  exists i unit N,
    0 <= i <= 3 /\
    nth_error formatBytes_units (Z.to_nat i) = Some unit /\
    1024 ^ i <= bytes < 1024 ^ (i + 1) /\
    formatBytes bytes = digits (N / 10) ++ "." ++ digits (N mod 10) ++ " " ++ unit /\
    - 1024 ^ i < 2 * (N * 1024 ^ i) - 20 * bytes <= 1024 ^ i /\
    10 <= N <= 10240.
Proof.
  intros [H0 H4].
  assert (H53 : 0 < bytes < 2 ^ 53).
  { split; [exact H0 |]. apply Z.lt_trans with (1024 ^ 4); [exact H4 | reflexivity]. }
  pose proof (floor_log1024_spec bytes H0) as S. cbv zeta in S.
  destruct S as [Hi [Lo Hi']].
  pose proof (formatBytes_unit bytes H53) as U. cbv zeta in U.
  destruct U as [U _]. destruct (U H4) as [unit [Hunit _]].
  pose proof (formatBytes_scaled bytes H53) as E. cbv zeta in E.
  set (i := floor_log1024 bytes) in *.
  set (T := 1024 ^ i) in *.
  assert (PT : 0 < T) by (apply Z.pow_pos_nonneg; lia).
  assert (Hi3 : i <= 3).
  { destruct (Z.le_gt_cases i 3) as [L | G]; [exact L | exfalso].
    assert (1024 ^ 4 <= T) by (apply Z.pow_le_mono_r; lia). lia. }
  exists i, unit, ((20 * bytes + T) / (2 * T)).
  split; [lia |]. split; [exact Hunit |]. split; [now split |].
  split.
  { rewrite E, Hunit. unfold fixed1. cbn [show]. now rewrite !append_assoc. }
  pose proof (Z.div_mod (20 * bytes + T) (2 * T) ltac:(lia)) as D.
  pose proof (Z.mod_pos_bound (20 * bytes + T) (2 * T) ltac:(lia)) as R.
  set (N := (20 * bytes + T) / (2 * T)) in *.
  set (r := (20 * bytes + T) mod (2 * T)) in *.
  assert (EP : 2 * T * N = 2 * (N * T)) by ring.
  rewrite EP in D.
  split; [lia |].
  assert (HT1 : bytes < 1024 * T).
  { replace (1024 * T) with (1024 ^ (i + 1)); [exact Hi' |].
    unfold T. rewrite Z.pow_add_r by lia. ring. }
  split.
  - destruct (Z.le_gt_cases 10 N) as [L | G]; [exact L | exfalso].
    assert (N * T <= 9 * T) by (apply Z.mul_le_mono_nonneg_r; lia). lia.
  - destruct (Z.le_gt_cases N 10240) as [L | G]; [exact L | exfalso].
    assert (10241 * T <= N * T) by (apply Z.mul_le_mono_nonneg_r; lia). lia.
Qed.

(** ** [getTarget] *)

Lemma getTarget_cases (w : world) (t : string) (w' : world) :
  getTarget w = (Returned t, w') ->
  w' = w /\
  ((os_platform (context w) = "linux" /\ os_arch (context w) = "x64"
    /\ t = "x86_64-unknown-linux-musl") \/
   (os_platform (context w) = "linux" /\ os_arch (context w) = "arm64"
    /\ t = "aarch64-unknown-linux-musl") \/
   (os_platform (context w) = "darwin" /\ os_arch (context w) = "x64"
    /\ t = "x86_64-apple-darwin") \/
   (os_platform (context w) = "darwin" /\ os_arch (context w) = "arm64"
    /\ t = "aarch64-apple-darwin")).
Proof.
  unfold getTarget. rewrite !bind_asks.
  destruct (os_platform (context w) =? "linux")%string eqn:PL;
    destruct (os_platform (context w) =? "darwin")%string eqn:PD;
    destruct (os_arch (context w) =? "x64")%string eqn:AX;
    destruct (os_arch (context w) =? "arm64")%string eqn:AA;
    cbn [andb]; unfold ret, throw; intros [= <- <-];
    rewrite ?String.eqb_eq in *; split; try reflexivity; tauto.
Qed.

(** [getTarget] knows two platforms and two architectures: it returns a
    target triple for each of their four pairs, a different one for each,
    and throws for every other pair, naming it. *)
Theorem getTarget_supported (w : world) :
  let platform := os_platform (context w) in
  let arch := os_arch (context w) in
  (supported platform arch = true ->
   exists t, getTarget w = (Returned t, w) /\
             In t ["x86_64-unknown-linux-musl"; "aarch64-unknown-linux-musl";
                   "x86_64-apple-darwin"; "aarch64-apple-darwin"]) /\
  (supported platform arch = false ->
   getTarget w =
   (Thrown (Error ("Unsupported platform: " ++ platform ++ "-" ++ arch)), w)) /\
  (forall w' t,
     getTarget w = (Returned t, w) -> getTarget w' = (Returned t, w') ->
     os_platform (context w') = platform /\ os_arch (context w') = arch).
Proof.
  cbv zeta. split; [| split].
  - unfold supported, getTarget. rewrite !bind_asks.
    destruct (os_platform (context w) =? "linux")%string eqn:PL;
      destruct (os_platform (context w) =? "darwin")%string eqn:PD;
      destruct (os_arch (context w) =? "x64")%string eqn:AX;
      destruct (os_arch (context w) =? "arm64")%string eqn:AA;
      cbn [andb orb]; try discriminate; intros _;
      eexists; (split; [reflexivity | cbn; tauto]).
  - unfold supported, getTarget. rewrite !bind_asks.
    destruct (os_platform (context w) =? "linux")%string eqn:PL;
      destruct (os_platform (context w) =? "darwin")%string eqn:PD;
      destruct (os_arch (context w) =? "x64")%string eqn:AX;
      destruct (os_arch (context w) =? "arm64")%string eqn:AA;
      cbn [andb orb]; try discriminate; reflexivity.
  - intros w' t H H'.
    destruct (getTarget_cases _ _ _ H) as [_ C].
    destruct (getTarget_cases _ _ _ H') as [_ C'].
    destruct C as [[P [A T]] | [[P [A T]] | [[P [A T]] | [P [A T]]]]];
      destruct C' as [[P' [A' T']] | [[P' [A' T']] | [[P' [A' T']] | [P' [A' T']]]]];
      rewrite P, A, P', A'; subst t; try discriminate; now split.
Qed.

(** ** What the code of the setup step leaves behind *)

Lemma ekind_eqb_eq (a b : ekind) : ekind_eqb a b = true <-> a = b.
Proof. destruct a, b; cbn; split; congruence. Qed.

Lemma of_ekinds_incl (ks ks' : list ekind) (e : effect) :
  incl ks ks' -> of_ekinds ks e = true -> of_ekinds ks' e = true.
Proof.
  intros H. unfold of_ekinds. rewrite !existsb_exists.
  intros [k [Hin Hk]]. exists k. split; [apply H, Hin | exact Hk].
Qed.

Lemma same_inputs_refl (c : env) : same_inputs c c.
Proof. unfold same_inputs. tauto. Qed.

Lemma same_inputs_trans (a b c : env) :
  same_inputs a b -> same_inputs b c -> same_inputs a c.
Proof.
  unfold same_inputs. intros H1 H2.
  decompose [and] H1. decompose [and] H2. repeat split; congruence.
Qed.

Lemma evolves_refl (ch : change) (r : runner) : evolves ch r r.
Proof.
  unfold evolves. cbv zeta. repeat split; try reflexivity.
  - exists []. now rewrite app_nil_r.
  - exists []. now rewrite app_nil_r.
Qed.

Lemma evolves_trans (ch : change) (a b c : runner) :
  evolves ch a b -> evolves ch b c -> evolves ch a c.
Proof.
  unfold evolves. cbv zeta.
  intros [T1 [C1 [[d1 [L1 F1]] [[e1 [E1 G1]] [I1 [V1 W1]]]]]]
         [T2 [C2 [[d2 [L2 F2]] [[e2 [E2 G2]] [I2 [V2 W2]]]]]].
  split; [congruence |]. split; [congruence |].
  split.
  { exists (d1 ++ d2)%list. split.
    - rewrite L2, L1, app_assoc. reflexivity.
    - rewrite forallb_app, F1, F2. reflexivity. }
  split.
  { exists (e1 ++ e2)%list. split.
    - rewrite E2, E1, app_assoc. reflexivity.
    - rewrite forallb_app, G1, G2. reflexivity. }
  split; [exact (same_inputs_trans _ _ _ I1 I2) |].
  split.
  - intros k Hk. rewrite (V2 k Hk). apply V1, Hk.
  - intros Hf. destruct (W1 Hf) as [X1 R1]. destruct (W2 Hf) as [X2 R2].
    split; congruence.
Qed.

Lemma evolves_within (ch ch' : change) (r r' : runner) :
  within ch ch' -> evolves ch r r' -> evolves ch' r r'.
Proof.
  unfold evolves, within. cbv zeta.
  intros [Ho [He [Hv Hf]]] [T [C [[d [L F]] [[e [E G]] [I [V W]]]]]].
  split; [exact T |]. split; [exact C |].
  split.
  { exists d. split; [exact L |]. rewrite forallb_forall in *.
    intros o Hin. apply (of_kinds_incl _ _ _ Ho), F, Hin. }
  split.
  { exists e. split; [exact E |]. rewrite forallb_forall in *.
    intros x Hin. apply (of_ekinds_incl _ _ _ He), G, Hin. }
  split; [exact I |]. split.
  - intros k Hk. apply V. intros Hin. apply Hk, Hv, Hin.
  - intros Hf'. apply W. destruct (files ch); [| reflexivity].
    rewrite Hf in Hf' by reflexivity. discriminate.
Qed.

Section JobGuarantees.

Context (G : runner -> runner -> Prop).
Hypothesis G_refl : forall r, G r r.
Hypothesis G_trans : forall a b c, G a b -> G b c -> G a c.

Lemma job_guarantees_ret {A : Type} (a : A) : guarantees G (Job.ret a).
Proof. intros r. apply G_refl. Qed.

Lemma job_guarantees_throw {A : Type} (err : js_error) : guarantees G (@Job.throw A err).
Proof. intros r. apply G_refl. Qed.

Lemma job_guarantees_asks {A : Type} (f : host -> A) : guarantees G (Job.asks f).
Proof. intros r. apply G_refl. Qed.

Lemma job_guarantees_of_outcome {A : Type} (o : outcome A) :
  guarantees G (Job.of_outcome o).
Proof. destruct o; intros r; apply G_refl. Qed.

Lemma job_guarantees_raise_if (fault : option js_error) :
  guarantees G (Job.raise_if fault).
Proof. destruct fault; intros r; apply G_refl. Qed.

Lemma job_guarantees_bind {A B : Type} (m : Job A) (k : A -> Job B) :
  guarantees G m -> (forall a, guarantees G (k a)) -> guarantees G (Job.bind m k).
Proof.
  intros Hm Hk r. unfold Job.bind. specialize (Hm r).
  destruct (m r) as [[a | err] r1]; cbn [snd] in *.
  - apply (G_trans _ r1); [exact Hm | apply Hk].
  - exact Hm.
Qed.

Lemma job_guarantees_try_catch {A : Type} (m : Job A) (h : js_error -> Job A) :
  guarantees G m -> (forall err, guarantees G (h err)) ->
  guarantees G (Job.try_catch m h).
Proof.
  intros Hm Hh r. unfold Job.try_catch. specialize (Hm r).
  destruct (m r) as [[a | err] r1]; cbn [snd] in *.
  - exact Hm.
  - apply (G_trans _ r1); [exact Hm | apply Hh].
Qed.

Lemma job_guarantees_for_of {A : Type} (body : A -> Job unit) (l : list A) :
  (forall x, guarantees G (body x)) -> guarantees G (Job.for_of body l).
Proof.
  intros Hbody. induction l as [| x t IH]; cbn [Job.for_of].
  - apply job_guarantees_ret.
  - apply job_guarantees_bind; [apply Hbody | intros _; exact IH].
Qed.

End JobGuarantees.

Lemma evolves_perform (ch : change) (e : effect) :
  of_ekinds (effect_kinds ch) e = true -> guarantees (evolves ch) (Job.perform e).
Proof.
  intros H r. unfold evolves. cbv zeta. cbn.
  repeat split; try reflexivity.
  - exists []. now rewrite app_nil_r.
  - exists [e]. cbn. now rewrite H.
Qed.

(** Code of the post step, run by the setup step. *)
Lemma evolves_in_world {A : Type} (ch : change) (ks : list kind) (m : M A) :
  guarantees (extends ks) m -> guarantees same_thread m ->
  incl ks (obs_kinds ch) ->
  guarantees (evolves ch) (Job.in_world m).
Proof.
  intros He Hs Hk r. unfold Job.in_world.
  specialize (He (current r)). specialize (Hs (current r)).
  destruct (m (current r)) as [res w]; cbn [snd] in *.
  destruct He as [C [d [T F]]].
  unfold evolves. cbv zeta. cbn [current tools effects].
  split; [reflexivity |]. split; [exact Hs |].
  split.
  { exists d. split; [exact T |]. rewrite forallb_forall in *.
    intros o Hin. apply (of_kinds_incl _ _ _ Hk), F, Hin. }
  split; [exists []; now rewrite app_nil_r |].
  rewrite C. split; [apply same_inputs_refl |]. now split.
Qed.

Lemma evolves_reads {A : Type} (ch : change) (m : M A) :
  reads m -> guarantees (evolves ch) (Job.in_world m).
Proof.
  intros H. apply (evolves_in_world ch []).
  - now apply reads_guarantees.
  - now apply same_thread_reads.
  - intros k [].
Qed.

Lemma evolves_set_env (ch : change) (name : string) (val : env -> string) :
  existsb (String.eqb name) (variables ch) = true ->
  guarantees (evolves ch)
             (Job.in_world (set_context (fun c => set_env c name (val c)))).
Proof.
  intros H r. unfold evolves. cbv zeta. cbn.
  repeat split; try reflexivity.
  - exists []. now rewrite app_nil_r.
  - exists []. now rewrite app_nil_r.
  - intros k Hk. destruct (k =? name)%string eqn:E; [| reflexivity].
    exfalso. apply Hk. apply String.eqb_eq in E. subst k.
    apply existsb_exists in H. destruct H as [x [Hin Hx]].
    apply String.eqb_eq in Hx. now subst x.
Qed.

Lemma evolves_write_file (ch : change) (path data : string) :
  files ch = true ->
  guarantees (evolves ch)
             (Job.in_world (set_context (fun c => write_file c path data))).
Proof.
  intros H r. unfold evolves. cbv zeta. cbn.
  repeat split; try reflexivity; try congruence.
  - exists []. now rewrite app_nil_r.
  - exists []. now rewrite app_nil_r.
Qed.

Lemma guarantees_within {A : Type} (ch ch' : change) (m : Job A) :
  within ch ch' -> guarantees (evolves ch) m -> guarantees (evolves ch') m.
Proof. intros H Hm r. apply (evolves_within ch); [exact H | apply Hm]. Qed.

Ltac solve_within :=
  unfold within, only_logs, only_does; cbn;
  repeat split; try (intros ? ?; cbn in *; tauto); try discriminate.

(** [use E] closes a goal with a lemma for a smaller change. *)
Ltac use E := eapply guarantees_within; [| apply E]; solve_within.

Lemma evolves_info (msg : string) : guarantees (evolves (only_logs [KInfo])) (info msg).
Proof.
  unfold info, core_info. apply (evolves_in_world _ [KInfo]).
  - now apply extends_emit.
  - apply same_thread_emit.
  - intros k H. exact H.
Qed.

Lemma evolves_warning (msg : string) :
  guarantees (evolves (only_logs [KWarning])) (warning msg).
Proof.
  unfold warning, core_warning. apply (evolves_in_world _ [KWarning]).
  - now apply extends_emit.
  - apply same_thread_emit.
  - intros k H. exact H.
Qed.

Lemma evolves_input (ch : change) (name : string) : guarantees (evolves ch) (input name).
Proof. unfold input. apply evolves_reads, reads_asks. Qed.

Ltac evolves_step :=
  first
    [ apply job_guarantees_ret; apply evolves_refl
    | apply job_guarantees_throw; apply evolves_refl
    | apply job_guarantees_asks; apply evolves_refl
    | apply job_guarantees_of_outcome; apply evolves_refl
    | apply job_guarantees_raise_if; apply evolves_refl
    | apply evolves_perform; reflexivity
    | apply evolves_set_env; reflexivity
    | apply evolves_write_file; reflexivity
    | apply evolves_input
    | use evolves_info
    | use evolves_warning
    | apply evolves_reads;
      first [ apply reads_asks | apply reads_getCacheDir | apply reads_buildCacheKey
            | apply reads_getEventLogPath | apply reads_readFileSync
            | apply reads_getTarget | apply reads_isS3Configured
            | apply reads_useGitHubCache ]
    | apply job_guarantees_bind; [apply evolves_trans | | intros ?]
    | apply job_guarantees_try_catch; [apply evolves_trans | | intros ?]
    | match goal with
      | |- guarantees _ (if ?b then _ else _) => destruct b
      | |- guarantees _ (match ?x with _ => _ end) => destruct x
      | |- guarantees _ (let _ := _ in _) => cbv zeta
      end ].

Lemma evolves_getLatestVersion (token : string) :
  guarantees (evolves (only_does [ERelease])) (getLatestVersion token).
Proof. unfold getLatestVersion. repeat evolves_step. Qed.

Lemma evolves_tc_download (url : string) :
  guarantees (evolves (only_does [EDownload])) (tc_download url).
Proof. unfold tc_download. repeat evolves_step. Qed.

Lemma evolves_tc_lookup (ch : change) (tool version : string) :
  guarantees (evolves ch) (tc_lookup tool version).
Proof. unfold tc_lookup. repeat evolves_step. Qed.

Lemma evolves_tc_extract (file : string) :
  guarantees (evolves (only_does [EExtract])) (tc_extract file).
Proof. unfold tc_extract. repeat evolves_step. Qed.

Lemma evolves_tc_cache (dir tool version : string) :
  guarantees (evolves (only_does [ECacheDir])) (tc_cache dir tool version).
Proof. unfold tc_cache. repeat evolves_step. Qed.

Lemma evolves_downloadAndVerify (version target : string) :
  guarantees (evolves downloading) (downloadAndVerify version target).
Proof.
  unfold downloadAndVerify. cbv zeta.
  repeat (use evolves_tc_download || evolves_step).
Qed.

Lemma evolves_restoreCache : guarantees (evolves restoring) restoreCache.
Proof. unfold restoreCache. cbv zeta. repeat evolves_step. Qed.

Lemma evolves_fs_writeFileSync (path data : string) :
  guarantees (evolves clearing) (fs_writeFileSync path data).
Proof. unfold fs_writeFileSync. repeat evolves_step. Qed.

Lemma evolves_clearEventLog : guarantees (evolves clearing) clearEventLog.
Proof.
  unfold clearEventLog. repeat (apply evolves_fs_writeFileSync || evolves_step).
Qed.

Lemma evolves_resolve_version (token : string) :
  guarantees (evolves resolving) (Setup.resolve_version token).
Proof.
  unfold Setup.resolve_version. repeat (use evolves_getLatestVersion || evolves_step).
Qed.

Lemma evolves_install (version target semver : string) :
  guarantees (evolves installing) (Setup.install version target semver).
Proof.
  unfold Setup.install. cbv zeta.
  repeat (apply evolves_tc_lookup || use evolves_downloadAndVerify
          || use evolves_tc_extract || use evolves_tc_cache || evolves_step).
Qed.

Lemma evolves_exportVariable (ch : change) (name val : string) :
  existsb (String.eqb name) (variables ch) = true ->
  of_ekinds (effect_kinds ch) (ExportVariable name val) = true ->
  guarantees (evolves ch) (core_exportVariable name val).
Proof.
  intros Hn He. unfold core_exportVariable.
  apply job_guarantees_bind; [apply evolves_trans | | intros _].
  - now apply (evolves_set_env ch name (fun _ => val)).
  - now apply evolves_perform.
Qed.

Lemma evolves_addPath (ch : change) (dir : string) :
  existsb (String.eqb "PATH") (variables ch) = true ->
  of_ekinds (effect_kinds ch) (AddPath dir) = true ->
  guarantees (evolves ch) (core_addPath dir).
Proof.
  intros Hn He. unfold core_addPath.
  apply job_guarantees_bind; [apply evolves_trans | | intros _].
  - now apply evolves_perform.
  - now apply (evolves_set_env ch "PATH"
                 (fun c => dir ++ ":" ++ show (process_env c "PATH"))).
Qed.

Lemma evolves_export_s3_vars : guarantees (evolves exporting) Setup.export_s3_vars.
Proof.
  unfold Setup.export_s3_vars, Setup.s3Vars. cbn [Job.for_of].
  unfold Setup.export_s3_var, core_setSecret.
  repeat ((apply evolves_exportVariable; reflexivity) || evolves_step).
Qed.

Lemma evolves_export_settings (version toolDir : string) :
  guarantees (evolves exporting) (Setup.export_settings version toolDir).
Proof.
  unfold Setup.export_settings. cbv zeta.
  repeat ((apply evolves_exportVariable; reflexivity)
          || (apply evolves_addPath; reflexivity)
          || apply evolves_export_s3_vars || evolves_step).
Qed.

Lemma evolves_runKache (args : list string) :
  guarantees (evolves (only_logs [KExec; KWarning])) (Job.in_world (runKache args)).
Proof.
  apply (evolves_in_world _ [KExec; KWarning]).
  - apply extends_runKache.
  - apply same_thread_runKache.
  - intros k H. exact H.
Qed.

Lemma evolves_restore (s3 gh : bool) :
  guarantees (evolves restoring) (Setup.restore s3 gh).
Proof.
  unfold Setup.restore.
  repeat (use evolves_runKache || apply evolves_restoreCache || evolves_step).
Qed.

Lemma evolves_save_state (s3 gh : bool) (version : string) :
  guarantees (evolves (only_does [EState])) (Setup.save_state s3 gh version).
Proof. unfold Setup.save_state, core_saveState. repeat evolves_step. Qed.

(** ** Steps of the code of the setup step *)

Lemma job_bind_returned {A B : Type} (m : Job A) (k : A -> Job B) (r r' : runner) (a : A) :
  m r = (Returned a, r') -> Job.bind m k r = k a r'.
Proof. intros E. unfold Job.bind. now rewrite E. Qed.

Lemma job_bind_thrown {A B : Type} (m : Job A) (k : A -> Job B) (r r' : runner) err :
  m r = (Thrown err, r') -> Job.bind m k r = (Thrown err, r').
Proof. intros E. unfold Job.bind. now rewrite E. Qed.

(** Every way through [bind]. *)
Lemma job_bind_inv {A B : Type} (m : Job A) (k : A -> Job B) (r r' : runner)
      (res : outcome B) :
  Job.bind m k r = (res, r') ->
  (exists a r1, m r = (Returned a, r1) /\ k a r1 = (res, r')) \/
  (exists err, m r = (Thrown err, r') /\ res = Thrown err).
Proof.
  unfold Job.bind. destruct (m r) as [[a | err] r1]; intros H.
  - left. now exists a, r1.
  - right. exists err. now inversion H.
Qed.

Lemma runner_eta (r : runner) :
  {| current := current r; tools := tools r; effects := effects r |} = r.
Proof. now destruct r. Qed.

Lemma in_world_reads {A : Type} (m : M A) (r : runner) :
  reads m -> Job.in_world m r = (fst (m (current r)), r).
Proof.
  intros [f Hf]. unfold Job.in_world. rewrite Hf. cbn [fst]. now rewrite runner_eta.
Qed.

Lemma in_world_returned {A : Type} (m : M A) (r : runner) (a : A) :
  m (current r) = (Returned a, current r) -> Job.in_world m r = (Returned a, r).
Proof. intros E. unfold Job.in_world. rewrite E. now rewrite runner_eta. Qed.

Lemma job_bind_asks {A B : Type} (f : env -> A) (k : A -> Job B) (r : runner) :
  Job.bind (Job.in_world (asks f)) k r = k (f (context (current r))) r.
Proof.
  apply job_bind_returned. now apply in_world_returned.
Qed.

Lemma job_bind_input {B : Type} (name : string) (k : string -> Job B) (r : runner) :
  Job.bind (input name) k r = k (getInput (context (current r)) name) r.
Proof. unfold input. apply job_bind_asks. Qed.

Lemma job_bind_tools {A B : Type} (f : host -> A) (k : A -> Job B) (r : runner) :
  Job.bind (Job.asks f) k r = k (f (tools r)) r.
Proof. reflexivity. Qed.

Lemma job_bind_ret {A B : Type} (a : A) (k : A -> Job B) (r : runner) :
  Job.bind (Job.ret a) k r = k a r.
Proof. reflexivity. Qed.

Lemma info_noted (msg : string) (r : runner) :
  info msg r = (Returned tt, noted r [Info msg]).
Proof. reflexivity. Qed.

Lemma warning_noted (msg : string) (r : runner) :
  warning msg r = (Returned tt, noted r [Warning msg]).
Proof. reflexivity. Qed.

Lemma perform_did (e : effect) (r : runner) :
  Job.perform e r = (Returned tt, did r [e]).
Proof. reflexivity. Qed.

Lemma noted_noted (r : runner) (a b : list obs) :
  noted (noted r a) b = noted r (a ++ b).
Proof. unfold noted. cbn. now rewrite logged_logged. Qed.

Lemma did_did (r : runner) (a b : list effect) : did (did r a) b = did r (a ++ b).
Proof. unfold did. cbn. now rewrite <- app_assoc. Qed.

Lemma did_noted (r : runner) (a : list effect) (b : list obs) :
  noted (did r a) b = did (noted r b) a.
Proof. reflexivity. Qed.

(** ** The first piece of a text *)

Lemma split_spaces_from_cons (b : bool) (s : string) :
  exists piece rest, split_spaces_from b s = piece :: rest.
Proof.
  revert b. induction s as [| c s IH]; intros b; cbn [split_spaces_from].
  - now exists "", [].
  - destruct (is_space c).
    + destruct b; [apply IH | eexists; eexists; reflexivity].
    + destruct (IH false) as [p [rest E]]. rewrite E. eexists; eexists; reflexivity.
Qed.

Lemma split_spaces_first (s : string) :
  nth_error (split_spaces s) 0 = Some (hd "" (split_spaces s)).
Proof.
  unfold split_spaces. destruct (split_spaces_from_cons false s) as [p [rest E]].
  now rewrite E.
Qed.

(** The first piece of a text that starts with a word: the word, when
    what follows it is nothing or starts with white space. *)
Lemma split_spaces_word (word rest : string) :
  string_forall (fun c => negb (is_space c)) word = true ->
  starts_with_text rest = false ->
  hd "" (split_spaces (word ++ rest)) = word.
Proof.
  intros Hw Hr. unfold split_spaces.
  induction word as [| c word IH]; cbn [append].
  - destruct rest as [| c rest]; [reflexivity |].
    cbn [starts_with_text] in Hr. apply negb_false_iff in Hr.
    cbn [split_spaces_from]. now rewrite Hr.
  - cbn [string_forall] in Hw. apply andb_true_iff in Hw. destruct Hw as [Hc Hw].
    apply negb_true_iff in Hc. cbn [split_spaces_from]. rewrite Hc.
    specialize (IH Hw).
    destruct (split_spaces_from_cons false (word ++ rest)) as [p [ps E]].
    rewrite E in *. cbn [hd] in *. now subst p.
Qed.

Lemma trimEnd_head (s : string) :
  trimEnd s = "" \/
  exists c t t', s = String c t /\ trimEnd s = String c t'.
Proof.
  destruct s as [| c s]; [now left |]. cbn [trimEnd].
  destruct (trimEnd s) as [| c' t'].
  - destruct (is_space c); [now left | right; now exists c, s, ""].
  - right. now exists c, s, (String c' t').
Qed.

Lemma trimEnd_word (word rest : string) :
  string_forall (fun c => negb (is_space c)) word = true ->
  exists rest',
    trimEnd (word ++ rest) = word ++ rest' /\
    (rest' = "" \/ exists c t t', rest = String c t /\ rest' = String c t').
Proof.
  intros Hw. induction word as [| c word IH]; cbn [append].
  - exists (trimEnd rest). split; [reflexivity |].
    destruct (trimEnd_head rest) as [E | [c [t [t' [E1 E2]]]]]; [now left |].
    right. now exists c, t, t'.
  - cbn [string_forall] in Hw. apply andb_true_iff in Hw. destruct Hw as [Hc Hw].
    apply negb_true_iff in Hc.
    destruct (IH Hw) as [rest' [E Hr]]. exists rest'. split; [| exact Hr].
    cbn [trimEnd]. rewrite E.
    destruct (word ++ rest') eqn:W; [now rewrite Hc | reflexivity].
Qed.

(** A text that starts with a word, followed by nothing or by white
    space, has the word as the first piece of its trimmed form. *)
Lemma first_piece_of_line (word rest : string) :
  word <> "" ->
  string_forall (fun c => negb (is_space c)) word = true ->
  starts_with_text rest = false ->
  hd "" (split_spaces (trim (word ++ rest))) = word.
Proof.
  intros Hne Hw Hr. unfold trim.
  assert (Hs : trimStart (word ++ rest) = word ++ rest).
  { destruct word as [| c word]; [congruence |].
    cbn [string_forall] in Hw. apply andb_true_iff in Hw. destruct Hw as [Hc _].
    apply negb_true_iff in Hc. cbn [append trimStart]. now rewrite Hc. }
  rewrite Hs. destruct (trimEnd_word word rest Hw) as [rest' [E Hr']].
  rewrite E. apply split_spaces_word; [exact Hw |].
  destruct Hr' as [-> | [c [t [t' [-> ->]]]]]; [reflexivity | exact Hr].
Qed.

Lemma hex_digit_not_space (c : ascii) : is_hex_digit c = true -> is_space c = false.
Proof.
  unfold is_hex_digit, is_space. cbv zeta.
  generalize (nat_of_ascii c). intros n H.
  apply orb_true_iff in H. rewrite !andb_true_iff, !Nat.leb_le in H.
  apply orb_false_iff. split; [apply orb_false_iff; split |].
  - apply andb_false_iff. rewrite !Nat.leb_gt. lia.
  - apply Nat.eqb_neq. lia.
  - apply Nat.eqb_neq. lia.
Qed.

Lemma string_forall_impl (p q : ascii -> bool) (s : string) :
  (forall c, p c = true -> q c = true) ->
  string_forall p s = true -> string_forall q s = true.
Proof.
  intros H. induction s as [| c s IH]; cbn [string_forall]; [reflexivity |].
  intros Hs. apply andb_true_iff in Hs. destruct Hs as [Hc Hs].
  now rewrite (H c Hc), IH.
Qed.

Lemma hex_is_word (s : string) :
  Sha256.hex s <> "" /\
  string_forall (fun c => negb (is_space c)) (Sha256.hex s) = true.
Proof.
  destruct (hex_shape s) as [Hl Hf]. split.
  - intros E. rewrite E in Hl. discriminate.
  - apply (string_forall_impl is_hex_digit); [| exact Hf].
    intros c Hc. now rewrite (hex_digit_not_space c Hc).
Qed.

(** ** [downloadAndVerify] *)

Lemma in_world_read (f : string) (r : runner) :
  Job.in_world (readFileSync f) r = (fs_readFileSync (context (current r)) f, r).
Proof.
  rewrite (in_world_reads _ r (reads_readFileSync f)).
  unfold readFileSync. rewrite bind_asks.
  destruct (fs_readFileSync (context (current r)) f); reflexivity.
Qed.

Lemma tc_download_run (url : string) (r : runner) :
  tc_download url r = (tc_downloadTool (tools r) url, did r [Download url]).
Proof.
  unfold tc_download.
  rewrite (job_bind_returned _ _ _ _ _ (perform_did _ _)), job_bind_tools.
  cbn [did tools]. destruct (tc_downloadTool (tools r) url); reflexivity.
Qed.

(** Every way through [downloadAndVerify]. *)
Lemma downloadAndVerify_outcome (version target : string) (r : runner) :
  downloadAndVerify version target r =
  match tc_downloadTool (tools r) (tarUrl_of version target) with
  | Thrown err =>
      (Thrown err,
       did (noted r [Info ("Downloading " ++ tarUrl_of version target)])
           [Download (tarUrl_of version target)])
  | Returned tarPath =>
      match tc_downloadTool (tools r) (shaUrl_of version target) with
      | Thrown err => (Thrown err, downloaded r version target)
      | Returned shaPath =>
          match fs_readFileSync (context (current r)) shaPath with
          | Thrown err => (Thrown err, downloaded r version target)
          | Returned text =>
              match fs_readFileSync (context (current r)) tarPath with
              | Thrown err => (Thrown err, downloaded r version target)
              | Returned archive =>
                  if (Sha256.hex archive =? expectedHash_of text)%string
                  then (Returned tarPath,
                        noted (downloaded r version target) [Info "Checksum verified"])
                  else (Thrown (Error ("SHA256 mismatch for " ++ tarName_of target
                                       ++ ": expected " ++ expectedHash_of text
                                       ++ ", got " ++ Sha256.hex archive)),
                        downloaded r version target)
              end
          end
      end
  end.
Proof.
  unfold downloadAndVerify. cbv zeta.
  fold (tarName_of target). fold (tarUrl_of version target).
  fold (shaUrl_of version target).
  rewrite (job_bind_returned _ _ _ _ _ (info_noted _ r)).
  unfold Job.bind at 1. rewrite tc_download_run. cbn [noted tools].
  destruct (tc_downloadTool (tools r) (tarUrl_of version target)) as [tarPath | err];
    [| reflexivity].
  rewrite (job_bind_returned _ _ _ _ _ (info_noted _ _)).
  unfold Job.bind at 1. rewrite tc_download_run. cbn [noted did tools].
  assert (D : did (noted (did (noted r [Info ("Downloading " ++ tarUrl_of version target)])
                              [Download (tarUrl_of version target)])
                         [Info ("Downloading checksum " ++ shaUrl_of version target)])
                  [Download (shaUrl_of version target)]
              = downloaded r version target).
  { unfold downloaded, did, noted, logged. cbn. rewrite <- !app_assoc. reflexivity. }
  rewrite D.
  destruct (tc_downloadTool (tools r) (shaUrl_of version target)) as [shaPath | err];
    [| reflexivity].
  unfold Job.bind at 1. rewrite in_world_read.
  change (context (current (downloaded r version target))) with (context (current r)).
  destruct (fs_readFileSync (context (current r)) shaPath) as [text | err];
    [| reflexivity].
  unfold Job.bind at 1. rewrite in_world_read.
  change (context (current (downloaded r version target))) with (context (current r)).
  destruct (fs_readFileSync (context (current r)) tarPath) as [archive | err];
    [| reflexivity].
  rewrite split_spaces_first. fold (expectedHash_of text). cbn [show].
  destruct (Sha256.hex archive =? expectedHash_of text)%string; cbn [negb].
  - rewrite (job_bind_returned _ _ _ _ _ (info_noted _ _)). reflexivity.
  - reflexivity.
Qed.

Lemma downloadAndVerify_returned (version target : string) (r r' : runner) (p : string) :
  downloadAndVerify version target r = (Returned p, r') ->
  exists shaPath text archive,
    tc_downloadTool (tools r) (tarUrl_of version target) = Returned p /\
    tc_downloadTool (tools r) (shaUrl_of version target) = Returned shaPath /\
    fs_readFileSync (context (current r)) shaPath = Returned text /\
    fs_readFileSync (context (current r)) p = Returned archive /\
    Sha256.hex archive = expectedHash_of text /\
    r' = noted (downloaded r version target) [Info "Checksum verified"].
Proof.
  rewrite downloadAndVerify_outcome.
  destruct (tc_downloadTool (tools r) (tarUrl_of version target)) as [tarPath | err];
    [| discriminate].
  destruct (tc_downloadTool (tools r) (shaUrl_of version target)) as [shaPath | err];
    [| discriminate].
  destruct (fs_readFileSync (context (current r)) shaPath) as [text | err] eqn:Rs;
    [| discriminate].
  destruct (fs_readFileSync (context (current r)) tarPath) as [archive | err] eqn:Rt;
    [| discriminate].
  destruct (Sha256.hex archive =? expectedHash_of text)%string eqn:E; [| discriminate].
  intros [= <- <-]. apply String.eqb_eq in E.
  exists shaPath, text, archive. repeat split; assumption.
Qed.

(** [downloadAndVerify] returns the path of an archive only when the
    SHA-256 digest of the archive, in lower-case hexadecimal notation, is
    the first piece of the text of the checksum file that was downloaded
    beside it: a piece of 64 hexadecimal digits.  When both files have been
    read and the two differ, it throws an error that names both. *)
Theorem downloadAndVerify_checks (version target : string) (r : runner) :
  (forall p r',
     downloadAndVerify version target r = (Returned p, r') ->
     exists shaPath text archive,
       tc_downloadTool (tools r) (tarUrl_of version target) = Returned p /\
       tc_downloadTool (tools r) (shaUrl_of version target) = Returned shaPath /\
       fs_readFileSync (context (current r)) shaPath = Returned text /\
       fs_readFileSync (context (current r)) p = Returned archive /\
       expectedHash_of text = Sha256.hex archive /\
       String.length (expectedHash_of text) = 64%nat /\
       string_forall is_hex_digit (expectedHash_of text) = true) /\
  (forall tarPath shaPath text archive,
     tc_downloadTool (tools r) (tarUrl_of version target) = Returned tarPath ->
     tc_downloadTool (tools r) (shaUrl_of version target) = Returned shaPath ->
     fs_readFileSync (context (current r)) shaPath = Returned text ->
     fs_readFileSync (context (current r)) tarPath = Returned archive ->
     expectedHash_of text <> Sha256.hex archive ->
     downloadAndVerify version target r =
     (Thrown (Error ("SHA256 mismatch for kache-" ++ target ++ ".tar.gz: expected "
                     ++ expectedHash_of text ++ ", got " ++ Sha256.hex archive)),
      downloaded r version target)).
Proof.
  split.
  - intros p r' H.
    destruct (downloadAndVerify_returned version target r r' p H)
      as [shaPath [text [archive [D1 [D2 [R1 [R2 [E _]]]]]]]].
    exists shaPath, text, archive.
    destruct (hex_shape archive) as [Hl Hf].
    repeat split; try assumption; rewrite <- E; auto.
  - intros tarPath shaPath text archive D1 D2 R1 R2 Hne.
    rewrite downloadAndVerify_outcome, D1, D2, R1, R2.
    replace (Sha256.hex archive =? expectedHash_of text)%string with false.
    + unfold tarName_of. now rewrite !append_assoc.
    + symmetry. apply String.eqb_neq. congruence.
Qed.

(** A checksum file as [sha256sum] writes it is accepted: when the text
    of the checksum file is the digest of the archive, followed by nothing
    or by white space and anything else (the name of the file, a line
    break), [downloadAndVerify] returns the path of the archive. *)
Theorem downloadAndVerify_accepts (version target : string) (r : runner)
        (tarPath shaPath archive rest : string) :
  tc_downloadTool (tools r) (tarUrl_of version target) = Returned tarPath ->
  tc_downloadTool (tools r) (shaUrl_of version target) = Returned shaPath ->
  fs_readFileSync (context (current r)) tarPath = Returned archive ->
  fs_readFileSync (context (current r)) shaPath = Returned (Sha256.hex archive ++ rest) ->
  starts_with_text rest = false ->
  expectedHash_of (Sha256.hex archive ++ rest) = Sha256.hex archive /\
  downloadAndVerify version target r =
  (Returned tarPath, noted (downloaded r version target) [Info "Checksum verified"]).
Proof.
  intros D1 D2 R1 R2 Hrest.
  destruct (hex_is_word archive) as [Hne Hw].
  assert (E : expectedHash_of (Sha256.hex archive ++ rest) = Sha256.hex archive)
    by (apply first_piece_of_line; assumption).
  split; [exact E |].
  rewrite downloadAndVerify_outcome, D1, D2, R2, R1, E.
  now rewrite String.eqb_refl.
Qed.

(** ** [restoreCache] *)

Lemma restoreCache_outcome (r : runner) (cacheDir key : string)
      (restoreKeys : list string) :
  getCacheDir (current r) = (Returned cacheDir, current r) ->
  buildCacheKey (current r) = (Returned (key, restoreKeys), current r) ->
  restoreCache r =
  (Returned match cache_restoreCache (tools r) [cacheDir] key restoreKeys with
            | Returned hitKey => hitKey
            | Thrown _ => None
            end,
   did (noted r [Info ("GitHub cache key: " ++ key);
                 match cache_restoreCache (tools r) [cacheDir] key restoreKeys with
                 | Returned hitKey =>
                     if truthy hitKey
                     then Info ("GitHub cache restored from key: " ++ show hitKey)
                     else Info "GitHub cache miss"
                 | Thrown err =>
                     Warning ("GitHub cache restore failed: " ++ show (message err))
                 end])
       [CacheRestore [cacheDir] key restoreKeys]).
Proof.
  intros Hdir Hkey. unfold restoreCache.
  rewrite (job_bind_returned _ _ _ _ _ (in_world_returned _ _ _ Hdir)).
  rewrite (job_bind_returned _ _ _ _ _ (in_world_returned _ _ _ Hkey)).
  cbv zeta. cbn [fst snd].
  rewrite (job_bind_returned _ _ _ _ _ (info_noted _ r)).
  unfold Job.try_catch.
  rewrite (job_bind_returned _ _ _ _ _ (perform_did _ _)), job_bind_tools.
  cbn [did noted tools].
  destruct (cache_restoreCache (tools r) [cacheDir] key restoreKeys) as [hitKey | err];
    cbn [Job.of_outcome].
  - rewrite job_bind_ret.
    destruct (truthy hitKey);
      rewrite (job_bind_returned _ _ _ _ _ (info_noted _ _));
      unfold Job.ret, did, noted, logged; cbn; rewrite <- !app_assoc; reflexivity.
  - unfold Job.bind at 1. unfold Job.throw.
    rewrite (job_bind_returned _ _ _ _ _ (warning_noted _ _)).
    unfold Job.ret, did, noted, logged. cbn. rewrite <- !app_assoc. reflexivity.
Qed.

(** When the lockfiles can be read, [restoreCache] asks the cache service
    once, for the cache directory under the key and the restore keys of
    [buildCacheKey], and it returns whatever the service answers: the key
    that was hit, or [undefined] when there is none or when the service
    fails, which is a warning.  The key is the one under which [saveCache]
    saves the same directory in the same surroundings. *)
Theorem restoreCache_tolerant (r : runner) (content : string -> string) :
  (forall f, In f (glob_lockfiles (context (current r))) ->
             fs_readFileSync (context (current r)) f = Returned (content f)) ->
  exists cacheDir key restoreKeys,
    getCacheDir (current r) = (Returned cacheDir, current r) /\
    buildCacheKey (current r) = (Returned (key, restoreKeys), current r) /\
    restoreCache r =
    (Returned match cache_restoreCache (tools r) [cacheDir] key restoreKeys with
              | Returned hitKey => hitKey
              | Thrown _ => None
              end,
     did (noted r [Info ("GitHub cache key: " ++ key);
                   match cache_restoreCache (tools r) [cacheDir] key restoreKeys with
                   | Returned hitKey =>
                       if truthy hitKey
                       then Info ("GitHub cache restored from key: " ++ show hitKey)
                       else Info "GitHub cache miss"
                   | Thrown err =>
                       Warning ("GitHub cache restore failed: " ++ show (message err))
                   end])
         [CacheRestore [cacheDir] key restoreKeys]) /\
    (fs_existsSync (context (current r)) cacheDir = true ->
     exists report,
       saveCache (current r) =
       (Returned tt, logged (current r) [CacheSave cacheDir key; report])).
Proof.
  intros Hread.
  destruct (getCacheDir_returns (current r)) as [cacheDir Hdir].
  pose proof (buildCacheKey_returns (current r) content Hread) as Hkey.
  cbv zeta in Hkey.
  exists cacheDir. eexists. eexists.
  split; [exact Hdir |]. split; [exact Hkey |]. split.
  - exact (restoreCache_outcome r cacheDir _ _ Hdir Hkey).
  - intros Hex. eexists.
    exact (saveCache_present (current r) cacheDir _ _ Hdir Hex Hkey).
Qed.

(** ** [clearEventLog] *)

Lemma getCacheDir_is (w : world) : getCacheDir w = (Returned (cacheDir_of (context w)), w).
Proof.
  unfold getCacheDir, cacheDir_of. rewrite bind_asks. cbv zeta.
  destruct (process_env (context w) "KACHE_CACHE_DIR") as [d |];
    [destruct (truthy_string d); [reflexivity |] |];
    rewrite !bind_asks;
    destruct (os_platform (context w) =? "darwin")%string; reflexivity.
Qed.

Lemma getEventLogPath_is (w : world) :
  getEventLogPath w = (Returned (logPath_of (context w)), w).
Proof.
  unfold getEventLogPath. now rewrite (bind_returned _ _ _ _ _ (getCacheDir_is w)).
Qed.

Lemma fs_writeFileSync_run (path data : string) (r : runner) :
  fs_writeFileSync path data r =
  match fs_writeFileSync_fault (tools r) path with
  | Some err => (Thrown err, r)
  | None =>
      (Returned tt,
       {| current := {| context := write_file (context (current r)) path data;
                        comments := comments (current r);
                        trace := trace (current r) |};
          tools := tools r;
          effects := effects r ++ [WriteFile path data] |})
  end.
Proof.
  unfold fs_writeFileSync. rewrite job_bind_tools.
  destruct (fs_writeFileSync_fault (tools r) path); reflexivity.
Qed.

Lemma clearEventLog_cleared (r : runner) :
  fs_writeFileSync_fault (tools r) (logPath_of (context (current r))) = None ->
  clearEventLog r =
  (Returned tt,
   {| current :=
        {| context := write_file (context (current r))
                                 (logPath_of (context (current r))) "";
           comments := comments (current r);
           trace := trace (current r) ++ [Info "Cleared kache event log"] |};
      tools := tools r;
      effects := effects r ++ [WriteFile (logPath_of (context (current r))) ""] |}).
Proof.
  intros H. unfold clearEventLog.
  rewrite (job_bind_returned _ _ _ _ _
             (in_world_returned _ _ _ (getEventLogPath_is (current r)))).
  unfold Job.try_catch. unfold Job.bind at 1. rewrite fs_writeFileSync_run, H.
  reflexivity.
Qed.

Lemma clearEventLog_failed (r : runner) (err : js_error) :
  fs_writeFileSync_fault (tools r) (logPath_of (context (current r))) = Some err ->
  clearEventLog r = (Returned tt, r).
Proof.
  intros H. unfold clearEventLog.
  rewrite (job_bind_returned _ _ _ _ _
             (in_world_returned _ _ _ (getEventLogPath_is (current r)))).
  unfold Job.try_catch. unfold Job.bind at 1. rewrite fs_writeFileSync_run, H.
  reflexivity.
Qed.

(** [clearEventLog] never throws.  When the log can be written, it is
    left empty and every other file as it was, so that [parseEvents], read
    right after, finds a log without events and returns [null]; when it
    cannot be written (the cache directory may not exist yet), nothing
    changes and nothing is said. *)
Theorem clearEventLog_then_parseEvents (JSON_parse : string -> option json)
        (r : runner) :
  let logPath := logPath_of (context (current r)) in
  (forall err, fs_writeFileSync_fault (tools r) logPath = Some err ->
               clearEventLog r = (Returned tt, r)) /\
  (fs_writeFileSync_fault (tools r) logPath = None ->
   exists r',
     clearEventLog r = (Returned tt, r') /\
     effects r' = (effects r ++ [WriteFile logPath ""])%list /\
     trace (current r') = (trace (current r) ++ [Info "Cleared kache event log"])%list /\
     fs_existsSync (context (current r')) logPath = true /\
     fs_readFileSync (context (current r')) logPath = Returned "" /\
     (forall p, p <> logPath ->
        fs_existsSync (context (current r')) p = fs_existsSync (context (current r)) p /\
        fs_readFileSync (context (current r')) p
        = fs_readFileSync (context (current r)) p) /\
     parseEvents JSON_parse (current r') = (Returned None, current r')).
Proof.
  cbv zeta. split.
  - intros err H. exact (clearEventLog_failed r err H).
  - intros H. eexists. split; [exact (clearEventLog_cleared r H) |].
    cbn [effects current trace context].
    split; [reflexivity |]. split; [reflexivity |].
    cbn [write_file fs_existsSync fs_readFileSync].
    rewrite String.eqb_refl.
    split; [reflexivity |]. split; [reflexivity |]. split.
    + intros p Hp. apply String.eqb_neq in Hp. now rewrite Hp.
    + unfold parseEvents.
      rewrite (bind_returned _ _ _ _ _ (getEventLogPath_is _)).
      cbn [context]. rewrite bind_asks. cbn [context].
      change (logPath_of (write_file (context (current r))
                                     (logPath_of (context (current r))) ""))
        with (logPath_of (context (current r))).
      cbn [write_file fs_existsSync]. rewrite String.eqb_refl. cbn [negb].
      erewrite bind_returned.
      2:{ unfold readFileSync. rewrite bind_asks. cbn [context write_file fs_readFileSync].
          rewrite String.eqb_refl. reflexivity. }
      reflexivity.
Qed.

(** ** The setup step: failures *)

Lemma evolves_configure (version toolDir : string) :
  guarantees (evolves configuring) (Setup.configure version toolDir).
Proof.
  unfold Setup.configure.
  repeat (use evolves_export_settings || use evolves_restore
          || use evolves_clearEventLog || use evolves_save_state || evolves_step).
Qed.

Lemma evolves_setup : guarantees (evolves setting_up) Setup.setup.
Proof.
  unfold Setup.setup. cbv zeta.
  repeat (use evolves_resolve_version || use evolves_install
          || use evolves_configure || evolves_step).
Qed.

Lemma evolves_run : guarantees (evolves running) Setup.run.
Proof.
  unfold Setup.run, core_setFailed.
  apply job_guarantees_try_catch; [apply evolves_trans | | intros err; evolves_step].
  use evolves_setup.
Qed.

Lemma setup_run_returned (r r1 : runner) :
  Setup.setup r = (Returned tt, r1) -> Setup.run r = (Returned tt, r1).
Proof. intros E. unfold Setup.run, Job.try_catch. now rewrite E. Qed.

Lemma setup_run_thrown (r r1 : runner) (err : js_error) :
  Setup.setup r = (Thrown err, r1) ->
  Setup.run r = (Returned tt, did r1 [SetFailed (message err)]).
Proof. intros E. unfold Setup.run, Job.try_catch. now rewrite E. Qed.

Lemma getTarget_unsupported (w : world) :
  supported (os_platform (context w)) (os_arch (context w)) = false ->
  getTarget w =
  (Thrown (Error ("Unsupported platform: " ++ os_platform (context w) ++ "-"
                  ++ os_arch (context w))), w).
Proof.
  unfold supported, getTarget. rewrite !bind_asks.
  destruct (os_platform (context w) =? "linux")%string eqn:PL;
    destruct (os_platform (context w) =? "darwin")%string eqn:PD;
    destruct (os_arch (context w) =? "x64")%string eqn:AX;
    destruct (os_arch (context w) =? "arm64")%string eqn:AA;
    cbn [andb orb]; try discriminate; reflexivity.
Qed.

Lemma getTarget_returns (w : world) :
  supported (os_platform (context w)) (os_arch (context w)) = true ->
  exists t, getTarget w = (Returned t, w).
Proof.
  unfold supported, getTarget. rewrite !bind_asks.
  destruct (os_platform (context w) =? "linux")%string eqn:PL;
    destruct (os_platform (context w) =? "darwin")%string eqn:PD;
    destruct (os_arch (context w) =? "x64")%string eqn:AX;
    destruct (os_arch (context w) =? "arm64")%string eqn:AA;
    cbn [andb orb]; try discriminate; intros _; eexists; reflexivity.
Qed.

Lemma forallb_filter_nil {A : Type} (p q : A -> bool) (l : list A) :
  (forall x, p x = true -> q x = false) ->
  forallb p l = true -> filter q l = [].
Proof.
  intros H. induction l as [| x l IH]; cbn [forallb filter]; [reflexivity |].
  intros Hl. apply andb_true_iff in Hl. destruct Hl as [Hx Hl].
  now rewrite (H x Hx), IH.
Qed.

(** Effects of some kinds have none of the kinds that are not among
    them. *)
Lemma filter_other_ekinds (ks ks' : list ekind) (d : list effect) :
  forallb (fun k => negb (existsb (ekind_eqb k) ks')) ks = true ->
  forallb (of_ekinds ks) d = true ->
  filter (of_ekinds ks') d = [].
Proof.
  intros Hdis. apply forallb_filter_nil. intros e He.
  apply not_true_is_false. intros H'.
  unfold of_ekinds in He, H'. apply existsb_exists in He, H'.
  destruct He as [k [Hk Ek]], H' as [k' [Hk' Ek']].
  apply ekind_eqb_eq in Ek, Ek'. subst k k'.
  rewrite forallb_forall in Hdis. specialize (Hdis _ Hk).
  apply negb_true_iff in Hdis.
  assert (existsb (ekind_eqb (effect_kind e)) ks' = true).
  { apply existsb_exists. exists (effect_kind e). split; [exact Hk' |].
    now apply ekind_eqb_eq. }
  congruence.
Qed.

(** The setup step never throws: an error that escapes its body is caught
    and recorded with [core.setFailed], which fails the step with the
    message of the error, and this is the last thing the step does.  A
    body that returns records no failure.  On a platform without a build
    of kache the step fails at once, before anything else is done. *)
Theorem setup_run_fails_cleanly (r : runner) :
  (exists r', Setup.run r = (Returned tt, r')) /\
  (forall err r1,
     Setup.setup r = (Thrown err, r1) ->
     Setup.run r = (Returned tt, did r1 [SetFailed (message err)]) /\
     filter (of_ekinds [EFailed]) (skipn (List.length (effects r)) (effects r1)) = []) /\
  (forall r1,
     Setup.setup r = (Returned tt, r1) ->
     Setup.run r = (Returned tt, r1) /\
     filter (of_ekinds [EFailed]) (skipn (List.length (effects r)) (effects r1)) = []) /\
  (supported (os_platform (context (current r))) (os_arch (context (current r))) = false ->
   Setup.run r =
   (Returned tt,
    did r [SetFailed (Some ("Unsupported platform: "
                            ++ os_platform (context (current r)) ++ "-"
                            ++ os_arch (context (current r))))])).
Proof.
  assert (F : forall res r1,
             Setup.setup r = (res, r1) ->
             filter (of_ekinds [EFailed])
                    (skipn (List.length (effects r)) (effects r1)) = []).
  { intros res r1 E. pose proof (evolves_setup r) as X. rewrite E in X.
    destruct X as [_ [_ [_ [[d [Ed Fd]] _]]]]. cbn [snd] in Ed.
    rewrite Ed, skipn_app, skipn_all, Nat.sub_diag. cbn [skipn app].
    exact (filter_other_ekinds (effect_kinds setting_up) [EFailed] d eq_refl Fd). }
  split; [| split; [| split]].
  - destruct (Setup.setup r) as [[[] | err] r1] eqn:E.
    + exists r1. apply setup_run_returned. exact E.
    + eexists. apply setup_run_thrown. exact E.
  - intros err r1 E. split; [now apply setup_run_thrown | exact (F _ _ E)].
  - intros r1 E. split; [now apply setup_run_returned | exact (F _ _ E)].
  - intros Hs.
    apply (setup_run_thrown r r
             (Error ("Unsupported platform: " ++ os_platform (context (current r))
                     ++ "-" ++ os_arch (context (current r))))).
    unfold Setup.setup.
    rewrite job_bind_input. apply job_bind_thrown.
    unfold Job.in_world. rewrite (getTarget_unsupported _ Hs). now rewrite runner_eta.
Qed.

(** ** The setup step: no release, no binary *)

Lemma getLatestVersion_outcome (token : string) (r : runner) :
  getLatestVersion token r =
  match getOctokit_fault (context (current r)) token with
  | Some err => (Thrown err, r)
  | None =>
      (match getLatestRelease (tools r) "kunobi-ninja" "kache" with
       | Latest tag_name => Returned tag_name
       | Rejected (Some 404) _ => Returned None
       | Rejected _ err => Thrown err
       end,
       did r [LatestRelease "kunobi-ninja" "kache"])
  end.
Proof.
  unfold getLatestVersion. rewrite job_bind_asks.
  destruct (getOctokit_fault (context (current r)) token) as [err |]; [reflexivity |].
  cbn [Job.raise_if]. rewrite job_bind_ret.
  rewrite (job_bind_returned _ _ _ _ _ (perform_did _ _)), job_bind_tools.
  cbn [did tools].
  destruct (getLatestRelease (tools r) "kunobi-ninja" "kache") as [tag | status err];
    [reflexivity |].
  destruct status as [status |]; [| reflexivity].
  destruct status as [| p | p]; try reflexivity.
  destruct (Pos.eq_dec p 404) as [-> | Hne]; [reflexivity |].
  do 9 (destruct p as [p | p |]; try reflexivity); congruence.
Qed.

(** Without a version and without a release of kache, the setup step
    warns and stops: it is not a failure, and nothing is installed,
    exported or saved for the post step.  Any other refusal of the release
    API fails the step with its message. *)
Theorem setup_bootstraps (r : runner) :
  let c := context (current r) in
  supported (os_platform c) (os_arch c) = true ->
  getInput c "version" = "" ->
  getOctokit_fault c (getInput c "token") = None ->
  (no_release (getLatestRelease (tools r) "kunobi-ninja" "kache") = true ->
   Setup.run r =
   (Returned tt,
    did (noted r [Info "No version specified, fetching latest release...";
                  Warning ("No kache release found " ++ em_dash
                           ++ " skipping cache setup (bootstrapping mode)")])
        [LatestRelease "kunobi-ninja" "kache"])) /\
  (forall status err,
     getLatestRelease (tools r) "kunobi-ninja" "kache" = Rejected status err ->
     status <> Some 404 ->
     Setup.run r =
     (Returned tt,
      did (noted r [Info "No version specified, fetching latest release..."])
          [LatestRelease "kunobi-ninja" "kache"; SetFailed (message err)])).
Proof.
  cbv zeta. intros Hs Hv Ho.
  destruct (getTarget_returns _ Hs) as [target Ht].
  assert (Hstart :
    Setup.setup r =
    Job.bind (getLatestVersion (getInput (context (current r)) "token"))
      (fun version =>
         if negb (truthy version) then
           warning ("No kache release found " ++ em_dash
                    ++ " skipping cache setup (bootstrapping mode)")
         else
           Job.bind (info ("Using kache " ++ Setup.with_v (show version) ++ " for "
                           ++ target))
             (fun _ =>
                Job.bind (Setup.install (Setup.with_v (show version)) target
                            (Setup.semver_of (Setup.with_v (show version))))
                  (fun toolDir =>
                     match toolDir with
                     | Some toolDir => Setup.configure (Setup.with_v (show version)) toolDir
                     | None => Job.ret tt
                     end)))
      (noted r [Info "No version specified, fetching latest release..."])).
  { unfold Setup.setup. rewrite job_bind_input.
    rewrite (job_bind_returned _ _ _ _ _ (in_world_returned _ _ _ Ht)).
    unfold Job.bind at 1. unfold Setup.resolve_version.
    rewrite job_bind_input, Hv. cbn [truthy_string String.eqb negb].
    rewrite (job_bind_returned _ _ _ _ _ (info_noted _ r)).
    reflexivity. }
  split.
  - intros Hnone.
    apply setup_run_returned. rewrite Hstart.
    unfold Job.bind. rewrite getLatestVersion_outcome.
    cbn [noted current context logged tools]. rewrite Ho.
    destruct (getLatestRelease (tools r) "kunobi-ninja" "kache") as [tag | status err].
    + cbn [no_release] in Hnone. rewrite Hnone. rewrite warning_noted.
      f_equal. unfold did, noted, logged. cbn. rewrite <- ?app_assoc. reflexivity.
    + destruct status as [status |]; [| discriminate].
      destruct status as [| p | p]; try discriminate.
      destruct (Pos.eq_dec p 404) as [-> | Hne].
      { cbn [truthy negb]. rewrite warning_noted.
        f_equal. unfold did, noted, logged. cbn. rewrite <- ?app_assoc. reflexivity. }
      exfalso. revert Hnone. cbn [no_release].
      do 9 (destruct p as [p | p |]; try discriminate); congruence.
  - intros status err Hrel Hstatus.
    replace (did (noted r [Info "No version specified, fetching latest release..."])
                 [LatestRelease "kunobi-ninja" "kache"; SetFailed (message err)])
      with (did (did (noted r [Info "No version specified, fetching latest release..."])
                     [LatestRelease "kunobi-ninja" "kache"])
                [SetFailed (message err)])
      by (rewrite did_did; reflexivity).
    apply setup_run_thrown. rewrite Hstart.
    apply job_bind_thrown. rewrite getLatestVersion_outcome.
    cbn [noted current context logged tools]. rewrite Ho, Hrel.
    destruct status as [status |]; [| reflexivity].
    destruct status as [| p | p]; try reflexivity.
    destruct (Pos.eq_dec p 404) as [-> | Hne]; [congruence |].
    do 9 (destruct p as [p | p |]; try reflexivity); congruence.
Qed.

Lemma with_v_prefix (version : string) : prefix "v" (Setup.with_v version) = true.
Proof.
  unfold Setup.with_v. destruct (prefix "v" version) eqn:E; [exact E |].
  cbn. now destruct version.
Qed.

Lemma tc_lookup_run (tool version : string) (r : runner) :
  tc_lookup tool version r = (tc_find (tools r) tool version, r).
Proof.
  unfold tc_lookup. rewrite job_bind_tools.
  destruct (tc_find (tools r) tool version); reflexivity.
Qed.

(** A tool directory comes from the tool cache or from a verified
    download. *)
Lemma install_some (version target : string) (r r' : runner) (dir : string) :
  Setup.install version target (Setup.semver_of version) r = (Returned (Some dir), r') ->
  binary_at_hand r version target.
Proof.
  unfold Setup.install. cbv zeta. unfold Job.bind at 1. rewrite tc_lookup_run.
  destruct (tc_find (tools r) "kache" (Setup.semver_of version)) as [toolDir | err] eqn:F;
    [| discriminate].
  destruct (truthy_string toolDir) eqn:T; cbn [negb].
  - intros _. left. exists toolDir. split; [exact F |].
    intros ->. discriminate.
  - unfold Job.bind at 1. unfold Job.try_catch. unfold Job.bind at 1.
    destruct (downloadAndVerify version target r) as [[p | err] r2] eqn:D.
    + intros _. right.
      destruct (downloadAndVerify_returned version target r r2 p D)
        as [shaPath [text [archive [D1 [D2 [R1 [R2 [E _]]]]]]]].
      exists p, shaPath, text, archive. repeat split; try assumption. now symmetry.
    + rewrite (job_bind_returned _ _ _ _ _ (warning_noted _ _)). discriminate.
Qed.

Lemma binary_at_hand_same (r r' : runner) (version target : string) :
  tools r' = tools r ->
  fs_readFileSync (context (current r')) = fs_readFileSync (context (current r)) ->
  binary_at_hand r' version target -> binary_at_hand r version target.
Proof.
  intros T R. unfold binary_at_hand. rewrite T, R. tauto.
Qed.

(** The two ways through the body of the step: it stops before it
    configures the build, or it configures it with a binary at hand. *)
Lemma setup_cases (r r1 : runner) (res : outcome unit) :
  Setup.setup r = (res, r1) ->
  (exists version target toolDir rc,
     fst (getTarget (current r)) = Returned target /\
     prefix "v" version = true /\
     (getInput (context (current r)) "version" <> "" ->
      version = Setup.with_v (getInput (context (current r)) "version")) /\
     binary_at_hand r version target /\
     evolves fetching r rc /\
     Setup.configure version toolDir rc = (res, r1)) \/
  (exists d, effects r1 = (effects r ++ d)%list /\
             forallb (of_ekinds [ERelease; EDownload; EExtract; ECacheDir]) d = true).
Proof.
  unfold Setup.setup. rewrite job_bind_input.
  unfold Job.bind at 1. rewrite (in_world_reads _ r reads_getTarget).
  destruct (fst (getTarget (current r))) as [target | err] eqn:Ht.
  2:{ intros [= <- <-]. right. exists []. now rewrite app_nil_r. }
  unfold Job.bind at 1.
  pose proof (evolves_resolve_version (getInput (context (current r)) "token") r) as Xa.
  destruct (Setup.resolve_version (getInput (context (current r)) "token") r)
    as [[version | err] ra] eqn:RV; cbn [snd] in Xa;
    pose proof Xa as [Ta [_ [_ [[da [Ea Fa]] [_ [_ Wa]]]]]];
    destruct (Wa eq_refl) as [_ Ra].
  2:{ intros [= <- <-]. right. exists da. split; [exact Ea |].
      rewrite forallb_forall in *. intros e He.
      apply (of_ekinds_incl [ERelease]); [| apply Fa, He].
      intros k [<- | []]; cbn; tauto. }
  assert (Fa' : forallb (of_ekinds [ERelease; EDownload; EExtract; ECacheDir]) da = true).
  { rewrite forallb_forall in *. intros e He.
    apply (of_ekinds_incl [ERelease]); [| apply Fa, He].
    intros k [<- | []]; cbn; tauto. }
  destruct (negb (truthy version)).
  { rewrite warning_noted. intros [= <- <-]. right. exists da. now split. }
  cbv zeta. rewrite (job_bind_returned _ _ _ _ _ (info_noted _ _)).
  pose proof (evolves_info ("Using kache " ++ Setup.with_v (show version) ++ " for "
                            ++ target) ra) as Xb.
  rewrite info_noted in Xb. cbn [snd] in Xb.
  set (rb := noted ra _) in *.
  unfold Job.bind at 1.
  pose proof (evolves_install (Setup.with_v (show version)) target
                (Setup.semver_of (Setup.with_v (show version))) rb) as Xc.
  destruct (Setup.install (Setup.with_v (show version)) target
              (Setup.semver_of (Setup.with_v (show version))) rb)
    as [[[dir |] | err] rc] eqn:I; cbn [snd] in Xc;
    pose proof Xc as [_ [_ [_ [[dc [Ec Fc]] _]]]].
  - intros H. left. exists (Setup.with_v (show version)), target, dir, rc.
    split; [reflexivity |]. split; [apply with_v_prefix |]. split; [| split; [| split]].
    + intros Hv. revert RV. unfold Setup.resolve_version.
      rewrite job_bind_input. unfold truthy_string.
      apply String.eqb_neq in Hv. rewrite Hv. cbn [negb].
      now intros [= <- _].
    + apply (binary_at_hand_same r rb); [exact Ta | exact Ra |].
      exact (install_some _ _ _ _ _ I).
    + apply (evolves_trans _ _ ra).
      { apply (evolves_within resolving); [solve_within | exact Xa]. }
      apply (evolves_trans _ _ rb).
      { apply (evolves_within (only_logs [KInfo])); [solve_within | exact Xb]. }
      apply (evolves_within installing); [solve_within | exact Xc].
    + exact H.
  - intros [= <- <-]. right. exists (da ++ dc)%list. split.
    + rewrite Ec. cbn [rb noted effects]. rewrite Ea, app_assoc. reflexivity.
    + rewrite forallb_app, Fa'. cbn [andb].
      rewrite forallb_forall in *. intros e He.
      apply (of_ekinds_incl (effect_kinds installing)); [| apply Fc, He].
      intros k [<- | [<- | [<- | []]]]; cbn; tauto.
  - intros [= <- <-]. right. exists (da ++ dc)%list. split.
    + rewrite Ec. cbn [rb noted effects]. rewrite Ea, app_assoc. reflexivity.
    + rewrite forallb_app, Fa'. cbn [andb].
      rewrite forallb_forall in *. intros e He.
      apply (of_ekinds_incl (effect_kinds installing)); [| apply Fc, He].
      intros k [<- | [<- | [<- | []]]]; cbn; tauto.
Qed.

(** The step passes nothing on without a binary.  When a run of the setup
    step adds a directory to the path, exports a variable (the wrapper of
    the compiler among them), masks a secret, restores a cache or saves
    state for the post step, then the binary of kache was in the tool
    cache, or it was downloaded together with a checksum file whose first
    piece is the SHA-256 digest of the archive. *)
Theorem setup_needs_verified_binary (r : runner) (d : list effect) :
  effects (snd (Setup.run r)) = (effects r ++ d)%list ->
  existsb (of_ekinds [EPath; EExport; ESecret; ERestore; EWrite; EState]) d = true ->
  exists version target,
    fst (getTarget (current r)) = Returned target /\
    prefix "v" version = true /\
    (getInput (context (current r)) "version" <> "" ->
     version = Setup.with_v (getInput (context (current r)) "version")) /\
    binary_at_hand r version target.
Proof.
  intros Hd Hex.
  destruct (Setup.setup r) as [res r1] eqn:E.
  destruct (setup_cases r r1 res E)
    as [[version [target [_ [_ [Ht [Hp [Hv [Hb _]]]]]]]] | [d0 [E0 F0]]].
  { now exists version, target. }
  exfalso.
  assert (Hd' : exists tail, d = (d0 ++ tail)%list /\
                             forallb (of_ekinds [EFailed]) tail = true).
  { destruct res as [[] | err].
    - rewrite (setup_run_returned r r1 E) in Hd. cbn [snd] in Hd.
      rewrite E0 in Hd. apply app_inv_head in Hd. subst d.
      exists []. now rewrite app_nil_r.
    - rewrite (setup_run_thrown r r1 err E) in Hd. cbn [snd did effects] in Hd.
      rewrite E0, <- app_assoc in Hd. apply app_inv_head in Hd. subst d.
      now exists [SetFailed (message err)]. }
  destruct Hd' as [tail [-> Ft]].
  rewrite existsb_app in Hex. apply orb_true_iff in Hex.
  assert (N : forall (ks : list ekind) (l : list effect),
             forallb (fun k => negb (existsb (ekind_eqb k)
                                       [EPath; EExport; ESecret; ERestore; EWrite; EState]))
                     ks = true ->
             forallb (of_ekinds ks) l = true ->
             existsb (of_ekinds [EPath; EExport; ESecret; ERestore; EWrite; EState]) l
             = false).
  { intros ks l Hks Hl. apply not_true_is_false. intros Hx.
    apply existsb_exists in Hx. destruct Hx as [e [Hin He]].
    pose proof (filter_other_ekinds ks _ l Hks Hl) as Hnil.
    assert (In e (filter (of_ekinds [EPath; EExport; ESecret; ERestore; EWrite; EState]) l))
      by (apply filter_In; now split).
    rewrite Hnil in H. destruct H. }
  destruct Hex as [Hex | Hex].
  - rewrite (N [ERelease; EDownload; EExtract; ECacheDir] d0 eq_refl F0) in Hex.
    discriminate.
  - rewrite (N [EFailed] tail eq_refl Ft) in Hex. discriminate.
Qed.

(** ** The setup step: what is passed on *)

Lemma returns_job_ret {A : Type} (a : A) : returns (Job.ret a).
Proof. intros r. now exists a. Qed.

Lemma returns_job_bind {A B : Type} (m : Job A) (k : A -> Job B) :
  returns m -> (forall a, returns (k a)) -> returns (Job.bind m k).
Proof.
  intros Hm Hk r. unfold Job.bind. destruct (Hm r) as [a Ha].
  destruct (m r) as [res r1]. cbn [fst] in Ha. subst res. apply Hk.
Qed.

Lemma returns_perform (e : effect) : returns (Job.perform e).
Proof. intros r. now exists tt. Qed.

Lemma returns_job_asks {A : Type} (f : env -> A) : returns (Job.in_world (asks f)).
Proof. intros r. now exists (f (context (current r))). Qed.

Lemma returns_set_context (f : env -> env) : returns (Job.in_world (set_context f)).
Proof. intros r. now exists tt. Qed.

Lemma returns_info (msg : string) : returns (info msg).
Proof. intros r. now exists tt. Qed.

Lemma returns_exportVariable (name val : string) : returns (core_exportVariable name val).
Proof.
  unfold core_exportVariable.
  apply returns_job_bind; [apply returns_set_context | intros _; apply returns_perform].
Qed.

Ltac returns_step :=
  first
    [ apply returns_job_ret | apply returns_perform | apply returns_job_asks
    | apply returns_set_context | apply returns_info | apply returns_exportVariable
    | apply returns_job_bind; [| intros ?]
    | match goal with
      | |- returns (if ?b then _ else _) => destruct b
      | |- returns (let _ := _ in _) => cbv zeta
      end ].

Lemma returns_export_s3_vars : returns Setup.export_s3_vars.
Proof.
  unfold Setup.export_s3_vars, Setup.s3Vars. cbn [Job.for_of].
  unfold Setup.export_s3_var, core_setSecret, input.
  repeat returns_step.
Qed.

Lemma returns_export_settings (version toolDir : string) :
  returns (Setup.export_settings version toolDir).
Proof.
  unfold Setup.export_settings, core_addPath, input. cbv zeta.
  repeat (apply returns_export_s3_vars || returns_step).
Qed.

Lemma export_s3_var_run (entry : string * string) (r : runner) :
  exists r',
    Setup.export_s3_var entry r = (Returned tt, r') /\
    effects r' = (effects r ++ exported_by (context (current r)) entry)%list /\
    getInput (context (current r')) = getInput (context (current r)) /\
    trace (current r') = trace (current r).
Proof.
  destruct entry as [name var]. unfold Setup.export_s3_var, exported_by.
  rewrite job_bind_input. cbn [fst snd].
  destruct (truthy_string (getInput (context (current r)) name)).
  - unfold Job.bind, core_exportVariable, Job.bind, Job.in_world, set_context,
      Job.perform, core_setSecret, Job.perform. cbn [current tools effects].
    destruct (includes "secret" name || includes "access-key" name);
      eexists; (split; [reflexivity |]); cbn; rewrite <- ?app_assoc; auto.
  - exists r. rewrite app_nil_r. auto.
Qed.

Lemma export_loop (l : list (string * string)) :
  forall r, exists r',
    Job.for_of Setup.export_s3_var l r = (Returned tt, r') /\
    effects r' = (effects r ++ flat_map (exported_by (context (current r))) l)%list /\
    getInput (context (current r')) = getInput (context (current r)) /\
    trace (current r') = trace (current r).
Proof.
  induction l as [| entry l IH]; intros r; cbn [Job.for_of flat_map].
  - exists r. rewrite app_nil_r. auto.
  - destruct (export_s3_var_run entry r) as [r1 [E1 [F1 [G1 T1]]]].
    destruct (IH r1) as [r' [E [F [G T]]]].
    exists r'. split; [now rewrite (job_bind_returned _ _ _ _ _ E1) |].
    split; [| split; congruence].
    rewrite F, F1, <- app_assoc. do 2 f_equal.
    unfold exported_by. now rewrite G1.
Qed.

(** Every S3 input that is not empty is exported under its variable, in
    the order of the table, and an empty input exports nothing.  The
    access key id and the secret access key are masked as secrets, right
    after their export, and they are the only values that are; the bucket,
    the region, the prefix and the endpoint are not.  Nothing is logged. *)
Theorem export_s3_vars_masks (r : runner) :
  let c := context (current r) in
  let plain (var value : string) :=
    if (value =? "")%string then [] else [ExportVariable var value] in
  let masked (var value : string) :=
    if (value =? "")%string then [] else [ExportVariable var value; SetSecret value] in
  exists r',
    Setup.export_s3_vars r = (Returned tt, r') /\
    effects r' =
    (effects r
     ++ plain "KACHE_S3_BUCKET" (getInput c "s3-bucket")
     ++ plain "KACHE_S3_REGION" (getInput c "s3-region")
     ++ plain "KACHE_S3_PREFIX" (getInput c "s3-prefix")
     ++ plain "KACHE_S3_ENDPOINT" (getInput c "s3-endpoint")
     ++ masked "KACHE_S3_ACCESS_KEY" (getInput c "s3-access-key-id")
     ++ masked "KACHE_S3_SECRET_KEY" (getInput c "s3-secret-access-key"))%list /\
    trace (current r') = trace (current r).
Proof.
  cbv zeta. destruct (export_loop Setup.s3Vars r) as [r' [E [F [_ T]]]].
  exists r'. split; [exact E |]. split; [| exact T].
  rewrite F. f_equal. unfold Setup.s3Vars, exported_by, truthy_string.
  cbn [flat_map fst snd].
  repeat match goal with
         | |- context [includes ?a ?b] =>
             let v := eval vm_compute in (includes a b) in
             change (includes a b) with v
         end.
  cbn [orb].
  destruct (getInput (context (current r)) "s3-bucket" =? "")%string;
    destruct (getInput (context (current r)) "s3-region" =? "")%string;
    destruct (getInput (context (current r)) "s3-prefix" =? "")%string;
    destruct (getInput (context (current r)) "s3-endpoint" =? "")%string;
    destruct (getInput (context (current r)) "s3-access-key-id" =? "")%string;
    destruct (getInput (context (current r)) "s3-secret-access-key" =? "")%string;
    reflexivity.
Qed.

(** ** The setup step: the restore and the state for the post step *)

Lemma save_state_run (s3 gh : bool) (version : string) (r : runner) :
  Setup.save_state s3 gh version r =
  (Returned tt, did r (saved_state (context (current r)) s3 gh version)).
Proof.
  unfold Setup.save_state, core_saveState. rewrite job_bind_asks.
  rewrite !(job_bind_returned _ _ _ _ _ (perform_did _ _)).
  rewrite perform_did, !did_did. reflexivity.
Qed.

Lemma clearEventLog_returns (r : runner) :
  exists r', clearEventLog r = (Returned tt, r').
Proof.
  destruct (fs_writeFileSync_fault (tools r) (logPath_of (context (current r))))
    as [err |] eqn:F.
  - exists r. exact (clearEventLog_failed r err F).
  - eexists. exact (clearEventLog_cleared r F).
Qed.

Lemma isS3Configured_is (w : world) :
  isS3Configured w = (Returned (s3_of (context w)), w).
Proof. reflexivity. Qed.

Lemma useGitHubCache_is (w : world) :
  useGitHubCache w = (Returned (ghCache_of (context w)), w).
Proof.
  unfold useGitHubCache, ghCache_of.
  rewrite (bind_returned _ _ _ _ _ (isS3Configured_is w)).
  destruct (s3_of (context w)); reflexivity.
Qed.

(** The steps of [configure]: the exports return; then the restore, whose
    error escapes; then the log is cleared and the state saved. *)
Lemma configure_steps (version toolDir : string) (r : runner) :
  exists r1,
    Setup.export_settings version toolDir r = (Returned tt, r1) /\
    evolves exporting r r1 /\
    Setup.configure version toolDir r =
    match Setup.restore (s3_of (context (current r))) (ghCache_of (context (current r)))
                        r1 with
    | (Thrown err, r2) => (Thrown err, r2)
    | (Returned _, r2) =>
        (Returned tt,
         did (snd (clearEventLog r2))
             (saved_state (context (current (snd (clearEventLog r2))))
                          (s3_of (context (current r)))
                          (ghCache_of (context (current r))) version))
    end.
Proof.
  pose proof (evolves_export_settings version toolDir r) as X.
  destruct (returns_export_settings version toolDir r) as [[] E].
  destruct (Setup.export_settings version toolDir r) as [res r1] eqn:Ex.
  cbn [fst snd] in *. subst res.
  exists r1. split; [reflexivity |]. split; [exact X |].
  unfold Setup.configure.
  rewrite (job_bind_returned _ _ _ _ _ Ex).
  rewrite (job_bind_returned _ _ _ _ _
             (in_world_returned _ _ _ (isS3Configured_is (current r1)))).
  rewrite (job_bind_returned _ _ _ _ _
             (in_world_returned _ _ _ (useGitHubCache_is (current r1)))).
  assert (Hin : getInput (context (current r1)) = getInput (context (current r)))
    by apply X.
  unfold s3_of, ghCache_of, s3_of. rewrite Hin.
  unfold Job.bind at 1.
  destruct (Setup.restore _ _ r1) as [[[] | err] r2]; [| reflexivity].
  destruct (clearEventLog_returns r2) as [r3 E3].
  rewrite (job_bind_returned _ _ _ _ _ E3), E3. cbn [snd].
  apply save_state_run.
Qed.

Lemma saved_state_same (c c' : env) (s3 gh : bool) (version : string) :
  Date_now c' = Date_now c -> saved_state c' s3 gh version = saved_state c s3 gh version.
Proof. intros E. unfold saved_state. now rewrite E. Qed.

Lemma evolves_effects (ch : change) (r r' : runner) :
  evolves ch r r' ->
  exists d, effects r' = (effects r ++ d)%list /\
            forallb (of_ekinds (effect_kinds ch)) d = true.
Proof. intros X. apply X. Qed.

Lemma evolves_Date_now (ch : change) (r r' : runner) :
  evolves ch r r' ->
  Date_now (context (current r')) = Date_now (context (current r)).
Proof. intros X. apply X. Qed.

(** The state that [configure] saves: all of it when it returns, none of
    it when it throws. *)
Lemma configure_state (version toolDir : string) (r r' : runner)
      (res : outcome unit) :
  Setup.configure version toolDir r = (res, r') ->
  let c := context (current r) in
  exists d,
    effects r' = (effects r ++ d)%list /\
    filter (of_ekinds [EState]) d =
    match res with
    | Returned _ => [SaveState "start-time" (toString (Date_now c));
                     SaveState "s3-configured" (if s3_of c then "true" else "false");
                     SaveState "gh-cache" (if ghCache_of c then "true" else "false");
                     SaveState "kache-version" version]
    | Thrown _ => []
    end /\
    (s3_of c && ghCache_of c = false) /\
    (ghCache_of c = true <->
     getInput c "s3-bucket" = "" /\ getInput c "github-cache" = "true").
Proof.
  intros H. cbv zeta.
  destruct (configure_steps version toolDir r) as [r1 [_ [X1 E]]].
  rewrite E in H. clear E.
  pose proof (evolves_restore (s3_of (context (current r)))
                (ghCache_of (context (current r))) r1) as X2.
  destruct (Setup.restore _ _ r1) as [[[] | err] r2]; cbn [snd] in X2.
  - pose proof (evolves_clearEventLog r2) as X3.
    set (r3 := snd (clearEventLog r2)) in *.
    injection H as <- <-.
    destruct (evolves_effects _ _ _ X1) as [d1 [E1 F1]].
    destruct (evolves_effects _ _ _ X2) as [d2 [E2 F2]].
    destruct (evolves_effects _ _ _ X3) as [d3 [E3 F3]].
    assert (D : Date_now (context (current r3)) = Date_now (context (current r))).
    { rewrite (evolves_Date_now _ _ _ X3), (evolves_Date_now _ _ _ X2).
      apply (evolves_Date_now _ _ _ X1). }
    rewrite (saved_state_same _ _ _ _ _ D).
    eexists. split; [| split; [| split]].
    + cbn [did effects]. rewrite E3, E2, E1, <- !app_assoc. reflexivity.
    + rewrite !filter_app.
      rewrite (filter_other_ekinds (effect_kinds exporting) [EState] d1 eq_refl F1).
      rewrite (filter_other_ekinds (effect_kinds restoring) [EState] d2 eq_refl F2).
      rewrite (filter_other_ekinds (effect_kinds clearing) [EState] d3 eq_refl F3).
      reflexivity.
    + unfold ghCache_of. destruct (s3_of (context (current r))); reflexivity.
    + unfold ghCache_of, s3_of, truthy_string.
      rewrite andb_true_iff, negb_true_iff, negb_false_iff, !String.eqb_eq. tauto.
  - injection H as <- <-.
    destruct (evolves_effects _ _ _ X1) as [d1 [E1 F1]].
    destruct (evolves_effects _ _ _ X2) as [d2 [E2 F2]].
    eexists. split; [| split; [| split]].
    + rewrite E2, E1, <- !app_assoc. reflexivity.
    + rewrite !filter_app.
      rewrite (filter_other_ekinds (effect_kinds exporting) [EState] d1 eq_refl F1).
      rewrite (filter_other_ekinds (effect_kinds restoring) [EState] d2 eq_refl F2).
      reflexivity.
    + unfold ghCache_of. destruct (s3_of (context (current r))); reflexivity.
    + unfold ghCache_of, s3_of, truthy_string.
      rewrite andb_true_iff, negb_true_iff, negb_false_iff, !String.eqb_eq. tauto.
Qed.

Lemma job_bind_returned_inv {A B : Type} (m : Job A) (k : A -> Job B) (r r' : runner)
      (b : B) :
  Job.bind m k r = (Returned b, r') ->
  exists a r1, m r = (Returned a, r1) /\ k a r1 = (Returned b, r').
Proof.
  intros H. destruct (job_bind_inv m k r r' _ H) as [X | [err [_ X]]];
    [exact X | discriminate].
Qed.

Lemma evolves_s3_exports :
  guarantees (evolves exporting_s3)
    (Job.bind Setup.export_s3_vars
       (fun _ =>
          Job.bind (input "cache-executables")
            (fun executables =>
               if (executables =? "true")%string
               then core_exportVariable "KACHE_CACHE_EXECUTABLES" "1"
               else Job.ret tt))).
Proof.
  unfold Setup.export_s3_vars, Setup.s3Vars. cbn [Job.for_of].
  unfold Setup.export_s3_var, core_setSecret.
  repeat ((apply evolves_exportVariable; reflexivity) || evolves_step).
Qed.

(** After the exports, the version is in the variables of the process,
    where [buildCacheKey] reads it. *)
Lemma export_settings_version (version toolDir : string) (r r1 : runner) :
  Setup.export_settings version toolDir r = (Returned tt, r1) ->
  process_env (context (current r1)) "KACHE_VERSION" = Some version.
Proof.
  unfold Setup.export_settings. cbv zeta. intros H.
  apply job_bind_returned_inv in H. destruct H as [[] [r_1 [_ H]]].
  apply job_bind_returned_inv in H. destruct H as [[] [r_2 [_ H]]].
  apply job_bind_returned_inv in H. destruct H as [[] [r_3 [_ H]]].
  apply job_bind_returned_inv in H. destruct H as [log [r_4 [_ H]]].
  apply job_bind_returned_inv in H. destruct H as [[] [r_5 [_ H]]].
  apply job_bind_returned_inv in H. destruct H as [[] [r_6 [E6 H]]].
  pose proof (evolves_s3_exports r_6) as X. rewrite H in X. cbn [snd] in X.
  destruct X as [_ [_ [_ [_ [_ [V _]]]]]].
  rewrite V.
  - unfold core_exportVariable, Job.bind, Job.in_world, set_context, Job.perform in E6.
    cbn in E6. injection E6 as <-. cbn. reflexivity.
  - cbn. intuition discriminate.
Qed.

Lemma evolves_cacheDir (ch : change) (r r' : runner) :
  evolves ch r r' ->
  ~ In "KACHE_CACHE_DIR" (variables ch) ->
  cacheDir_of (context (current r')) = cacheDir_of (context (current r)).
Proof.
  intros X Hn. destruct X as [_ [_ [_ [_ [I [V _]]]]]].
  destruct I as [_ [_ [Ip [_ [Ih _]]]]].
  unfold cacheDir_of. now rewrite (V _ Hn), Ip, Ih.
Qed.

(** The key of the restore carries the version that the step has just
    exported.  With the GitHub Actions cache as the backend and lockfiles
    that can be read, the setup step asks the cache service once, for the
    cache directory under [prefix-version-platform-lockHash] with the
    restore key [prefix-version-platform-], where the version is the one
    the step installs, whatever [KACHE_VERSION] was before. *)
Theorem restore_key_has_version (version toolDir : string) (r : runner)
        (content : string -> string) :
  let c := context (current r) in
  s3_of c = false ->
  getInput c "github-cache" = "true" ->
  version <> "" ->
  (forall f, In f (glob_lockfiles c) -> fs_readFileSync c f = Returned (content f)) ->
  let prefix := or_string (Some (getInput c "cache-key-prefix")) "kache" in
  let platform := os_platform c ++ "-" ++ os_arch c in
  let lockHash := lockHash_of (glob_lockfiles c) content in
  exists r' d,
    Setup.configure version toolDir r = (Returned tt, r') /\
    effects r' = (effects r ++ d)%list /\
    filter (of_ekinds [ERestore]) d =
    [CacheRestore [cacheDir_of c]
       (prefix ++ "-" ++ version ++ "-" ++ platform ++ "-" ++ lockHash)
       [prefix ++ "-" ++ version ++ "-" ++ platform ++ "-"]].
Proof.
  cbv zeta. intros Hs3 Hgh Hv Hread.
  destruct (configure_steps version toolDir r) as [r1 [E1 [X1 E]]].
  rewrite E. clear E.
  assert (Hgh' : ghCache_of (context (current r)) = true).
  { unfold ghCache_of. rewrite Hs3, Hgh. reflexivity. }
  rewrite Hs3, Hgh'.
  pose proof X1 as [_ [_ [_ [[d1 [Ed1 F1]] [I1 [V1 W1]]]]]].
  destruct (W1 eq_refl) as [_ R1].
  destruct I1 as [Gi [_ [Ip [Ia [Ih [Ig _]]]]]].
  assert (Hread1 : forall f, In f (glob_lockfiles (context (current r1))) ->
                             fs_readFileSync (context (current r1)) f
                             = Returned (content f)).
  { intros f Hf. rewrite R1. apply Hread. now rewrite <- Ig. }
  pose proof (buildCacheKey_returns
                (current (noted r1 [Info "Restoring cache from GitHub Actions cache..."]))
                content Hread1) as Hkey.
  cbv zeta in Hkey. cbn [noted current context logged] in Hkey.
  rewrite (export_settings_version _ _ _ _ E1), Gi, Ip, Ia, Ig in Hkey.
  rewrite (or_string_given version "unknown" Hv) in Hkey.
  pose proof (restoreCache_outcome (noted r1 [Info "Restoring cache from GitHub Actions cache..."])
                _ _ _ (getCacheDir_is _) Hkey) as Hrestore.
  cbn [noted current context logged] in Hrestore.
  rewrite (evolves_cacheDir _ _ _ X1) in Hrestore by (cbn; intuition discriminate).
  match type of Hrestore with
  | context [CacheRestore ?a ?b ?c] => set (asked := CacheRestore a b c) in *
  end.
  assert (Er : exists r2,
             Setup.restore false true r1 = (Returned tt, r2) /\
             effects r2 = (effects r1 ++ [asked])%list).
  { unfold Setup.restore. rewrite job_bind_input. cbn [andb].
    rewrite (job_bind_returned _ _ _ _ _ (info_noted _ _)).
    rewrite (job_bind_returned _ _ _ _ _ Hrestore).
    eexists. split; [reflexivity |]. reflexivity. }
  destruct Er as [r2 [Er E2]]. rewrite Er.
  pose proof (evolves_clearEventLog r2) as X3.
  destruct (evolves_effects _ _ _ X3) as [d3 [E3 F3]].
  eexists. eexists. split; [reflexivity |]. split.
  - cbn [did effects]. rewrite E3, E2, Ed1, <- !app_assoc. reflexivity.
  - rewrite !filter_app.
    rewrite (filter_other_ekinds (effect_kinds exporting) [ERestore] d1 eq_refl F1).
    rewrite (filter_other_ekinds (effect_kinds clearing) [ERestore] d3 eq_refl F3).
    reflexivity.
Qed.

Lemma evolves_asking_cache : guarantees (evolves asking_cache) restoreCache.
Proof. unfold restoreCache. cbv zeta. repeat evolves_step. Qed.

Lemma runKache_trace (args : list string) (w : world) :
  exists warnings,
    trace (snd (runKache args w)) = (trace w ++ Exec args :: warnings)%list /\
    forallb (of_kinds [KWarning]) warnings = true.
Proof.
  destruct (exec_kache (context w) args) as [[[exitCode stdout] stderr] | err] eqn:E.
  - rewrite (runKache_returned args w _ _ _ E). cbn [snd logged trace].
    eexists. split; [reflexivity |].
    destruct (exitCode =? 0); [reflexivity |].
    destruct (stderr =? "")%string; reflexivity.
  - rewrite (runKache_thrown args w err E). now exists [].
Qed.

Lemma evolves_trace (ch : change) (r r' : runner) :
  evolves ch r r' ->
  exists d, trace (current r') = (trace (current r) ++ d)%list /\
            forallb (of_kinds (obs_kinds ch)) d = true.
Proof. intros X. apply X. Qed.

(** What the restore of the setup step adds to the log and to the
    effects. *)
Lemma restore_adds (r r1 : runner) :
  getInput (context (current r1)) = getInput (context (current r)) ->
  let c := context (current r) in
  let pull := s3_of c && (getInput c "sync" =? "true")%string in
  let r2 := snd (Setup.restore (s3_of c) (ghCache_of c) r1) in
  exists dt de,
    trace (current r2) = (trace (current r1) ++ dt)%list /\
    effects r2 = (effects r1 ++ de)%list /\
    filter (of_kinds [KExec]) dt = (if pull then [Exec ["sync"; "--pull"]] else []) /\
    (s3_of c = true -> de = []) /\
    (getInput c "github-cache" <> "true" -> de = []) /\
    forallb (of_ekinds [ERestore]) de = true.
Proof.
  intros Hin. cbv zeta. unfold Setup.restore. rewrite job_bind_input, Hin.
  destruct (s3_of (context (current r))
            && (getInput (context (current r)) "sync" =? "true")%string) eqn:P.
  - rewrite (job_bind_returned _ _ _ _ _ (info_noted _ _)).
    unfold Job.bind, Job.in_world.
    destruct (runKache_trace ["sync"; "--pull"]
                (current (noted r1 [Info "Pulling remote cache from S3..."])))
      as [ws [T F]].
    destruct (runKache ["sync"; "--pull"]
                (current (noted r1 [Info "Pulling remote cache from S3..."])))
      as [[out | err] w2]; cbn [snd] in T |- *;
      (exists (Info "Pulling remote cache from S3..." :: Exec ["sync"; "--pull"] :: ws), [];
       cbn [snd Job.ret current effects noted logged trace] in *;
       split; [rewrite T, <- app_assoc; reflexivity |];
       split; [now rewrite app_nil_r |];
       split; [cbn [filter of_kinds kind_of existsb kind_eqb orb];
               now rewrite (filter_other_kinds [KWarning] [KExec] ws eq_refl F) |];
       repeat split; reflexivity).
  - destruct (ghCache_of (context (current r))) eqn:G.
    + rewrite (job_bind_returned _ _ _ _ _ (info_noted _ _)).
      pose proof (evolves_asking_cache
                    (noted r1 [Info "Restoring cache from GitHub Actions cache..."]))
        as X.
      unfold Job.bind.
      destruct (restoreCache
                  (noted r1 [Info "Restoring cache from GitHub Actions cache..."]))
        as [[hit | err] r2]; cbn [snd] in X |- *;
        destruct (evolves_trace _ _ _ X) as [dt [T F]];
        destruct (evolves_effects _ _ _ X) as [de [E Fe]];
        (exists (Info "Restoring cache from GitHub Actions cache..." :: dt), de;
         cbn [snd Job.ret current effects noted logged trace] in *;
         split; [rewrite T, <- app_assoc; reflexivity |];
         split; [exact E |];
         split; [cbn [filter of_kinds kind_of existsb kind_eqb orb];
                 exact (filter_other_kinds [KInfo; KWarning] [KExec] dt eq_refl F) |];
         unfold ghCache_of in G; apply andb_true_iff in G; destruct G as [G1 G2];
         apply negb_true_iff in G1; apply String.eqb_eq in G2;
         split; [congruence |]; split; [congruence | exact Fe]).
    + exists [], []. cbn [snd]. rewrite !app_nil_r. repeat split; reflexivity.
Qed.

(** The setup step restores from one backend at most.  With S3 and the
    input [sync] set to [true] it runs [kache sync --pull], and it runs
    kache in no other case.  It asks the GitHub Actions cache only without
    S3 and with the input [github-cache] set to [true], and then once at
    most.  With S3 and without [sync] there is no restore at all. *)
Theorem configure_restores (version toolDir : string) (r r' : runner)
        (res : outcome unit) :
  Setup.configure version toolDir r = (res, r') ->
  let c := context (current r) in
  let pull := s3_of c && (getInput c "sync" =? "true")%string in
  exists dt de,
    trace (current r') = (trace (current r) ++ dt)%list /\
    effects r' = (effects r ++ de)%list /\
    filter (of_kinds [KExec]) dt = (if pull then [Exec ["sync"; "--pull"]] else []) /\
    (s3_of c = true -> filter (of_ekinds [ERestore]) de = []) /\
    (getInput c "github-cache" <> "true" -> filter (of_ekinds [ERestore]) de = []) /\
    (pull = true -> filter (of_ekinds [ERestore]) de = []).
Proof.
  intros H. cbv zeta.
  destruct (configure_steps version toolDir r) as [r1 [_ [X1 E]]].
  rewrite E in H. clear E.
  assert (Hin : getInput (context (current r1)) = getInput (context (current r)))
    by apply X1.
  destruct (restore_adds r r1 Hin) as [dt2 [de2 [T2 [E2 [Fx [Hs3 [Hgh Fr]]]]]]].
  cbv zeta in T2, E2, Fx, Hs3, Hgh.
  destruct (evolves_trace _ _ _ X1) as [dt1 [T1 Ft1]].
  destruct (evolves_effects _ _ _ X1) as [de1 [E1 Fe1]].
  assert (Tail : forall r2 (d3 : list effect),
             trace (current r2)
             = (trace (current r1) ++ dt2)%list ->
             effects r2 = (effects r1 ++ de2)%list ->
             forall rt dt3 de3,
               trace (current rt) = (trace (current r2) ++ dt3)%list ->
               effects rt = (effects r2 ++ de3)%list ->
               forallb (of_kinds [KInfo]) dt3 = true ->
               forallb (of_ekinds [EWrite; EState]) de3 = true ->
               exists dt de,
                 trace (current rt) = (trace (current r) ++ dt)%list /\
                 effects rt = (effects r ++ de)%list /\
                 filter (of_kinds [KExec]) dt
                 = (if s3_of (context (current r))
                       && (getInput (context (current r)) "sync" =? "true")%string
                    then [Exec ["sync"; "--pull"]] else []) /\
                 (s3_of (context (current r)) = true ->
                  filter (of_ekinds [ERestore]) de = []) /\
                 (getInput (context (current r)) "github-cache" <> "true" ->
                  filter (of_ekinds [ERestore]) de = []) /\
                 (s3_of (context (current r))
                  && (getInput (context (current r)) "sync" =? "true")%string = true ->
                  filter (of_ekinds [ERestore]) de = [])).
  { intros r2 _ T2' E2' rt dt3 de3 T3 E3 Ft3 Fe3.
    exists (dt1 ++ dt2 ++ dt3)%list, (de1 ++ de2 ++ de3)%list.
    split; [rewrite T3, T2', T1, <- !app_assoc; reflexivity |].
    split; [rewrite E3, E2', E1, <- !app_assoc; reflexivity |].
    assert (R1 : filter (of_ekinds [ERestore]) de1 = [])
      by exact (filter_other_ekinds (effect_kinds exporting) [ERestore] de1 eq_refl Fe1).
    assert (R3 : filter (of_ekinds [ERestore]) de3 = [])
      by exact (filter_other_ekinds [EWrite; EState] [ERestore] de3 eq_refl Fe3).
    split.
    { rewrite !filter_app, Fx.
      rewrite (filter_other_kinds (obs_kinds exporting) [KExec] dt1 eq_refl Ft1).
      rewrite (filter_other_kinds [KInfo] [KExec] dt3 eq_refl Ft3).
      now rewrite app_nil_r. }
    split; [| split].
    - intros Hs. rewrite !filter_app, R1, R3, (Hs3 Hs). reflexivity.
    - intros Hg. rewrite !filter_app, R1, R3, (Hgh Hg). reflexivity.
    - intros Hp. apply andb_true_iff in Hp. destruct Hp as [Hs _].
      rewrite !filter_app, R1, R3, (Hs3 Hs). reflexivity. }
  destruct (Setup.restore _ _ r1) as [[[] | err] r2]; cbn [snd] in T2, E2.
  - injection H as <- <-.
    pose proof (evolves_clearEventLog r2) as X3.
    destruct (evolves_trace _ _ _ X3) as [dt3 [T3 Ft3]].
    destruct (evolves_effects _ _ _ X3) as [de3 [E3 Fe3]].
    refine (Tail r2 [] T2 E2 _ dt3 (de3 ++ saved_state _ _ _ version)%list _ _ Ft3 _).
    + exact T3.
    + cbn [did effects]. rewrite E3, <- app_assoc. reflexivity.
    + rewrite forallb_app. apply andb_true_iff. split; [| reflexivity].
      rewrite forallb_forall in *. intros e He.
      apply (of_ekinds_incl (effect_kinds clearing)); [| apply Fe3, He].
      intros k [<- | []]; cbn; tauto.
  - injection H as <- <-.
    refine (Tail r2 [] T2 E2 r2 [] [] _ _ eq_refl eq_refl);
      now rewrite app_nil_r.
Qed.

Lemma evolves_getInput (ch : change) (r r' : runner) :
  evolves ch r r' ->
  getInput (context (current r')) = getInput (context (current r)).
Proof. intros X. apply X. Qed.

(** The state for the post step is saved at the end of the setup step,
    and only by a step that does not fail.  A run either saves nothing (it
    stopped for want of a release or of a binary, or it failed), or it
    saves the time, the two backends and the version, in this order, and
    records no failure.  The version starts with [v], the backends are the
    ones that the inputs choose, and they are never both [true]. *)
Theorem setup_saves_state (r : runner) :
  let c := context (current r) in
  exists d,
    effects (snd (Setup.run r)) = (effects r ++ d)%list /\
    (filter (of_ekinds [EState]) d = [] \/
     exists version,
       prefix "v" version = true /\
       (getInput c "version" <> "" -> version = Setup.with_v (getInput c "version")) /\
       filter (of_ekinds [EState]) d =
       [SaveState "start-time" (toString (Date_now c));
        SaveState "s3-configured" (if s3_of c then "true" else "false");
        SaveState "gh-cache" (if ghCache_of c then "true" else "false");
        SaveState "kache-version" version] /\
       filter (of_ekinds [EFailed]) d = [] /\
       s3_of c && ghCache_of c = false).
Proof.
  cbv zeta.
  destruct (Setup.setup r) as [res r1] eqn:E.
  destruct (setup_cases r r1 res E)
    as [[version [target [dir [rc [_ [Hp [Hv [_ [Xf Hc]]]]]]]]] | [d0 [E0 F0]]].
  - destruct (configure_state version dir rc r1 res Hc) as [dc [Ec [Sc [Hx _]]]].
    cbv zeta in Sc, Hx.
    destruct (evolves_effects _ _ _ Xf) as [df [Ef Ff]].
    pose proof (evolves_configure version dir rc) as Xc.
    rewrite Hc in Xc. cbn [snd] in Xc.
    destruct (evolves_effects _ _ _ Xc) as [dc' [Ec' Fc']].
    assert (dc' = dc) by (rewrite Ec in Ec'; now apply app_inv_head in Ec').
    subst dc'.
    assert (Sf : filter (of_ekinds [EState]) df = [])
      by exact (filter_other_ekinds (effect_kinds fetching) [EState] df eq_refl Ff).
    unfold s3_of, ghCache_of, s3_of in Sc, Hx.
    rewrite (evolves_getInput _ _ _ Xf), (evolves_Date_now _ _ _ Xf) in Sc.
    rewrite (evolves_getInput _ _ _ Xf) in Hx.
    destruct res as [[] | err].
    + rewrite (setup_run_returned r r1 E). cbn [snd].
      exists (df ++ dc)%list. split; [rewrite Ec, Ef, app_assoc; reflexivity |].
      right. exists version. split; [exact Hp |]. split; [exact Hv |].
      split; [| split].
      * rewrite filter_app, Sf. exact Sc.
      * rewrite filter_app.
        rewrite (filter_other_ekinds (effect_kinds fetching) [EFailed] df eq_refl Ff).
        exact (filter_other_ekinds (effect_kinds configuring) [EFailed] dc eq_refl Fc').
      * exact Hx.
    + rewrite (setup_run_thrown r r1 err E). cbn [snd did effects].
      exists (df ++ dc ++ [SetFailed (message err)])%list.
      split; [rewrite Ec, Ef, <- !app_assoc; reflexivity |].
      left. rewrite !filter_app, Sf, Sc. reflexivity.
  - assert (S0 : filter (of_ekinds [EState]) d0 = [])
      by exact (filter_other_ekinds [ERelease; EDownload; EExtract; ECacheDir]
                  [EState] d0 eq_refl F0).
    destruct res as [[] | err].
    + rewrite (setup_run_returned r r1 E). cbn [snd].
      exists d0. split; [exact E0 |]. now left.
    + rewrite (setup_run_thrown r r1 err E). cbn [snd did effects].
      exists (d0 ++ [SetFailed (message err)])%list.
      split; [rewrite E0, <- app_assoc; reflexivity |].
      left. rewrite filter_app, S0. reflexivity.
Qed.

(** ** A binary from the tool cache *)

Lemma resolve_version_given (token : string) (r : runner) :
  getInput (context (current r)) "version" <> "" ->
  Setup.resolve_version token r
  = (Returned (Some (getInput (context (current r)) "version")), r).
Proof.
  intros Hv. unfold Setup.resolve_version. rewrite job_bind_input.
  unfold truthy_string.
  destruct (String.eqb_spec (getInput (context (current r)) "version") "") as [E | _];
    [contradiction | reflexivity].
Qed.

Lemma install_cached (version target semver dir : string) (r : runner) :
  tc_find (tools r) "kache" semver = Returned dir ->
  dir <> "" ->
  Setup.install version target semver r
  = (Returned (Some dir), noted r [Info ("Found cached kache " ++ semver)]).
Proof.
  intros F Hd. unfold Setup.install. cbv zeta.
  unfold Job.bind at 1. rewrite tc_lookup_run, F.
  unfold truthy_string.
  destruct (String.eqb_spec dir "") as [E | _]; [contradiction | reflexivity].
Qed.

(** An effect that a computation starts with is the one that the
    computations after it start with. *)
Lemma starts_with_bind {A B : Type} (e : effect) (m : Job A) (k : A -> Job B) :
  (forall r, exists d, effects (snd (m r)) = (effects r ++ e :: d)%list) ->
  (forall a, guarantees (evolves running) (k a)) ->
  forall r, exists d, effects (snd (Job.bind m k r)) = (effects r ++ e :: d)%list.
Proof.
  intros Hm Hk r. destruct (Hm r) as [d Ed]. unfold Job.bind.
  destruct (m r) as [[a | err] r1]; cbn [snd] in *.
  - destruct (evolves_effects _ _ _ (Hk a r1)) as [d' [Ed' _]].
    exists (d ++ d')%list. rewrite Ed', Ed, <- app_assoc. reflexivity.
  - now exists d.
Qed.

Lemma configure_starts (version toolDir : string) (r : runner) :
  exists d,
    effects (snd (Setup.configure version toolDir r))
    = (effects r ++ AddPath toolDir :: d)%list.
Proof.
  revert r. unfold Setup.configure. apply starts_with_bind.
  2:{ intros _. repeat (use evolves_restore || use evolves_clearEventLog
                        || use evolves_save_state || evolves_step). }
  unfold Setup.export_settings. cbv zeta. apply starts_with_bind.
  2:{ intros _. repeat ((apply evolves_exportVariable; reflexivity)
                        || use evolves_export_s3_vars || evolves_step). }
  unfold core_addPath. apply starts_with_bind.
  2:{ intros _. evolves_step. }
  intros r. now exists [].
Qed.

(** A binary in the tool cache is used as it is.  With a version asked for
    and a directory of the tool cache for it, a run of the setup step asks
    for no release, downloads nothing, extracts nothing and adds nothing to
    the tool cache; on a platform that kache is built for, the first thing
    it does is to add the cached directory to the path. *)
Theorem cached_binary_is_reused (r : runner) (dir : string) :
  let c := context (current r) in
  let version := Setup.with_v (getInput c "version") in
  getInput c "version" <> "" ->
  tc_find (tools r) "kache" (Setup.semver_of version) = Returned dir ->
  dir <> "" ->
  exists d,
    effects (snd (Setup.run r)) = (effects r ++ d)%list /\
    filter (of_ekinds [ERelease; EDownload; EExtract; ECacheDir]) d = [] /\
    (supported (os_platform c) (os_arch c) = true ->
     exists d', d = AddPath dir :: d').
Proof.
  cbv zeta. intros Hv F Hd.
  destruct (supported (os_platform (context (current r)))
                      (os_arch (context (current r)))) eqn:S.
  - destruct (getTarget_returns (current r) S) as [target Ht].
    set (version := Setup.with_v (getInput (context (current r)) "version")) in *.
    set (rc := noted (noted r [Info ("Using kache " ++ version ++ " for " ++ target)])
                     [Info ("Found cached kache " ++ Setup.semver_of version)]).
    assert (E : Setup.setup r = Setup.configure version dir rc).
    { unfold Setup.setup. rewrite job_bind_input.
      rewrite (job_bind_returned _ _ _ _ _ (in_world_returned _ _ _ Ht)).
      rewrite (job_bind_returned _ _ _ _ _ (resolve_version_given _ r Hv)).
      unfold truthy, truthy_string.
      destruct (String.eqb_spec (getInput (context (current r)) "version") "")
        as [E | _]; [contradiction |].
      cbn [negb show]. cbv zeta. fold version.
      rewrite (job_bind_returned _ _ _ _ _ (info_noted _ r)).
      erewrite job_bind_returned by (apply install_cached; [exact F | exact Hd]).
      reflexivity. }
    destruct (configure_starts version dir rc) as [d1 E1].
    pose proof (evolves_configure version dir rc) as Xc.
    destruct (evolves_effects _ _ _ Xc) as [dc [Ec Fc]].
    assert (dc = AddPath dir :: d1)
      by (rewrite Ec in E1; now apply app_inv_head in E1).
    subst dc. clear E1.
    destruct (Setup.configure version dir rc) as [res r1] eqn:C.
    cbn [snd] in Ec.
    assert (Sc : filter (of_ekinds [ERelease; EDownload; EExtract; ECacheDir])
                        (AddPath dir :: d1) = [])
      by exact (filter_other_ekinds (effect_kinds configuring)
                  [ERelease; EDownload; EExtract; ECacheDir] _ eq_refl Fc).
    destruct res as [[] | err].
    + rewrite (setup_run_returned r r1 E). cbn [snd].
      exists (AddPath dir :: d1). split; [exact Ec |].
      split; [exact Sc | intros _; now exists d1].
    + rewrite (setup_run_thrown r r1 err E). cbn [snd did effects].
      exists (AddPath dir :: d1 ++ [SetFailed (message err)])%list.
      split; [rewrite Ec, <- app_assoc; reflexivity |].
      split; [| intros _; now eexists].
      change (AddPath dir :: d1 ++ [SetFailed (message err)])%list
        with ((AddPath dir :: d1) ++ [SetFailed (message err)])%list.
      rewrite filter_app, Sc. reflexivity.
  - assert (E : Setup.setup r
                = (Thrown (Error ("Unsupported platform: "
                                  ++ os_platform (context (current r)) ++ "-"
                                  ++ os_arch (context (current r)))), r)).
    { unfold Setup.setup. rewrite job_bind_input.
      apply job_bind_thrown. unfold Job.in_world.
      rewrite (getTarget_unsupported (current r) S). now rewrite runner_eta. }
    rewrite (setup_run_thrown r r _ E). cbn [snd did effects].
    eexists. split; [reflexivity |]. split; [reflexivity | discriminate].
Qed.

(** ** The time of the start, from the setup step to the post step *)

Lemma digits_not_empty (n : Z) : digits n <> "".
Proof.
  unfold digits, NilZero.string_of_uint.
  destruct (N.to_uint (Z.to_N n)); discriminate.
Qed.

(** The start time goes through the saved state unharmed.  The setup step
    saves the decimal digits of [Date.now()]; the post step reads them with
    [parseInt] and prints the seconds since then with one decimal.  A state
    that is missing (an empty string) or a start time of 0 is printed as
    [?]. *)
Theorem start_time_round_trip (t now : Z) :
  0 <= t < 2 ^ 53 ->
  parseInt (or_string (Some (toString t)) "0") = Some t /\
  duration_of (toString t) now
  = (if t =? 0 then "?" else toFixed1 (div (ofZ (now - t)) (ofZ 1000))) /\
  duration_of "" now = "?".
Proof.
  intros Ht.
  assert (P : parseInt (or_string (Some (toString t)) "0") = Some t).
  { rewrite or_string_given.
    - now apply parseInt_toString.
    - rewrite toString_digits by exact Ht. apply digits_not_empty. }
  split; [exact P |]. split.
  - unfold duration_of. rewrite P. unfold truthy_number.
    destruct (t =? 0); reflexivity.
  - reflexivity.
Qed.

(** * The further properties on the sample runs *)

Lemma sample_files_read :
  forall f, In f (glob_lockfiles Sample.surroundings) ->
            fs_readFileSync Sample.surroundings f = Returned ("# lock of " ++ f).
Proof. intros f [<- | [<- | []]]; reflexivity. Defined.

Lemma pinned_files_read :
  forall f, In f (glob_lockfiles SampleSetup.pinned) ->
            fs_readFileSync SampleSetup.pinned f = Returned ("# lock of " ++ f).
Proof. intros f [<- | [<- | []]]; reflexivity. Defined.

Lemma sample_kache_runs (c : env) :
  exec_kache c = exec_kache Sample.surroundings ->
  forall args, exists r, exec_kache c args = Returned r.
Proof. intros E args. rewrite E. eexists. reflexivity. Defined.

Lemma buildCacheKey_unreadable_witness :
  let w := SampleSetup.world_of
             (SampleSetup.surroundings_with
                (getInput Sample.surroundings) (getState Sample.surroundings)
                (fs_existsSync Sample.surroundings) SampleSetup.locked_files) in
  buildCacheKey w = (Thrown (Error "EACCES: permission denied"), w) /\
  saveCache w = (Thrown (Error "EACCES: permission denied"), w).
Proof.
  cbv zeta.
  set (w := SampleSetup.world_of _).
  destruct (buildCacheKey_unreadable w ["/w/Cargo.lock"] [] "/w/b/Cargo.lock"
              (Error "EACCES: permission denied")) as [K S].
  - vm_compute. reflexivity.
  - intros g [<- | []]. eexists. reflexivity.
  - reflexivity.
  - split; [exact K |].
    apply (S (cacheDir_of (context w))); reflexivity.
Defined.

Lemma buildCacheKey_lockHash_shape_witness :
  exists lockHash,
    fst (buildCacheKey (Sample.w [])) =
    Returned ("kache-v0.3.1-linux-x64-" ++ lockHash, ["kache-v0.3.1-linux-x64-"]) /\
    String.length lockHash = 16%nat.
Proof.
  destruct (buildCacheKey_lockHash_shape (Sample.w []) (fun f => "# lock of " ++ f))
    as [lockHash [E [L _]]].
  - exact sample_files_read.
  - discriminate.
  - exists lockHash. split; [exact E | exact L].
Defined.

Lemma postOrUpdateComment_frame_witness :
  let w := Sample.w [Sample.plain 1; Sample.sticky 2] in
  let w' := snd (postOrUpdateComment "report" "ghs_token" w) in
  In (Sample.plain 1) (comments w') /\
  (List.length (comments w') <= 3)%nat.
Proof.
  cbv zeta.
  destruct (postOrUpdateComment_frame
              (Sample.w [Sample.plain 1; Sample.sticky 2]) "report" "ghs_token"
              sample_thread_ids) as [_ [K [_ [[_ L] _]]]].
  split.
  - apply K; [now left | reflexivity].
  - exact L.
Defined.

Lemma sample_plain_id : NoDup (map id [Sample.plain 1]).
Proof. constructor; [intros [] | constructor]. Defined.

Lemma postOrUpdateComment_twice_witness :
  let w := Sample.w [Sample.plain 1] in
  exists w1 w2,
    postOrUpdateComment "first" "ghs_token" w = (Returned tt, w1) /\
    postOrUpdateComment "second" "ghs_token" w1 = (Returned tt, w2) /\
    comments w2 =
    [Sample.plain 1; {| id := 2; body := Some (COMMENT_MARKER ++ nl ++ "second") |}].
Proof.
  cbv zeta.
  destruct (postOrUpdateComment_twice (Sample.w [Sample.plain 1])
              "first" "second" "ghs_token")
    as [w1 [w2 [E1 [E2 [C _]]]]].
  - discriminate.
  - reflexivity.
  - intros call. reflexivity.
  - exact sample_plain_id.
  - cbn. lia.
  - reflexivity.
  - exists w1, w2. split; [exact E1 |]. split; [exact E2 |].
    rewrite C. reflexivity.
Defined.

Lemma post_step_s3_first_witness :
  let w := SampleSetup.world_of
             (SampleSetup.surroundings_with
                (getInput Sample.surroundings) SampleSetup.s3_state
                (fs_existsSync Sample.surroundings)
                (fs_readFileSync Sample.surroundings)) in
  exists d,
    trace (snd (run Sample.JSON_parse w)) = d /\
    filter (of_kinds [KExec; KCacheSave]) d
    = [Exec ["save-manifest"]; Exec ["sync"; "--push"]].
Proof.
  cbv zeta.
  set (w := SampleSetup.world_of _).
  destruct (post_step_s3_first Sample.JSON_parse w) as [d [E F]].
  - reflexivity.
  - apply sample_kache_runs. reflexivity.
  - exists d. split; [rewrite E; reflexivity | exact F].
Defined.

Lemma summary_always_written_witness :
  exists w2,
    run Sample.JSON_parse (Sample.w []) =
    (Returned tt,
     logged w2 [SummaryWrite
                  (summary_text (Some (stats_of [Obj Sample.foo_miss]))
                                "GitHub Actions cache" "60.0")]).
Proof.
  destruct (summary_always_written Sample.JSON_parse (Sample.w [])
              (fun f => "# lock of " ++ f) (Some (stats_of [Obj Sample.foo_miss])))
    as [w2 [E _]].
  - apply sample_kache_runs. reflexivity.
  - exact sample_files_read.
  - vm_compute. reflexivity.
  - reflexivity.
  - exists w2. rewrite E. vm_compute. reflexivity.
Defined.

Lemma no_crates_no_comment_witness :
  let w := SampleSetup.world_of
             (SampleSetup.surroundings_with
                (getInput Sample.surroundings) (getState Sample.surroundings)
                (fun _ => false) (fs_readFileSync Sample.surroundings)) in
  comments (snd (run Sample.JSON_parse w)) = [].
Proof.
  cbv zeta.
  set (w := SampleSetup.world_of _).
  destruct (no_crates_no_comment Sample.JSON_parse w None) as [C _].
  - reflexivity.
  - exact I.
  - rewrite C. reflexivity.
Defined.

Lemma null_line_aborts_report_witness :
  let w := SampleSetup.world_of
             (SampleSetup.surroundings_with
                (getInput Sample.surroundings) (getState Sample.surroundings)
                (fs_existsSync Sample.surroundings) SampleSetup.null_log) in
  parseEvents SampleSetup.JSON_parse w = (Thrown TypeError_null, w) /\
  fst (run SampleSetup.JSON_parse w) = Returned tt /\
  comments (snd (run SampleSetup.JSON_parse w)) = [].
Proof.
  cbv zeta.
  set (w := SampleSetup.world_of _).
  destruct (null_line_aborts_report SampleSetup.JSON_parse w Sample.log_path "null")
    as [P [R [C _]]].
  - reflexivity.
  - reflexivity.
  - reflexivity.
  - left. reflexivity.
  - split; [exact P |]. split; [exact R |]. rewrite C. reflexivity.
Defined.

Lemma formatMs_rendering_witness :
  formatMs 850 = "850ms" /\
  exists N, formatMs 4200 = digits (N / 10) ++ "." ++ digits (N mod 10) ++ "s"
            /\ -50 <= 100 * N - 4200 <= 50.
Proof.
  split.
  - destruct (formatMs_rendering 850) as [H _]; [lia |].
    rewrite H by lia. reflexivity.
  - destruct (formatMs_rendering 4200) as [_ H]; [lia |].
    apply H. lia.
Defined.

Lemma formatBytes_rendering_witness :
  exists i unit N,
    0 <= i <= 3 /\
    nth_error formatBytes_units (Z.to_nat i) = Some unit /\
    1024 ^ i <= 1572864 < 1024 ^ (i + 1) /\
    formatBytes 1572864 = digits (N / 10) ++ "." ++ digits (N mod 10) ++ " " ++ unit.
Proof.
  destruct (formatBytes_rendering 1572864) as [i [unit [N [Hi [Hu [Hb [E _]]]]]]];
    [lia |].
  exists i, unit, N. repeat split; try assumption; apply Hi || apply Hb.
Defined.

Lemma downloadAndVerify_accepts_witness :
  let r := SampleSetup.job SampleSetup.pinned false in
  fst (downloadAndVerify "v0.3.1" "x86_64-unknown-linux-musl" r)
  = Returned SampleSetup.tar_path.
Proof.
  cbv zeta.
  destruct (downloadAndVerify_accepts "v0.3.1" "x86_64-unknown-linux-musl"
              (SampleSetup.job SampleSetup.pinned false)
              SampleSetup.tar_path SampleSetup.sha_path
              SampleSetup.archive SampleSetup.checksum_rest) as [_ E].
  - reflexivity.
  - reflexivity.
  - reflexivity.
  - reflexivity.
  - reflexivity.
  - rewrite E. reflexivity.
Defined.

Lemma restoreCache_tolerant_witness :
  let r := SampleSetup.job SampleSetup.pinned true in
  exists key,
    fst (buildCacheKey (current r)) = Returned (key, ["kache-v0.3.1-linux-x64-"]) /\
    fst (restoreCache r) = Returned (Some key).
Proof.
  cbv zeta.
  destruct (restoreCache_tolerant (SampleSetup.job SampleSetup.pinned true)
              (fun f => "# lock of " ++ f) pinned_files_read)
    as [cacheDir [key [restoreKeys [_ [K [R _]]]]]].
  exists key. split.
  - rewrite K. cbn [fst].
    assert (E : snd (key, restoreKeys) = ["kache-v0.3.1-linux-x64-"]).
    { change (key, restoreKeys)
        with (match (Returned (key, restoreKeys), current (SampleSetup.job SampleSetup.pinned true))
              with (Returned p, _) => p | _ => (key, restoreKeys) end).
      rewrite <- K. vm_compute. reflexivity. }
    cbn [snd] in E. now rewrite E.
  - rewrite R. reflexivity.
Defined.

Lemma setup_bootstraps_witness :
  let r := SampleSetup.job Sample.surroundings false in
  Setup.run r =
  (Returned tt,
   did (noted r [Info "No version specified, fetching latest release...";
                 Warning ("No kache release found " ++ em_dash
                          ++ " skipping cache setup (bootstrapping mode)")])
       [LatestRelease "kunobi-ninja" "kache"]).
Proof.
  cbv zeta.
  destruct (setup_bootstraps (SampleSetup.job Sample.surroundings false)
              eq_refl eq_refl eq_refl) as [H _].
  apply H. reflexivity.
Defined.

Lemma setup_needs_verified_binary_witness :
  let r := SampleSetup.job SampleSetup.pinned false in
  exists version target,
    fst (getTarget (current r)) = Returned target /\
    prefix "v" version = true /\
    binary_at_hand r version target.
Proof.
  cbv zeta.
  destruct (setup_needs_verified_binary
              (SampleSetup.job SampleSetup.pinned false)
              (effects (snd (Setup.run (SampleSetup.job SampleSetup.pinned false)))))
    as [version [target [T [P [_ B]]]]].
  - change (effects (SampleSetup.job SampleSetup.pinned false)) with (@nil effect).
    cbn [app]. reflexivity.
  - vm_compute. reflexivity.
  - now exists version, target.
Defined.

Lemma restore_key_has_version_witness :
  let r := SampleSetup.job SampleSetup.pinned true in
  exists r' d,
    Setup.configure "v9.9.9" SampleSetup.tool_dir r = (Returned tt, r') /\
    effects r' = d /\
    filter (of_ekinds [ERestore]) d =
    [CacheRestore ["/home/runner/.cache/kache"]
       ("kache-v9.9.9-linux-x64-1fdc46dfc887b3d5") ["kache-v9.9.9-linux-x64-"]].
Proof.
  cbv zeta.
  destruct (restore_key_has_version "v9.9.9" SampleSetup.tool_dir
              (SampleSetup.job SampleSetup.pinned true) (fun f => "# lock of " ++ f))
    as [r' [d [E [Ed F]]]].
  - reflexivity.
  - reflexivity.
  - discriminate.
  - exact pinned_files_read.
  - exists r', d. split; [exact E |]. split; [exact Ed |].
    rewrite F. vm_compute. reflexivity.
Defined.

Lemma configure_restores_witness :
  let r := SampleSetup.job SampleSetup.pinned true in
  let r' := snd (Setup.configure "v0.3.1" SampleSetup.tool_dir r) in
  exists dt de,
    trace (current r') = dt /\ effects r' = de /\
    filter (of_kinds [KExec]) dt = [].
Proof.
  cbv zeta.
  destruct (configure_restores "v0.3.1" SampleSetup.tool_dir
              (SampleSetup.job SampleSetup.pinned true)
              (snd (Setup.configure "v0.3.1" SampleSetup.tool_dir
                      (SampleSetup.job SampleSetup.pinned true)))
              (fst (Setup.configure "v0.3.1" SampleSetup.tool_dir
                      (SampleSetup.job SampleSetup.pinned true))))
    as [dt [de [T [E [X _]]]]].
  - apply surjective_pairing.
  - exists dt, de. split; [exact T |]. split; [exact E | exact X].
Defined.

Lemma cached_binary_is_reused_witness :
  let r := SampleSetup.job SampleSetup.pinned true in
  exists d,
    effects (snd (Setup.run r)) = AddPath SampleSetup.tool_dir :: d /\
    filter (of_ekinds [ERelease; EDownload; EExtract; ECacheDir])
           (AddPath SampleSetup.tool_dir :: d) = [].
Proof.
  cbv zeta.
  destruct (cached_binary_is_reused (SampleSetup.job SampleSetup.pinned true)
              SampleSetup.tool_dir)
    as [d [E [F S]]].
  - discriminate.
  - reflexivity.
  - discriminate.
  - destruct (S eq_refl) as [d' ->].
    exists d'. split; [exact E | exact F].
Defined.

Lemma start_time_round_trip_witness :
  parseInt (or_string (Some (toString 1000)) "0") = Some 1000 /\
  duration_of (toString 1000) 61000 = "60.0".
Proof.
  destruct (start_time_round_trip 1000 61000) as [P [D _]]; [lia |].
  split; [exact P |]. rewrite D. vm_compute. reflexivity.
Defined.

Lemma run_never_fails_witness :
  let denied := Sample.with_faults (Some Sample.denied) None in
  let limited := Sample.with_faults (Some (Error "API rate limit exceeded")) None in
  let unwritable := Sample.with_faults None (Some (Error "EACCES: permission denied")) in
  (exists w2 summary,
     run Sample.JSON_parse denied =
     (Returned tt, logged w2 [skip_comment_notice; SummaryWrite summary])) /\
  (exists w2 summary,
     run Sample.JSON_parse limited =
     (Returned tt,
      logged w2 [Warning "Failed to post PR comment: API rate limit exceeded";
                 SummaryWrite summary])) /\
  (exists w1,
     run Sample.JSON_parse unwritable =
     (Returned tt,
      logged w1 [Warning "kache post step failed: EACCES: permission denied"])).
Proof.
  cbv zeta. split; [| split].
  - destruct (run_never_fails Sample.JSON_parse
                (Sample.with_faults (Some Sample.denied) None)) as [_ [_ H]].
    edestruct (H (stats_of [Obj Sample.foo_miss])) as [Hinfo _].
    + vm_compute. reflexivity.
    + vm_compute. reflexivity.
    + reflexivity.
    + vm_compute. reflexivity.
    + eexists. eexists. apply (Hinfo _ eq_refl). vm_compute. reflexivity.
  - destruct (run_never_fails Sample.JSON_parse
                (Sample.with_faults (Some (Error "API rate limit exceeded")) None))
      as [_ [_ H]].
    edestruct (H (stats_of [Obj Sample.foo_miss])) as [_ [Hwarn _]].
    + vm_compute. reflexivity.
    + vm_compute. reflexivity.
    + reflexivity.
    + vm_compute. reflexivity.
    + eexists. eexists. apply (Hwarn _ eq_refl). vm_compute. reflexivity.
  - destruct (run_never_fails Sample.JSON_parse
                (Sample.with_faults None (Some (Error "EACCES: permission denied"))))
      as [_ [H _]].
    exists (snd (post_step Sample.JSON_parse
                   (Sample.with_faults None (Some (Error "EACCES: permission denied"))))).
    apply (H (Error "EACCES: permission denied")). vm_compute. reflexivity.
Defined.

Lemma parseEvents_stats_witness :
  parseEvents Sample.JSON_parse (Sample.w [])
  = (Returned (Some (stats_of [Obj Sample.foo_miss])), Sample.w []).
Proof.
  destruct (parseEvents_stats Sample.JSON_parse (Sample.w []) Sample.log_path
              (Sample.valid_line ++ nl ++ "" ++ nl ++ Sample.garbled_line)
              eq_refl eq_refl eq_refl)
    as [_ [_ H]].
  destruct (H Sample.valid_line Sample.garbled_line Sample.foo_miss
              eq_refl eq_refl eq_refl eq_refl eq_refl eq_refl eq_refl) as [_ E].
  exact E.
Defined.
